(* ===== verification/_CoqProject ===== *)
-Q . S2P
Prelude.v
GoLib.v
FilePath.v
K8s.v
VolumeUtil.v
Common.v
Cache.v
Metrics.v
ProcTable.v
Runtime.v
Populator.v
WorkQueue.v
JobController.v
Deleter.v
Discovery.v
Gauges.v
NodeTaint.v
Controller.v
Timeline.v
Lag.v
CleanJobs.v
NodeCleanup.v
Workers.v
Watcher.v
Restart.v
ChartValues.v
Kubetest.v
UpdatePV.v
Platforms.v
CleanupRun.v
Provisioner.v
