(* ===== verification/Prelude.v ===== *)
(** * The local static provisioner: a verification library

    The repository holds two programs and two tools.  The _provisioner_ runs on every node: it
    offers the disks of the node as local persistent volumes and, when a volume is
    released, cleans it and deletes its object so that it is offered again.  The
    _node cleanup controller_ runs once per cluster: it removes claims and volumes
    that refer to nodes which no longer exist.  The tools convert what older releases
    left behind: volumes with an alpha annotation, and values files of the chart.

    ** Parts and how they interact

    A configuration map is read ([Common]) and gives, per storage class, a host
    directory, the directory where it is mounted into the container, a cleaning
    command and a volume mode.  The sync loop ([Controller], from
    pkg/controller/controller.go) repeats: a pass of the deleter, a pass of the
    discoverer, the taint remover.  Concurrently, informer handlers keep the volume
    cache up to date ([Populator], [Cache]), cleanup goroutines clean released
    volumes and record their end in the process table ([ProcTable]), or Kubernetes
    jobs do ([JobController]), and a watcher reloads the configuration
    ([Watcher]).  The deleter starts cleanups and deletes objects whose cleanup
    succeeded ([Deleter]); the discoverer creates objects for new disks unless
    they are cached or being cleaned ([Discovery]).  [Provisioner] is the main
    function that starts all of them, [Restart] the protocol by which a changed
    configuration is to replace the sync loop.  In the node cleanup process a controller
    deletes claims and a deleter volumes ([NodeCleanup]); [CleanupRun] starts both and
    runs them beside the informers that fill their stores.  Both controllers take items
    from a work queue ([WorkQueue]) with goroutines of their own ([Workers]).

    ** Files

    - [Prelude]: errors, results, the effect monad [M] (state, return value or
      crash), Hoare-style predicates on it ([triple], [preserves], [returns],
      [yields]), tactics, shared lemmas.
    - [GoLib], [FilePath]: what the source uses of Go's strings, fmt, hash/fnv and
      path/filepath ([Clean], [Join], [Rel], [Split], [Match]).
    - [K8s]: the API objects with the fields the programs use, listers, the API
      server as the class [KubeClient] with its documented behaviour
      ([KubeClientLaws], [KubeClaimLaws], [KubeJobLaws]) and the in-memory server [MemServer].
    - [WorkQueue]: client-go's rate-limited queue as a class with laws, and the queue
      itself ([Queue]: items, dirty and processing sets, delayed items, shutdown).
    - [VolumeUtil]: pkg/util/volume_util.go, volume_util_linux.go and
      fake_volume_util.go; the class [VolumeUtil] is the Go interface, [Linux] and
      [Fake] implement it.
    - [Platforms]: volume_util_windows.go over the two versions of the CSI proxy,
      volume_util_unsupported.go, and the documented behaviour of the Linux calls
      ([LinuxOSLaws]).
    - [Common]: pkg/common/common.go.   [Cache]: pkg/cache/cache.go.
    - [Metrics]: pkg/metrics/metrics.go.
    - [ProcTable]: pkg/deleter/proctable.go; class [ProcTable] is the interface,
      [ProcTableLaws] its abstract specification, [ProcTableImpl] and
      [FakeProcTable] the implementations.
    - [Runtime]: [common.RuntimeConfig] and the state its pointers lead to, the
      record [World]; pkg/util/api_util.go.
    - [Populator]: pkg/populator/populator.go.
    - [JobController], [Deleter]: pkg/deleter/jobcontroller.go and deleter.go.
    - [Discovery]: pkg/discovery/discovery.go; [Gauges]: what its capacity gauge shows.
    - [NodeTaint]: pkg/node-taint/node_taint.go and pkg/util/node_util.go.
    - [Controller]: pkg/controller/controller.go, and the concurrent system as
      the step relation [sys_step]; [Restart]: its goroutines and channels.
    - [Timeline]: an object, the copy an informer has of it and the events between the
      two; [Lag]: [sys_step] with the cache related to the server in this way
      ([lag_step]); [CleanJobs]: cleaning by jobs with the informer of jobs behind the
      server ([job_step]).
    - [Watcher]: pkg/watcher/config.go, on a heap: maps and slices of configurations are
      references, which copies of a configuration share ([Heap], [ConfigVal], [deref]).
    - [Provisioner]: cmd/local-volume-provisioner/main.go and
      pkg/metrics/collectors/proc_table_collector.go.
    - [NodeCleanup]: pkg/node-cleanup; [CleanupRun]: cmd/node-cleanup/main.go and the
      process it starts, as the step relation [cleanup_step].
    - [Workers]: [CleanupController.Run] with its worker goroutines ([run_step]) and
      [jobController.Run] ([job_run_step]); class [Shared] is what the workers ask of
      the state they share, with an instance per controller.
    - [UpdatePV]: cmd/utils/update-pv-to-beta.
    - [ChartValues]: cmd/utils/update-helm-values-pre-v2.2.0.
    - [Kubetest]: hack/e2e.go.

    Definitions carry the names of the Go functions; the body of a loop or the end
    of a long function that is a definition of its own has a name in lower case
    with underscores and a comment that says which part it is.

    ** What the theorems show

    - Cleaning is exclusive and precedes deletion: the process table admits one
      cleanup of a volume at a time ([proc_table_exclusive]), a pass of the deleter
      starts goroutines only for volumes that are idle and deletes objects only
      after a successful cleanup ([pass_starts_exclusive_cleanups],
      [deletes_only_cleaned], [deletePV_lifecycle]), and under every interleaving,
      from the start of the process on, goroutines and running entries correspond one
      to one, and cleanups are those of copies of released volumes with policy Delete of
      a configured class, at the path computed for them ([provisioner_safe_from_start]);
      that a change of the configuration ends the loop and then the process is
      [config_update_ends_process].  The whole life of a released
      directory volume is [released_volume_is_reclaimed]; what a cleanup leaves is
      [linux_cleanup_empties_directory] and [windows_cleanup_formats_volume].
    - Decisions on stale data are safe: however far the informers are behind, a volume
      that is in use is not cleaned and its object not deleted
      ([volume_in_use_is_not_cleaned]), and a cleaning job that has not succeeded is not
      removed, nor the object of its volume deleted ([unfinished_jobs_are_kept]).  Both
      assume that an object which has reached its last state (a released volume, a
      succeeded job) stays in it, that others delete it only once the provisioner has
      seen this state, and that nobody else creates objects under the names concerned;
      without the second assumption there is a race ([unseen_release_race]).
      A new object can be made while the job runs ([recreated_while_job_runs]), and a
      finished job that is still there counts for the next volume of the name
      ([marked_job_counts_as_cleanup]).
    - Discovery is safe and complete: [discovery_creates_only_new],
      [no_creation_during_cleanup], [new_volume_is_provisioned],
      [discovered_volume_is_cached], [ready_means_healthy], and the facts on
      names, capacities and affinities.
    - The cache refines the informer's store ([populator_tracks_informer],
      [populator_cache_exact]); the configuration is accepted exactly when it is
      valid ([config_accepted_iff]); paths are mapped back and forth
      ([container_path_of_discovered]).
    - Jobs: what they work on ([cleanup_job_targets_volume]), their queries, that a
      submitted job is found again ([submitted_job_is_found]), what passes do to them and the bound on retries.
    - Node cleanup deletes only orphaned claims and stale volumes, and with synced
      stores spares what lives on nodes that stay ([synced_parts_spare_live_volumes]).
      Its workers never handle a volume at the same time ([one_worker_per_volume]) and
      stop after a shutdown ([workers_stop]).
    - The tools: an updated volume is the one the beta API would have made
      ([updated_volume_is_beta]), a run updates exactly the volumes that need it
      ([switching_updates_volumes]), a values file gets the new layout and nothing
      else changes ([upgrade_moves_settings]), and the test
      driver runs a recent kubetest on the right arguments
      ([driver_runs_recent_kubetest]).
    - What the code does not do as it means to: [sync_loop_never_removes_taint],
      [restart_panics], [unsupported_volume_crashes],
      [guard_accepts_sibling_directory], [affinity_without_hostname_is_stale],
      [unsynced_deleter_removes_live_volume], [job_controller_never_stops],
      [capacity_gauge_forgets], [in_place_upgrade_loses_values],
      [list_error_is_success], and the last part of [pv_name_collisions].  Which changes
      of the configuration the watcher reports is [watcher_notices_shape]; that removed
      classes are not reported, [class_removal_is_not_noticed].

    ** Bounds and modelling decisions

    Recursion is structural: loops over lists and maps run over a list (for maps,
    an argument that is any permutation of the entries), retry loops over the
    number of attempts left.  The only fuel is in the pattern matcher of
    [FilePath] (the length of the pattern and of the name, which each step
    consumes).  Totals of capacities wrap at 64 bits, names are hashed at 32 bits,
    [CapacityBreakDown] uses IEEE-754 doubles.  Operations on the cache and the
    process table hold a lock for their whole body and are atomic; in [sys_step]
    the sync loop advances by one volume or one class per step and the effect of a
    goroutine is one step.  A handler of a queue item is one step of [run_step]; getting
    the item is another.  The bound of [workers_stop] is [pool_measure], the weight of
    where the workers are plus three per item.  A fatal log or a panic is the outcome [Crash].
    Logging, sleeping and durations are left out; histograms count observations.
    Third-party code is an argument: the API server, the operating system,
    commands, the YAML and JSON codecs, time formats.  Of the API server the laws say:
    a new volume gets a UID and a phase; a deleted volume or claim is gone or marked for
    deletion, and the collections of the laws are of those that are not marked (in [Lag] a
    deletion is one event); a deleted job is gone or stays, marked.  The laws on updates
    and lists are for a server without marked volumes.  In [Restart] the stop channels of
    informers and job controller are open or closed; that the job controller does not stop
    when its channel is closed is in [Workers].

    ** Not modelled

    The end-to-end test suite (test/e2e), which is set-up of a test framework; flag
    parsing of the programs (that of hack/e2e.go is modelled) and the event
    broadcasters; in [CleanupRun] the end of the process (the shutdown of its workers is
    in [Workers]).  In [sys_step] the cache may be ahead of or behind the API server in
    any way; theorems that relate the two are about [lag_step].  [job_step] leaves the
    order of passes open and says nothing of volumes. *)
From stdpp Require Export prelude gmap strings list fin_maps pretty sorting.
From Stdlib Require Export ZArith Lia.

(** ** Errors

    A Go [error] value.  [APIError] is a status error that came from the API
    server or from an informer's store (its reason is what the predicates of
    [k8s.io/apimachinery/pkg/api/errors] look at); [Errorf] is an error the
    program formats itself: the format string, its string arguments and the
    errors it prints with [%v] or [%s] (which does not wrap them). *)
Inductive StatusReason :=
| ReasonNotFound
| ReasonAlreadyExists
| ReasonTooManyRequests
| ReasonConflict
| ReasonOther.

Inductive error :=
| APIError (reason : StatusReason) (msg : string)
| Errorf (fmt : string) (args : list string) (causes : list error).

#[export] Instance StatusReason_eq_dec : EqDecision StatusReason.
Proof. solve_decision. Defined.

(** [errors.IsNotFound] and [errors.IsTooManyRequests] of apimachinery. *)
Definition IsNotFound (e : error) : bool :=
  match e with APIError ReasonNotFound _ => true | _ => false end.

Definition IsTooManyRequests (e : error) : bool :=
  match e with APIError ReasonTooManyRequests _ => true | _ => false end.

(** The idiom [(T, error)] where the value is only meaningful without error. *)
Inductive result (A : Type) :=
| Ok (a : A)
| Err (e : error).
Arguments Ok {A} a.
Arguments Err {A} e.

Definition is_ok {A} (r : result A) : bool :=
  match r with Ok _ => true | Err _ => false end.

(** [err == nil]. *)
Definition no_error (e : option error) : bool :=
  match e with None => true | Some _ => false end.

(** ** Effects

    A Go function that reads and writes the process state, and that may stop
    the process: by a run-time panic (a nil dereference, an index out of
    range, a write to a nil map) or by [klog.Fatalf]. *)
Inductive crash :=
| NilDereference
| IndexOutOfRange
| Panicked (msg : string)
| Fatal (msg : string).

#[export] Instance crash_eq_dec : EqDecision crash.
Proof. solve_decision. Defined.

Inductive outcome (S A : Type) :=
| Done (a : A) (s : S)
| Crash (c : crash) (s : S).
Arguments Done {S A} a s.
Arguments Crash {S A} c s.

Definition M (S A : Type) : Type := S → outcome S A.

#[export] Instance M_ret S : MRet (M S) := λ A a s, Done a s.
#[export] Instance M_bind S : MBind (M S) := λ A B k m s,
  match m s with
  | Done a s' => k a s'
  | Crash c s' => Crash c s'
  end.
#[export] Instance M_fmap S : FMap (M S) := λ A B f m s,
  match m s with
  | Done a s' => Done (f a) s'
  | Crash c s' => Crash c s'
  end.

Definition panic {S A} (c : crash) : M S A := λ s, Crash c s.
Definition gets {S A} (f : S → A) : M S A := λ s, Done (f s) s.
Definition modify {S} (f : S → S) : M S () := λ s, Done () (f s).

(** A [for _, x := range l] loop that threads an accumulator. *)
Fixpoint forM {S A B} (l : list A) (acc : B) (body : B → A → M S B) : M S B :=
  match l with
  | [] => mret acc
  | x :: l' => acc' ← body acc x; forM l' acc' body
  end.

(** The final state of a run, whether it returned or crashed. *)
Definition final {S A} (o : outcome S A) : S :=
  match o with Done _ s => s | Crash _ s => s end.

Definition crashed {S A} (o : outcome S A) : bool :=
  match o with Done _ _ => false | Crash _ _ => true end.

(** ** Hoare triples for the effect monad

    [triple P m Q]: from a state in [P], [m] returns (it does not crash) with a
    value and a state in [Q]. *)
Definition triple {S A} (P : S → Prop) (m : M S A) (Q : A → S → Prop) : Prop :=
  ∀ s, P s → match m s with Done a s' => Q a s' | Crash _ _ => False end.

(** [preserves R m]: whatever [m] does, its initial and final states are related
    by [R] (used with reflexive and transitive [R]). *)
Definition preserves {S A} (R : relation S) (m : M S A) : Prop :=
  ∀ s, R s (final (m s)).

(** [returns R m]: [m] always returns, in a state related by [R] to the initial one. *)
Definition returns {S A} (R : relation S) (m : M S A) : Prop :=
  ∀ s, ∃ a s', m s = Done a s' ∧ R s s'.

(** [yields m Q]: the value [m] returns, if it does, satisfies [Q]. *)
Definition yields {S A} (m : M S A) (Q : A → Prop) : Prop :=
  ∀ s, match m s with Done a _ => Q a | Crash _ _ => True end.

(** ** Hint database and tactics *)
Create HintDb golang.

(** Reduces a monadic run: unfolds the combinators in goal and hypotheses. *)
Ltac unfold_monad :=
  unfold mbind, mret, fmap, M_bind, M_ret, M_fmap, gets, modify, panic in *.

Ltac case_match_in H :=
  match type of H with
  | context [match ?x with _ => _ end] => destruct x eqn:?
  end.

(** Splits every match of the hypothesis and discards the impossible cases. *)
Ltac cases_in H := repeat (case_match_in H; simplify_eq/=; try done).

(** ** Lemmas on the monad *)
Section monad.
Context {S : Type}.

Lemma bind_Done {A B} (m : M S A) (k : A → M S B) s b s' :
  (m ≫= k) s = Done b s' ↔ ∃ a s1, m s = Done a s1 ∧ k a s1 = Done b s'.
Proof. unfold_monad. destruct (m s) eqn:E; naive_solver. Qed.

Lemma triple_ret {A} (P : S → Prop) (a : A) (Q : A → S → Prop) :
  (∀ s, P s → Q a s) → triple P (mret a) Q.
Proof. intros H s Hs. by apply H. Qed.

Lemma triple_bind {A B} P (m : M S A) (k : A → M S B) R Q :
  triple P m R → (∀ a, triple (R a) (k a) Q) → triple P (m ≫= k) Q.
Proof.
  intros Hm Hk s Hs. specialize (Hm s Hs). unfold_monad.
  destruct (m s) as [a s'|]; [|done]. apply (Hk a s' Hm).
Qed.

Lemma triple_weaken {A} (P P' : S → Prop) (m : M S A) (Q Q' : A → S → Prop) :
  triple P m Q → (∀ s, P' s → P s) → (∀ a s, Q a s → Q' a s) → triple P' m Q'.
Proof.
  intros Hm HP HQ s Hs. specialize (Hm s (HP s Hs)).
  destruct (m s); naive_solver.
Qed.

(** A loop keeps an invariant indexed by the part of the list already seen. *)
Lemma triple_forM {A B} (I : list A → B → S → Prop) (l : list A) body :
  ∀ (done_ : list A) (b : B),
  (∀ pre x b, triple (I pre b) (body b x) (I (pre ++ [x]))) →
  triple (I done_ b) (forM l b body) (I (done_ ++ l)).
Proof.
  induction l as [|x l IH]; intros d b Hbody; simpl.
  - apply triple_ret. intros s Hs. by rewrite app_nil_r.
  - eapply triple_bind; [apply Hbody|]. intros b'.
    specialize (IH (d ++ [x]) b' Hbody). by rewrite <-app_assoc in IH.
Qed.

(** A loop whose body crashes on some element, whatever the state, crashes. *)
Lemma crashed_forM {A B} (l : list A) (b : B) body x s :
  x ∈ l → (∀ b s, crashed (body b x s : outcome S B) = true) →
  crashed (forM l b body s) = true.
Proof.
  intros Hin Hx. revert b s. induction Hin as [x l|x y l _ IH]; intros b s; simpl.
  - specialize (Hx b s). unfold_monad. by destruct (body b x s).
  - unfold_monad. destruct (body b y s); [|done]. by apply IH.
Qed.

Lemma yields_ret {A} (a : A) (Q : A → Prop) : Q a → yields (mret a : M S A) Q.
Proof. by intros H s. Qed.

Lemma yields_bind {A B} (m : M S A) (k : A → M S B) Q :
  (∀ a, yields (k a) Q) → yields (m ≫= k) Q.
Proof. intros Hk s. unfold_monad. destruct (m s) as [a s'|]; [apply (Hk a s')|done]. Qed.

Context (R : relation S) `{!PreOrder R}.

Lemma returns_ret {A} (a : A) : returns R (mret a : M S A).
Proof. intros s. by exists a, s. Qed.

Lemma returns_gets {A} (f : S → A) : returns R (gets f).
Proof. intros s. by eexists _, s. Qed.

Lemma returns_modify (f : S → S) : (∀ s, R s (f s)) → returns R (modify f).
Proof. intros H s. by eexists _, (f s). Qed.

Lemma returns_bind {A B} (m : M S A) (k : A → M S B) :
  returns R m → (∀ a, returns R (k a)) → returns R (m ≫= k).
Proof.
  intros Hm Hk s. destruct (Hm s) as (a&s1&E1&H1). destruct (Hk a s1) as (b&s2&E2&H2).
  exists b, s2. split; [|by etrans]. unfold_monad. by rewrite E1.
Qed.

Lemma returns_forM {A B} (l : list A) (b : B) body :
  (∀ b x, x ∈ l → returns R (body b x)) → returns R (forM l b body).
Proof.
  revert b. induction l as [|x l IH]; intros b H; simpl; [apply returns_ret|].
  apply returns_bind; [apply H; left|]. intros b'. apply IH. intros ???. apply H. by right.
Qed.

Lemma preserves_ret {A} (a : A) : preserves R (mret a : M S A).
Proof. intros s. by simpl. Qed.

Lemma preserves_panic {A} c : preserves R (panic c : M S A).
Proof. intros s. by simpl. Qed.

Lemma preserves_gets {A} (f : S → A) : preserves R (gets f).
Proof. intros s. by simpl. Qed.

Lemma preserves_modify (f : S → S) : (∀ s, R s (f s)) → preserves R (modify f).
Proof. intros H s. apply H. Qed.

Lemma preserves_bind {A B} (m : M S A) (k : A → M S B) :
  preserves R m → (∀ a, preserves R (k a)) → preserves R (m ≫= k).
Proof.
  intros Hm Hk s. specialize (Hm s). unfold_monad.
  destruct (m s) as [a s'|c s']; simpl in *; [|done].
  by etrans; [apply Hm|apply Hk].
Qed.

Lemma preserves_forM {A B} (l : list A) (b : B) body :
  (∀ b x, x ∈ l → preserves R (body b x)) → preserves R (forM l b body).
Proof.
  revert b. induction l as [|x l IH]; intros b H; simpl.
  - apply preserves_ret.
  - apply preserves_bind; [apply H; left|].
    intros b'. apply IH. intros ???. apply H. by right.
Qed.
End monad.

#[export] Hint Resolve preserves_ret preserves_panic preserves_gets
  preserves_modify preserves_bind preserves_forM : golang.

(** Decomposes a [preserves] goal along binds, conditionals and matches. *)
Ltac solve_preserves :=
  repeat (intros; match goal with
  | |- preserves _ (mbind _ _) => apply preserves_bind; [apply _| |]
  | |- preserves _ (mret _) => apply preserves_ret; apply _
  | |- preserves _ (panic _) => apply preserves_panic; apply _
  | |- preserves _ (gets _) => apply preserves_gets; apply _
  | |- preserves _ (if ?b then _ else _) => destruct b
  | |- preserves _ (match ?x with _ => _ end) => destruct x
  | |- preserves _ (let _ := _ in _) => cbv zeta
  end).

(** Decomposes a [yields] goal the same way. *)
Ltac solve_yields :=
  repeat (intros; match goal with
  | |- yields (mbind _ _) _ => apply yields_bind
  | |- yields (mret _) _ => apply yields_ret
  | |- yields (panic _) _ => by intros ?
  | |- yields (if ?b then _ else _) _ => destruct b
  | |- yields (match ?x with _ => _ end) _ => destruct x
  end).

(** ** Lists *)
Lemma fold_left_app_acc {A B} (f : A → list B) (l : list A) (acc : list B) :
  fold_left (λ acc x, acc ++ f x) l acc = acc ++ (l ≫= f).
Proof.
  revert acc. induction l as [|x l IH]; intros acc; simpl.
  - by rewrite app_nil_r.
  - by rewrite IH, app_assoc.
Qed.

(** ** Reachability *)

(** Rule induction: an invariant of the steps holds in every reachable state. *)
Lemma rtc_invariant {A} (R : relation A) (I : A → Prop) (x y : A) :
  I x → (∀ a b, I a → R a b → I b) → rtc R x y → I y.
Proof. intros Hx Hstep Hr. induction Hr; eauto. Qed.
