(* ===== verification/GoLib.v ===== *)
(** * GoLib: what the sources use of Go's standard library

    Strings ([strings.Split], [strings.Join], [strings.HasPrefix],
    [strings.Contains] and [strings.Replace] of one byte), the FNV-1a hash of
    [hash/fnv], the verbs [%x] and [%d] of [fmt] on integers, [int64] arithmetic,
    and nil-able maps.  A Go string is a [string] of bytes. *)
From S2P Require Import Prelude.
From Stdlib Require Import Ascii.


(** ** Strings *)

(** [strings.Split s sep] for a separator of one byte: never empty. *)
Fixpoint split_on (sep : ascii) (s : string) : list string :=
  match s with
  | EmptyString => [""]
  | String c s' =>
      if Ascii.eqb c sep then "" :: split_on sep s'
      else match split_on sep s' with
           | [] => [String c ""]
           | w :: ws => String c w :: ws
           end
  end.

(** [strings.Join elems sep]. *)
Definition join_with (sep : string) (l : list string) : string := String.concat sep l.

(** [strings.HasPrefix s pre]. *)
Fixpoint HasPrefix (s pre : string) : bool :=
  match pre, s with
  | EmptyString, _ => true
  | String p pre', String c s' => Ascii.eqb p c && HasPrefix s' pre'
  | String _ _, EmptyString => false
  end.

(** [strings.Contains s (string c)] for one byte. *)
Fixpoint contains_byte (c : ascii) (s : string) : bool :=
  match s with
  | EmptyString => false
  | String c' s' => Ascii.eqb c' c || contains_byte c s'
  end.

(** [strings.Replace s old new -1] for one-byte [old] and [new]. *)
Fixpoint replace_byte (old new : ascii) (s : string) : string :=
  match s with
  | EmptyString => ""
  | String c s' => String (if Ascii.eqb c old then new else c) (replace_byte old new s')
  end.

(** ** Integers *)
Definition uint32_mod : Z := 2 ^ 32.
Definition int64_min : Z := - 2 ^ 63.
Definition int64_max : Z := 2 ^ 63 - 1.

Definition is_int64 (z : Z) : Prop := (int64_min ≤ z ≤ int64_max)%Z.

(** The two's-complement value of a 64-bit result. *)
Definition wrap64 (z : Z) : Z := ((z + 2 ^ 63) mod 2 ^ 64 - 2 ^ 63)%Z.

(** Bytes of a string as numbers. *)
Fixpoint bytes_of (s : string) : list Z :=
  match s with
  | EmptyString => []
  | String c s' => Z.of_nat (nat_of_ascii c) :: bytes_of s'
  end.

(** ** [hash/fnv]: the 32-bit FNV-1a hash *)
Definition fnv_offset32 : Z := 2166136261.
Definition fnv_prime32 : Z := 16777619.

Definition fnv32a_byte (h b : Z) : Z := (Z.lxor h b * fnv_prime32) mod uint32_mod.

(** [h.Write(data)] on a [sum32a]. *)
Definition fnv32a_write (h : Z) (s : string) : Z := fold_left fnv32a_byte (bytes_of s) h.

(** ** [fmt]: [%x] and [%d] *)
Definition hex_digit (d : Z) : ascii :=
  ascii_of_nat (Z.to_nat (if (d <? 10)%Z then 48 + d else 87 + d)).

(** The hexadecimal digits of [n], most significant first, for at most [fuel]
    digits: eight are enough for a 32-bit number. *)
Fixpoint hex_digits (fuel : nat) (n : Z) (acc : string) : string :=
  match fuel with
  | O => acc
  | S f =>
      let acc' := String (hex_digit (n mod 16)) acc in
      if (n <? 16)%Z then acc' else hex_digits f (n / 16) acc'
  end.

Definition format_x (n : Z) : string := hex_digits 8 n "".

(** [%d] of a signed integer. *)
Definition format_d (z : Z) : string := pretty z.

(** ** Nil-able maps

    A Go [map[string]V] variable: [None] is the nil map, which reads as empty. *)
Definition gomap (V : Type) : Type := option (gmap string V).

Definition map_get {V} (m : gomap V) (k : string) : option V :=
  match m with Some m' => m' !! k | None => None end.

(** [len(m)]. *)
Definition map_len {V} (m : gomap V) : nat :=
  match m with Some m' => size m' | None => 0 end.

(** [m[k]] of a map of strings: the zero value when absent. *)
Definition map_get_str (m : gomap string) (k : string) : string :=
  default "" (map_get m k).

(** ** Nil-able slices

    A Go [[]A] variable that is read only: [None] is the nil slice, which has no
    elements. *)
Definition goslice (A : Type) : Type := option (list A).

Definition elems {A} (s : goslice A) : list A := default [] s.

(** ** Lemmas: splitting and joining *)
Lemma split_on_nonempty sep s : split_on sep s ≠ [].
Proof.
  destruct s as [|c s]; simpl; [done|].
  destruct (Ascii.eqb c sep); [done|]. by destruct (split_on sep s).
Qed.

Lemma split_on_no_sep sep s : Forall (λ w, contains_byte sep w = false) (split_on sep s).
Proof.
  induction s as [|c s IH]; simpl.
  - by constructor.
  - destruct (Ascii.eqb c sep) eqn:E; [by constructor|].
    destruct (split_on sep s) as [|w ws].
    + constructor; [|done]. simpl. by rewrite E.
    + inversion IH; subst. constructor; [|done]. simpl. by rewrite E.
Qed.

Lemma contains_byte_app c s1 s2 :
  contains_byte c (s1 +:+ s2) = contains_byte c s1 || contains_byte c s2.
Proof. induction s1 as [|c' s1 IH]; simpl; [done|]. by rewrite IH, orb_assoc. Qed.

Lemma split_on_app sep s1 s2 :
  contains_byte sep s1 = false →
  split_on sep (s1 +:+ String sep s2) = s1 :: split_on sep s2.
Proof.
  induction s1 as [|c s1 IH]; simpl; intros H.
  - by rewrite Ascii.eqb_refl.
  - apply orb_false_iff in H as [Hc Hs]. rewrite Hc, (IH Hs). done.
Qed.

Lemma split_on_single sep s : contains_byte sep s = false → split_on sep s = [s].
Proof.
  induction s as [|c s IH]; simpl; intros H; [done|].
  apply orb_false_iff in H as [Hc Hs]. by rewrite Hc, (IH Hs).
Qed.

Lemma join_with_cons2 sep w w' ws :
  join_with (String sep "") (w :: w' :: ws) =
  w +:+ String sep (join_with (String sep "") (w' :: ws)).
Proof. done. Qed.

Lemma split_join sep l :
  l ≠ [] → Forall (λ w, contains_byte sep w = false) l →
  split_on sep (join_with (String sep "") l) = l.
Proof.
  intros Hl HF. induction l as [|w l IH]; [done|].
  inversion HF as [|?? Hw HF']; subst.
  destruct l as [|w' l].
  - by apply split_on_single.
  - rewrite join_with_cons2. rewrite (split_on_app sep w); [|done].
    f_equal. by apply IH.
Qed.

Lemma join_split sep s : join_with (String sep "") (split_on sep s) = s.
Proof.
  induction s as [|c s IH]; simpl; [done|].
  destruct (Ascii.eqb c sep) eqn:E.
  - apply Ascii.eqb_eq in E as ->.
    destruct (split_on sep s) as [|w ws] eqn:Es; [by apply split_on_nonempty in Es|].
    rewrite join_with_cons2, IH. done.
  - destruct (split_on sep s) as [|w ws] eqn:Es; [by apply split_on_nonempty in Es|].
    rewrite <-IH. by destruct ws.
Qed.

Lemma HasPrefix_app s1 s2 : HasPrefix (s1 +:+ s2) s1 = true.
Proof. induction s1 as [|c s1 IH]; simpl; [by destruct s2|]. by rewrite Ascii.eqb_refl. Qed.

Lemma HasPrefix_spec s pre : HasPrefix s pre = true ↔ ∃ rest, s = pre +:+ rest.
Proof.
  split; [|intros [rest ->]; apply HasPrefix_app].
  revert s. induction pre as [|p pre IH]; intros s H; simpl in *; [by exists s|].
  destruct s as [|c s]; [done|]. apply andb_true_iff in H as [Hc H].
  apply Ascii.eqb_eq in Hc as ->. destruct (IH s H) as [rest ->]. by exists rest.
Qed.

Lemma string_app_cons c s1 s2 : String c s1 +:+ s2 = String c (s1 +:+ s2).
Proof. done. Qed.

Lemma string_app_assoc s1 s2 s3 : s1 +:+ s2 +:+ s3 = (s1 +:+ s2) +:+ s3.
Proof. induction s1 as [|c s1 IH]; [done|]. by rewrite !string_app_cons, IH. Qed.

Lemma string_app_nil_r s : s +:+ "" = s.
Proof. induction s as [|c s IH]; [done|]. by rewrite string_app_cons, IH. Qed.

Lemma string_length_app s1 s2 :
  String.length (s1 +:+ s2) = String.length s1 + String.length s2.
Proof. induction s1 as [|c s1 IH]; [done|]. rewrite string_app_cons. simpl. by rewrite IH. Qed.

(** ** Lemmas: hashing and formatting *)
Lemma bytes_of_app s1 s2 : bytes_of (s1 +:+ s2) = (bytes_of s1 ++ bytes_of s2)%list.
Proof. induction s1 as [|c s1 IH]; simpl; [done|]. by rewrite IH. Qed.

(** Writing piece by piece hashes the concatenation: no separator is mixed in. *)
Lemma fnv32a_write_app h s1 s2 :
  fnv32a_write (fnv32a_write h s1) s2 = fnv32a_write h (s1 +:+ s2).
Proof. unfold fnv32a_write. by rewrite bytes_of_app, fold_left_app. Qed.

Lemma fnv32a_write_range h s :
  (0 ≤ h < uint32_mod)%Z → (0 ≤ fnv32a_write h s < uint32_mod)%Z.
Proof.
  unfold fnv32a_write. revert h. induction (bytes_of s) as [|b l IH]; intros h Hh; simpl; [done|].
  apply IH. unfold fnv32a_byte. apply Z.mod_pos_bound. done.
Qed.

Lemma fnv_offset32_range : (0 ≤ fnv_offset32 < uint32_mod)%Z.
Proof. done. Qed.

Lemma hex_digits_length fuel n acc :
  String.length (hex_digits fuel n acc) ≤ fuel + String.length acc.
Proof.
  revert n acc. induction fuel as [|f IH]; intros n acc; simpl; [lia|].
  case_match; simpl; [lia|]. specialize (IH (n / 16)%Z (String (hex_digit (n mod 16)) acc)).
  simpl in IH. lia.
Qed.

Lemma format_x_length n : String.length (format_x n) ≤ 8.
Proof. apply (hex_digits_length 8 n ""). Qed.

(** Hexadecimal formatting loses nothing: the digits evaluate back. *)
Definition hex_value (c : ascii) : Z :=
  let n := Z.of_nat (nat_of_ascii c) in if (n <? 58)%Z then n - 48 else n - 87.

Fixpoint parse_x (v : Z) (s : string) : Z :=
  match s with EmptyString => v | String c s' => parse_x (v * 16 + hex_value c) s' end.

Lemma hex_value_digit d : (0 ≤ d < 16)%Z → hex_value (hex_digit d) = d.
Proof.
  intros Hd. assert (Forall (λ d, hex_value (hex_digit d) = d) (seqZ 0 16)) as HF
    by (by repeat constructor).
  rewrite Forall_forall in HF. apply HF, elem_of_seqZ. lia.
Qed.

Lemma parse_hex_digits fuel n acc :
  (0 ≤ n < 16 ^ Z.of_nat fuel)%Z → fuel ≠ O →
  parse_x 0 (hex_digits fuel n acc) = parse_x n acc.
Proof.
  revert n acc. induction fuel as [|f IH]; intros n acc Hn Hf; [done|]. simpl.
  pose proof (Z.mod_pos_bound n 16 ltac:(lia)) as Hm.
  destruct (Z.ltb_spec n 16) as [Hlt|Hge].
  - simpl. rewrite hex_value_digit by done. by rewrite Z.mod_small by lia.
  - rewrite Nat2Z.inj_succ, Z.pow_succ_r in Hn by lia.
    destruct f as [|f]; [simpl in Hn; lia|].
    rewrite IH; [| |done].
    + simpl. rewrite hex_value_digit by done. f_equal.
      rewrite (Z.div_mod n 16) at 3 by lia. lia.
    + split; [apply Z.div_pos; lia|]. apply Z.div_lt_upper_bound; lia.
Qed.

Lemma parse_format_x n : (0 ≤ n < uint32_mod)%Z → parse_x 0 (format_x n) = n.
Proof. intros H. unfold format_x. by rewrite (parse_hex_digits 8 n "") by (done || lia). Qed.

Lemma format_x_inj n1 n2 :
  (0 ≤ n1 < uint32_mod)%Z → (0 ≤ n2 < uint32_mod)%Z →
  format_x n1 = format_x n2 → n1 = n2.
Proof. intros H1 H2 E. by rewrite <-(parse_format_x n1), <-(parse_format_x n2), E. Qed.

#[export] Hint Resolve split_on_nonempty HasPrefix_app fnv_offset32_range : golang.
