(* ===== verification/FilePath.v ===== *)
(** * FilePath: [path/filepath] on Unix

    [Clean], [Join], [Split] and [Rel] are modelled on the list of elements of a
    path: splitting at the separator, processing ["."] and [".."] lexically and
    rendering back.  [Match] follows the library's chunk-wise matcher, runes
    included.  [Rel] of a base that keeps a leading [".."] after the common
    prefix fails, as the library documents (the working directory would be
    needed); absolute bases never do. *)
From S2P Require Import Prelude GoLib.
From Stdlib Require Import Ascii.

Definition Separator : ascii := "/"%char.

Definition rooted (p : string) : bool :=
  match p with String c _ => Ascii.eqb c Separator | EmptyString => false end.

(** Lexical processing of path elements; [stack] is the result so far, reversed. *)
Fixpoint clean_elems (r : bool) (stack l : list string) : list string :=
  match l with
  | [] => rev stack
  | w :: l' =>
      if decide (w = "") then clean_elems r stack l'
      else if decide (w = ".") then clean_elems r stack l'
      else if decide (w = "..") then
        match stack with
        | [] => clean_elems r (if r then [] else [".."]) l'
        | top :: stack' =>
            if decide (top = "..") then clean_elems r (".." :: stack) l'
            else clean_elems r stack' l'
        end
      else clean_elems r (w :: stack) l'
  end.

(** The elements of the cleaned path. *)
Definition path_elems (p : string) : list string :=
  clean_elems (rooted p) [] (split_on Separator p).

Definition render (r : bool) (es : list string) : string :=
  if r then String Separator (join_with "/" es)
  else match es with [] => "." | _ => join_with "/" es end.

(** [filepath.Clean]. *)
Definition Clean (p : string) : string := render (rooted p) (path_elems p).

(** [filepath.Join]: leading empty elements are ignored. *)
Fixpoint Join (l : list string) : string :=
  match l with
  | [] => ""
  | w :: l' => if decide (w = "") then Join l' else Clean (join_with "/" (w :: l'))
  end.

#[global] Arguments Join : simpl never.
#[global] Arguments Clean : simpl never.

(** [filepath.Split]: directory (with its trailing separator) and file name. *)
Definition Split (p : string) : string * string :=
  let ws := split_on Separator p in
  match rev ws with
  | [] => ("", "")
  | f :: rds =>
      (match rds with [] => "" | _ => join_with "/" (rev rds) +:+ "/" end, f)
  end.

Fixpoint strip_common (l1 l2 : list string) : list string * list string :=
  match l1, l2 with
  | w1 :: l1', w2 :: l2' =>
      if decide (w1 = w2) then strip_common l1' l2' else (l1, l2)
  | _, _ => (l1, l2)
  end.

(** [filepath.Rel]. *)
Definition Rel (basepath targpath : string) : result string :=
  let base := Clean basepath in
  let targ := Clean targpath in
  let cannot := Errorf "Rel: can't make %s relative to %s" [targpath; basepath] [] in
  if decide (targ = base) then Ok "."
  else if negb (Bool.eqb (rooted base) (rooted targ)) then Err cannot
  else
    let te := if decide (targ = ".") then ["."] else path_elems targ in
    let '(b', t') := strip_common (path_elems base) te in
    if decide (head b' = Some "..") then Err cannot
    else Ok (join_with "/" (replicate (length b') ".." ++ t')).

(** ** [filepath.Match] *)
Fixpoint sdrop (n : nat) (s : string) : string :=
  match n, s with
  | S n', String _ s' => sdrop n' s'
  | _, _ => s
  end.

Definition byte_at (n : nat) (s : string) : option Z :=
  match sdrop n s with
  | String c _ => Some (Z.of_nat (nat_of_ascii c))
  | EmptyString => None
  end.

Definition RuneError : Z := 65533.

(** The size of the UTF-8 sequence a first byte announces and the range its
    second byte must lie in; [None] for a byte that starts no sequence. *)
Definition utf8_first (b : Z) : option (nat * Z * Z) :=
  if (b <? 128)%Z then Some (1%nat, 0%Z, 0%Z)
  else if (b <? 194)%Z then None
  else if (b <? 224)%Z then Some (2%nat, 128%Z, 191%Z)
  else if (b =? 224)%Z then Some (3%nat, 160%Z, 191%Z)
  else if (b =? 237)%Z then Some (3%nat, 128%Z, 159%Z)
  else if (b <? 240)%Z then Some (3%nat, 128%Z, 191%Z)
  else if (b =? 240)%Z then Some (4%nat, 144%Z, 191%Z)
  else if (b <? 244)%Z then Some (4%nat, 128%Z, 191%Z)
  else if (b =? 244)%Z then Some (4%nat, 128%Z, 143%Z)
  else None.

Definition is_cont (lo hi : Z) (b : option Z) : bool :=
  match b with Some b => ((lo <=? b) && (b <=? hi))%Z | None => false end.

(** [utf8.DecodeRuneInString]: the rune and its width. *)
Definition DecodeRune (s : string) : Z * nat :=
  match byte_at 0 s with
  | None => (RuneError, 0)
  | Some b0 =>
      match utf8_first b0 with
      | None => (RuneError, 1)
      | Some (1, _, _) => (b0, 1)
      | Some (2, lo, hi) =>
          if is_cont lo hi (byte_at 1 s)
          then (Z.land b0 31 * 64 + Z.land (default 0%Z (byte_at 1 s)) 63, 2%nat)%Z
          else (RuneError, 1)
      | Some (3, lo, hi) =>
          if is_cont lo hi (byte_at 1 s) && is_cont 128 191 (byte_at 2 s)
          then (Z.land b0 15 * 4096 + Z.land (default 0%Z (byte_at 1 s)) 63 * 64
                + Z.land (default 0%Z (byte_at 2 s)) 63, 3%nat)%Z
          else (RuneError, 1)
      | Some (_, lo, hi) =>
          if is_cont lo hi (byte_at 1 s) && is_cont 128 191 (byte_at 2 s)
             && is_cont 128 191 (byte_at 3 s)
          then (Z.land b0 7 * 262144 + Z.land (default 0%Z (byte_at 1 s)) 63 * 4096
                + Z.land (default 0%Z (byte_at 2 s)) 63 * 64
                + Z.land (default 0%Z (byte_at 3 s)) 63, 4%nat)%Z
          else (RuneError, 1)
      end
  end.

(** A rune of a character class, with its escape; [None] is [ErrBadPattern]. *)
Definition getEsc (chunk : string) : option (Z * string) :=
  let decode chunk :=
    let '(r, n) := DecodeRune chunk in
    if (r =? RuneError)%Z && bool_decide (n = 1) then None
    else match sdrop n chunk with
         | EmptyString => None
         | rest => Some (r, rest)
         end in
  match chunk with
  | EmptyString => None
  | String "-" _ | String "]" _ => None
  | String "\" EmptyString => None
  | String "\" chunk' => decode chunk'
  | _ => decode chunk
  end.

(** The ranges of a character class, up to its closing bracket. *)
Fixpoint class_ranges (fuel : nat) (r : Z) (seen mt : bool) (chunk : string)
  : option (bool * string) :=
  match fuel with
  | O => None
  | S f =>
      match chunk, seen with
      | String "]" chunk', true => Some (mt, chunk')
      | _, _ =>
          match getEsc chunk with
          | None => None
          | Some (lo, chunk1) =>
              match chunk1 with
              | String "-" chunk2 =>
                  match getEsc chunk2 with
                  | None => None
                  | Some (hi, chunk3) =>
                      class_ranges f r true (mt || ((lo <=? r) && (r <=? hi))%Z) chunk3
                  end
              | _ => class_ranges f r true (mt || (lo =? r)%Z) chunk1
              end
          end
      end
  end.

(** [matchChunk chunk s]: [None] is [ErrBadPattern], [Some None] no match,
    [Some (Some rest)] a match of a prefix of [s].  [fuel] bounds the length of
    the chunk, of which every turn consumes at least one byte. *)
Fixpoint match_chunk (fuel : nat) (failed : bool) (chunk s : string)
  : option (option string) :=
  match fuel with
  | O => None
  | S f =>
      let failed := failed || match s with EmptyString => true | _ => false end in
      match chunk with
      | EmptyString => None
      | String "[" chunk1 =>
          let '(r, n) := if failed then (0%Z, 0) else DecodeRune s in
          let '(negated, chunk2) :=
            match chunk1 with String "^" c => (true, c) | _ => (false, chunk1) end in
          match class_ranges (S (String.length chunk2)) r false false chunk2 with
          | None => None
          | Some (mt, chunk3) =>
              match_chunk_end f (failed || Bool.eqb mt negated) chunk3 (sdrop n s)
          end
      | String "?" chunk1 =>
          if failed then match_chunk_end f true chunk1 s
          else match_chunk_end f (rooted s) chunk1 (sdrop (snd (DecodeRune s)) s)
      | String "\" EmptyString => None
      | String "\" (String c chunk1) | String c chunk1 =>
          match s with
          | String c' s' =>
              if failed then match_chunk_end f true chunk1 s
              else match_chunk_end f (negb (Ascii.eqb c c')) chunk1 s'
          | EmptyString => match_chunk_end f true chunk1 s
          end
      end
  end
with match_chunk_end (fuel : nat) (failed : bool) (chunk s : string)
  : option (option string) :=
  match chunk with
  | EmptyString => Some (if failed then None else Some s)
  | _ =>
      match fuel with
      | O => None
      | S f => match_chunk f failed chunk s
      end
  end.

Definition matchChunk (chunk s : string) : option (option string) :=
  match_chunk_end (2 * String.length chunk) false chunk s.

(** The part of the pattern before the next star outside a character class. *)
Fixpoint scan_to_star (inrange : bool) (p : string) : string * string :=
  match p with
  | EmptyString => ("", "")
  | String "\" (String c p') =>
      let '(chunk, rest) := scan_to_star inrange p' in
      (String "\" (String c chunk), rest)
  | String c p' =>
      if Ascii.eqb c "*" && negb inrange then ("", p)
      else
        let inrange' := if Ascii.eqb c "[" then true
                        else if Ascii.eqb c "]" then false else inrange in
        let '(chunk, rest) := scan_to_star inrange' p' in (String c chunk, rest)
  end.

Fixpoint skip_stars (p : string) : bool * string :=
  match p with
  | String "*" p' => (true, snd (skip_stars p'))
  | _ => (false, p)
  end.

Definition scanChunk (p : string) : bool * string * string :=
  let '(star, p1) := skip_stars p in
  let '(chunk, rest) := scan_to_star false p1 in (star, chunk, rest).

(** After a star: retries the chunk at every later position before a separator. *)
Fixpoint match_star (chunk : string) (last : bool) (name : string) : option (option string) :=
  match name with
  | EmptyString => Some None
  | String c name' =>
      if Ascii.eqb c Separator then Some None
      else match matchChunk chunk name' with
           | None => None
           | Some (Some t) =>
               if last && negb (bool_decide (t = "")) then match_star chunk last name'
               else Some (Some t)
           | Some None => match_star chunk last name'
           end
  end.

(** Checks that the rest of a pattern that did not match is well formed. *)
Fixpoint check_rest (fuel : nat) (p : string) : option bool :=
  match fuel, p with
  | _, EmptyString => Some false
  | O, _ => None
  | S f, _ =>
      let '(_, chunk, rest) := scanChunk p in
      match matchChunk chunk "" with
      | None => None
      | Some _ => check_rest f rest
      end
  end.

Fixpoint match_loop (fuel : nat) (p name : string) : option bool :=
  match fuel, p with
  | _, EmptyString => Some (bool_decide (name = ""))
  | O, _ => None
  | S f, _ =>
      let '(star, chunk, rest) := scanChunk p in
      if star && bool_decide (chunk = "") then Some (negb (contains_byte Separator name))
      else
        let last := bool_decide (rest = "") in
        match matchChunk chunk name with
        | None => None
        | Some r =>
            match r with
            | Some t =>
                if bool_decide (t = "") || negb last then match_loop f rest t
                else if star then
                  match match_star chunk last name with
                  | None => None
                  | Some (Some t') => match_loop f rest t'
                  | Some None => check_rest f rest
                  end
                else check_rest f rest
            | None =>
                if star then
                  match match_star chunk last name with
                  | None => None
                  | Some (Some t') => match_loop f rest t'
                  | Some None => check_rest f rest
                  end
                else check_rest f rest
            end
        end
  end.

(** [filepath.Match pattern name]: [None] is [ErrBadPattern].  Every chunk
    consumes at least one byte of the pattern, so its length is enough fuel. *)
Definition Match (pattern name : string) : option bool :=
  match_loop (String.length pattern) pattern name.

(** ** Lemmas: cleaning *)

(** A name a directory listing returns: one proper path element. *)
Definition plain_name (w : string) : Prop :=
  w ≠ "" ∧ w ≠ "." ∧ w ≠ ".." ∧ contains_byte Separator w = false.

#[export] Instance plain_name_dec w : Decision (plain_name w).
Proof. unfold plain_name. apply _. Defined.

(** Stacks that [clean_elems] produces: proper elements, and [".."] only at the
    bottom of the stack of a relative path. *)
Fixpoint normal_stack (r : bool) (st : list string) : Prop :=
  match st with
  | [] => True
  | w :: st' =>
      w ≠ "" ∧ w ≠ "." ∧ contains_byte Separator w = false
      ∧ (w = ".." → r = false ∧ Forall (eq "..") st') ∧ normal_stack r st'
  end.

Lemma normal_stack_app r st1 st2 : normal_stack r (st1 ++ st2) → normal_stack r st2.
Proof. induction st1 as [|w st1 IH]; simpl; naive_solver. Qed.

Lemma normal_stack_nosep r st :
  normal_stack r st → Forall (λ w, contains_byte Separator w = false) st.
Proof. induction st; simpl; [constructor|]. intros (?&?&?&?&?). constructor; auto. Qed.

Lemma clean_elems_normal r st l :
  normal_stack r st → Forall (λ w, contains_byte Separator w = false) l →
  normal_stack r (rev (clean_elems r st l)).
Proof.
  revert st. induction l as [|w l IH]; intros st Hst Hl; simpl.
  { by rewrite rev_involutive. }
  inversion Hl; subst. repeat case_decide; subst; auto.
  - destruct st as [|top st]; simpl in *.
    + apply IH; [|done]. destruct r; simpl; naive_solver.
    + case_decide; subst; apply IH; simpl in *; naive_solver.
  - apply IH; simpl; naive_solver.
Qed.

Lemma clean_elems_id r st l :
  normal_stack r (rev l ++ st) → clean_elems r st l = (rev st ++ l)%list.
Proof.
  revert st. induction l as [|w l IH]; intros st H; simpl.
  { by rewrite app_nil_r. }
  simpl in H. rewrite <-app_assoc in H. simpl in H.
  pose proof (normal_stack_app _ _ _ H) as (Hne&Hnd&_&Hdd&_).
  rewrite decide_False by done. rewrite decide_False by done.
  assert (clean_elems r (w :: st) l = (rev st ++ w :: l)%list) as Hpush.
  { rewrite IH by done. simpl. by rewrite <-app_assoc. }
  case_decide as Hw; [subst|done]. destruct (Hdd eq_refl) as [-> Hall].
  destruct st as [|top st]; [done|]. inversion Hall; subst. by rewrite decide_True.
Qed.

Lemma clean_elems_app r st l1 l2 :
  clean_elems r st (l1 ++ l2) = clean_elems r (rev (clean_elems r st l1)) l2.
Proof.
  revert st. induction l1 as [|w l1 IH]; intros st; simpl.
  { by rewrite rev_involutive. }
  repeat case_decide; auto. destruct st; [auto|]. case_decide; auto.
Qed.

Lemma path_elems_normal p : normal_stack (rooted p) (rev (path_elems p)).
Proof. apply clean_elems_normal; [done|apply split_on_no_sep]. Qed.

Lemma normal_stack_head r w es :
  normal_stack r (rev (w :: es)) → w ≠ "" ∧ contains_byte Separator w = false.
Proof. simpl. intros H%normal_stack_app. simpl in H. naive_solver. Qed.

Lemma rooted_render r es : normal_stack r (rev es) → rooted (render r es) = r.
Proof.
  destruct r; [done|]. destruct es as [|w es]; [done|].
  intros [Hne Hsep]%normal_stack_head. destruct w as [|c w]; [done|].
  simpl in Hsep. apply orb_false_iff in Hsep as [Hc _].
  destruct es; simpl; by rewrite Hc.
Qed.

Lemma path_elems_render r es : normal_stack r (rev es) → path_elems (render r es) = es.
Proof.
  intros H. unfold path_elems. rewrite rooted_render by done.
  pose proof (normal_stack_nosep _ _ H) as Hsep.
  apply Forall_rev in Hsep. rewrite rev_involutive in Hsep.
  assert (clean_elems r [] es = es) as Hid by (rewrite clean_elems_id; by rewrite ?app_nil_r).
  unfold render. destruct r.
  - simpl. destruct es as [|w es]; [done|].
    change "/" with (String Separator ""). by rewrite split_join.
  - destruct es as [|w es]; [done|].
    change "/" with (String Separator ""). by rewrite split_join.
Qed.

Lemma rooted_Clean p : rooted (Clean p) = rooted p.
Proof. apply rooted_render, path_elems_normal. Qed.

Lemma path_elems_Clean p : path_elems (Clean p) = path_elems p.
Proof. apply path_elems_render, path_elems_normal. Qed.

Lemma Clean_idemp p : Clean (Clean p) = Clean p.
Proof. unfold Clean at 1. by rewrite rooted_Clean, path_elems_Clean. Qed.

Lemma split_on_app_gen sep s1 s2 :
  split_on sep (s1 +:+ String sep s2) = (split_on sep s1 ++ split_on sep s2)%list.
Proof.
  induction s1 as [|c s1 IH]; simpl.
  - by rewrite Ascii.eqb_refl.
  - rewrite IH. destruct (Ascii.eqb c sep); [done|].
    destruct (split_on sep s1) eqn:E; [by apply split_on_nonempty in E|done].
Qed.

Lemma rooted_app p s : p ≠ "" → rooted (p +:+ s) = rooted p.
Proof. by destruct p. Qed.

Lemma Join_two d f : d ≠ "" → Join [d; f] = Clean (d +:+ String Separator f).
Proof. intros Hd. unfold Join. by rewrite decide_False. Qed.

Lemma plain_name_clean_elems r st f :
  plain_name f → clean_elems r st [f] = (rev st ++ [f])%list.
Proof. intros (?&?&?&?). simpl. by rewrite !decide_False. Qed.

(** Joining a proper name to a directory appends one element. *)
Lemma path_elems_sub d f :
  d ≠ "" → plain_name f →
  path_elems (d +:+ String Separator f) = (path_elems d ++ [f])%list.
Proof.
  intros Hd Hf. unfold path_elems. rewrite rooted_app, split_on_app_gen by done.
  rewrite (split_on_single _ f) by apply Hf.
  by rewrite clean_elems_app, plain_name_clean_elems, rev_involutive.
Qed.

Lemma Join_render d f :
  d ≠ "" → plain_name f → Join [d; f] = render (rooted d) (path_elems d ++ [f]).
Proof.
  intros Hd Hf. rewrite Join_two by done. unfold Clean.
  by rewrite rooted_app, path_elems_sub.
Qed.

Lemma path_elems_Join d f :
  d ≠ "" → plain_name f → path_elems (Join [d; f]) = (path_elems d ++ [f])%list.
Proof.
  intros Hd Hf. rewrite Join_two, path_elems_Clean by done. by apply path_elems_sub.
Qed.

Lemma rooted_Join d f : d ≠ "" → rooted (Join [d; f]) = rooted d.
Proof. intros Hd. rewrite Join_two, rooted_Clean by done. by apply rooted_app. Qed.

Lemma strip_common_app l1 l2 : strip_common l1 (l1 ++ l2) = ([], l2).
Proof. induction l1 as [|w l1 IH]; simpl; [by destruct l2|]. by rewrite decide_True. Qed.

(** The relative path of a name inside a directory is the name. *)
Lemma Rel_Join d f : d ≠ "" → plain_name f → Rel d (Join [d; f]) = Ok f.
Proof.
  intros Hd Hf. unfold Rel.
  pose proof (path_elems_Join d f Hd Hf) as HE.
  assert (Clean (Join [d; f]) ≠ Clean d) as Hne.
  { intros E. apply (f_equal path_elems) in E. rewrite !path_elems_Clean, HE in E.
    apply (f_equal length) in E. rewrite length_app in E. simpl in E. lia. }
  rewrite decide_False by done.
  rewrite !rooted_Clean, rooted_Join, Bool.eqb_reflx by done. simpl.
  rewrite !path_elems_Clean, HE. case_decide as Hdot.
  - apply (f_equal path_elems) in Hdot. rewrite path_elems_Clean, HE in Hdot.
    by destruct (path_elems d).
  - rewrite strip_common_app. by rewrite decide_False.
Qed.

Lemma join_with_snoc l w f :
  join_with "/" ((w :: l) ++ [f]) = join_with "/" (w :: l) +:+ String Separator f.
Proof.
  revert w. induction l as [|w' l IH]; intros w; [done|].
  change "/" with (String Separator "") in *. simpl app.
  rewrite !join_with_cons2. specialize (IH w'). simpl app in IH. rewrite IH.
  by rewrite <-string_app_assoc.
Qed.

(** A cleaned, named directory is a string prefix of the paths inside it. *)
Lemma HasPrefix_Join d f :
  d ≠ "" → Clean d = d → d ≠ "." → plain_name f → HasPrefix (Join [d; f]) d = true.
Proof.
  intros Hd Hc Hdot Hf. rewrite Join_render by done.
  rewrite <-Hc at 3. unfold Clean. apply HasPrefix_spec.
  unfold render. destruct (path_elems d) as [|w es] eqn:E.
  - destruct (rooted d) eqn:Er; [by exists f|].
    exfalso. apply Hdot. rewrite <-Hc. unfold Clean. by rewrite E, Er.
  - exists (String Separator f). rewrite join_with_snoc. by destruct (rooted d).
Qed.

(** ** Lemmas: matching *)
Lemma skip_stars_length p : String.length (snd (skip_stars p)) ≤ String.length p.
Proof.
  induction p as [|c p IH]; simpl; [lia|].
  repeat case_match; simpl in *; lia.
Qed.

(** The pattern of the default configuration matches every directory entry. *)
Lemma Match_star name : Match "*" name = Some (negb (contains_byte Separator name)).
Proof. done. Qed.

#[export] Hint Resolve path_elems_normal : golang.
