(* ===== verification/K8s.v ===== *)
(** * K8s: the Kubernetes objects, listers and API the program uses

    The fields of the API types (k8s.io/api) that the program reads or writes,
    under their own names with a prefix per type; string-typed enumerations stay
    strings, pointers are options, nil-able maps are [gomap]s.  Informer stores
    are seen through listers.  The API server is the class [KubeClient]: a state
    type and one operation per request the program makes, each of which may fail;
    [KubeClientLaws] is the documented behaviour some theorems rely on and
    [MemServer] an in-memory server that has it. *)
From S2P Require Import Prelude GoLib.
From Stdlib Require Import Ascii.

(** ** Objects *)
Record OwnerReference := {
  or_Kind : string; or_APIVersion : string; or_Name : string; or_UID : string }.

Record ObjectMeta := {
  om_Name : string;
  om_Namespace : string;
  om_UID : string;
  om_Labels : gomap string;
  om_Annotations : gomap string;
  om_DeletionTimestamp : option Z;
  om_OwnerReferences : list OwnerReference }.

Record NodeSelectorRequirement := {
  nsr_Key : string; nsr_Operator : string; nsr_Values : list string }.

Record NodeSelectorTerm := {
  nst_MatchExpressions : list NodeSelectorRequirement;
  nst_MatchFields : list NodeSelectorRequirement }.

Record NodeSelector := { ns_NodeSelectorTerms : list NodeSelectorTerm }.

Record VolumeNodeAffinity := { vna_Required : option NodeSelector }.

Record NodeAffinity := {
  na_RequiredDuringSchedulingIgnoredDuringExecution : option NodeSelector }.

Record LocalVolumeSource := { lvs_Path : string; lvs_FSType : option string }.

Record ObjectReference := { ref_Namespace : string; ref_Name : string; ref_UID : string }.

Record PersistentVolumeSpec := {
  pvs_ReclaimPolicy : string;
  pvs_Capacity : gmap string Z;
  pvs_Local : option LocalVolumeSource;
  pvs_AccessModes : list string;
  pvs_StorageClassName : string;
  pvs_VolumeMode : option string;
  pvs_MountOptions : list string;
  pvs_NodeAffinity : option VolumeNodeAffinity;
  pvs_ClaimRef : option ObjectReference }.

Record PersistentVolume := {
  pv_meta : ObjectMeta;
  pv_Spec : PersistentVolumeSpec;
  pv_Phase : string }.

Record PersistentVolumeClaim := { pvc_meta : ObjectMeta; pvc_VolumeName : string }.

Record Taint := { taint_Key : string; taint_Value : string; taint_Effect : string }.

Record Node := { node_meta : ObjectMeta; node_Taints : list Taint }.

Record StorageClass := {
  sc_ReclaimPolicy : option string; sc_MountOptions : list string }.

Record Toleration := {
  tol_Key : string; tol_Operator : string; tol_Value : string; tol_Effect : string;
  tol_Seconds : option Z }.

Record EnvVar := { env_Name : string; env_Value : string }.
Record VolumeMount := { vm_Name : string; vm_MountPath : string }.
Record Volume := { vol_Name : string; vol_HostPath : string }.

Record Container := {
  ctr_Name : string;
  ctr_Image : string;
  ctr_Privileged : option bool;
  ctr_Command : list string;
  ctr_Env : list EnvVar;
  ctr_VolumeMounts : list VolumeMount }.

Record PodSpec := {
  ps_Containers : list Container;
  ps_Volumes : list Volume;
  ps_NodeSelector : gmap string string;
  ps_Tolerations : list Toleration;
  ps_RestartPolicy : string }.

Record Job := { job_meta : ObjectMeta; job_PodSpec : PodSpec; job_Succeeded : Z }.

#[export] Instance OwnerReference_eq_dec : EqDecision OwnerReference.
Proof. solve_decision. Defined.
#[export] Instance ObjectMeta_eq_dec : EqDecision ObjectMeta.
Proof. solve_decision. Defined.
#[export] Instance NodeSelectorRequirement_eq_dec : EqDecision NodeSelectorRequirement.
Proof. solve_decision. Defined.
#[export] Instance NodeSelectorTerm_eq_dec : EqDecision NodeSelectorTerm.
Proof. solve_decision. Defined.
#[export] Instance NodeSelector_eq_dec : EqDecision NodeSelector.
Proof. solve_decision. Defined.
#[export] Instance VolumeNodeAffinity_eq_dec : EqDecision VolumeNodeAffinity.
Proof. solve_decision. Defined.
#[export] Instance Toleration_eq_dec : EqDecision Toleration.
Proof. solve_decision. Defined.
#[export] Instance Taint_eq_dec : EqDecision Taint.
Proof. solve_decision. Defined.

Definition pv_Name (pv : PersistentVolume) : string := om_Name (pv_meta pv).
Definition node_Name (n : Node) : string := om_Name (node_meta n).
Definition job_Name (j : Job) : string := om_Name (job_meta j).

(** An object whose metadata only has a name. *)
Definition named (name : string) : ObjectMeta := {|
  om_Name := name; om_Namespace := ""; om_UID := ""; om_Labels := None;
  om_Annotations := None; om_DeletionTimestamp := None; om_OwnerReferences := [] |}.

(** ** Constants of the API *)
Definition PersistentVolumeReclaimRetain := "Retain".
Definition PersistentVolumeReclaimRecycle := "Recycle".
Definition PersistentVolumeReclaimDelete := "Delete".
Definition PersistentVolumeBlock := "Block".
Definition PersistentVolumeFilesystem := "Filesystem".
Definition VolumeAvailable := "Available".
Definition VolumeBound := "Bound".
Definition VolumeReleased := "Released".
Definition ReadWriteOnce := "ReadWriteOnce".
Definition ResourceStorage := "storage".
Definition NodeSelectorOpIn := "In".
Definition LabelHostname := "kubernetes.io/hostname".
Definition EventTypeNormal := "Normal".
Definition EventTypeWarning := "Warning".
Definition RestartPolicyOnFailure := "OnFailure".

(** ** Events *)
Record Event := {
  ev_Object : string; ev_Type : string; ev_Reason : string; ev_Message : error }.

(** ** Listers *)
Record NodeLister := {
  nl_Get : string → result Node;
  nl_List : (Node → bool) → result (list Node) }.

Definition is_alnum (c : ascii) : bool :=
  let n := nat_of_ascii c in
  (48 <=? n)%nat && (n <=? 57)%nat || (65 <=? n)%nat && (n <=? 90)%nat
  || (97 <=? n)%nat && (n <=? 122)%nat.

Definition is_label_char (c : ascii) : bool :=
  is_alnum c || Ascii.eqb c "-" || Ascii.eqb c "_" || Ascii.eqb c ".".

Fixpoint all_label_chars (s : string) : bool :=
  match s with EmptyString => true | String c s' => is_label_char c && all_label_chars s' end.

Fixpoint last_char (d : ascii) (s : string) : ascii :=
  match s with EmptyString => d | String c s' => last_char c s' end.

(** [validation.IsValidLabelValue]: at most 63 bytes; empty, or letters, digits,
    ['-'], ['_'], ['.'] that start and end with a letter or digit. *)
Definition valid_label_value (s : string) : bool :=
  (String.length s <=? 63)%nat &&
  match s with
  | EmptyString => true
  | String c s' => is_alnum c && is_alnum (last_char c s') && all_label_chars s
  end.

(** [labels.NewRequirement key Equals [value]] as a predicate on nodes; the key
    the program uses is a valid label key. *)
Definition requirement_equals (key value : string) : result (Node → bool) :=
  if valid_label_value value
  then Ok (λ n, bool_decide (map_get (om_Labels (node_meta n)) key = Some value))
  else Err (Errorf "invalid label value" [value] []).

(** The lister of an informer whose store holds [nodes]. *)
Definition store_lister (nodes : list Node) : NodeLister := {|
  nl_Get name :=
    match filter (λ n, node_Name n = name) nodes with
    | n :: _ => Ok n
    | [] => Err (APIError ReasonNotFound name)
    end;
  nl_List sel := Ok (List.filter sel nodes) |}.

(** ** The API server *)
Class KubeClient (API : Type) := {
  api_CreatePV : PersistentVolume → API → result PersistentVolume * API;
  api_DeletePV : string → API → option error * API;
  api_UpdatePV : PersistentVolume → API → option error * API;
  api_ListPVs : API → (list PersistentVolume * option error) * API;
  api_CreateJob : Job → API → option error * API;
  api_DeleteJob : string → string → string → API → option error * API;
  api_GetNode : string → API → result Node * API;
  api_UpdateNode : Node → API → option error * API;
  api_DeletePVC : string → string → string → API → option error * API
}.

(** What a server makes of a volume that is submitted: it assigns a UID and a phase. *)
Definition with_status (st : string * string) (pv : PersistentVolume) : PersistentVolume := {|
  pv_meta := {| om_Name := om_Name (pv_meta pv); om_Namespace := om_Namespace (pv_meta pv);
                om_UID := fst st; om_Labels := om_Labels (pv_meta pv);
                om_Annotations := om_Annotations (pv_meta pv);
                om_DeletionTimestamp := om_DeletionTimestamp (pv_meta pv);
                om_OwnerReferences := om_OwnerReferences (pv_meta pv) |};
  pv_Spec := pv_Spec pv; pv_Phase := snd st |}.

(** The documented behaviour of the persistent-volume requests.  [api_pvs] are the
    volumes, by name, that the server has and that are not marked for deletion.  A
    successful create adds the object under a name that was free, with the UID and the
    phase the server assigns (never Released); a successful delete removes the object or,
    while finalizers hold it, marks it for deletion, so that it is in the collection no
    more; a failed request changes nothing, and no other request touches the collection. *)
Class KubeClientLaws (API : Type) `{KubeClient API} := {
  api_pvs : API → gmap string PersistentVolume;
  api_assigned : API → string * string;
  api_assigned_phase : ∀ a, snd (api_assigned a) ≠ VolumeReleased;
  api_CreatePV_ok : ∀ pv a pv' a', api_CreatePV pv a = (Ok pv', a') →
    api_pvs a !! pv_Name pv = None ∧
    api_pvs a' = <[pv_Name pv := with_status (api_assigned a) pv]> (api_pvs a);
  api_CreatePV_err : ∀ pv a e a', api_CreatePV pv a = (Err e, a') → api_pvs a' = api_pvs a;
  api_DeletePV_ok : ∀ name a a', api_DeletePV name a = (None, a') →
    api_pvs a' = delete name (api_pvs a);
  api_DeletePV_err : ∀ name a e a', api_DeletePV name a = (Some e, a') →
    api_pvs a' = api_pvs a;
  api_CreateJob_pvs : ∀ j a, api_pvs (snd (api_CreateJob j a)) = api_pvs a;
  api_DeleteJob_pvs : ∀ n ns policy a, api_pvs (snd (api_DeleteJob n ns policy a)) = api_pvs a
}.

(** Updates and lists: a successful update replaces an object that exists, one that
    reports that there is none is right, a failed one changes nothing; a list returns
    the objects, or an error with an empty list (the client allocates the list it
    decodes into).  They are for a server on which no volume is marked for deletion. *)
Class KubeUpdateLaws (API : Type) `{KubeClientLaws API} := {
  api_UpdatePV_ok : ∀ pv a a', api_UpdatePV pv a = (None, a') →
    is_Some (api_pvs a !! pv_Name pv) ∧ api_pvs a' = <[pv_Name pv := pv]> (api_pvs a);
  api_UpdatePV_err : ∀ pv a e a', api_UpdatePV pv a = (Some e, a') →
    api_pvs a' = api_pvs a ∧ (IsNotFound e = true → api_pvs a !! pv_Name pv = None);
  api_ListPVs_ok : ∀ a l a', api_ListPVs a = ((l, None), a') →
    l ≡ₚ (map_to_list (api_pvs a)).*2 ∧ api_pvs a' = api_pvs a;
  api_ListPVs_err : ∀ a l e a', api_ListPVs a = ((l, Some e), a') →
    l = [] ∧ api_pvs a' = api_pvs a
}.

(** The same for claims.  [api_pvcs] are those that are not marked for deletion: a
    successful delete with a UID precondition removes the claim of that name or marks it
    (a claim in use is held by a finalizer), and it had that UID if it was not marked
    before; a failed one changes nothing; and the requests on volumes and claims do not
    touch each other's collection. *)
Class KubeClaimLaws (API : Type) `{KubeClientLaws API} := {
  api_pvcs : API → gmap (string * string) PersistentVolumeClaim;
  api_DeletePVC_ok : ∀ ns name uid a a', api_DeletePVC ns name uid a = (None, a') →
    (∀ c, api_pvcs a !! (ns, name) = Some c → om_UID (pvc_meta c) = uid) ∧
    api_pvcs a' = delete (ns, name) (api_pvcs a);
  api_DeletePVC_err : ∀ ns name uid a e a', api_DeletePVC ns name uid a = (Some e, a') →
    api_pvcs a' = api_pvcs a;
  api_DeletePVC_pvs : ∀ ns name uid a, api_pvs (snd (api_DeletePVC ns name uid a)) = api_pvs a;
  api_DeletePV_pvcs : ∀ name a, api_pvcs (snd (api_DeletePV name a)) = api_pvcs a
}.

(** [metav1.DeletePropagationForeground] and [DeletePropagationBackground]. *)
Definition DeletePropagationForeground := "Foreground".
Definition DeletePropagationBackground := "Background".

(** A job that is marked for deletion. *)
Definition marked_job (time : Z) (job : Job) : Job := {|
  job_meta := {| om_Name := om_Name (job_meta job); om_Namespace := om_Namespace (job_meta job);
                 om_UID := om_UID (job_meta job); om_Labels := om_Labels (job_meta job);
                 om_Annotations := om_Annotations (job_meta job);
                 om_DeletionTimestamp := Some time;
                 om_OwnerReferences := om_OwnerReferences (job_meta job) |};
  job_PodSpec := job_PodSpec job; job_Succeeded := job_Succeeded job |}.

(** The documented behaviour of the requests on jobs.  [api_jobs] are the jobs of the
    provisioner's namespace, also those that are marked for deletion.  A successful create
    adds the job under a name that was free, with a status in which no pod has succeeded.
    A successful delete removes the job or marks it for deletion; with foreground
    propagation it stays, marked and otherwise as it was, until its pods are gone. *)
Class KubeJobLaws (API : Type) `{KubeClient API} := {
  api_jobs : API → gmap string Job;
  api_CreateJob_ok : ∀ j a a', api_CreateJob j a = (None, a') →
    api_jobs a !! job_Name j = None ∧
    ∃ j', job_Name j' = job_Name j ∧ job_Succeeded j' = 0%Z ∧
      api_jobs a' = <[job_Name j := j']> (api_jobs a);
  api_CreateJob_err : ∀ j a e a', api_CreateJob j a = (Some e, a') → api_jobs a' = api_jobs a;
  api_DeleteJob_ok : ∀ name ns policy a a', api_DeleteJob name ns policy a = (None, a') →
    ∃ job, api_jobs a !! name = Some job ∧
      (api_jobs a' = delete name (api_jobs a) ∨
       ∃ time, api_jobs a' = <[name := marked_job time job]> (api_jobs a));
  api_DeleteJob_err : ∀ name ns policy a e a', api_DeleteJob name ns policy a = (Some e, a') →
    api_jobs a' = api_jobs a;
  api_CreatePV_jobs : ∀ pv a, api_jobs (snd (api_CreatePV pv a)) = api_jobs a;
  api_DeletePV_jobs : ∀ name a, api_jobs (snd (api_DeletePV name a)) = api_jobs a
}.

(** ** An in-memory server

    New volumes are pending, jobs that are deleted in the foreground stay and are marked. *)
Record MemServer := {
  mem_pvs : gmap string PersistentVolume;
  mem_jobs : gmap string Job;
  mem_nodes : gmap string Node;
  mem_pvcs : gmap (string * string) PersistentVolumeClaim;
  mem_down : bool }.

Definition mem_error : error := APIError ReasonOther "server unavailable".
Definition mem_not_found (name : string) : error := APIError ReasonNotFound name.
Definition mem_exists (name : string) : error := APIError ReasonAlreadyExists name.

(** The UID and the phase of a new volume. *)
Definition mem_assigned : string * string := ("d9607e19", "Pending").

(** A job whose status is the one of a new job. *)
Definition fresh_job (job : Job) : Job :=
  {| job_meta := job_meta job; job_PodSpec := job_PodSpec job; job_Succeeded := 0 |}.

#[export] Instance MemServer_client : KubeClient MemServer := {|
  api_CreatePV pv a :=
    if mem_down a then (Err mem_error, a)
    else match mem_pvs a !! pv_Name pv with
         | Some _ => (Err (mem_exists (pv_Name pv)), a)
         | None => (Ok (with_status mem_assigned pv),
                    {| mem_pvs := <[pv_Name pv := with_status mem_assigned pv]> (mem_pvs a);
                       mem_jobs := mem_jobs a; mem_nodes := mem_nodes a;
                       mem_pvcs := mem_pvcs a; mem_down := mem_down a |})
         end;
  api_DeletePV name a :=
    if mem_down a then (Some mem_error, a)
    else match mem_pvs a !! name with
         | None => (Some (mem_not_found name), a)
         | Some _ => (None, {| mem_pvs := delete name (mem_pvs a);
                               mem_jobs := mem_jobs a; mem_nodes := mem_nodes a;
                               mem_pvcs := mem_pvcs a; mem_down := mem_down a |})
         end;
  api_UpdatePV pv a :=
    if mem_down a then (Some mem_error, a)
    else match mem_pvs a !! pv_Name pv with
         | None => (Some (mem_not_found (pv_Name pv)), a)
         | Some _ => (None, {| mem_pvs := <[pv_Name pv := pv]> (mem_pvs a);
                               mem_jobs := mem_jobs a; mem_nodes := mem_nodes a;
                               mem_pvcs := mem_pvcs a; mem_down := mem_down a |})
         end;
  api_ListPVs a :=
    if mem_down a then (([], Some mem_error), a) else (((map_to_list (mem_pvs a)).*2, None), a);
  api_CreateJob j a :=
    if mem_down a then (Some mem_error, a)
    else match mem_jobs a !! job_Name j with
         | Some _ => (Some (mem_exists (job_Name j)), a)
         | None => (None, {| mem_pvs := mem_pvs a;
                             mem_jobs := <[job_Name j := fresh_job j]> (mem_jobs a);
                             mem_nodes := mem_nodes a;
                             mem_pvcs := mem_pvcs a; mem_down := mem_down a |})
         end;
  api_DeleteJob name ns policy a :=
    if mem_down a then (Some mem_error, a)
    else match mem_jobs a !! name with
         | None => (Some (mem_not_found name), a)
         | Some job =>
             (None, {| mem_pvs := mem_pvs a;
                       mem_jobs := if decide (policy = DeletePropagationForeground)
                                   then <[name := marked_job 0 job]> (mem_jobs a)
                                   else delete name (mem_jobs a);
                       mem_nodes := mem_nodes a;
                       mem_pvcs := mem_pvcs a; mem_down := mem_down a |})
         end;
  api_GetNode name a :=
    if mem_down a then (Err mem_error, a)
    else match mem_nodes a !! name with
         | None => (Err (mem_not_found name), a)
         | Some n => (Ok n, a)
         end;
  api_UpdateNode n a :=
    if mem_down a then (Some mem_error, a)
    else match mem_nodes a !! node_Name n with
         | None => (Some (mem_not_found (node_Name n)), a)
         | Some _ => (None, {| mem_pvs := mem_pvs a; mem_jobs := mem_jobs a;
                               mem_nodes := <[node_Name n := n]> (mem_nodes a);
                               mem_pvcs := mem_pvcs a; mem_down := mem_down a |})
         end;
  api_DeletePVC ns name uid a :=
    if mem_down a then (Some mem_error, a)
    else match mem_pvcs a !! (ns, name) with
         | None => (Some (mem_not_found name), a)
         | Some c =>
             if decide (om_UID (pvc_meta c) = uid)
             then (None, {| mem_pvs := mem_pvs a; mem_jobs := mem_jobs a;
                            mem_nodes := mem_nodes a;
                            mem_pvcs := delete (ns, name) (mem_pvcs a);
                            mem_down := mem_down a |})
             else (Some (APIError ReasonConflict name), a)
         end
|}.

#[export] Instance MemServer_laws : KubeClientLaws MemServer.
Proof.
  refine {| api_pvs := mem_pvs; api_assigned := λ _, mem_assigned |}; simpl; intros;
    repeat case_match; naive_solver.
Defined.

#[export] Instance MemServer_claim_laws : KubeClaimLaws MemServer.
Proof.
  refine {| api_pvcs := mem_pvcs |}; simpl; intros; repeat case_match; naive_solver.
Defined.

#[export] Instance MemServer_job_laws : KubeJobLaws MemServer.
Proof.
  refine {| api_jobs := mem_jobs |}; simpl; intros; repeat case_match; simplify_eq/=; try done.
  - split; [done|]. by exists (fresh_job j).
  - eexists. split; [done|]. right. by exists 0%Z.
  - eexists. split; [done|by left].
Defined.

#[export] Instance MemServer_update_laws : KubeUpdateLaws MemServer.
Proof. split; simpl; intros; repeat case_match; naive_solver. Qed.
