(* ===== verification/VolumeUtil.v ===== *)
(** * VolumeUtil: the package [pkg/util] on local file systems

    The interface [VolumeUtil] of volume_util.go as a class over the state of the
    file system, the part of its implementation that all platforms share ([Shared]),
    its Linux implementation over the operating-system calls it makes (classes
    [OSFiles] and [LinuxOS]; the Windows one is in [Platforms]), the in-memory [FakeVolumeUtil] of
    fake_volume_util.go, and [GetLocalPersistentVolumeNodeNames]. *)
From S2P Require Import Prelude GoLib FilePath K8s.

(** ** The interface *)
Class VolumeUtil (FS : Type) := {
  IsDir : string → FS → bool * option error;
  IsBlock : string → FS → bool * option error;
  IsLikelyMountPoint : string → string → gset string → FS → bool * option error;
  ReadDir : string → FS → result (list string);
  DeleteContents : string → string → FS → option error * FS;
  GetFsCapacityByte : string → string → FS → result Z;
  GetBlockCapacityByte : string → FS → result Z
}.

(** ** The operating-system calls of the implementations *)

(** Calls of the part that is the same on all platforms. *)
Class OSFiles (FS : Type) := {
  os_Open : string → FS → option error;
  file_Stat_IsDir : string → FS → result bool;
  file_Readdirnames : string → FS → result (list string)
}.

Class LinuxOS (FS : Type) := {
  os_RemoveAll : string → FS → option error * FS;
  unix_Stat_Mode : string → FS → result Z;
  ioctl_BLKGETSIZE64 : string → FS → result Z;
  fs_Info_capacity : string → FS → result Z
}.

Definition S_IFMT : Z := 61440.
Definition S_IFBLK : Z := 24576.

(** [volumeUtil.IsDir] and [volumeUtil.ReadDir] of volume_util.go. *)
Module Shared.
Section shared.
Context {FS : Type} `{!OSFiles FS}.

Definition IsDir (fullPath : string) (fs : FS) : bool * option error :=
  match os_Open fullPath fs with
  | Some err => (false, Some err)
  | None =>
      match file_Stat_IsDir fullPath fs with
      | Err err => (false, Some err)
      | Ok d => (d, None)
      end
  end.

Definition ReadDir (fullPath : string) (fs : FS) : result (list string) :=
  match os_Open fullPath fs with
  | Some err => Err err
  | None => file_Readdirnames fullPath fs
  end.
End shared.
End Shared.

Module Linux.
Section linux.
Context {FS : Type} `{!OSFiles FS, !LinuxOS FS}.

Definition GetFsCapacityByte (hostPath mountPath : string) (fs : FS) : result Z :=
  fs_Info_capacity mountPath fs.

Definition GetBlockCapacityByte (fullPath : string) (fs : FS) : result Z :=
  match os_Open fullPath fs with
  | Some err => Err err
  | None => ioctl_BLKGETSIZE64 fullPath fs
  end.

Definition IsLikelyMountPoint (hostPath mountPath : string)
    (mountPointMap : gset string) (fs : FS) : bool * option error :=
  if bool_decide (mountPath ∈ mountPointMap) then (true, None)
  else (false, Some (Errorf "mountPath=%q wasn't found in the /proc/mounts file"
                       [mountPath] [])).

Definition IsBlock (fullPath : string) (fs : FS) : bool * option error :=
  match unix_Stat_Mode fullPath fs with
  | Err err => (false, Some err)
  | Ok mode => ((Z.land mode S_IFMT =? S_IFBLK)%Z, None)
  end.

(** The removal loop of [DeleteContents]: every entry is tried, errors are kept. *)
Fixpoint remove_entries (mountPath : string) (files : list string) (fs : FS)
  : list error * FS :=
  match files with
  | [] => ([], fs)
  | file :: files' =>
      let '(err, fs1) := os_RemoveAll (Join [mountPath; file]) fs in
      let '(errs, fs2) := remove_entries mountPath files' fs1 in
      (match err with Some e => e :: errs | None => errs end, fs2)
  end.

Definition NewAggregate (errs : list error) : option error :=
  match errs with [] => None | _ => Some (Errorf "aggregate" [] errs) end.

Definition DeleteContents (hostPath mountPath : string) (fs : FS) : option error * FS :=
  match os_Open mountPath fs with
  | Some err => (Some err, fs)
  | None =>
      match file_Readdirnames mountPath fs with
      | Err err => (Some err, fs)
      | Ok files =>
          let '(errList, fs') := remove_entries mountPath files fs in
          (NewAggregate errList, fs')
      end
  end.

#[global] Instance volumeUtil : VolumeUtil FS := {|
  VolumeUtil.IsDir := Shared.IsDir;
  VolumeUtil.IsBlock := IsBlock;
  VolumeUtil.IsLikelyMountPoint := IsLikelyMountPoint;
  VolumeUtil.ReadDir := Shared.ReadDir;
  VolumeUtil.DeleteContents := DeleteContents;
  VolumeUtil.GetFsCapacityByte := GetFsCapacityByte;
  VolumeUtil.GetBlockCapacityByte := GetBlockCapacityByte |}.
End linux.
End Linux.

(** ** The fake *)
Module Fake.
Definition FakeEntryFile := "file".
Definition FakeEntryBlock := "block".
Definition FakeEntryUnknown := "unknown".

Record FakeDirEntry := {
  fde_Name : string; fde_VolumeType : string; fde_Hash : Z; fde_Capacity : Z }.

Record FakeVolumeUtil := {
  directoryFiles : gmap string (list FakeDirEntry);
  deleteShouldFail : bool }.

Definition NewFakeVolumeUtil (fail : bool) (dirFiles : gmap string (list FakeDirEntry))
  : FakeVolumeUtil := {| directoryFiles := dirFiles; deleteShouldFail := fail |}.

(** The entry of a path in the listing of its directory. *)
Definition dir_entry (fullPath : string) (u : FakeVolumeUtil) : result FakeDirEntry :=
  let '(dir, file) := Split fullPath in
  let dir := Clean dir in
  match directoryFiles u !! dir with
  | None => Err (Errorf "Directory %q not found" [dir] [])
  | Some files =>
      match filter (λ f, fde_Name f = file) files with
      | [] => Err (Errorf "Directory entry %q not found" [fullPath] [])
      | f :: _ => Ok f
      end
  end.

Definition IsDir (fullPath : string) (u : FakeVolumeUtil) : bool * option error :=
  match dir_entry fullPath u with
  | Err e => (false, Some e)
  | Ok f =>
      if decide (fde_VolumeType f = FakeEntryFile) then (true, None)
      else (false, Some (Errorf "%q not a file or directory" [fullPath] []))
  end.

Definition IsBlock (fullPath : string) (u : FakeVolumeUtil) : bool * option error :=
  match dir_entry fullPath u with
  | Err e => (false, Some e)
  | Ok f => (bool_decide (fde_VolumeType f = FakeEntryBlock), None)
  end.

Definition ReadDir (fullPath : string) (u : FakeVolumeUtil) : result (list string) :=
  match directoryFiles u !! fullPath with
  | None => Err (Errorf "Directory %q not found" [fullPath] [])
  | Some files => Ok (fde_Name <$> files)
  end.

Definition DeleteContents (hostPath mountPath : string) (u : FakeVolumeUtil)
  : option error * FakeVolumeUtil :=
  (if deleteShouldFail u then Some (Errorf "Fake delete contents failed" [] []) else None, u).

Definition getDirEntryCapacity (fullPath entryType : string) (u : FakeVolumeUtil) : result Z :=
  match dir_entry fullPath u with
  | Err e => Err e
  | Ok f =>
      if decide (fde_VolumeType f = entryType) then Ok (fde_Capacity f)
      else Err (Errorf "Directory entry %q is not a %q" [fde_Name f; entryType] [])
  end.

Definition IsLikelyMountPoint (hostPath mountPath : string)
    (mountPointMap : gset string) (u : FakeVolumeUtil) : bool * option error :=
  if bool_decide (mountPath ∈ mountPointMap) then (true, None)
  else (false, Some (Errorf "hostPath=%q wasn't found in the /proc/mounts file"
                       [hostPath] [])).

(** The body of the loop of [AddNewDirEntries]. *)
Definition add_dir_entries (mountDir : string) (u : FakeVolumeUtil)
    (entry : string * list FakeDirEntry) : FakeVolumeUtil :=
  let '(dir, files) := entry in
  let mountedPath := Join [mountDir; dir] in
  let curFiles := default [] (directoryFiles u !! mountedPath) in
  {| directoryFiles := <[mountedPath := (curFiles ++ files)%list]> (directoryFiles u);
     deleteShouldFail := deleteShouldFail u |}.

Definition AddNewDirEntries (mountDir : string) (dirFiles : list (string * list FakeDirEntry))
    (u : FakeVolumeUtil) : FakeVolumeUtil :=
  fold_left (add_dir_entries mountDir) dirFiles u.

#[global] Instance fakeVolumeUtil : VolumeUtil FakeVolumeUtil := {|
  VolumeUtil.IsDir := IsDir;
  VolumeUtil.IsBlock := IsBlock;
  VolumeUtil.IsLikelyMountPoint := IsLikelyMountPoint;
  VolumeUtil.ReadDir := ReadDir;
  VolumeUtil.DeleteContents := DeleteContents;
  VolumeUtil.GetFsCapacityByte h m := getDirEntryCapacity m FakeEntryFile;
  VolumeUtil.GetBlockCapacityByte p := getDirEntryCapacity p FakeEntryBlock |}.
End Fake.

(** ** Node names of a local volume *)

(** One turn of the inner loop: a hostname expression narrows the term's nodes. *)
Definition term_nodes_step (nodes : option (gset string)) (e : NodeSelectorRequirement)
  : option (gset string) :=
  if bool_decide (nsr_Key e = LabelHostname) && bool_decide (nsr_Operator e = NodeSelectorOpIn)
  then match nodes with
       | None => Some (list_to_set (nsr_Values e))
       | Some s => Some (s ∩ list_to_set (nsr_Values e))
       end
  else nodes.

Definition term_nodes (t : NodeSelectorTerm) : option (gset string) :=
  fold_left term_nodes_step (nst_MatchExpressions t) None.

(** [result.Union(nodes)]: a nil set is empty. *)
Definition terms_nodes (ts : list NodeSelectorTerm) : gset string :=
  fold_left (λ acc t, acc ∪ default ∅ (term_nodes t)) ts ∅.

(** [sets.List]: the sorted elements. *)
Definition sets_List (s : gset string) : list string := merge_sort String.le (elements s).

(** [None] is the nil slice; the slice [sets.List] returns is never nil. *)
Definition GetLocalPersistentVolumeNodeNames (pv : PersistentVolume) : option (list string) :=
  match pvs_NodeAffinity (pv_Spec pv) with
  | None => None
  | Some a =>
      match vna_Required a with
      | None => None
      | Some sel => Some (sets_List (terms_nodes (ns_NodeSelectorTerms sel)))
      end
  end.

(** ** Lemmas *)
Lemma elem_of_sets_List x s : x ∈ sets_List s ↔ x ∈ s.
Proof.
  unfold sets_List. rewrite (merge_sort_Permutation String.le (elements s)).
  apply elem_of_elements.
Qed.

Lemma sets_List_sorted s : StronglySorted String.le (sets_List s) ∧ NoDup (sets_List s).
Proof.
  split; [apply StronglySorted_merge_sort; apply _|].
  unfold sets_List. rewrite (merge_sort_Permutation String.le (elements s)).
  apply NoDup_elements.
Qed.

(** A hostname is in a term's nodes when every hostname expression lists it and
    there is one. *)
Definition hostname_in (e : NodeSelectorRequirement) : Prop :=
  nsr_Key e = LabelHostname ∧ nsr_Operator e = NodeSelectorOpIn.

#[export] Instance hostname_in_dec e : Decision (hostname_in e).
Proof. unfold hostname_in. apply _. Defined.

Lemma term_nodes_step_spec nodes e :
  term_nodes_step nodes e =
  if decide (hostname_in e)
  then Some (match nodes with
             | None => list_to_set (nsr_Values e)
             | Some s => s ∩ list_to_set (nsr_Values e)
             end)
  else nodes.
Proof.
  unfold term_nodes_step, hostname_in. repeat case_bool_decide; case_decide; try tauto.
  by destruct nodes.
Qed.

Lemma elem_of_fold_term_nodes es s x :
  (∃ s', fold_left term_nodes_step es (Some s) = Some s' ∧
         (x ∈ s' ↔ x ∈ s ∧ Forall (λ e, hostname_in e → x ∈ nsr_Values e) es)).
Proof.
  revert s. induction es as [|e es IH]; intros s; simpl.
  - exists s. rewrite Forall_nil. naive_solver.
  - rewrite term_nodes_step_spec. case_decide as He.
    + destruct (IH (s ∩ list_to_set (nsr_Values e))) as (s'&E&Hs').
      exists s'. split; [done|].
      rewrite Forall_cons, Hs', elem_of_intersection, elem_of_list_to_set. tauto.
    + destruct (IH s) as (s'&E&Hs'). exists s'. split; [done|].
      rewrite Forall_cons, Hs'. tauto.
Qed.

Lemma elem_of_term_nodes t x :
  x ∈ default ∅ (term_nodes t) ↔
  Exists hostname_in (nst_MatchExpressions t) ∧
  Forall (λ e, hostname_in e → x ∈ nsr_Values e) (nst_MatchExpressions t).
Proof.
  unfold term_nodes. induction (nst_MatchExpressions t) as [|e es IH]; simpl.
  - rewrite Exists_nil. set_solver.
  - rewrite term_nodes_step_spec, Exists_cons, Forall_cons. case_decide as He; [|tauto].
    destruct (elem_of_fold_term_nodes es (list_to_set (nsr_Values e)) x) as (s'&->&Hs').
    simpl. rewrite Hs', elem_of_list_to_set. tauto.
Qed.

Lemma elem_of_fold_terms ts s x :
  x ∈ fold_left (λ acc t, acc ∪ default ∅ (term_nodes t)) ts s ↔
  x ∈ s ∨ Exists (λ t, x ∈ default ∅ (term_nodes t)) ts.
Proof.
  revert s. induction ts as [|t ts IH]; intros s; simpl.
  - rewrite Exists_nil. tauto.
  - rewrite IH, elem_of_union, Exists_cons. tauto.
Qed.

Lemma elem_of_terms_nodes ts x :
  x ∈ terms_nodes ts ↔ Exists (λ t, x ∈ default ∅ (term_nodes t)) ts.
Proof. unfold terms_nodes. rewrite elem_of_fold_terms. set_solver. Qed.
