(* ===== verification/Common.v ===== *)
(** * Common: configuration and helpers of [pkg/common]

    The configuration records, the volume specification the provisioner creates,
    the mapping from a volume to its path inside the container, the reading and
    normalisation of the configuration map, and the predicates on nodes and
    storage classes.  The YAML decoder and encoder, the client builders and the
    order of loops over maps are arguments. *)
From S2P Require Import Prelude GoLib FilePath K8s VolumeUtil.
From Stdlib Require Import Ascii.

(** ** Constants *)
Definition AnnProvisionedBy := "pv.kubernetes.io/provisioned-by".
Definition NodeLabelKey := LabelHostname.
Definition DefaultBlockCleanerCommand := "/scripts/quick_reset.sh".
Definition EventVolumeFailedDelete := "VolumeFailedDelete".
Definition ProvisonerStorageClassConfig := "storageClassMap".
Definition ProvisionerNodeLabelsForPV := "nodeLabelsForPV".
Definition ProvisionerUseAlphaAPI := "useAlphaAPI".
Definition AlphaStorageNodeAffinityAnnotation := "volume.alpha.kubernetes.io/node-affinity".
Definition VolumeDelete := "VolumeDelete".
Definition LocalPVEnv := "LOCAL_PV_BLKDEVICE".
Definition LocalFilesystemEnv := "LOCAL_PV_FILESYSTEM".
Definition KubeConfigEnv := "KUBECONFIG".
Definition NodeNameLabel := "kubernetes.io/hostname".
Definition DefaultVolumeMode := "Filesystem".
Definition DefaultNamePattern := "*".

(** ** Configuration *)

Record MountConfig := {
  HostDir : string;
  MountDir : string;
  BlockCleanerCommand : goslice string;
  mc_VolumeMode : string;
  mc_AccessMode : string;
  mc_FsType : string;
  NamePattern : string;
  Selector : goslice NodeSelectorTerm }.

Record ProvisionerConfiguration := {
  StorageClassConfig : gomap MountConfig;
  pc_NodeLabelsForPV : goslice string;
  pc_UseAlphaAPI : bool;
  pc_UseJobForCleaning : bool;
  pc_JobTolerations : goslice Toleration;
  pc_MinResyncPeriod : Z;
  pc_UseNodeNameOnly : bool;
  pc_LabelsForPV : gomap string;
  pc_SetPVOwnerRef : bool;
  pc_RemoveNodeNotReadyTaint : bool;
  pc_ProvisionerNotReadyNodeTaintKey : string }.

Record UserConfig := {
  uc_Node : Node;
  DiscoveryMap : gomap MountConfig;
  NodeLabelsForPV : goslice string;
  UseAlphaAPI : bool;
  UseJobForCleaning : bool;
  Namespace : string;
  JobContainerImage : string;
  JobTolerations : goslice Toleration;
  MinResyncPeriod : Z;
  UseNodeNameOnly : bool;
  LabelsForPV : gomap string;
  SetPVOwnerRef : bool;
  RemoveNodeNotReadyTaint : bool;
  ProvisionerNotReadyNodeTaintKey : string }.

Record LocalPVConfig := {
  lpc_Name : string;
  lpc_HostPath : string;
  lpc_Capacity : Z;
  lpc_StorageClass : string;
  lpc_ReclaimPolicy : string;
  lpc_ProvisionerName : string;
  lpc_UseAlphaAPI : bool;
  lpc_AffinityAnn : string;
  lpc_NodeAffinity : option VolumeNodeAffinity;
  lpc_VolumeMode : string;
  lpc_AccessMode : string;
  lpc_MountOptions : list string;
  lpc_FsType : option string;
  lpc_Labels : gomap string;
  lpc_SetPVOwnerRef : bool;
  lpc_OwnerReference : option OwnerReference }.

#[export] Instance MountConfig_eq_dec : EqDecision MountConfig.
Proof. solve_decision. Defined.
#[export] Instance ProvisionerConfiguration_eq_dec : EqDecision ProvisionerConfiguration.
Proof. solve_decision. Defined.

(** ** The volume specification *)
Definition CreateLocalPVSpec {S} (config : LocalPVConfig) : M S PersistentVolume :=
  let annotations : gmap string string := {[AnnProvisionedBy := lpc_ProvisionerName config]} in
  let accessModes :=
    if decide (lpc_AccessMode config = "") then [ReadWriteOnce] else [lpc_AccessMode config] in
  let '(annotations, nodeAffinity) :=
    if lpc_UseAlphaAPI config
    then (<[AlphaStorageNodeAffinityAnnotation := lpc_AffinityAnn config]> annotations, None)
    else (annotations, lpc_NodeAffinity config) in
  ownerReferences ←
    (if lpc_SetPVOwnerRef config
     then match lpc_OwnerReference config with
          | Some r => mret [r]
          | None => panic NilDereference
          end
     else mret []);
  mret {|
    pv_meta := {|
      om_Name := lpc_Name config; om_Namespace := ""; om_UID := "";
      om_Labels := lpc_Labels config; om_Annotations := Some annotations;
      om_DeletionTimestamp := None; om_OwnerReferences := ownerReferences |};
    pv_Spec := {|
      pvs_ReclaimPolicy := lpc_ReclaimPolicy config;
      pvs_Capacity := {[ResourceStorage := lpc_Capacity config]};
      pvs_Local := Some {| lvs_Path := lpc_HostPath config; lvs_FSType := lpc_FsType config |};
      pvs_AccessModes := accessModes;
      pvs_StorageClassName := lpc_StorageClass config;
      pvs_VolumeMode := Some (lpc_VolumeMode config);
      pvs_MountOptions := lpc_MountOptions config;
      pvs_NodeAffinity := nodeAffinity;
      pvs_ClaimRef := None |};
    pv_Phase := "" |}.

(** ** The path of a volume inside the provisioner's container *)
Definition GetContainerPath {S} (pv : PersistentVolume) (config : MountConfig)
  : M S (result string) :=
  match pvs_Local (pv_Spec pv) with
  | None => panic NilDereference
  | Some lvs =>
      match Rel (HostDir config) (lvs_Path lvs) with
      | Err err =>
          mret (Err (Errorf "Could not get relative path for pv %q: %v" [pv_Name pv] [err]))
      | Ok relativePath => mret (Ok (Join [MountDir config; relativePath]))
      end
  end.

(** ** Reading the configuration *)
Definition normalizePath (goos path : string) : string :=
  if decide (goos = "windows") then
    let normalizedPath := replace_byte "/"%char "\"%char path in
    if HasPrefix normalizedPath "\" then "c:" +:+ normalizedPath else normalizedPath
  else path.

Definition newline : string := String (Ascii.ascii_of_nat 10) "".

Definition insertSpaces (original : string) : string :=
  fold_left (λ spaced line, spaced +:+ "   " +:+ line +:+ newline)
    (split_on (Ascii.ascii_of_nat 10) original) "".

(** The YAML text of the configuration map; [data] lists it in loop order. *)
Definition raw_yaml (data : list (string * string)) : string :=
  fold_left (λ rawYaml '(key, val), rawYaml +:+ key +:+ ": " +:+ newline +:+ insertSpaces val)
    data "".

(** The body of the loop over storage classes: the new configuration of a class. *)
Definition normalize_class (goos class : string) (config : MountConfig) : result MountConfig :=
  match BlockCleanerCommand config with
  | Some [] => Err (Errorf "Invalid empty block cleaner command for class %v" [class] [])
  | cmd =>
      if decide (MountDir config = "" ∨ HostDir config = "")
      then Err (Errorf "Storage Class %v is misconfigured, missing HostDir or MountDir parameter"
                  [class] [])
      else
        let mode := if decide (mc_VolumeMode config = "") then DefaultVolumeMode
                    else mc_VolumeMode config in
        if decide (mode ≠ PersistentVolumeBlock ∧ mode ≠ PersistentVolumeFilesystem)
        then Err (Errorf "unsupported volume mode %s" [mode] [])
        else Ok {|
          HostDir := normalizePath goos (HostDir config);
          MountDir := normalizePath goos (MountDir config);
          BlockCleanerCommand := Some (default [DefaultBlockCleanerCommand] cmd);
          mc_VolumeMode := mode;
          mc_AccessMode := mc_AccessMode config;
          mc_FsType := mc_FsType config;
          NamePattern := if decide (NamePattern config = "") then DefaultNamePattern
                         else NamePattern config;
          Selector := Selector config |}
  end.

(** The loop: the map is updated class by class until one is invalid. *)
Fixpoint normalize_classes (goos : string) (order : list string)
    (m : gmap string MountConfig) : option error * gmap string MountConfig :=
  match order with
  | [] => (None, m)
  | class :: order' =>
      match m !! class with
      | None => normalize_classes goos order' m
      | Some config =>
          match normalize_class goos class config with
          | Err e => (Some e, m)
          | Ok config' => normalize_classes goos order' (<[class := config']> m)
          end
      end
  end.

Definition with_classes (m : gomap MountConfig) (c : ProvisionerConfiguration)
  : ProvisionerConfiguration := {|
  StorageClassConfig := m;
  pc_NodeLabelsForPV := pc_NodeLabelsForPV c; pc_UseAlphaAPI := pc_UseAlphaAPI c;
  pc_UseJobForCleaning := pc_UseJobForCleaning c; pc_JobTolerations := pc_JobTolerations c;
  pc_MinResyncPeriod := pc_MinResyncPeriod c; pc_UseNodeNameOnly := pc_UseNodeNameOnly c;
  pc_LabelsForPV := pc_LabelsForPV c; pc_SetPVOwnerRef := pc_SetPVOwnerRef c;
  pc_RemoveNodeNotReadyTaint := pc_RemoveNodeNotReadyTaint c;
  pc_ProvisionerNotReadyNodeTaintKey := pc_ProvisionerNotReadyNodeTaintKey c |}.

Section config.
(** The platform, [yaml.Unmarshal] into an existing configuration (what it leaves
    there, also after an error), and the orders in which the loops over the two maps
    run. *)
Context (goos : string).
Context (Unmarshal : string → ProvisionerConfiguration → option error * ProvisionerConfiguration).
Context (data_order : gmap string string → list (string * string)).
Context (class_order : gmap string MountConfig → list string).

Definition ConfigMapDataToVolumeConfig (data : gmap string string)
    (provisionerConfig : ProvisionerConfiguration) : option error * ProvisionerConfiguration :=
  match Unmarshal (raw_yaml (data_order data)) provisionerConfig with
  | (Some err, config) => (Some (Errorf "fail to Unmarshal yaml due to: %#v" [] [err]), config)
  | (None, config) =>
      match StorageClassConfig config with
      | None => (None, config)
      | Some m =>
          let '(err, m') := normalize_classes goos (class_order m) m in
          (err, with_classes (Some m') config)
      end
  end.

(** [LoadProvisionerConfigs]: the directory listing (names and whether they are
    directories) and the reading of files are given. *)
Fixpoint load_files (files : list (string * bool)) (ReadFile : string → result string)
    (configPath : string) (data : gmap string string) : result (gmap string string) :=
  match files with
  | [] => Ok data
  | (name, isDir) :: files' =>
      if isDir then load_files files' ReadFile configPath data
      else if decide (name = "..data") then load_files files' ReadFile configPath data
      else match ReadFile (Join [configPath; name]) with
           | Err err => Err err
           | Ok contents => load_files files' ReadFile configPath (<[name := contents]> data)
           end
  end.

Definition LoadProvisionerConfigs (ioutil_ReadDir : string → result (list (string * bool)))
    (ReadFile : string → result string) (configPath : string)
    (provisionerConfig : ProvisionerConfiguration) : option error * ProvisionerConfiguration :=
  match ioutil_ReadDir configPath with
  | Err err => (Some err, provisionerConfig)
  | Ok files =>
      match load_files files ReadFile configPath ∅ with
      | Err err => (Some err, provisionerConfig)
      | Ok data => ConfigMapDataToVolumeConfig data provisionerConfig
      end
  end.

(** [GetVolumeConfigFromConfigMap]: the same from the API server's object. *)
Definition GetVolumeConfigFromConfigMap (configMap : result (gmap string string))
    (provisionerConfig : ProvisionerConfiguration) : option error * ProvisionerConfiguration :=
  match configMap with
  | Err err => (Some err, provisionerConfig)
  | Ok data => ConfigMapDataToVolumeConfig data provisionerConfig
  end.
End config.

(** [VolumeConfigToConfigMapData]: [yaml.Marshal] at the three types it is used. *)
Definition VolumeConfigToConfigMapData
    (MarshalClasses : gomap MountConfig → result string)
    (MarshalStrings : list string → result string) (MarshalBool : bool → result string)
    (config : ProvisionerConfiguration) : result (gmap string string) :=
  match MarshalClasses (StorageClassConfig config) with
  | Err e => Err (Errorf "unable to Marshal volume config: %v" [] [e])
  | Ok val =>
      let data : gmap string string := {[ProvisonerStorageClassConfig := val]} in
      let withLabels :=
        match elems (pc_NodeLabelsForPV config) with
        | [] => Ok data
        | labels =>
            match MarshalStrings labels with
            | Err e => Err (Errorf "unable to Marshal node label: %v" [] [e])
            | Ok nodeLabels => Ok (<[ProvisionerNodeLabelsForPV := nodeLabels]> data)
            end
        end in
      match withLabels with
      | Err e => Err e
      | Ok data =>
          match MarshalBool (pc_UseAlphaAPI config) with
          | Err e => Err (Errorf "unable to Marshal API version config: %v" [] [e])
          | Ok ver => Ok (<[ProvisionerUseAlphaAPI := ver]> data)
          end
      end
  end.

Definition UserConfigFromProvisionerConfig (node : Node) (namespace jobImage : string)
    (config : ProvisionerConfiguration) : UserConfig := {|
  uc_Node := node;
  DiscoveryMap := StorageClassConfig config;
  NodeLabelsForPV := pc_NodeLabelsForPV config;
  UseAlphaAPI := pc_UseAlphaAPI config;
  UseJobForCleaning := pc_UseJobForCleaning config;
  Namespace := namespace;
  JobContainerImage := jobImage;
  JobTolerations := pc_JobTolerations config;
  MinResyncPeriod := pc_MinResyncPeriod config;
  UseNodeNameOnly := pc_UseNodeNameOnly config;
  LabelsForPV := pc_LabelsForPV config;
  SetPVOwnerRef := pc_SetPVOwnerRef config;
  RemoveNodeNotReadyTaint := pc_RemoveNodeNotReadyTaint config;
  ProvisionerNotReadyNodeTaintKey := pc_ProvisionerNotReadyNodeTaintKey config |}.

(** [SetupClient]: a kubeconfig file when the variable is set, in-cluster otherwise. *)
Definition SetupClient {S RestConfig Clientset} (kubeconfigFile : string)
    (BuildConfigFromFlags : string → string → result RestConfig)
    (InClusterConfig : result RestConfig)
    (NewForConfig : RestConfig → result Clientset) : M S Clientset :=
  config ←
    (if decide (kubeconfigFile = "")
     then match InClusterConfig with
          | Ok c => mret c
          | Err _ => panic (Fatal "Error creating InCluster config")
          end
     else match BuildConfigFromFlags "" kubeconfigFile with
          | Ok c => mret c
          | Err _ => panic (Fatal "Error creating config from specified file")
          end);
  match NewForConfig config with
  | Ok clientset => mret clientset
  | Err _ => panic (Fatal "Error creating clientset")
  end.

Definition GenerateMountName (mount : MountConfig) : string :=
  let h := fnv32a_write (fnv32a_write fnv_offset32 (HostDir mount)) (MountDir mount) in
  "mount-" +:+ format_x h.

(** ** Volume mode of a path *)
Definition GetVolumeMode {FS} `{VolumeUtil FS} (goos fullPath : string) (fs : FS)
  : result string :=
  if decide (goos = "windows") then Ok PersistentVolumeFilesystem
  else
    let '(isdir, errdir) := IsDir fullPath fs in
    if isdir then Ok PersistentVolumeFilesystem
    else
      let '(isblk, errblk) := IsBlock fullPath fs in
      if isblk then Ok PersistentVolumeBlock
      else match errdir, errblk with
           | None, None =>
               Err (Errorf "Skipping file %q: not a directory nor block device" [fullPath] [])
           | Some e, _ => Err (Errorf "Directory check for %q failed: %s" [fullPath] [e])
           | None, Some e => Err (Errorf "Block device check for %q failed: %s" [fullPath] [e])
           end.

(** ** Nodes and storage classes *)
Fixpoint AnyNodeExists (nodeLister : NodeLister) (nodeNames : list string) : bool :=
  match nodeNames with
  | [] => false
  | nodeName :: rest =>
      match nl_Get nodeLister nodeName with
      | Ok _ => true
      | Err err =>
          if negb (IsNotFound err) then true
          else match requirement_equals NodeLabelKey nodeName with
               | Err _ => true
               | Ok req =>
                   match nl_List nodeLister req with
                   | Err _ => true
                   | Ok [] => AnyNodeExists nodeLister rest
                   | Ok (_ :: _) => true
                   end
               end
      end
  end.

Fixpoint class_listed (class : string) (storageClassNames : list string) : bool :=
  match storageClassNames with
  | [] => false
  | name :: rest => if decide (class = name) then true else class_listed class rest
  end.

Definition IsLocalPVWithStorageClass (pv : PersistentVolume) (storageClassNames : list string)
  : bool :=
  match pvs_Local (pv_Spec pv) with
  | None => false
  | Some _ => class_listed (pvs_StorageClassName (pv_Spec pv)) storageClassNames
  end.

(** ** Lemmas: normalisation of the configuration *)

(** What the rest of the program relies on in the configuration of a class. *)
Definition config_ok (c : MountConfig) : Prop :=
  (∃ exe args, BlockCleanerCommand c = Some (exe :: args)) ∧
  HostDir c ≠ "" ∧ MountDir c ≠ "" ∧ NamePattern c ≠ "" ∧
  (mc_VolumeMode c = PersistentVolumeBlock ∨ mc_VolumeMode c = PersistentVolumeFilesystem).

Lemma normalizePath_empty goos p : normalizePath goos p = "" ↔ p = "".
Proof.
  unfold normalizePath. case_decide; [|done]. destruct p as [|c p]; [done|].
  split; [|done]. intros Hp. exfalso. revert Hp.
  cbn [replace_byte HasPrefix]. by destruct (Ascii.eqb _ _ && _).
Qed.

Lemma replace_byte_idemp o n s : n ≠ o → replace_byte o n (replace_byte o n s) = replace_byte o n s.
Proof.
  intros Hne. induction s as [|c s IH]; simpl; [done|]. rewrite IH. f_equal.
  destruct (Ascii.eqb c o) eqn:E; [|by rewrite E].
  by destruct (Ascii.eqb_spec n o).
Qed.

Lemma normalizePath_idemp goos p :
  normalizePath goos (normalizePath goos p) = normalizePath goos p.
Proof.
  unfold normalizePath. case_decide; [|done].
  destruct (HasPrefix (replace_byte _ _ p) _) eqn:E.
  - change ("c:" +:+ ?s) with (String "c" (String ":" s)). simpl.
    by rewrite replace_byte_idemp by done.
  - by rewrite replace_byte_idemp, E by done.
Qed.

Lemma supported_mode (mode : string) :
  ¬ (mode ≠ PersistentVolumeBlock ∧ mode ≠ PersistentVolumeFilesystem) →
  mode = PersistentVolumeBlock ∨ mode = PersistentVolumeFilesystem.
Proof.
  intros H. destruct (decide (mode = PersistentVolumeBlock)); [by left|].
  destruct (decide (mode = PersistentVolumeFilesystem)); [by right|tauto].
Qed.

Lemma normalize_class_ok goos class c c' :
  normalize_class goos class c = Ok c' → config_ok c'.
Proof.
  unfold normalize_class. intros H.
  destruct (BlockCleanerCommand c) as [[|exe args]|]; [done| |];
    (destruct (decide (MountDir c = "" ∨ HostDir c = "")) as [|Hd]; [done|]);
    (destruct (decide (_ ∧ _)) as [|Hv]; [done|]); injection H as <-;
    apply supported_mode in Hv; (split_and!; simpl; [eauto|..|done]);
    rewrite ?normalizePath_empty; try tauto;
    by destruct (decide (NamePattern c = "")).
Qed.

Lemma normalize_class_fixpoint goos class c c' :
  normalize_class goos class c = Ok c' → normalize_class goos class c' = Ok c'.
Proof.
  intros H. pose proof (normalize_class_ok _ _ _ _ H) as ((exe&args&Hcmd)&Hh&Hm&Hp&Hv).
  assert (normalizePath goos (HostDir c') = HostDir c' ∧
          normalizePath goos (MountDir c') = MountDir c') as [Hh' Hm'].
  { revert H. unfold normalize_class. destruct (BlockCleanerCommand c) as [[]|]; try done;
      repeat (case_decide; try done); intros [= <-]; simpl; by rewrite !normalizePath_idemp. }
  unfold normalize_class. rewrite Hcmd.
  rewrite decide_False by tauto.
  rewrite (decide_False (P := mc_VolumeMode c' = "")) by (destruct Hv as [-> | ->]; done).
  rewrite decide_False by (destruct Hv as [-> | ->]; naive_solver).
  rewrite decide_False by done. rewrite Hh', Hm'. destruct c'; simpl in *. by subst.
Qed.

(** The loop in any order that visits each class once. *)
Lemma normalize_classes_ok goos order m m' :
  NoDup order →
  normalize_classes goos order m = (None, m') →
  ∀ k, match m !! k with
       | None => m' !! k = None
       | Some c =>
           if decide (k ∈ order)
           then ∃ c', normalize_class goos k c = Ok c' ∧ m' !! k = Some c'
           else m' !! k = Some c
       end.
Proof.
  revert m. induction order as [|class order IH]; intros m Hnd H k; simpl in H.
  { simplify_eq. destruct (m' !! k); [|done]. by rewrite decide_False by set_solver. }
  apply NoDup_cons in Hnd as [Hnin Hnd].
  destruct (m !! class) as [c|] eqn:E.
  - destruct (normalize_class goos class c) as [c'|] eqn:En; [|done].
    specialize (IH _ Hnd H k). destruct (decide (k = class)) as [-> |Hk].
    + rewrite lookup_insert_eq in IH. rewrite decide_False in IH by done.
      rewrite E, decide_True by set_solver. eauto.
    + rewrite lookup_insert_ne in IH by done. destruct (m !! k); [|done].
      destruct (decide (k ∈ order)).
      * rewrite decide_True by set_solver. done.
      * rewrite decide_False by set_solver. done.
  - specialize (IH _ Hnd H k). destruct (m !! k) eqn:Ek; [|done].
    assert (k ≠ class) by congruence. destruct (decide (k ∈ order)).
    + rewrite decide_True by set_solver. done.
    + rewrite decide_False by set_solver. done.
Qed.

(** An error of the loop is the error of a class it visited. *)
Lemma normalize_classes_err goos order m e m' :
  NoDup order →
  normalize_classes goos order m = (Some e, m') →
  ∃ k c, k ∈ order ∧ m !! k = Some c ∧ normalize_class goos k c = Err e.
Proof.
  revert m. induction order as [|class order IH]; intros m Hnd H; simpl in H; [done|].
  apply NoDup_cons in Hnd as [Hnin Hnd].
  destruct (m !! class) as [c|] eqn:E.
  - destruct (normalize_class goos class c) as [c'|e'] eqn:En.
    + destruct (IH _ Hnd H) as (k&ck&Hk&Hm&Hn).
      rewrite lookup_insert_ne in Hm by set_solver. exists k, ck. set_solver.
    + simplify_eq. exists class, c. set_solver.
  - destruct (IH _ Hnd H) as (k&ck&Hk&Hm&Hn). exists k, ck. set_solver.
Qed.

(** ** Properties *)

(** C22. Reading the configuration.  Whatever the order of the loop, the
    configuration is accepted exactly when every storage class of the decoded
    document passes the checks; then each class is replaced by its normalised
    form, which has a non-empty cleaner command, directories, a name pattern and a
    supported volume mode, and which normalising again leaves unchanged. *)
Theorem config_accepted_iff goos Unmarshal data_order class_order data cfg config :
  (∀ m, class_order m ≡ₚ (map_to_list m).*1) →
  Unmarshal (raw_yaml (data_order data)) cfg = (None, config) →
  let r := ConfigMapDataToVolumeConfig goos Unmarshal data_order class_order data cfg in
  (fst r = None ↔
     ∀ k c, map_get (StorageClassConfig config) k = Some c →
       ∃ c', normalize_class goos k c = Ok c') ∧
  (fst r = None → ∀ k,
     match map_get (StorageClassConfig config) k with
     | None => map_get (StorageClassConfig (snd r)) k = None
     | Some c => ∃ c', normalize_class goos k c = Ok c' ∧ config_ok c' ∧
         normalize_class goos k c' = Ok c' ∧
         map_get (StorageClassConfig (snd r)) k = Some c'
     end).
Proof.
  intros Hord HU r. subst r. unfold ConfigMapDataToVolumeConfig. rewrite HU.
  destruct (StorageClassConfig config) as [m|] eqn:Em; [|simpl; rewrite Em; naive_solver].
  assert (NoDup (class_order m)) as Hnd.
  { rewrite Hord. apply NoDup_fst_map_to_list. }
  assert (∀ k c, m !! k = Some c → k ∈ class_order m) as Hin.
  { intros k c Hk. rewrite Hord. apply list_elem_of_fmap. exists (k, c).
    by rewrite elem_of_map_to_list. }
  destruct (normalize_classes goos (class_order m) m) as [[e|] m'] eqn:E; simpl.
  - destruct (normalize_classes_err _ _ _ _ _ Hnd E) as (k&c&_&Hk&Hn).
    split; [|done]. split; [done|]. intros H. destruct (H k c Hk) as [c' Hc']. congruence.
  - pose proof (normalize_classes_ok _ _ _ _ Hnd E) as HK. split.
    + split; [|done]. intros _ k c Hk. specialize (HK k). rewrite Hk in HK.
      rewrite decide_True in HK by eauto. naive_solver.
    + intros _ k. specialize (HK k). destruct (m !! k) as [c|] eqn:Ek; [|done].
      rewrite decide_True in HK by eauto. destruct HK as (c'&Hn&Hm').
      eauto 10 using normalize_class_ok, normalize_class_fixpoint.
Qed.

Definition sample_mount : MountConfig := {|
  HostDir := "/mnt/disks"; MountDir := "/mnt/disks"; BlockCleanerCommand := None;
  mc_VolumeMode := ""; mc_AccessMode := ""; mc_FsType := "ext4"; NamePattern := "";
  Selector := None |}.

Definition sample_configuration : ProvisionerConfiguration := {|
  StorageClassConfig := Some {["local-storage" := sample_mount]};
  pc_NodeLabelsForPV := None; pc_UseAlphaAPI := true; pc_UseJobForCleaning := false;
  pc_JobTolerations := None; pc_MinResyncPeriod := 5400; pc_UseNodeNameOnly := false;
  pc_LabelsForPV := None; pc_SetPVOwnerRef := false; pc_RemoveNodeNotReadyTaint := false;
  pc_ProvisionerNotReadyNodeTaintKey := "" |}.

Lemma config_accepted_iff_witness :
  fst (ConfigMapDataToVolumeConfig "linux" (λ _ _, (None, sample_configuration)) map_to_list
         (λ m, (map_to_list m).*1) ∅ sample_configuration) = None ∧
  ∀ k c, map_get (StorageClassConfig sample_configuration) k = Some c →
    ∃ c', normalize_class "linux" k c = Ok c'.
Proof.
  pose proof (config_accepted_iff "linux" (λ _ _, (None, sample_configuration)) map_to_list
    (λ m, (map_to_list m).*1) ∅ sample_configuration sample_configuration
    (λ m, reflexivity _) eq_refl) as [H _].
  assert (fst (ConfigMapDataToVolumeConfig "linux" (λ _ _, (None, sample_configuration)) map_to_list
         (λ m, (map_to_list m).*1) ∅ sample_configuration) = None) as E by (vm_compute; reflexivity).
  split; [exact E|]. apply H. exact E.
Defined.

(** C23. A discovered volume is found again.  The discoverer gives a volume the
    path [Join(HostDir, file)] for a directory entry [file]; the deleter maps that
    path back to [Join(MountDir, file)], the very path that was inspected when the
    volume was discovered, for all host and mount directories (also relative or
    unclean ones). *)
Theorem container_path_of_discovered {S} (s : S) pv config file fsType :
  HostDir config ≠ "" → plain_name file →
  pvs_Local (pv_Spec pv) =
    Some {| lvs_Path := Join [HostDir config; file]; lvs_FSType := fsType |} →
  GetContainerPath pv config s = Done (Ok (Join [MountDir config; file])) s.
Proof.
  intros Hh Hf Hl. unfold GetContainerPath. rewrite Hl. simpl. by rewrite Rel_Join.
Qed.

Definition sample_pv (name class path : string) : PersistentVolume := {|
  pv_meta := named name;
  pv_Spec := {|
    pvs_ReclaimPolicy := PersistentVolumeReclaimDelete; pvs_Capacity := ∅;
    pvs_Local := Some {| lvs_Path := path; lvs_FSType := None |};
    pvs_AccessModes := []; pvs_StorageClassName := class; pvs_VolumeMode := None;
    pvs_MountOptions := []; pvs_NodeAffinity := None; pvs_ClaimRef := None |};
  pv_Phase := VolumeReleased |}.

Lemma container_path_of_discovered_witness :
  GetContainerPath (sample_pv "pv" "sc" (Join ["/mnt/disks"; "vol1"])) sample_mount tt =
  Done (Ok "/mnt/disks/vol1") tt.
Proof.
  etransitivity.
  - apply (container_path_of_discovered tt (sample_pv "pv" "sc" (Join ["/mnt/disks"; "vol1"]))
      sample_mount "vol1" None); [discriminate|split_and!; done|reflexivity].
  - vm_compute. reflexivity.
Defined.

(** What [AnyNodeExists] decides on an informer's store. *)
Lemma AnyNodeExists_store nodes names :
  AnyNodeExists (store_lister nodes) names = true ↔
  ∃ name, name ∈ names ∧
    ((∃ n, n ∈ nodes ∧ node_Name n = name) ∨
     valid_label_value name = false ∨
     ∃ n, n ∈ nodes ∧ map_get (om_Labels (node_meta n)) NodeLabelKey = Some name).
Proof.
  induction names as [|name names IH]; simpl.
  { split; [done|]. intros (?&?%not_elem_of_nil&_). done. }
  destruct (filter (λ n, node_Name n = name) nodes) as [|n l] eqn:Ef.
  - assert (∀ n, n ∈ nodes → node_Name n ≠ name) as Hno.
    { intros n Hn Hname. apply (not_elem_of_nil n). rewrite <-Ef.
      by apply list_elem_of_filter. }
    simpl. unfold requirement_equals. destruct (valid_label_value name) eqn:Ev; simpl.
    + destruct (List.filter _ nodes) as [|n l] eqn:El.
      * rewrite IH. split; [naive_solver set_solver|].
        intros (x&[-> |Hx]%elem_of_cons&Hcase); [|eauto]. exfalso.
        destruct Hcase as [(n&Hn&Hname)|[?|(n&Hn&Hlbl)]]; [by eapply Hno|congruence|].
        assert (n ∈ List.filter
          (λ n, bool_decide (map_get (om_Labels (node_meta n)) NodeLabelKey = Some name)) nodes)
          as Hin by (apply list_elem_of_In, filter_In; split;
                     [by apply list_elem_of_In|by apply bool_decide_eq_true]).
        rewrite El in Hin. by apply not_elem_of_nil in Hin.
      * split; [intros _|done]. exists name. split; [left|]. right; right.
        assert (In n (n :: l)) as Hin by (by left). rewrite <-El in Hin.
        apply filter_In in Hin as [Hn Hb%bool_decide_eq_true]. exists n.
        by rewrite list_elem_of_In.
    + split; [intros _|done]. exists name. split; [left|by right; left].
  - split; [intros _|done]. exists name. split; [left|]. left. exists n.
    assert (n ∈ filter (λ n, node_Name n = name) nodes) as Hn by (rewrite Ef; left).
    apply list_elem_of_filter in Hn. tauto.
Qed.
