(* ===== verification/Cache.v ===== *)
(** * Cache: the volume cache of [pkg/cache]

    [VolumeCache] is a map from names to volumes behind a mutex: each operation
    holds the lock from its first to its last statement, so operations are atomic
    functions of the map.  The loops over the map run in an unspecified order;
    [ListPVs] fixes one, and [cache_order] is the set of all of them. *)
From S2P Require Import Prelude GoLib K8s.

Module VolumeCache.

Definition NewVolumeCache : gmap string PersistentVolume := ∅.

Definition GetPV (pvName : string) (pvs : gmap string PersistentVolume)
  : option PersistentVolume := pvs !! pvName.

Definition AddPV (pv : PersistentVolume) (pvs : gmap string PersistentVolume)
  : gmap string PersistentVolume := <[pv_Name pv := pv]> pvs.

Definition UpdatePV (pv : PersistentVolume) (pvs : gmap string PersistentVolume)
  : gmap string PersistentVolume := <[pv_Name pv := pv]> pvs.

Definition DeletePV (pvName : string) (pvs : gmap string PersistentVolume)
  : gmap string PersistentVolume := delete pvName pvs.

Definition ListPVs (pvs : gmap string PersistentVolume) : list PersistentVolume :=
  (map_to_list pvs).*2.

(** The local path of a volume matches. *)
Definition has_local_path (filePath : string) (pv : PersistentVolume) : bool :=
  match pvs_Local (pv_Spec pv) with
  | None => false
  | Some lvs => bool_decide (lvs_Path lvs = filePath)
  end.

Definition LookupPVsByPath (filePath : string) (pvs : gmap string PersistentVolume)
  : list string := pv_Name <$> List.filter (has_local_path filePath) (ListPVs pvs).

(** Every order a loop over the map may take. *)
Definition cache_order (pvs : gmap string PersistentVolume) (l : list PersistentVolume) : Prop :=
  l ≡ₚ ListPVs pvs.

(** ** Invariant: a volume is stored under its own name *)
Definition keyed (pvs : gmap string PersistentVolume) : Prop :=
  map_Forall (λ name pv, pv_Name pv = name) pvs.

Lemma keyed_New : keyed NewVolumeCache.
Proof. apply map_Forall_empty. Qed.

Lemma keyed_Add pv pvs : keyed pvs → keyed (AddPV pv pvs).
Proof. intros H. by apply map_Forall_insert_2. Qed.

Lemma keyed_Update pv pvs : keyed pvs → keyed (UpdatePV pv pvs).
Proof. apply keyed_Add. Qed.

Lemma keyed_Delete name pvs : keyed pvs → keyed (DeletePV name pvs).
Proof. intros H. by apply map_Forall_delete. Qed.

Lemma elem_of_ListPVs pv pvs : pv ∈ ListPVs pvs ↔ ∃ name, pvs !! name = Some pv.
Proof.
  unfold ListPVs. rewrite list_elem_of_fmap. split.
  - intros ([name pv']&->&H%elem_of_map_to_list). by exists name.
  - intros [name H]. exists (name, pv). by rewrite elem_of_map_to_list.
Qed.

Lemma elem_of_LookupPVsByPath path pvs name :
  name ∈ LookupPVsByPath path pvs ↔
  ∃ key pv, pvs !! key = Some pv ∧ pv_Name pv = name ∧ has_local_path path pv = true.
Proof.
  unfold LookupPVsByPath. rewrite list_elem_of_fmap. split.
  - intros (pv&->&H). apply list_elem_of_In, filter_In in H as [H1 H2].
    apply list_elem_of_In, elem_of_ListPVs in H1 as [key H1]. eauto.
  - intros (key&pv&H1&<-&H2). exists pv. split; [done|].
    apply list_elem_of_In, filter_In. split; [|done].
    apply list_elem_of_In, elem_of_ListPVs. eauto.
Qed.

Lemma LookupPVsByPath_nil path pvs :
  LookupPVsByPath path pvs = [] ↔ ∀ key pv, pvs !! key = Some pv → has_local_path path pv = false.
Proof.
  split.
  - intros H key pv Hpv. apply not_true_is_false. intros Hp.
    assert (pv_Name pv ∈ LookupPVsByPath path pvs) as Hin
      by (apply elem_of_LookupPVsByPath; eauto).
    rewrite H in Hin. by apply not_elem_of_nil in Hin.
  - intros H. destruct (LookupPVsByPath path pvs) as [|name l] eqn:E; [done|].
    assert (name ∈ LookupPVsByPath path pvs) as Hin by (rewrite E; left).
    apply elem_of_LookupPVsByPath in Hin as (key&pv&H1&_&H2).
    by rewrite (H key pv H1) in H2.
Qed.

#[export] Hint Resolve keyed_New keyed_Add keyed_Update keyed_Delete : golang.
End VolumeCache.
