(* ===== verification/Metrics.v ===== *)
(** * Metrics: the counters of [pkg/metrics]

    The Prometheus vectors the program updates, as maps from label values to
    numbers (a histogram is represented by its number of observations), and
    [CapacityBreakDown], whose [float64] arithmetic is computed with the
    standard library's executable IEEE-754 operations. *)
From S2P Require Import Prelude GoLib.
From Stdlib Require Import SpecFloat.

Definition MiB : Z := 1048576.
Definition GiB : Z := 1073741824.

Definition APIServerRequestCreate := "create".
Definition APIServerRequestDelete := "delete".
Definition DeleteTypeProcess := "process".
Definition DeleteTypeJob := "job".

Record Metrics := {
  PersistentVolumeCapacityBytes : gmap string spec_float;
  PersistentVolumeDiscoveryTotal : gmap string Z;
  PersistentVolumeDiscoveryDurationSeconds : gmap string Z;
  PersistentVolumeDeleteTotal : gmap (string * string) Z;
  PersistentVolumeDeleteFailedTotal : gmap (string * string) Z;
  PersistentVolumeDeleteDurationSeconds : gmap (string * string * string * string) Z;
  APIServerRequestsTotal : gmap string Z;
  APIServerRequestsFailedTotal : gmap string Z;
  APIServerRequestsDurationSeconds : gmap string Z }.

Definition no_metrics : Metrics := {|
  PersistentVolumeCapacityBytes := ∅; PersistentVolumeDiscoveryTotal := ∅;
  PersistentVolumeDiscoveryDurationSeconds := ∅; PersistentVolumeDeleteTotal := ∅;
  PersistentVolumeDeleteFailedTotal := ∅; PersistentVolumeDeleteDurationSeconds := ∅;
  APIServerRequestsTotal := ∅; APIServerRequestsFailedTotal := ∅;
  APIServerRequestsDurationSeconds := ∅ |}.

(** [.WithLabelValues(k).Inc()], and [.Observe] as a count. *)
Definition inc {K} `{Countable K} (k : K) (m : gmap K Z) : gmap K Z :=
  <[k := (1 + default 0%Z (m !! k))%Z]> m.

(** [float64(z)], rounded to nearest even. *)
Definition float64_of_Z (z : Z) : spec_float := binary_normalize 53 1024 z 0 false.

(** [.Set(float64(v))]. *)
Definition set_capacity (mode : string) (v : Z) (m : Metrics) : Metrics := {|
  PersistentVolumeCapacityBytes := <[mode := float64_of_Z v]> (PersistentVolumeCapacityBytes m);
  PersistentVolumeDiscoveryTotal := PersistentVolumeDiscoveryTotal m;
  PersistentVolumeDiscoveryDurationSeconds := PersistentVolumeDiscoveryDurationSeconds m;
  PersistentVolumeDeleteTotal := PersistentVolumeDeleteTotal m;
  PersistentVolumeDeleteFailedTotal := PersistentVolumeDeleteFailedTotal m;
  PersistentVolumeDeleteDurationSeconds := PersistentVolumeDeleteDurationSeconds m;
  APIServerRequestsTotal := APIServerRequestsTotal m;
  APIServerRequestsFailedTotal := APIServerRequestsFailedTotal m;
  APIServerRequestsDurationSeconds := APIServerRequestsDurationSeconds m |}.

Definition inc_discovery (mode : string) (m : Metrics) : Metrics := {|
  PersistentVolumeCapacityBytes := PersistentVolumeCapacityBytes m;
  PersistentVolumeDiscoveryTotal := inc mode (PersistentVolumeDiscoveryTotal m);
  PersistentVolumeDiscoveryDurationSeconds :=
    inc mode (PersistentVolumeDiscoveryDurationSeconds m);
  PersistentVolumeDeleteTotal := PersistentVolumeDeleteTotal m;
  PersistentVolumeDeleteFailedTotal := PersistentVolumeDeleteFailedTotal m;
  PersistentVolumeDeleteDurationSeconds := PersistentVolumeDeleteDurationSeconds m;
  APIServerRequestsTotal := APIServerRequestsTotal m;
  APIServerRequestsFailedTotal := APIServerRequestsFailedTotal m;
  APIServerRequestsDurationSeconds := APIServerRequestsDurationSeconds m |}.

Definition inc_delete (mode deleteType : string) (m : Metrics) : Metrics := {|
  PersistentVolumeCapacityBytes := PersistentVolumeCapacityBytes m;
  PersistentVolumeDiscoveryTotal := PersistentVolumeDiscoveryTotal m;
  PersistentVolumeDiscoveryDurationSeconds := PersistentVolumeDiscoveryDurationSeconds m;
  PersistentVolumeDeleteTotal := inc (mode, deleteType) (PersistentVolumeDeleteTotal m);
  PersistentVolumeDeleteFailedTotal := PersistentVolumeDeleteFailedTotal m;
  PersistentVolumeDeleteDurationSeconds := PersistentVolumeDeleteDurationSeconds m;
  APIServerRequestsTotal := APIServerRequestsTotal m;
  APIServerRequestsFailedTotal := APIServerRequestsFailedTotal m;
  APIServerRequestsDurationSeconds := APIServerRequestsDurationSeconds m |}.

Definition inc_delete_failed (mode deleteType : string) (m : Metrics) : Metrics := {|
  PersistentVolumeCapacityBytes := PersistentVolumeCapacityBytes m;
  PersistentVolumeDiscoveryTotal := PersistentVolumeDiscoveryTotal m;
  PersistentVolumeDiscoveryDurationSeconds := PersistentVolumeDiscoveryDurationSeconds m;
  PersistentVolumeDeleteTotal := PersistentVolumeDeleteTotal m;
  PersistentVolumeDeleteFailedTotal :=
    inc (mode, deleteType) (PersistentVolumeDeleteFailedTotal m);
  PersistentVolumeDeleteDurationSeconds := PersistentVolumeDeleteDurationSeconds m;
  APIServerRequestsTotal := APIServerRequestsTotal m;
  APIServerRequestsFailedTotal := APIServerRequestsFailedTotal m;
  APIServerRequestsDurationSeconds := APIServerRequestsDurationSeconds m |}.

Definition observe_delete (mode deleteType capacity command : string) (m : Metrics)
  : Metrics := {|
  PersistentVolumeCapacityBytes := PersistentVolumeCapacityBytes m;
  PersistentVolumeDiscoveryTotal := PersistentVolumeDiscoveryTotal m;
  PersistentVolumeDiscoveryDurationSeconds := PersistentVolumeDiscoveryDurationSeconds m;
  PersistentVolumeDeleteTotal := PersistentVolumeDeleteTotal m;
  PersistentVolumeDeleteFailedTotal := PersistentVolumeDeleteFailedTotal m;
  PersistentVolumeDeleteDurationSeconds :=
    inc (mode, deleteType, capacity, command) (PersistentVolumeDeleteDurationSeconds m);
  APIServerRequestsTotal := APIServerRequestsTotal m;
  APIServerRequestsFailedTotal := APIServerRequestsFailedTotal m;
  APIServerRequestsDurationSeconds := APIServerRequestsDurationSeconds m |}.

(** One request to the API server, and whether it failed. *)
Definition count_request (method : string) (failed : bool) (m : Metrics) : Metrics := {|
  PersistentVolumeCapacityBytes := PersistentVolumeCapacityBytes m;
  PersistentVolumeDiscoveryTotal := PersistentVolumeDiscoveryTotal m;
  PersistentVolumeDiscoveryDurationSeconds := PersistentVolumeDiscoveryDurationSeconds m;
  PersistentVolumeDeleteTotal := PersistentVolumeDeleteTotal m;
  PersistentVolumeDeleteFailedTotal := PersistentVolumeDeleteFailedTotal m;
  PersistentVolumeDeleteDurationSeconds := PersistentVolumeDeleteDurationSeconds m;
  APIServerRequestsTotal := inc method (APIServerRequestsTotal m);
  APIServerRequestsFailedTotal :=
    if failed then inc method (APIServerRequestsFailedTotal m)
    else APIServerRequestsFailedTotal m;
  APIServerRequestsDurationSeconds := inc method (APIServerRequestsDurationSeconds m) |}.

(** ** [CapacityBreakDown] *)

Definition float64_div (x y : spec_float) : spec_float := SFdiv 53 1024 x y.

(** [int64(math.Ceil(x))] for finite [x]. *)
Definition ceil_to_Z (x : spec_float) : Z :=
  match x with
  | S754_finite s m e =>
      let z := if s then Z.neg m else Z.pos m in
      if (0 <=? e)%Z then (z * 2 ^ e)%Z else (- ((- z) / 2 ^ (- e)))%Z
  | _ => 0%Z
  end.

Definition CapacityBreakDown (capacityBytes : Z) : string :=
  let n := ceil_to_Z (float64_div (float64_of_Z capacityBytes) (float64_of_Z (500 * GiB))) in
  format_d (n * 500) +:+ "G".
