(* ===== verification/ProcTable.v ===== *)
(** * ProcTable: the table of cleanup processes of [pkg/deleter]

    The interface [ProcTable] of proctable.go as a class, what it promises to its
    clients ([ProcTableLaws]: every operation acts on an abstract map of entries),
    the implementation [ProcTableImpl] with its counters, and the counting wrapper
    [FakeProcTableImpl] around any implementation.  Each operation runs under the
    table's lock, so operations are atomic. *)
From S2P Require Import Prelude GoLib.

Inductive CleanupState :=
| CSUnknown
| CSNotFound
| CSRunning
| CSFailed
| CSSucceeded.

#[export] Instance CleanupState_eq_dec : EqDecision CleanupState.
Proof. solve_decision. Defined.

Record ProcEntry := { StartTime : Z; Status : CleanupState }.

Record ProcTableStats := { st_Running : Z; st_Succeeded : Z; st_Failed : Z }.

(** ** The interface; [now] is the value of [time.Now()] *)
Class ProcTable (PT : Type) := {
  IsRunning : string → PT → bool * PT;
  IsEmpty : PT → bool;
  MarkRunning : Z → string → PT → option error * PT;
  MarkFailed : string → PT → option error * PT;
  MarkSucceeded : string → PT → option error * PT;
  RemoveEntry : string → PT → (CleanupState * option Z * option error) * PT;
  Stats : PT → ProcTableStats * PT
}.

(** ** The abstract table: entries by volume name *)
Module Abstract.
Definition IsRunning (pvName : string) (t : gmap string ProcEntry) : bool :=
  match t !! pvName with
  | Some e => bool_decide (Status e = CSRunning)
  | None => false
  end.

Definition MarkRunning (now : Z) (pvName : string) (t : gmap string ProcEntry)
  : bool * gmap string ProcEntry :=
  match t !! pvName with
  | Some _ => (false, t)
  | None => (true, <[pvName := {| StartTime := now; Status := CSRunning |}]> t)
  end.

Definition MarkDone (status : CleanupState) (pvName : string) (t : gmap string ProcEntry)
  : bool * gmap string ProcEntry :=
  match t !! pvName with
  | None => (false, t)
  | Some e => (true, <[pvName := {| StartTime := StartTime e; Status := status |}]> t)
  end.

(** The final state and start time of a finished cleanup, which is forgotten;
    [None] when there is one but it is not finished. *)
Definition RemoveEntry (pvName : string) (t : gmap string ProcEntry)
  : option (CleanupState * option Z) * gmap string ProcEntry :=
  match t !! pvName with
  | None => (Some (CSNotFound, None), t)
  | Some e =>
      if decide (Status e = CSRunning ∨ Status e = CSUnknown) then (None, t)
      else (Some (Status e, Some (StartTime e)), delete pvName t)
  end.
End Abstract.

(** ** What the interface promises *)
Class ProcTableLaws (PT : Type) `{ProcTable PT} := {
  view : PT → gmap string ProcEntry;
  IsRunning_spec : ∀ p t, fst (IsRunning p t) = Abstract.IsRunning p (view t);
  IsRunning_view : ∀ p t, view (snd (IsRunning p t)) = view t;
  MarkRunning_spec : ∀ now p t,
    no_error (fst (MarkRunning now p t)) = fst (Abstract.MarkRunning now p (view t)) ∧
    view (snd (MarkRunning now p t)) = snd (Abstract.MarkRunning now p (view t));
  MarkFailed_spec : ∀ p t,
    no_error (fst (MarkFailed p t)) = fst (Abstract.MarkDone CSFailed p (view t)) ∧
    view (snd (MarkFailed p t)) = snd (Abstract.MarkDone CSFailed p (view t));
  MarkSucceeded_spec : ∀ p t,
    no_error (fst (MarkSucceeded p t)) =
      fst (Abstract.MarkDone CSSucceeded p (view t)) ∧
    view (snd (MarkSucceeded p t)) = snd (Abstract.MarkDone CSSucceeded p (view t));
  RemoveEntry_spec : ∀ p t,
    match fst (Abstract.RemoveEntry p (view t)) with
    | Some (st, start) => fst (RemoveEntry p t) = (st, start, None)
    | None => ∃ e, fst (RemoveEntry p t) = (CSUnknown, None, Some e)
    end ∧
    view (snd (RemoveEntry p t)) = snd (Abstract.RemoveEntry p (view t));
  Stats_spec : ∀ t,
    st_Running (fst (Stats t)) =
      Z.of_nat (size (filter (λ kv, Status (snd kv) = CSRunning) (view t))) ∧
    view (snd (Stats t)) = view t
}.

(** ** The implementation *)
Module ProcTableImpl.
Record ProcTableImpl := {
  procTable : gmap string ProcEntry; succeeded : Z; failed : Z }.

Definition NewProcTable : ProcTableImpl :=
  {| procTable := ∅; succeeded := 0; failed := 0 |}.

Definition IsRunning (pvName : string) (v : ProcTableImpl) : bool :=
  match procTable v !! pvName with
  | None => false
  | Some entry => bool_decide (Status entry = CSRunning)
  end.

Definition IsEmpty (v : ProcTableImpl) : bool := bool_decide (size (procTable v) = 0).

Definition MarkRunning (now : Z) (pvName : string) (v : ProcTableImpl)
  : option error * ProcTableImpl :=
  match procTable v !! pvName with
  | Some _ =>
      (Some (Errorf "Failed to mark running of %q as it is already running, should never happen"
               [pvName] []), v)
  | None =>
      (None, {| procTable := <[pvName := {| StartTime := now; Status := CSRunning |}]>
                               (procTable v);
                succeeded := succeeded v; failed := failed v |})
  end.

(** The deferred counter update of [markStatus], which runs on every return. *)
Definition count_status (status : CleanupState) (v : ProcTableImpl) : ProcTableImpl :=
  match status with
  | CSSucceeded => {| procTable := procTable v; succeeded := succeeded v + 1; failed := failed v |}
  | CSFailed => {| procTable := procTable v; succeeded := succeeded v; failed := failed v + 1 |}
  | _ => v
  end.

Definition markStatus (pvName : string) (status : CleanupState) (v : ProcTableImpl)
  : option error * ProcTableImpl :=
  match procTable v !! pvName with
  | None =>
      (Some (Errorf "failed to mark status %d for pv %q as it is not present in proctable"
               [pvName] []), count_status status v)
  | Some entry =>
      (None, count_status status
        {| procTable := <[pvName := {| StartTime := StartTime entry; Status := status |}]>
                          (procTable v);
           succeeded := succeeded v; failed := failed v |})
  end.

Definition MarkFailed (pvName : string) (v : ProcTableImpl) : option error * ProcTableImpl :=
  markStatus pvName CSFailed v.

Definition MarkSucceeded (pvName : string) (v : ProcTableImpl) : option error * ProcTableImpl :=
  markStatus pvName CSSucceeded v.

Definition RemoveEntry (pvName : string) (v : ProcTableImpl)
  : (CleanupState * option Z * option error) * ProcTableImpl :=
  match procTable v !! pvName with
  | None => ((CSNotFound, None, None), v)
  | Some entry =>
      if decide (Status entry = CSRunning)
      then ((CSUnknown, None,
             Some (Errorf "cannot remove proctable entry for %q when it is still running"
                     [pvName] [])), v)
      else if decide (Status entry = CSUnknown)
      then ((CSUnknown, None,
             Some (Errorf "proctable entry for %q in unexpected unknown state" [pvName] [])), v)
      else ((Status entry, Some (StartTime entry), None),
            {| procTable := delete pvName (procTable v);
               succeeded := succeeded v; failed := failed v |})
  end.

(** The counting loop of [Stats]: one increment per running entry. *)
Definition count_running (entries : list ProcEntry) : Z :=
  fold_left (λ running entry,
    if decide (Status entry = CSRunning) then (running + 1)%Z else running) entries 0%Z.

Definition Stats (v : ProcTableImpl) : ProcTableStats :=
  {| st_Running := count_running (map_to_list (procTable v)).*2;
     st_Succeeded := succeeded v; st_Failed := failed v |}.
End ProcTableImpl.

#[export] Instance ProcTableImpl_ProcTable : ProcTable ProcTableImpl.ProcTableImpl := {|
  IsRunning p v := (ProcTableImpl.IsRunning p v, v);
  IsEmpty := ProcTableImpl.IsEmpty;
  MarkRunning := ProcTableImpl.MarkRunning;
  MarkFailed := ProcTableImpl.MarkFailed;
  MarkSucceeded := ProcTableImpl.MarkSucceeded;
  RemoveEntry := ProcTableImpl.RemoveEntry;
  Stats v := (ProcTableImpl.Stats v, v) |}.

(** ** The counting wrapper *)
Module FakeProcTable.
Record FakeProcTableImpl (PT : Type) := {
  realTable : PT;
  IsRunningCount : Z;
  MarkRunningCount : Z;
  MarkDoneCount : Z;
  RemoveCount : Z;
  StatsCount : Z }.
Arguments realTable {PT} _.
Arguments IsRunningCount {PT} _.
Arguments MarkRunningCount {PT} _.
Arguments MarkDoneCount {PT} _.
Arguments RemoveCount {PT} _.
Arguments StatsCount {PT} _.

Definition NewFakeProcTable : FakeProcTableImpl ProcTableImpl.ProcTableImpl :=
  {| realTable := ProcTableImpl.NewProcTable; IsRunningCount := 0; MarkRunningCount := 0;
     MarkDoneCount := 0; RemoveCount := 0; StatsCount := 0 |}.

Section fake.
Context {PT : Type} `{!ProcTable PT}.

Definition IsRunning (p : string) (f : FakeProcTableImpl PT) : bool * FakeProcTableImpl PT :=
  let '(b, t) := IsRunning p (realTable f) in
  (b, {| realTable := t; IsRunningCount := IsRunningCount f + 1;
         MarkRunningCount := MarkRunningCount f; MarkDoneCount := MarkDoneCount f;
         RemoveCount := RemoveCount f; StatsCount := StatsCount f |}).

Definition MarkRunning (now : Z) (p : string) (f : FakeProcTableImpl PT)
  : option error * FakeProcTableImpl PT :=
  let '(e, t) := MarkRunning now p (realTable f) in
  (e, {| realTable := t; IsRunningCount := IsRunningCount f;
         MarkRunningCount := MarkRunningCount f + 1; MarkDoneCount := MarkDoneCount f;
         RemoveCount := RemoveCount f; StatsCount := StatsCount f |}).

Definition MarkFailed (p : string) (f : FakeProcTableImpl PT)
  : option error * FakeProcTableImpl PT :=
  let '(e, t) := MarkFailed p (realTable f) in
  (e, {| realTable := t; IsRunningCount := IsRunningCount f;
         MarkRunningCount := MarkRunningCount f; MarkDoneCount := MarkDoneCount f + 1;
         RemoveCount := RemoveCount f; StatsCount := StatsCount f |}).

Definition MarkSucceeded (p : string) (f : FakeProcTableImpl PT)
  : option error * FakeProcTableImpl PT :=
  let '(e, t) := MarkSucceeded p (realTable f) in
  (e, {| realTable := t; IsRunningCount := IsRunningCount f;
         MarkRunningCount := MarkRunningCount f; MarkDoneCount := MarkDoneCount f + 1;
         RemoveCount := RemoveCount f; StatsCount := StatsCount f |}).

Definition RemoveEntry (p : string) (f : FakeProcTableImpl PT)
  : (CleanupState * option Z * option error) * FakeProcTableImpl PT :=
  let '(r, t) := RemoveEntry p (realTable f) in
  (r, {| realTable := t; IsRunningCount := IsRunningCount f;
         MarkRunningCount := MarkRunningCount f; MarkDoneCount := MarkDoneCount f;
         RemoveCount := RemoveCount f + 1; StatsCount := StatsCount f |}).

Definition Stats (f : FakeProcTableImpl PT) : ProcTableStats * FakeProcTableImpl PT :=
  let '(r, t) := Stats (realTable f) in
  (r, {| realTable := t; IsRunningCount := IsRunningCount f;
         MarkRunningCount := MarkRunningCount f; MarkDoneCount := MarkDoneCount f;
         RemoveCount := RemoveCount f; StatsCount := StatsCount f + 1 |}).

#[global] Instance FakeProcTable_ProcTable : ProcTable (FakeProcTableImpl PT) := {|
  ProcTable.IsRunning := IsRunning;
  ProcTable.IsEmpty f := IsEmpty (realTable f);
  ProcTable.MarkRunning := MarkRunning;
  ProcTable.MarkFailed := MarkFailed;
  ProcTable.MarkSucceeded := MarkSucceeded;
  ProcTable.RemoveEntry := RemoveEntry;
  ProcTable.Stats := Stats |}.
End fake.
End FakeProcTable.

(** ** Lemmas: the implementations keep the promises *)
Lemma count_running_acc l z :
  fold_left (λ running entry,
    if decide (Status entry = CSRunning) then (running + 1)%Z else running) l z =
  (z + ProcTableImpl.count_running l)%Z.
Proof.
  unfold ProcTableImpl.count_running. revert z.
  induction l as [|e l IH]; intros z; simpl; [lia|].
  rewrite IH. rewrite (IH (if decide _ then _ else _)). case_decide; lia.
Qed.

Lemma count_running_filter l :
  ProcTableImpl.count_running l = Z.of_nat (length (filter (λ e, Status e = CSRunning) l)).
Proof.
  induction l as [|e l IH]; [done|]. unfold ProcTableImpl.count_running at 1. simpl.
  rewrite count_running_acc, IH, filter_cons. case_decide; simpl; lia.
Qed.

Lemma count_running_size (m : gmap string ProcEntry) :
  ProcTableImpl.count_running (map_to_list m).*2 =
  Z.of_nat (size (filter (λ kv, Status (snd kv) = CSRunning) m)).
Proof.
  rewrite count_running_filter. f_equal.
  induction m as [|i e m Hi IH] using map_ind.
  { by rewrite map_to_list_empty, map_filter_empty. }
  assert (filter (λ kv, Status kv.2 = CSRunning) m !! i = None) as Hf
    by (apply map_lookup_filter_None; auto).
  rewrite (map_to_list_insert m i e Hi), fmap_cons, filter_cons. simpl. case_decide.
  - rewrite map_filter_insert_True by done. simpl. by rewrite map_size_insert_None, IH.
  - rewrite map_filter_insert_not' by (simpl; naive_solver). done.
Qed.

#[export] Instance ProcTableImpl_laws : ProcTableLaws ProcTableImpl.ProcTableImpl.
Proof.
  refine {| view := ProcTableImpl.procTable |}; simpl; intros.
  - done.
  - done.
  - unfold ProcTableImpl.MarkRunning, Abstract.MarkRunning. by case_match.
  - unfold ProcTableImpl.MarkFailed, ProcTableImpl.markStatus, Abstract.MarkDone. by case_match.
  - unfold ProcTableImpl.MarkSucceeded, ProcTableImpl.markStatus, Abstract.MarkDone. by case_match.
  - unfold ProcTableImpl.RemoveEntry, Abstract.RemoveEntry.
    destruct (_ !! p) as [e|]; [|done]. repeat case_decide; simpl; naive_solver.
  - split; [apply count_running_size|done].
Defined.

#[export] Instance FakeProcTable_laws {PT} `{ProcTableLaws PT} :
  ProcTableLaws (FakeProcTable.FakeProcTableImpl PT).
Proof.
  refine {| view f := view (FakeProcTable.realTable f) |}; intros; simpl;
    unfold FakeProcTable.IsRunning, FakeProcTable.MarkRunning, FakeProcTable.MarkFailed,
      FakeProcTable.MarkSucceeded, FakeProcTable.RemoveEntry, FakeProcTable.Stats.
  - rewrite <-IsRunning_spec. by destruct (IsRunning _ _).
  - rewrite <-(IsRunning_view p (FakeProcTable.realTable t)). by destruct (IsRunning _ _).
  - pose proof (MarkRunning_spec now p (FakeProcTable.realTable t)).
    by destruct (MarkRunning _ _ _).
  - pose proof (MarkFailed_spec p (FakeProcTable.realTable t)). by destruct (MarkFailed _ _).
  - pose proof (MarkSucceeded_spec p (FakeProcTable.realTable t)).
    by destruct (MarkSucceeded _ _).
  - pose proof (RemoveEntry_spec p (FakeProcTable.realTable t)). by destruct (RemoveEntry _ _).
  - pose proof (Stats_spec (FakeProcTable.realTable t)). by destruct (Stats _).
Defined.

(** ** Operations as a sequence of steps

    The calls clients make, with the outcome of each; [run] is the table after
    them and [count_ok f] counts the calls that succeeded and that [f] selects. *)
Inductive proc_op :=
| OpMarkRunning (now : Z) (pvName : string)
| OpMarkFailed (pvName : string)
| OpMarkSucceeded (pvName : string)
| OpRemoveEntry (pvName : string)
| OpIsRunning (pvName : string)
| OpStats.

Section traces.
Context {PT : Type} `{ProcTableLaws PT}.

(** One call: did it change an entry, and the table afterwards. *)
Definition proc_step (o : proc_op) (t : PT) : bool * PT :=
  match o with
  | OpMarkRunning now p => let '(e, t') := MarkRunning now p t in (no_error e, t')
  | OpMarkFailed p => let '(e, t') := MarkFailed p t in (no_error e, t')
  | OpMarkSucceeded p => let '(e, t') := MarkSucceeded p t in (no_error e, t')
  | OpRemoveEntry p =>
      let '(st, _, e, t') := RemoveEntry p t in
      (no_error e && negb (bool_decide (st = CSNotFound)), t')
  | OpIsRunning p => let '(_, t') := IsRunning p t in (false, t')
  | OpStats => let '(_, t') := Stats t in (false, t')
  end.

(** The outcomes of a sequence of calls and the table after them. *)
Fixpoint proc_run (ops : list proc_op) (t : PT) : list (proc_op * bool) * PT :=
  match ops with
  | [] => ([], t)
  | o :: ops' =>
      let '(ok, t1) := proc_step o t in
      let '(log, t2) := proc_run ops' t1 in ((o, ok) :: log, t2)
  end.

Definition starts (p : string) (log : list (proc_op * bool)) : Z :=
  Z.of_nat (length (List.filter (λ '(o, ok),
    match o with OpMarkRunning _ p' => ok && bool_decide (p' = p) | _ => false end) log)).

Definition removals (p : string) (log : list (proc_op * bool)) : Z :=
  Z.of_nat (length (List.filter (λ '(o, ok),
    match o with OpRemoveEntry p' => ok && bool_decide (p' = p) | _ => false end) log)).

Definition present (p : string) (t : PT) : Z :=
  if decide (is_Some (view t !! p)) then 1%Z else 0%Z.

(** Statuses the program stores: an entry is running, failed or succeeded. *)
Definition statuses_ok (t : PT) : Prop :=
  map_Forall (λ _ e, Status e = CSRunning ∨ Status e = CSFailed ∨ Status e = CSSucceeded) (view t).
End traces.

Section trace_lemmas.
Context {PT : Type} `{ProcTableLaws PT}.

Lemma proc_step_view o (t : PT) :
  view (snd (proc_step o t)) =
  match o with
  | OpMarkRunning now p => snd (Abstract.MarkRunning now p (view t))
  | OpMarkFailed p => snd (Abstract.MarkDone CSFailed p (view t))
  | OpMarkSucceeded p => snd (Abstract.MarkDone CSSucceeded p (view t))
  | OpRemoveEntry p => snd (Abstract.RemoveEntry p (view t))
  | OpIsRunning p => view t
  | OpStats => view t
  end.
Proof.
  destruct o as [now p|p|p|p|p|]; simpl.
  - rewrite <-(proj2 (MarkRunning_spec now p t)). by destruct (MarkRunning _ _ _).
  - rewrite <-(proj2 (MarkFailed_spec p t)). by destruct (MarkFailed _ _).
  - rewrite <-(proj2 (MarkSucceeded_spec p t)). by destruct (MarkSucceeded _ _).
  - rewrite <-(proj2 (RemoveEntry_spec p t)). by destruct (RemoveEntry _ _) as [[[??]?]?].
  - rewrite <-(IsRunning_view p t). by destruct (IsRunning _ _).
  - rewrite <-(proj2 (Stats_spec t)). by destruct (Stats _).
Qed.

Lemma proc_step_start now p (t : PT) :
  fst (proc_step (OpMarkRunning now p) t) = fst (Abstract.MarkRunning now p (view t)).
Proof. simpl. rewrite <-(proj1 (MarkRunning_spec now p t)). by destruct (MarkRunning _ _ _). Qed.

Lemma proc_step_removal p (t : PT) :
  statuses_ok t →
  fst (proc_step (OpRemoveEntry p) t) =
  match view t !! p with Some e => negb (bool_decide (Status e = CSRunning)) | None => false end.
Proof.
  intros Hok. simpl. destruct (RemoveEntry_spec p t) as [Hr _].
  destruct (RemoveEntry p t) as [[[st start] e] t']. simpl in *.
  unfold Abstract.RemoveEntry in Hr. destruct (view t !! p) as [en|] eqn:E; simpl in Hr.
  - pose proof (map_Forall_lookup_1 _ _ _ _ Hok E) as Hst. simpl in Hst.
    destruct en as [st0 status]. simpl in *.
    destruct Hst as [-> |[-> | ->]]; case_decide; simpl in Hr; naive_solver.
  - by injection Hr as -> -> ->.
Qed.

Lemma proc_step_statuses o (t : PT) : statuses_ok t → statuses_ok (snd (proc_step o t)).
Proof.
  unfold statuses_ok. intros Hok. rewrite proc_step_view.
  destruct o as [now p|p|p|p|p|]; try done;
    unfold Abstract.MarkRunning, Abstract.MarkDone, Abstract.RemoveEntry;
    repeat case_match; simpl; try done;
    (apply map_Forall_insert_2 || apply map_Forall_delete); simpl; auto.
Qed.

Lemma starts_cons p o ok log : starts p ((o, ok) :: log) = (starts p [(o, ok)] + starts p log)%Z.
Proof. unfold starts. simpl. case_match; simpl; repeat case_match; simpl; lia. Qed.

Lemma removals_cons p o ok log :
  removals p ((o, ok) :: log) = (removals p [(o, ok)] + removals p log)%Z.
Proof. unfold removals. simpl. case_match; simpl; repeat case_match; simpl; lia. Qed.

(** One call changes the presence of [p] exactly as it is counted. *)
Lemma proc_step_count o (t : PT) p :
  statuses_ok t →
  (starts p [(o, fst (proc_step o t))] - removals p [(o, fst (proc_step o t))] =
   present p (snd (proc_step o t)) - present p t)%Z.
Proof.
  intros Hok. unfold present. rewrite proc_step_view.
  destruct o as [now q|q|q|q|q|]; unfold starts, removals; cbn [List.filter].
  - rewrite proc_step_start. unfold Abstract.MarkRunning.
    destruct (view t !! q) eqn:E; simpl; [lia|]. case_bool_decide; subst; simpl.
    + rewrite lookup_insert_eq, E, decide_True, decide_False by (done || by intros []). lia.
    + rewrite lookup_insert_ne by done. lia.
  - unfold Abstract.MarkDone. destruct (view t !! q) eqn:E; simpl; [|lia].
    destruct (decide (q = p)) as [-> |]; [|rewrite lookup_insert_ne by done; lia].
    rewrite lookup_insert_eq, E, !decide_True by done. lia.
  - unfold Abstract.MarkDone. destruct (view t !! q) eqn:E; simpl; [|lia].
    destruct (decide (q = p)) as [-> |]; [|rewrite lookup_insert_ne by done; lia].
    rewrite lookup_insert_eq, E, !decide_True by done. lia.
  - rewrite (proc_step_removal q t Hok). unfold Abstract.RemoveEntry.
    destruct (view t !! q) as [e|] eqn:E; simpl; [|lia].
    pose proof (map_Forall_lookup_1 _ _ _ _ Hok E) as Hst. simpl in Hst.
    assert (Status e = CSRunning ∨ Status e ≠ CSRunning ∧ Status e ≠ CSUnknown) as [Hr|[Hr Hu]]
      by (destruct Hst as [?|[?|?]]; [by left|right; split; congruence..]).
    + rewrite bool_decide_true, (decide_True (P := Status e = CSRunning ∨ _)) by auto.
      simpl. lia.
    + rewrite bool_decide_false by done.
      rewrite (decide_False (P := Status e = CSRunning ∨ _)) by naive_solver. simpl.
      case_bool_decide as Hq; [subst q|rewrite lookup_delete_ne by done; simpl; lia].
      rewrite lookup_delete_eq, E, decide_False, decide_True by (done || by intros []). simpl. lia.
  - simpl. lia.
  - simpl. lia.
Qed.
End trace_lemmas.

(** C13. Exclusivity of cleanup processes.  Over any sequence of calls, the number
    of cleanups of a volume that were started minus the number of finished
    cleanups that were removed is the change of its presence in the table: since
    presence is 0 or 1, a second cleanup of the same volume cannot start before
    the first one ended and its entry was taken out. *)
Theorem proc_table_exclusive {PT} `{ProcTableLaws PT} (ops : list proc_op) (t : PT) p :
  statuses_ok t →
  statuses_ok (snd (proc_run ops t)) ∧
  (starts p (fst (proc_run ops t)) - removals p (fst (proc_run ops t)) =
   present p (snd (proc_run ops t)) - present p t)%Z.
Proof.
  revert t. induction ops as [|o ops IH]; intros t Hok; simpl.
  { split; [done|]. unfold starts, removals. simpl. lia. }
  pose proof (proc_step_count o t p Hok) as Hstep.
  pose proof (proc_step_statuses o t Hok) as Hok1.
  destruct (proc_step o t) as [ok t1]. simpl in *.
  destruct (IH t1 Hok1) as [Hok2 Hrun]. destruct (proc_run ops t1) as [log t2]. simpl in *.
  split; [done|]. rewrite starts_cons, removals_cons. lia.
Qed.

Lemma proc_table_exclusive_witness :
  starts "pv" (fst (proc_run [OpMarkRunning 1 "pv"; OpMarkRunning 2 "pv"; OpMarkFailed "pv"]
                      ProcTableImpl.NewProcTable)) = 1%Z ∧
  present "pv" (snd (proc_run [OpMarkRunning 1 "pv"; OpMarkRunning 2 "pv"; OpMarkFailed "pv"]
                      ProcTableImpl.NewProcTable)) = 1%Z.
Proof.
  destruct (proc_table_exclusive
    [OpMarkRunning 1 "pv"; OpMarkRunning 2 "pv"; OpMarkFailed "pv"]
    ProcTableImpl.NewProcTable "pv") as [_ H]; [apply map_Forall_empty|].
  assert (present "pv" ProcTableImpl.NewProcTable = 0%Z) as E0 by (vm_compute; reflexivity).
  assert (starts "pv" (fst (proc_run
    [OpMarkRunning 1 "pv"; OpMarkRunning 2 "pv"; OpMarkFailed "pv"]
    ProcTableImpl.NewProcTable)) = 1%Z) as E1 by (vm_compute; reflexivity).
  assert (removals "pv" (fst (proc_run
    [OpMarkRunning 1 "pv"; OpMarkRunning 2 "pv"; OpMarkFailed "pv"]
    ProcTableImpl.NewProcTable)) = 0%Z) as E2 by (vm_compute; reflexivity).
  split; [exact E1|]. rewrite E0, E1, E2 in H. lia.
Defined.
