(* ===== verification/Runtime.v ===== *)
(** * Runtime: the shared state of a running provisioner

    [RuntimeConfig] of pkg/common holds the user's configuration and pointers that
    the deleter, the discoverer, the populator, the job controller and the taint
    remover share.  Its immutable part is the record [RuntimeConfig] here; what
    the pointers lead to is the state [World]: the volume cache, the process table,
    the informer stores, the API server, the file system, recorded events, metrics
    and the goroutines that were started.  [apiUtil] of api_util.go is the last
    section. *)
From S2P Require Import Prelude GoLib FilePath K8s VolumeUtil Common Cache Metrics ProcTable.

(** [jobController != nil] and the platform are fields; times are formatted and
    parsed ([time.RFC3339Nano]) by the given functions. *)
Record RuntimeConfig := {
  rc_User : UserConfig;
  rc_Name : string;
  rc_goos : string;
  rc_hasJobController : bool;
  rc_time_Format : Z → string;
  rc_time_Parse : string → option Z }.

Definition rc_Node (c : RuntimeConfig) : Node := uc_Node (rc_User c).

(** A configuration for the examples: the one of the repository's tests. *)
Definition example_node : Node := {|
  node_meta := {|
    om_Name := "test-node"; om_Namespace := "";
    om_UID := "d9607e19-f88f-11e6-a518-42010a800195";
    om_Labels := Some {[LabelHostname := "test-node"]}; om_Annotations := None;
    om_DeletionTimestamp := None; om_OwnerReferences := [] |};
  node_Taints := [] |}.

Definition example_mount (dir mode : string) : MountConfig := {|
  HostDir := "/mnt/disks/" +:+ dir; MountDir := "/discoveryPath/" +:+ dir;
  BlockCleanerCommand := Some ["/scripts/quick_reset.sh"]; mc_VolumeMode := mode;
  mc_AccessMode := ""; mc_FsType := ""; NamePattern := "*"; Selector := None |}.

Definition example_user : UserConfig := {|
  uc_Node := example_node;
  DiscoveryMap := Some (<["sc1" := example_mount "dir1" "Filesystem"]>
                          {["sc2" := example_mount "dir2" "Block"]});
  NodeLabelsForPV := None; UseAlphaAPI := false; UseJobForCleaning := false;
  Namespace := "default"; JobContainerImage := ""; JobTolerations := None;
  MinResyncPeriod := 300; UseNodeNameOnly := false; LabelsForPV := None;
  SetPVOwnerRef := false; RemoveNodeNotReadyTaint := false;
  ProvisionerNotReadyNodeTaintKey := "" |}.

Definition example_runtime : RuntimeConfig := {|
  rc_User := example_user; rc_Name := "test-provisioner"; rc_goos := "linux";
  rc_hasJobController := false; rc_time_Format := format_d;
  rc_time_Parse := λ _, None |}.

(** The arguments of a goroutine [go d.asyncCleanPV(...)]. *)
Record CleanTask := {
  ct_pv : PersistentVolume;
  ct_volMode : string;
  ct_mountPath : string;
  ct_config : MountConfig }.

Record World {FS API PT : Type} := {
  w_cache : gmap string PersistentVolume;
  w_proc : PT;
  w_jobLister : string → string → result Job;
  w_classLister : string → result StorageClass;
  w_api : API;
  w_fs : FS;
  w_mounts : result (list string);
  w_events : list Event;
  w_metrics : Metrics;
  w_tasks : list CleanTask;
  w_ready : bool;
  w_taintRemoved : bool;
  w_now : Z }.
Arguments World : clear implicits.

Section world.
Context {FS API PT : Type}.
Abbreviation W := (World FS API PT).

Definition upd_cache (f : gmap string PersistentVolume → gmap string PersistentVolume)
    (w : W) : W := {|
  w_cache := f (w_cache w); w_proc := w_proc w; w_jobLister := w_jobLister w;
  w_classLister := w_classLister w; w_api := w_api w; w_fs := w_fs w; w_mounts := w_mounts w;
  w_events := w_events w; w_metrics := w_metrics w; w_tasks := w_tasks w;
  w_ready := w_ready w; w_taintRemoved := w_taintRemoved w; w_now := w_now w |}.

Definition set_proc (p : PT) (w : W) : W := {|
  w_cache := w_cache w; w_proc := p; w_jobLister := w_jobLister w;
  w_classLister := w_classLister w; w_api := w_api w; w_fs := w_fs w; w_mounts := w_mounts w;
  w_events := w_events w; w_metrics := w_metrics w; w_tasks := w_tasks w;
  w_ready := w_ready w; w_taintRemoved := w_taintRemoved w; w_now := w_now w |}.

Definition set_api (a : API) (w : W) : W := {|
  w_cache := w_cache w; w_proc := w_proc w; w_jobLister := w_jobLister w;
  w_classLister := w_classLister w; w_api := a; w_fs := w_fs w; w_mounts := w_mounts w;
  w_events := w_events w; w_metrics := w_metrics w; w_tasks := w_tasks w;
  w_ready := w_ready w; w_taintRemoved := w_taintRemoved w; w_now := w_now w |}.

Definition set_fs (fs : FS) (w : W) : W := {|
  w_cache := w_cache w; w_proc := w_proc w; w_jobLister := w_jobLister w;
  w_classLister := w_classLister w; w_api := w_api w; w_fs := fs; w_mounts := w_mounts w;
  w_events := w_events w; w_metrics := w_metrics w; w_tasks := w_tasks w;
  w_ready := w_ready w; w_taintRemoved := w_taintRemoved w; w_now := w_now w |}.

Definition add_event (e : Event) (w : W) : W := {|
  w_cache := w_cache w; w_proc := w_proc w; w_jobLister := w_jobLister w;
  w_classLister := w_classLister w; w_api := w_api w; w_fs := w_fs w; w_mounts := w_mounts w;
  w_events := (w_events w ++ [e])%list; w_metrics := w_metrics w; w_tasks := w_tasks w;
  w_ready := w_ready w; w_taintRemoved := w_taintRemoved w; w_now := w_now w |}.

Definition upd_metrics (f : Metrics → Metrics) (w : W) : W := {|
  w_cache := w_cache w; w_proc := w_proc w; w_jobLister := w_jobLister w;
  w_classLister := w_classLister w; w_api := w_api w; w_fs := w_fs w; w_mounts := w_mounts w;
  w_events := w_events w; w_metrics := f (w_metrics w); w_tasks := w_tasks w;
  w_ready := w_ready w; w_taintRemoved := w_taintRemoved w; w_now := w_now w |}.

Definition set_tasks (ts : list CleanTask) (w : W) : W := {|
  w_cache := w_cache w; w_proc := w_proc w; w_jobLister := w_jobLister w;
  w_classLister := w_classLister w; w_api := w_api w; w_fs := w_fs w; w_mounts := w_mounts w;
  w_events := w_events w; w_metrics := w_metrics w; w_tasks := ts;
  w_ready := w_ready w; w_taintRemoved := w_taintRemoved w; w_now := w_now w |}.

Definition set_ready (b : bool) (w : W) : W := {|
  w_cache := w_cache w; w_proc := w_proc w; w_jobLister := w_jobLister w;
  w_classLister := w_classLister w; w_api := w_api w; w_fs := w_fs w; w_mounts := w_mounts w;
  w_events := w_events w; w_metrics := w_metrics w; w_tasks := w_tasks w;
  w_ready := b; w_taintRemoved := w_taintRemoved w; w_now := w_now w |}.

Definition set_taintRemoved (b : bool) (w : W) : W := {|
  w_cache := w_cache w; w_proc := w_proc w; w_jobLister := w_jobLister w;
  w_classLister := w_classLister w; w_api := w_api w; w_fs := w_fs w; w_mounts := w_mounts w;
  w_events := w_events w; w_metrics := w_metrics w; w_tasks := w_tasks w;
  w_ready := w_ready w; w_taintRemoved := b; w_now := w_now w |}.

(** ** Access from the effect monad *)
Definition call_api {A} (f : API → A * API) : M W A := λ w,
  let '(a, api') := f (w_api w) in Done a (set_api api' w).

Definition call_proc {A} (f : PT → A * PT) : M W A := λ w,
  let '(a, p') := f (w_proc w) in Done a (set_proc p' w).

Definition call_fs {A} (f : FS → A * FS) : M W A := λ w,
  let '(a, fs') := f (w_fs w) in Done a (set_fs fs' w).

(** [Recorder.Eventf]. *)
Definition Eventf (pv : PersistentVolume) (typ reason : string) (msg : error) : M W () :=
  modify (add_event {| ev_Object := pv_Name pv; ev_Type := typ; ev_Reason := reason;
                       ev_Message := msg |}).

Definition metric (f : Metrics → Metrics) : M W () := modify (upd_metrics f).

(** [go d.asyncCleanPV(...)]. *)
Definition spawn (t : CleanTask) : M W () := λ w,
  Done () (set_tasks (w_tasks w ++ [t])%list w).
End world.

(** ** [apiUtil] *)
Module apiUtil.
Section api.
Context {FS API PT : Type} `{!KubeClient API}.
Abbreviation W := (World FS API PT).

Definition CreatePV (pv : PersistentVolume) : M W (result PersistentVolume) :=
  r ← call_api (api_CreatePV pv);
  _ ← metric (count_request APIServerRequestCreate (negb (is_ok r)));
  mret r.

Definition DeletePV (pvName : string) : M W (option error) :=
  err ← call_api (api_DeletePV pvName);
  _ ← metric (count_request APIServerRequestDelete (negb (no_error err)));
  mret err.

Definition CreateJob (job : Job) : M W (option error) := call_api (api_CreateJob job).

Definition DeleteJob (jobName namespace : string) : M W (option error) :=
  call_api (api_DeleteJob jobName namespace DeletePropagationForeground).
End api.
End apiUtil.

(** ** Frames: fields an operation leaves alone *)
Definition same {S A} (f : S → A) : relation S := λ s s', f s' = f s.

#[export] Instance same_preorder {S A} (f : S → A) : PreOrder (same f).
Proof. split; unfold same; [by intros ?|]. intros ??? H1 H2. by rewrite H2, H1. Qed.

(** A relation on a field that grows or evolves. *)
Definition rel_on {S A} (R : relation A) (f : S → A) : relation S := λ s s', R (f s) (f s').

#[export] Instance rel_on_preorder {S A} (R : relation A) (f : S → A) :
  PreOrder R → PreOrder (rel_on R f).
Proof. intros HR. split; unfold rel_on; [by intros ?|]. intros ??? H1 H2. by etrans. Qed.

Section frames.
Context {FS API PT : Type}.
Abbreviation W := (World FS API PT).

Lemma same_modify {A} (f : W → A) g : (∀ w, f (g w) = f w) → preserves (same f) (modify g).
Proof. intros H w. apply H. Qed.

Lemma same_call_api {A B} (f : W → A) (g : API → B * API) :
  (∀ a w, f (set_api a w) = f w) → preserves (same f) (call_api g).
Proof. intros H w. unfold call_api. destruct (g _). apply H. Qed.

Lemma same_call_proc {A B} (f : W → A) (g : PT → B * PT) :
  (∀ p w, f (set_proc p w) = f w) → preserves (same f) (call_proc g).
Proof. intros H w. unfold call_proc. destruct (g _). apply H. Qed.

Lemma same_call_fs {A B} (f : W → A) (g : FS → B * FS) :
  (∀ x w, f (set_fs x w) = f w) → preserves (same f) (call_fs g).
Proof. intros H w. unfold call_fs. destruct (g _). apply H. Qed.

Lemma same_spawn {A} (f : W → A) t :
  (∀ ts w, f (set_tasks ts w) = f w) → preserves (same f) (spawn t).
Proof. intros H w. apply H. Qed.
End frames.

(** Proves that an operation leaves a field alone. *)
Ltac solve_frame :=
  solve_preserves;
  repeat match goal with
  | |- preserves (same _) (call_api _) => apply same_call_api; done
  | |- preserves (same _) (call_proc _) => apply same_call_proc; done
  | |- preserves (same _) (call_fs _) => apply same_call_fs; done
  | |- preserves (same _) (Eventf _ _ _ _) => apply same_modify; done
  | |- preserves (same _) (metric _) => apply same_modify; done
  | |- preserves (same _) (modify _) => apply same_modify; done
  | |- preserves (same _) (spawn _) => apply same_spawn; done
  end.
