(* ===== verification/Populator.v ===== *)
(** * Populator: the informer handlers of [pkg/populator]

    The handlers that keep the volume cache up to date, on every kind of object an
    informer may deliver, and what the cache is after any run of the informer. *)
From S2P Require Import Prelude GoLib K8s Common Cache Runtime.
Import VolumeCache.

(** The dynamic type of the [interface{}] a handler receives. *)
Inductive InformerObj :=
| ObjPV (pv : PersistentVolume)
| ObjTombstone (obj : InformerObj)
| ObjOther.

Definition handlePVUpdate (p : RuntimeConfig) (pv : PersistentVolume)
    (cache : gmap string PersistentVolume) : gmap string PersistentVolume :=
  match GetPV (pv_Name pv) cache with
  | Some _ => UpdatePV pv cache
  | None =>
      match om_Annotations (pv_meta pv) with
      | None => cache
      | Some annotations =>
          match annotations !! AnnProvisionedBy with
          | None => cache
          | Some provisioner =>
              if decide (provisioner = rc_Name p) then AddPV pv cache
              else if UseNodeNameOnly (rc_User p) then
                match map_get (om_Labels (pv_meta pv)) NodeNameLabel with
                | None => cache
                | Some nodeLabel =>
                    if decide (nodeLabel ≠ node_Name (rc_Node p)) then cache
                    else if HasPrefix provisioner (rc_Name p +:+ "-") then AddPV pv cache
                    else cache
                end
              else cache
          end
      end
  end.

Definition handlePVDelete (pv : PersistentVolume) (cache : gmap string PersistentVolume)
  : gmap string PersistentVolume :=
  match GetPV (pv_Name pv) cache with
  | Some _ => DeletePV (pv_Name pv) cache
  | None => cache
  end.

(** The three handlers registered by [NewPopulator]. *)
Definition AddFunc (p : RuntimeConfig) (obj : InformerObj)
    (cache : gmap string PersistentVolume) : gmap string PersistentVolume :=
  match obj with ObjPV pv => handlePVUpdate p pv cache | _ => cache end.

Definition UpdateFunc (p : RuntimeConfig) (oldObj newObj : InformerObj)
    (cache : gmap string PersistentVolume) : gmap string PersistentVolume :=
  match newObj with ObjPV newPV => handlePVUpdate p newPV cache | _ => cache end.

Definition DeleteFunc (obj : InformerObj) (cache : gmap string PersistentVolume)
  : gmap string PersistentVolume :=
  match obj with
  | ObjPV pv => handlePVDelete pv cache
  | ObjTombstone (ObjPV pv) => handlePVDelete pv cache
  | _ => cache
  end.

(** ** Ownership *)

(** A volume this provisioner recognises as its own. *)
Definition owned (p : RuntimeConfig) (pv : PersistentVolume) : bool :=
  match map_get (om_Annotations (pv_meta pv)) AnnProvisionedBy with
  | None => false
  | Some provisioner =>
      bool_decide (provisioner = rc_Name p) ||
      (UseNodeNameOnly (rc_User p) &&
       bool_decide (map_get (om_Labels (pv_meta pv)) NodeNameLabel = Some (node_Name (rc_Node p))) &&
       HasPrefix provisioner (rc_Name p +:+ "-"))
  end.

Lemma handlePVUpdate_spec p pv cache :
  handlePVUpdate p pv cache =
  if owned p pv || bool_decide (is_Some (cache !! pv_Name pv))
  then <[pv_Name pv := pv]> cache else cache.
Proof.
  unfold handlePVUpdate, owned, GetPV, UpdatePV, AddPV, map_get.
  destruct (cache !! pv_Name pv) as [pv'|].
  { rewrite (bool_decide_true (is_Some (Some pv'))) by done. by rewrite orb_true_r. }
  rewrite (bool_decide_false (is_Some None)) by (by intros []). rewrite orb_false_r.
  destruct (om_Annotations (pv_meta pv)) as [ann|]; [|done].
  destruct (ann !! AnnProvisionedBy) as [prov|]; [|done].
  destruct (decide (prov = rc_Name p)).
  { by rewrite bool_decide_true. }
  rewrite bool_decide_false by done. destruct (UseNodeNameOnly _); [|done]. simpl.
  destruct (om_Labels (pv_meta pv)) as [lbl|]; [|done].
  destruct (lbl !! NodeNameLabel) as [l|]; [|done].
  destruct (decide (l = node_Name (rc_Node p))) as [-> |Hl].
  - rewrite bool_decide_true by done. rewrite decide_False by tauto. done.
  - rewrite bool_decide_false by congruence. by rewrite decide_True.
Qed.

Lemma handlePVDelete_spec pv cache : handlePVDelete pv cache = delete (pv_Name pv) cache.
Proof.
  unfold handlePVDelete, GetPV, DeletePV. destruct (cache !! pv_Name pv) eqn:E; [done|].
  by rewrite delete_id.
Qed.

(** ** Runs of the informer

    The informer's store [m] evolves by additions, updates and deletions of the
    objects it holds; each change is delivered to the handlers, a deletion
    possibly as a tombstone with an old version of the object. *)
Inductive informer_step (p : RuntimeConfig)
  : gmap string PersistentVolume * gmap string PersistentVolume →
    gmap string PersistentVolume * gmap string PersistentVolume → Prop :=
| informer_add m cache pv :
    m !! pv_Name pv = None →
    informer_step p (m, cache) (<[pv_Name pv := pv]> m, AddFunc p (ObjPV pv) cache)
| informer_update m cache old pv :
    m !! pv_Name pv = Some old →
    informer_step p (m, cache)
      (<[pv_Name pv := pv]> m, UpdateFunc p (ObjPV old) (ObjPV pv) cache)
| informer_delete m cache pv old :
    m !! pv_Name pv = Some old →
    informer_step p (m, cache) (delete (pv_Name pv) m, DeleteFunc (ObjPV pv) cache)
| informer_tombstone m cache pv old :
    m !! pv_Name pv = Some old →
    informer_step p (m, cache)
      (delete (pv_Name pv) m, DeleteFunc (ObjTombstone (ObjPV pv)) cache).

(** The relation between store and cache: cached volumes are the current objects
    of the store, and the volumes the provisioner owns are cached. *)
Definition tracks (p : RuntimeConfig)
    (s : gmap string PersistentVolume * gmap string PersistentVolume) : Prop :=
  keyed (fst s) ∧ keyed (snd s) ∧ snd s ⊆ fst s ∧
  ∀ name pv, fst s !! name = Some pv → owned p pv = true → snd s !! name = Some pv.

Lemma tracks_update p m cache pv :
  tracks p (m, cache) → tracks p (<[pv_Name pv := pv]> m, handlePVUpdate p pv cache).
Proof.
  intros (Hm&Hc&Hsub&Hown); simpl in *. rewrite handlePVUpdate_spec.
  destruct (owned p pv || bool_decide (is_Some (cache !! pv_Name pv))) eqn:E.
  - split_and!; simpl.
    + by apply map_Forall_insert_2.
    + by apply map_Forall_insert_2.
    + by apply insert_mono.
    + intros name pv'. rewrite !lookup_insert. case_decide; naive_solver.
  - apply orb_false_iff in E as [Eo Ec%bool_decide_eq_false].
    assert (cache !! pv_Name pv = None) as Hnone by (by apply eq_None_not_Some).
    split_and!; simpl; [by apply map_Forall_insert_2|done|by apply insert_subseteq_r|].
    intros name pv'. rewrite lookup_insert. case_decide; [naive_solver congruence|eauto].
Qed.

Lemma tracks_delete p m cache name :
  tracks p (m, cache) → tracks p (delete name m, delete name cache).
Proof.
  intros (Hm&Hc&Hsub&Hown); simpl in *. split_and!; simpl.
  - by apply map_Forall_delete.
  - by apply map_Forall_delete.
  - by apply delete_mono.
  - intros n pv'. rewrite !lookup_delete. case_decide; naive_solver.
Qed.

Lemma tracks_step p s s' : tracks p s → informer_step p s s' → tracks p s'.
Proof.
  intros H Hs. destruct Hs; simpl; rewrite ?handlePVDelete_spec;
    eauto using tracks_update, tracks_delete.
Qed.

(** The initial state of a process, and what every cached volume is. *)
Lemma tracks_init p : tracks p (∅, NewVolumeCache).
Proof.
  split_and!; simpl; [apply map_Forall_empty..|done|]. intros ??. by rewrite lookup_empty.
Qed.

Definition only_owned (p : RuntimeConfig) (cache : gmap string PersistentVolume) : Prop :=
  ∀ name pv, cache !! name = Some pv → owned p pv = true.

(** Changes of the store that never change who owns a volume. *)
Definition stable_ownership (p : RuntimeConfig) (m m' : gmap string PersistentVolume) : Prop :=
  ∀ name pv pv', m !! name = Some pv → m' !! name = Some pv' → owned p pv = owned p pv'.

Lemma only_owned_update p m cache pv :
  cache ⊆ m → only_owned p cache → stable_ownership p m (<[pv_Name pv := pv]> m) →
  only_owned p (handlePVUpdate p pv cache).
Proof.
  intros Hsub Ho Hst name pv'. rewrite handlePVUpdate_spec.
  destruct (owned p pv) eqn:Eo; simpl.
  - rewrite lookup_insert. case_decide; naive_solver.
  - case_bool_decide as Hin; [|eauto]. destruct Hin as [pv1 Hpv1].
    pose proof (Hst _ pv1 pv (lookup_weaken _ _ _ _ Hpv1 Hsub) (lookup_insert_eq _ _ _)) as E.
    rewrite (Ho _ _ Hpv1) in E. congruence.
Qed.

Lemma only_owned_step p s s' :
  tracks p s → only_owned p (snd s) → informer_step p s s' →
  stable_ownership p (fst s) (fst s') → only_owned p (snd s').
Proof.
  intros (_&_&Hsub&_) Ho Hs Hst. destruct Hs; simpl in *;
    [by eapply only_owned_update..| |];
    rewrite handlePVDelete_spec; intros name pv'; rewrite lookup_delete; case_decide; naive_solver.
Qed.

(** C14. The cache follows the informer.  After any run of the informer from an
    empty store and an empty cache, every cached volume is the store's current
    object of that name (no stale version, no deleted volume), volumes are cached
    under their own name, and every volume of the store that this provisioner owns
    is cached. *)
Theorem populator_tracks_informer p m cache :
  rtc (informer_step p) (∅, NewVolumeCache) (m, cache) →
  keyed cache ∧ cache ⊆ m ∧
  ∀ name pv, m !! name = Some pv → owned p pv = true → cache !! name = Some pv.
Proof.
  intros Hr. assert (tracks p (m, cache)) as (?&?&?&?); [|done].
  eapply rtc_invariant; [apply tracks_init| |apply Hr]. apply tracks_step.
Qed.

Definition owned_example : PersistentVolume := {|
  pv_meta := {|
    om_Name := "local-pv-1"; om_Namespace := ""; om_UID := ""; om_Labels := None;
    om_Annotations := Some {[AnnProvisionedBy := rc_Name example_runtime]};
    om_DeletionTimestamp := None; om_OwnerReferences := [] |};
  pv_Spec := pv_Spec (sample_pv "local-pv-1" "sc1" "/mnt/disks/dir1/vol1");
  pv_Phase := VolumeAvailable |}.

Lemma populator_tracks_informer_witness :
  AddFunc example_runtime (ObjPV owned_example) NewVolumeCache !! "local-pv-1" =
  Some owned_example.
Proof.
  refine (proj2 (proj2 (populator_tracks_informer example_runtime
    (<["local-pv-1" := owned_example]> ∅) _ _)) "local-pv-1" owned_example _ _).
  - apply rtc_once. apply (informer_add example_runtime ∅ NewVolumeCache owned_example).
    reflexivity.
  - reflexivity.
  - reflexivity.
Defined.

(** The cache holds exactly the owned volumes when ownership is stable: if no
    update of a volume in the store changes whether the provisioner owns it, the
    cache is the set of owned volumes of the informer's store. *)
Theorem populator_cache_exact p m cache :
  rtc (λ s s', informer_step p s s' ∧ stable_ownership p (fst s) (fst s'))
    (∅, NewVolumeCache) (m, cache) →
  cache = filter (λ kv, owned p (snd kv) = true) m.
Proof.
  intros Hr.
  assert (tracks p (m, cache) ∧ only_owned p (snd (m, cache))) as [(_&_&Hsub&Hown) Honly].
  { eapply (rtc_invariant _ (λ s, tracks p s ∧ only_owned p (snd s))); [| |apply Hr].
    - split; [apply tracks_init|]. intros ??. simpl. unfold NewVolumeCache.
      by rewrite lookup_empty.
    - intros s s' [Ht Ho] [Hs Hst]. eauto using tracks_step, only_owned_step. }
  simpl in *. apply map_eq. intros name. apply option_eq. intros pv.
  rewrite map_lookup_filter_Some. simpl. split; [|naive_solver].
  intros H. split; [by eapply lookup_weaken|by eapply Honly].
Qed.

Lemma populator_cache_exact_witness :
  AddFunc example_runtime (ObjPV owned_example) NewVolumeCache =
  filter (λ kv, owned example_runtime (snd kv) = true) (<["local-pv-1" := owned_example]> ∅).
Proof.
  apply populator_cache_exact. apply rtc_once. split.
  - apply (informer_add example_runtime ∅ NewVolumeCache owned_example). reflexivity.
  - intros ??? H. inversion H.
Defined.
