(* ===== verification/WorkQueue.v ===== *)
(** * WorkQueue: the rate-limited work queue of client-go

    The queue operations the two controllers use, as a class over a queue state
    whose items are strings; the documented behaviour of retry counting
    ([WorkQueueLaws]: [NumRequeues] counts the [AddRateLimited] calls of an item
    since it was last forgotten), and an in-memory queue that has it. *)
From S2P Require Import Prelude GoLib.

(** [wq_Get] returns [None] when the queue was shut down. *)
Class WorkQueue (Q : Type) := {
  wq_Get : Q → option string * Q;
  wq_Add : string → Q → Q;
  wq_AddAfter : string → Z → Q → Q;
  wq_AddRateLimited : string → Q → Q;
  wq_Forget : string → Q → Q;
  wq_NumRequeues : string → Q → nat;
  wq_Done : string → Q → Q
}.

Class WorkQueueLaws (Q : Type) `{WorkQueue Q} := {
  NumRequeues_Get : ∀ k q, wq_NumRequeues k (snd (wq_Get q)) = wq_NumRequeues k q;
  NumRequeues_Add : ∀ k k' q, wq_NumRequeues k (wq_Add k' q) = wq_NumRequeues k q;
  NumRequeues_AddAfter : ∀ k k' d q, wq_NumRequeues k (wq_AddAfter k' d q) = wq_NumRequeues k q;
  NumRequeues_Done : ∀ k k' q, wq_NumRequeues k (wq_Done k' q) = wq_NumRequeues k q;
  NumRequeues_Forget : ∀ k k' q,
    wq_NumRequeues k (wq_Forget k' q) = if decide (k = k') then 0 else wq_NumRequeues k q;
  NumRequeues_AddRateLimited : ∀ k k' q,
    wq_NumRequeues k (wq_AddRateLimited k' q) =
    if decide (k = k') then S (wq_NumRequeues k q) else wq_NumRequeues k q
}.

(** ** An in-memory queue: delays are recorded, not waited for *)
Record MemQueue := {
  mq_items : list string;
  mq_delayed : list (string * Z);
  mq_requeues : gmap string nat;
  mq_shutdown : bool }.

Definition empty_queue : MemQueue :=
  {| mq_items := []; mq_delayed := []; mq_requeues := ∅; mq_shutdown := false |}.

#[export] Instance MemQueue_queue : WorkQueue MemQueue := {|
  wq_Get q :=
    match mq_items q with
    | k :: ks => (Some k, {| mq_items := ks; mq_delayed := mq_delayed q;
                             mq_requeues := mq_requeues q; mq_shutdown := mq_shutdown q |})
    | [] => (None, q)
    end;
  wq_Add k q :=
    {| mq_items := if decide (k ∈ mq_items q) then mq_items q else (mq_items q ++ [k])%list;
       mq_delayed := mq_delayed q; mq_requeues := mq_requeues q; mq_shutdown := mq_shutdown q |};
  wq_AddAfter k d q :=
    {| mq_items := mq_items q; mq_delayed := (mq_delayed q ++ [(k, d)])%list;
       mq_requeues := mq_requeues q; mq_shutdown := mq_shutdown q |};
  wq_AddRateLimited k q :=
    {| mq_items := mq_items q; mq_delayed := (mq_delayed q ++ [(k, 0%Z)])%list;
       mq_requeues := <[k := S (default 0 (mq_requeues q !! k))]> (mq_requeues q);
       mq_shutdown := mq_shutdown q |};
  wq_Forget k q :=
    {| mq_items := mq_items q; mq_delayed := mq_delayed q;
       mq_requeues := delete k (mq_requeues q); mq_shutdown := mq_shutdown q |};
  wq_NumRequeues k q := default 0 (mq_requeues q !! k);
  wq_Done k q := q
|}.

#[export] Instance MemQueue_laws : WorkQueueLaws MemQueue.
Proof.
  split; simpl; intros.
  - by destruct (mq_items q).
  - done.
  - done.
  - done.
  - rewrite lookup_delete. repeat case_decide; naive_solver.
  - rewrite lookup_insert. repeat case_decide; naive_solver.
Qed.

(** ** The queue of client-go

    [queue] holds the items to hand out, [dirty] the items that need processing,
    [processing] those that a worker has; an item that is added while a worker has it is
    queued when the worker is done with it.  [waiting] are the delayed items, [failures]
    the counts of the rate limiter; [When] is the delay it asks for, by the number of
    failures. *)
Record Queue := {
  q_queue : list string;
  q_dirty : gset string;
  q_processing : gset string;
  q_waiting : gset string;
  q_failures : gmap string nat;
  q_shuttingDown : bool }.

Definition new_queue : Queue :=
  {| q_queue := []; q_dirty := ∅; q_processing := ∅; q_waiting := ∅; q_failures := ∅;
     q_shuttingDown := false |}.

Module queue.
Definition Add (k : string) (q : Queue) : Queue :=
  if q_shuttingDown q then q
  else if decide (k ∈ q_dirty q) then q
  else {| q_queue := if decide (k ∈ q_processing q) then q_queue q
                     else (q_queue q ++ [k])%list;
          q_dirty := {[k]} ∪ q_dirty q; q_processing := q_processing q;
          q_waiting := q_waiting q; q_failures := q_failures q;
          q_shuttingDown := q_shuttingDown q |}.

(** [Get] on a queue that is not empty, or shut down; otherwise the caller blocks. *)
Definition Get (q : Queue) : option string * Queue :=
  match q_queue q with
  | [] => (None, q)
  | k :: ks =>
      (Some k, {| q_queue := ks; q_dirty := q_dirty q ∖ {[k]};
                  q_processing := {[k]} ∪ q_processing q; q_waiting := q_waiting q;
                  q_failures := q_failures q; q_shuttingDown := q_shuttingDown q |})
  end.

Definition Done (k : string) (q : Queue) : Queue :=
  {| q_queue := if decide (k ∈ q_dirty q) then (q_queue q ++ [k])%list else q_queue q;
     q_dirty := q_dirty q; q_processing := q_processing q ∖ {[k]}; q_waiting := q_waiting q;
     q_failures := q_failures q; q_shuttingDown := q_shuttingDown q |}.

Definition ShutDown (q : Queue) : Queue :=
  {| q_queue := q_queue q; q_dirty := q_dirty q; q_processing := q_processing q;
     q_waiting := q_waiting q; q_failures := q_failures q; q_shuttingDown := true |}.

Definition with_waiting (w : gset string) (q : Queue) : Queue :=
  {| q_queue := q_queue q; q_dirty := q_dirty q; q_processing := q_processing q;
     q_waiting := w; q_failures := q_failures q; q_shuttingDown := q_shuttingDown q |}.

Definition with_failures (f : gmap string nat) (q : Queue) : Queue :=
  {| q_queue := q_queue q; q_dirty := q_dirty q; q_processing := q_processing q;
     q_waiting := q_waiting q; q_failures := f; q_shuttingDown := q_shuttingDown q |}.

Definition AddAfter (k : string) (d : Z) (q : Queue) : Queue :=
  if q_shuttingDown q then q
  else if decide (d ≤ 0)%Z then Add k q
  else with_waiting ({[k]} ∪ q_waiting q) q.

Definition NumRequeues (k : string) (q : Queue) : nat := default 0 (q_failures q !! k).

Definition AddRateLimited (When : nat → Z) (k : string) (q : Queue) : Queue :=
  let n := NumRequeues k q in
  AddAfter k (When n) (with_failures (<[k := S n]> (q_failures q)) q).

Definition Forget (k : string) (q : Queue) : Queue := with_failures (delete k (q_failures q)) q.

(** The loop of the delayed items finds one that is due. *)
Definition ripen (k : string) (q : Queue) : Queue :=
  if q_shuttingDown q then q else Add k (with_waiting (q_waiting q ∖ {[k]}) q).
End queue.

(** The delay of the exponential limiter: five milliseconds, doubled per failure, at most
    1000 seconds; in nanoseconds.  (The limiter of the whole queue can ask for more, which
    makes no difference here: delayed items are due at any time.) *)
Definition When (n : nat) : Z := Z.min (5000000 * 2 ^ Z.of_nat n) 1000000000000.

#[export] Instance Queue_queue : WorkQueue Queue := {|
  wq_Get := queue.Get;
  wq_Add := queue.Add;
  wq_AddAfter := queue.AddAfter;
  wq_AddRateLimited := queue.AddRateLimited When;
  wq_Forget := queue.Forget;
  wq_NumRequeues := queue.NumRequeues;
  wq_Done := queue.Done
|}.

#[export] Instance Queue_laws : WorkQueueLaws Queue.
Proof.
  split; cbn [wq_Get wq_Add wq_AddAfter wq_AddRateLimited wq_Forget wq_NumRequeues wq_Done
              Queue_queue]; intros;
    unfold queue.NumRequeues, queue.Get, queue.AddRateLimited, queue.AddAfter, queue.Add,
      queue.Forget, queue.NumRequeues; repeat case_decide; repeat case_match; simpl; subst;
    rewrite ?lookup_delete_eq, ?lookup_insert_eq, ?lookup_delete_ne, ?lookup_insert_ne by done;
    done.
Qed.
