(* ===== verification/JobController.v ===== *)
(** * JobController: cleanup by Kubernetes jobs, [pkg/deleter/jobcontroller.go]

    The job a volume is cleaned with, the queries on running and completed jobs,
    the controller's work loop on its rate-limited queue, and the fake of the
    tests. *)
From S2P Require Import Prelude GoLib FilePath K8s Common Cache Metrics ProcTable Runtime WorkQueue.

Definition maxRetries : nat := 10.
Definition JobContainerName := "cleaner".
Definition JobNamePrefix := "cleanup-".
Definition PVLabel := "pv".
Definition PVUuidLabel := "pvuuid".
Definition DeviceAnnotation := "device".
Definition StartTimeAnnotation := "start-time".

Definition generateCleaningJobName (pvName : string) : string := JobNamePrefix +:+ pvName.

(** [startTime] is the formatted [time.Now()]. *)
Definition NewCleanupJob (startTime : string) (pv : PersistentVolume) (volMode imageName : string)
    (tolerations : list Toleration) (nodeName namespace mountPath : string)
    (config : MountConfig) : result Job :=
  let mountName := GenerateMountName config in
  let finish (command : list string) (env : list EnvVar)
             (extraVolumes : list Volume) (extraMounts : list VolumeMount) : Job :=
    {| job_meta := {|
         om_Name := generateCleaningJobName (pv_Name pv);
         om_Namespace := namespace;
         om_UID := "";
         om_Labels := Some (<[NodeNameLabel := nodeName]> (<[PVLabel := pv_Name pv]>
                        {[PVUuidLabel := om_UID (pv_meta pv)]}));
         om_Annotations := Some (<[DeviceAnnotation := mountPath]>
                             {[StartTimeAnnotation := startTime]});
         om_DeletionTimestamp := None;
         om_OwnerReferences := [] |};
       job_PodSpec := {|
         ps_Containers := [{|
           ctr_Name := JobContainerName; ctr_Image := imageName; ctr_Privileged := Some true;
           ctr_Command := command; ctr_Env := env;
           ctr_VolumeMounts :=
             {| vm_Name := mountName; vm_MountPath := MountDir config |} :: extraMounts |}];
         ps_Volumes := {| vol_Name := mountName; vol_HostPath := HostDir config |} :: extraVolumes;
         ps_NodeSelector := {[NodeNameLabel := nodeName]};
         ps_Tolerations := tolerations;
         ps_RestartPolicy := RestartPolicyOnFailure |};
       job_Succeeded := 0 |} in
  if decide (volMode = PersistentVolumeBlock) then
    Ok (finish (default [] (BlockCleanerCommand config))
          [{| env_Name := LocalPVEnv; env_Value := mountPath |}]
          [{| vol_Name := "dev"; vol_HostPath := "/dev" |}]
          [{| vm_Name := "dev"; vm_MountPath := "/dev" |}])
  else if decide (volMode = PersistentVolumeFilesystem) then
    Ok (finish ["/scripts/fsclean.sh"]
          [{| env_Name := LocalFilesystemEnv; env_Value := mountPath |}] [] [])
  else Err (Errorf "unknown PersistentVolume mode: %v" [volMode] []).

(** ** Queries *)
Section queries.
Context {FS API PT : Type} `{!KubeClient API}.
Abbreviation W := (World FS API PT).

Definition IsCleaningJobRunning (c : RuntimeConfig) (pvName : string) : M W bool :=
  jobs ← gets w_jobLister;
  match jobs (Namespace (rc_User c)) (generateCleaningJobName pvName) with
  | Err err => mret (negb (IsNotFound err))
  | Ok job => mret (job_Succeeded job <=? 0)%Z
  end.

(** The start time of a job from its annotation; [None] when absent or malformed. *)
Definition job_start_time (c : RuntimeConfig) (job : Job) : option Z :=
  match map_get (om_Annotations (job_meta job)) StartTimeAnnotation with
  | None => None
  | Some startTimeStr => rc_time_Parse c startTimeStr
  end.

Definition RemoveJob (c : RuntimeConfig) (pvName : string)
  : M W (CleanupState * option Z * option error) :=
  let jobName := generateCleaningJobName pvName in
  jobs ← gets w_jobLister;
  match jobs (Namespace (rc_User c)) jobName with
  | Err err =>
      if IsNotFound err then mret (CSNotFound, None, None)
      else mret (CSUnknown, None,
             Some (Errorf "Failed to check whether job %s has succeeded. Error - %s" [jobName] [err]))
  | Ok job =>
      let startTime := job_start_time c job in
      if (job_Succeeded job =? 0)%Z
      then mret (CSUnknown, None,
             Some (Errorf "Error deleting Job %q: Cannot remove job that has not succeeded"
                     [job_Name job] []))
      else
        err ← apiUtil.DeleteJob (job_Name job) (Namespace (rc_User c));
        match err with
        | Some err =>
            mret (CSUnknown, None, Some (Errorf "Error deleting Job %q: %s" [job_Name job] [err]))
        | None => mret (CSSucceeded, startTime, None)
        end
  end.
End queries.

(** ** The work loop *)

(** [cache.MetaNamespaceKeyFunc] and [cache.SplitMetaNamespaceKey]. *)
Definition MetaNamespaceKey (m : ObjectMeta) : string :=
  if decide (om_Namespace m = "") then om_Name m
  else om_Namespace m +:+ "/" +:+ om_Name m.

Definition SplitMetaNamespaceKey (key : string) : result (string * string) :=
  match split_on Separator key with
  | [name] => Ok ("", name)
  | [namespace; name] => Ok (namespace, name)
  | _ => Err (Errorf "unexpected key format: %q" [key] [])
  end.

(** [processItem] only reports: what it logs is its result. *)
Inductive JobNote := NoteDeleted | NoteDeleting | NoteNotCompleted | NoteCompleted.

Definition processItem (jobLister : string → string → result Job) (key : string)
  : result JobNote :=
  match SplitMetaNamespaceKey key with
  | Err err => Err err
  | Ok (namespace, name) =>
      match jobLister namespace name with
      | Err err =>
          if IsNotFound err then Ok NoteDeleted
          else Err (Errorf "Error fetching object with key %s from store: %v" [key] [err])
      | Ok job =>
          match om_DeletionTimestamp (job_meta job) with
          | Some _ => Ok NoteDeleting
          | None => if (job_Succeeded job =? 0)%Z then Ok NoteNotCompleted else Ok NoteCompleted
          end
      end
  end.

Section work_loop.
Context {Q : Type} `{!WorkQueue Q}.

(** The informer handlers of [NewJobController]: the key of the job is queued. *)
Definition job_event (m : ObjectMeta) (q : Q) : Q := wq_Add (MetaNamespaceKey m) q.

(** [processNextItem] with the item it got. *)
Definition processGot (jobLister : string → string → result Job) (key : string) (q : Q) : Q :=
  wq_Done key
    match processItem jobLister key with
    | Ok _ => wq_Forget key q
    | Err _ =>
        if (wq_NumRequeues key q <? maxRetries)%nat then wq_AddRateLimited key q
        else wq_Forget key q
    end.

Definition processNextItem (jobLister : string → string → result Job) (q : Q) : bool * Q :=
  let '(key, q) := wq_Get q in
  match key with
  | None => (false, q)
  | Some key => (true, processGot jobLister key q)
  end.
End work_loop.

(** ** The controller and its informer *)
Record jobController := {
  jc_config : RuntimeConfig;
  jc_namespace : string;
  jc_labels : gmap string string }.

Definition NewJobController (labelmap : gmap string string) (config : RuntimeConfig)
  : jobController :=
  {| jc_config := config; jc_namespace := Namespace (rc_User config); jc_labels := labelmap |}.

(** The list and watch requests of the informer: the jobs of the namespace whose
    labels have the given values. *)
Definition selects (jc : jobController) (job : Job) : bool :=
  bool_decide (om_Namespace (job_meta job) = jc_namespace jc) &&
  bool_decide (map_Forall (λ k v, map_get (om_Labels (job_meta job)) k = Some v) (jc_labels jc)).

(** [jobLister.Jobs(namespace).Get(name)] when the server has these jobs. *)
Definition jobLister (jc : jobController) (jobs : list Job) (namespace name : string) : result Job :=
  match List.filter (λ j, selects jc j && bool_decide (om_Namespace (job_meta j) = namespace) &&
                          bool_decide (job_Name j = name)) jobs with
  | j :: _ => Ok j
  | [] => Err (APIError ReasonNotFound name)
  end.

(** The job with another number of succeeded pods in its status. *)
Definition with_succeeded (n : Z) (job : Job) : Job :=
  {| job_meta := job_meta job; job_PodSpec := job_PodSpec job; job_Succeeded := n |}.

(** ** The fake *)
Module FakeJobController.
Record FakeJobController := {
  pvCleanupRunning : gmap string CleanupState;
  IsRunningCount : Z;
  RemoveCompletedCount : Z }.

Definition NewFakeJobController : FakeJobController :=
  {| pvCleanupRunning := ∅; IsRunningCount := 0; RemoveCompletedCount := 0 |}.

Definition MarkRunning (pvName : string) (c : FakeJobController) : FakeJobController :=
  {| pvCleanupRunning := <[pvName := CSRunning]> (pvCleanupRunning c);
     IsRunningCount := IsRunningCount c; RemoveCompletedCount := RemoveCompletedCount c |}.

Definition MarkSucceeded (pvName : string) (c : FakeJobController) : FakeJobController :=
  {| pvCleanupRunning := <[pvName := CSSucceeded]> (pvCleanupRunning c);
     IsRunningCount := IsRunningCount c; RemoveCompletedCount := RemoveCompletedCount c |}.

Definition IsCleaningJobRunning (pvName : string) (c : FakeJobController)
  : bool * FakeJobController :=
  (bool_decide (is_Some (pvCleanupRunning c !! pvName)),
   {| pvCleanupRunning := pvCleanupRunning c; IsRunningCount := IsRunningCount c + 1;
      RemoveCompletedCount := RemoveCompletedCount c |}).

Definition RemoveJob (pvName : string) (c : FakeJobController)
  : (CleanupState * option Z * option error) * FakeJobController :=
  (match pvCleanupRunning c !! pvName with
   | None => (CSNotFound, None, None)
   | Some status =>
       if decide (status = CSSucceeded) then (CSSucceeded, None, None)
       else (CSUnknown, None,
             Some (Errorf "cannot remove job that has not yet completed %s status %d" [pvName] []))
   end,
   {| pvCleanupRunning := pvCleanupRunning c; IsRunningCount := IsRunningCount c;
      RemoveCompletedCount := RemoveCompletedCount c + 1 |}).
End FakeJobController.

(** ** Lemmas *)
Lemma generateCleaningJobName_inj p1 p2 :
  generateCleaningJobName p1 = generateCleaningJobName p2 → p1 = p2.
Proof. unfold generateCleaningJobName, JobNamePrefix. by intros [= ?]. Qed.

(** The key of a named object splits back into its namespace and name. *)
Lemma SplitMetaNamespaceKey_roundtrip m :
  contains_byte Separator (om_Namespace m) = false →
  contains_byte Separator (om_Name m) = false →
  SplitMetaNamespaceKey (MetaNamespaceKey m) = Ok (om_Namespace m, om_Name m).
Proof.
  intros Hns Hn. unfold SplitMetaNamespaceKey, MetaNamespaceKey. case_decide as E.
  - rewrite split_on_single by done. by rewrite E.
  - change ("/" +:+ om_Name m) with (String Separator (om_Name m)).
    by rewrite split_on_app, split_on_single.
Qed.

Section queue_lemmas.
Context {Q : Type} `{WorkQueueLaws Q}.

Lemma processNextItem_requeues jobLister (q : Q) k :
  wq_NumRequeues k q ≤ maxRetries →
  wq_NumRequeues k (snd (processNextItem jobLister q)) ≤ maxRetries.
Proof.
  intros Hk. unfold processNextItem, processGot.
  pose proof (NumRequeues_Get k q) as HG. destruct (wq_Get q) as [[key|] q']; simpl in *; [|lia].
  rewrite NumRequeues_Done. destruct (processItem jobLister key).
  - rewrite NumRequeues_Forget. case_decide; lia.
  - destruct (Nat.ltb_spec (wq_NumRequeues key q') maxRetries).
    + rewrite NumRequeues_AddRateLimited. case_decide; subst; lia.
    + rewrite NumRequeues_Forget. case_decide; lia.
Qed.
End queue_lemmas.

(** ** Properties *)

(** In the container [ctr] of a pod, [path] is the entry [host] of a host directory: it
    is an entry of the directory where a volume of the pod is mounted. *)
Definition sees (ps : PodSpec) (ctr : Container) (path host : string) : Prop :=
  ∃ m v file, m ∈ ctr_VolumeMounts ctr ∧ v ∈ ps_Volumes ps ∧ vol_Name v = vm_Name m ∧
    Rel (vm_MountPath m) path = Ok file ∧ plain_name file ∧ host = Join [vol_HostPath v; file].

(** The pod of [job] runs [command] in its only container, in whose environment the
    variable [var], and nothing else, is set to a path that is [host] on the host; no two
    volumes or mounts have one name. *)
Definition works_on (job : Job) (command : list string) (var host : string) : Prop :=
  let ps := job_PodSpec job in
  ∃ ctr path, ps_Containers ps = [ctr] ∧ ctr_Command ctr = command ∧
    ctr_Env ctr = [{| env_Name := var; env_Value := path |}] ∧
    NoDup (vm_Name <$> ctr_VolumeMounts ctr) ∧ NoDup (vol_Name <$> ps_Volumes ps) ∧
    sees ps ctr path host ∧
    (var = "LOCAL_PV_BLKDEVICE" → ∀ dev, plain_name dev →
       sees ps ctr (Join ["/dev"; dev]) (Join ["/dev"; dev])).

(** The two kinds of job, for the entry [file] of the class's directory. *)
Lemma NewCleanupJob_works start pv mode image tols node ns file config :
  HostDir config ≠ "" → MountDir config ≠ "" → plain_name file →
  match NewCleanupJob start pv mode image tols node ns (Join [MountDir config; file]) config with
  | Err _ => mode ≠ PersistentVolumeBlock ∧ mode ≠ PersistentVolumeFilesystem
  | Ok job =>
      ps_NodeSelector (job_PodSpec job) = {[NodeNameLabel := node]} ∧
      (mode = PersistentVolumeBlock ∧
         works_on job (default [] (BlockCleanerCommand config)) "LOCAL_PV_BLKDEVICE"
           (Join [HostDir config; file]) ∨
       mode = PersistentVolumeFilesystem ∧
         works_on job ["/scripts/fsclean.sh"] "LOCAL_PV_FILESYSTEM" (Join [HostDir config; file]))
  end.
Proof.
  intros Hh Hm Hf. unfold NewCleanupJob.
  assert (∀ ps ctr, {| vm_Name := GenerateMountName config; vm_MountPath := MountDir config |}
      ∈ ctr_VolumeMounts ctr →
    {| vol_Name := GenerateMountName config; vol_HostPath := HostDir config |} ∈ ps_Volumes ps →
    sees ps ctr (Join [MountDir config; file]) (Join [HostDir config; file])) as Hsees.
  { intros ps ctr H1 H2. eexists _, _, file. split_and!; [exact H1|exact H2|done| |done|done].
    by apply Rel_Join. }
  destruct (decide (mode = PersistentVolumeBlock)) as [-> |Hb];
    [|destruct (decide (mode = PersistentVolumeFilesystem)) as [-> |Hfs]; [|done]].
  - split; [done|]. left. split; [done|]. do 2 eexists. split_and!; [done..| | | |].
    + apply NoDup_cons. split; [|apply NoDup_singleton]. by rewrite list_elem_of_singleton.
    + apply NoDup_cons. split; [|apply NoDup_singleton]. by rewrite list_elem_of_singleton.
    + apply Hsees; left.
    + intros _ dev Hdev. exists {| vm_Name := "dev"; vm_MountPath := "/dev" |},
        {| vol_Name := "dev"; vol_HostPath := "/dev" |}, dev.
      split_and!; [right; left|right; left|done|by apply Rel_Join|done|done].
  - split; [done|]. right. split; [done|]. do 2 eexists.
    split_and!; [done..|apply NoDup_singleton|apply NoDup_singleton|apply Hsees; left|done].
Qed.

(** What the informer and the queries see of a job that was made for a volume. *)
Lemma NewCleanupJob_meta start pv mode image tols node ns path config job :
  NewCleanupJob start pv mode image tols node ns path config = Ok job →
  job_Name job = generateCleaningJobName (pv_Name pv) ∧ om_Namespace (job_meta job) = ns ∧
  map_get (om_Labels (job_meta job)) NodeNameLabel = Some node ∧
  map_get (om_Annotations (job_meta job)) StartTimeAnnotation = Some start.
Proof.
  unfold NewCleanupJob. intros Hjob.
  destruct (decide _); [|destruct (decide _); [|done]]; injection Hjob as <-; simpl;
    rewrite lookup_insert_eq, lookup_insert_ne, lookup_singleton_eq by done; done.
Qed.

(** A submitted job is found again.  Let the server have the job that was made for
    a volume (and no other of that name in the namespace).  The informer selects it;
    as long as it has not succeeded the cleanup counts as running; afterwards it does
    not, and removing the job reports success with the start time that was written
    into its annotation, for any time format that parses what it prints. *)
Theorem submitted_job_is_found {FS API PT : Type} `{!KubeClient API} (c : RuntimeConfig) now pv mode
    image tols path config job n jobs (w : World FS API PT) :
  let u := rc_User c in
  let node := node_Name (uc_Node u) in
  NewCleanupJob (rc_time_Format c now) pv mode image tols node (Namespace u) path config = Ok job →
  rc_time_Parse c (rc_time_Format c now) = Some now →
  with_succeeded n job ∈ jobs →
  (∀ j, j ∈ jobs → om_Namespace (job_meta j) = Namespace u → job_Name j = job_Name job →
     j = with_succeeded n job) →
  w_jobLister w = jobLister (NewJobController {[NodeNameLabel := node]} c) jobs →
  IsCleaningJobRunning c (pv_Name pv) w = Done (n <=? 0)%Z w ∧
  ∀ a, (0 < n)%Z →
    api_DeleteJob (job_Name job) (Namespace u) DeletePropagationForeground (w_api w) = (None, a) →
    RemoveJob c (pv_Name pv) w = Done (CSSucceeded, Some now, None) (set_api a w).
Proof.
  intros u node Hjob Hparse Hin Huniq Hl.
  apply NewCleanupJob_meta in Hjob as (Hname&Hns&Hlabel&Hstart).
  assert (w_jobLister w (Namespace u) (generateCleaningJobName (pv_Name pv)) =
    Ok (with_succeeded n job)) as Hget.
  { rewrite Hl, <-Hname. unfold jobLister. set (f := λ j, _).
    assert (with_succeeded n job ∈ List.filter f jobs) as Hf.
    { apply list_elem_of_In, filter_In. split; [by apply list_elem_of_In|]. unfold f, selects. simpl.
      rewrite !bool_decide_true; try done. by apply map_Forall_singleton. }
    destruct (List.filter f jobs) as [|j l] eqn:E; [by apply not_elem_of_nil in Hf|]. f_equal.
    assert (j ∈ List.filter f jobs) as Hj by (rewrite E; left).
    apply list_elem_of_In, filter_In in Hj as [Hj Hfj]. unfold f in Hfj.
    apply andb_true_iff in Hfj as [[_ ?%bool_decide_eq_true]%andb_true_iff ?%bool_decide_eq_true].
    apply Huniq; [by apply list_elem_of_In|done..]. }
  unfold IsCleaningJobRunning, RemoveJob, apiUtil.DeleteJob, call_api. unfold_monad.
  fold u. rewrite Hget. split; [done|]. intros a Hn Hdel. simpl.
  rewrite (proj2 (Z.eqb_neq n 0)) by lia. change (job_Name (with_succeeded n job)) with (job_Name job).
  rewrite Hdel. unfold job_start_time. simpl. by rewrite Hstart, Hparse.
Qed.

(** The two queries on jobs agree, on every state of the lister: a cleanup is in
    progress unless the job is known to be absent or to have succeeded; a job is
    deleted only after it succeeded; and when [RemoveJob] answers without error,
    the state it gives is success or absence, never failure. *)
Theorem job_queries_agree {FS API PT : Type} `{!KubeClient API}
    (c : RuntimeConfig) pvName (w : World FS API PT) :
  let ns := Namespace (rc_User c) in
  let name := generateCleaningJobName pvName in
  match w_jobLister w ns name with
  | Ok job =>
      IsCleaningJobRunning c pvName w = Done (job_Succeeded job <=? 0)%Z w ∧
      (job_Succeeded job = 0%Z → ∃ e, RemoveJob c pvName w = Done (CSUnknown, None, Some e) w) ∧
      (job_Succeeded job ≠ 0%Z →
         let '(err, a) := api_DeleteJob (job_Name job) ns DeletePropagationForeground (w_api w) in
         match err with
         | None => RemoveJob c pvName w =
             Done (CSSucceeded, job_start_time c job, None) (set_api a w)
         | Some _ => ∃ e, RemoveJob c pvName w = Done (CSUnknown, None, Some e) (set_api a w)
         end)
  | Err err =>
      IsCleaningJobRunning c pvName w = Done (negb (IsNotFound err)) w ∧
      if IsNotFound err then RemoveJob c pvName w = Done (CSNotFound, None, None) w
      else ∃ e, RemoveJob c pvName w = Done (CSUnknown, None, Some e) w
  end.
Proof.
  intros ns name. unfold IsCleaningJobRunning, RemoveJob, apiUtil.DeleteJob, call_api.
  unfold_monad. fold ns name. destruct (w_jobLister w ns name) as [job|err].
  - split_and!; [done| |].
    + intros ->. simpl. by eexists.
    + intros Hne. rewrite (proj2 (Z.eqb_neq _ 0) Hne).
      destruct (api_DeleteJob _ _ _ _) as [[err|] a]; [by eexists|done].
  - split; [done|]. destruct (IsNotFound err); [done|by eexists].
Qed.

(** What the informers and a worker do to the job queue. *)
Inductive queue_step {Q} `{!WorkQueue Q} (q : Q) : Q → Prop :=
| queue_event m : queue_step q (job_event m q)
| queue_work jobLister : queue_step q (snd (processNextItem jobLister q)).

(** Retries are bounded: starting from an empty queue, whatever jobs change
    and however often processing fails, an item is never retried more than
    [maxRetries] times in a row. *)
Theorem job_retries_bounded {Q} `{WorkQueueLaws Q} (q q' : Q) k :
  (∀ k, wq_NumRequeues k q = 0) → rtc queue_step q q' → wq_NumRequeues k q' ≤ maxRetries.
Proof.
  intros Hz Hr. revert k. change ((λ q, ∀ k, wq_NumRequeues k q ≤ maxRetries) q').
  eapply rtc_invariant; [..|exact Hr].
  - intros k. rewrite Hz. lia.
  - intros q1 q2 Hq [m|lister] k.
    + unfold job_event. rewrite NumRequeues_Add. apply Hq.
    + by apply processNextItem_requeues.
Qed.

(** ** Witnesses *)
Definition job_runtime : RuntimeConfig := {|
  rc_User := example_user; rc_Name := ""; rc_goos := "linux"; rc_hasJobController := true;
  rc_time_Format := λ _, "t"; rc_time_Parse := λ _, Some 5%Z |}.

Definition example_job : result Job :=
  NewCleanupJob "t" (sample_pv "pv" "sc" "/mnt/disks/vol") PersistentVolumeBlock "image" []
    (node_Name example_node) "default" "/mnt/disks/vol" sample_mount.

Definition job_world (job : Job) : World () MemServer () := {|
  w_cache := ∅; w_proc := (); w_classLister := λ name, Err (mem_not_found name);
  w_jobLister := jobLister (NewJobController {[NodeNameLabel := node_Name example_node]} job_runtime)
    [with_succeeded 1 job];
  w_api := {| mem_pvs := ∅; mem_jobs := {[job_Name job := job]}; mem_nodes := ∅; mem_pvcs := ∅;
              mem_down := false |};
  w_fs := (); w_mounts := Ok []; w_events := []; w_metrics := no_metrics; w_tasks := [];
  w_ready := false; w_taintRemoved := false; w_now := 7 |}.

Lemma submitted_job_is_found_witness :
  ∃ job w', example_job = Ok job ∧
    RemoveJob job_runtime "pv" (job_world job) = Done (CSSucceeded, Some 5%Z, None) w'.
Proof.
  destruct example_job as [job|] eqn:E; [|vm_compute in E; discriminate].
  eexists job, _. split; [reflexivity|].
  refine (proj2 (submitted_job_is_found job_runtime 5 (sample_pv "pv" "sc" "/mnt/disks/vol")
    PersistentVolumeBlock "image" [] "/mnt/disks/vol" sample_mount job 1 [with_succeeded 1 job]
    (job_world job) E eq_refl _ _ eq_refl) _ _ _).
  - left.
  - intros j [->|?%not_elem_of_nil]%elem_of_cons; done.
  - lia.
  - vm_compute in E. injection E as <-. vm_compute. reflexivity.
Defined.

(** A worker that cannot read the lister, on a queue with one job. *)
Lemma job_retries_bounded_witness :
  wq_NumRequeues "job" (snd (processNextItem
    (λ _ _, Err (APIError ReasonOther "unavailable")) (job_event (named "job") empty_queue))) = 1 ∧
  1 ≤ maxRetries.
Proof.
  assert (wq_NumRequeues "job" (snd (processNextItem
    (λ _ _, Err (APIError ReasonOther "unavailable")) (job_event (named "job") empty_queue))) = 1) as E
    by (vm_compute; reflexivity).
  split; [exact E|]. rewrite <-E. apply (job_retries_bounded empty_queue); [reflexivity|].
  eapply rtc_l; [apply (queue_event empty_queue (named "job"))|].
  apply rtc_once. apply queue_work.
Defined.
