(* ===== verification/Deleter.v ===== *)
(** * Deleter: cleanup and deletion of released volumes, [pkg/deleter/deleter.go]

    [DeletePVs] is one pass over the cached volumes.  A released volume whose
    policy is Delete is first cleaned, by a goroutine ([asyncCleanPV], an element
    of [w_tasks] until it is run) or by a job, and its API object is deleted by a
    later pass that finds the cleanup successful.  The commands of [os/exec] are
    the class [Exec]; the order of the loop over the cache is an argument. *)
From S2P Require Import Prelude GoLib FilePath K8s VolumeUtil Common Cache Metrics ProcTable.
From S2P Require Import Runtime WorkQueue JobController.

(** [exec.Command] with an environment variable added: the pipes, the start of
    the command and the wait for its end, which may change the file system. *)
Class Exec (FS : Type) := {
  exec_StdoutPipe : string → list string → FS → option error;
  exec_StderrPipe : string → list string → FS → option error;
  exec_Start : string → list string → string → FS → option error;
  exec_Wait : string → list string → string → FS → option error * FS
}.

Section deleter.
Context {FS API PT : Type}.
Context `{!VolumeUtil FS, !Exec FS, !KubeClient API, !ProcTable PT}.
Abbreviation W := (World FS API PT).
Context (c : RuntimeConfig).

(** ** [CleanupStatusTracker] *)
Definition InProgress (pvName : string) (isJob : bool) : M W bool :=
  if isJob
  then (if rc_hasJobController c then IsCleaningJobRunning c pvName else panic NilDereference)
  else call_proc (IsRunning pvName).

Definition RemoveStatus (pvName : string) (isJob : bool)
  : M W (CleanupState * option Z * option error) :=
  if isJob
  then (if rc_hasJobController c then RemoveJob c pvName else panic NilDereference)
  else call_proc (RemoveEntry pvName).

(** ** [Deleter] *)
Definition unknown_class (class : string) : error :=
  Errorf "Unknown storage class name %s" [class] [].

Definition getVolMode (pv : PersistentVolume) : M W (result string) :=
  let class := pvs_StorageClassName (pv_Spec pv) in
  match map_get (DiscoveryMap (rc_User c)) class with
  | None => mret (Err (unknown_class class))
  | Some config =>
      mountPath ← GetContainerPath pv config;
      match mountPath with
      | Err err => mret (Err err)
      | Ok mountPath => gets (λ w, GetVolumeMode (rc_goos c) mountPath (w_fs w))
      end
  end.

Definition shouldRunJob (mode : string) : bool :=
  bool_decide (mode = PersistentVolumeBlock) && UseJobForCleaning (rc_User c).

Definition runProcess (pv : PersistentVolume) (volMode mountPath : string)
    (config : MountConfig) : M W (option error) :=
  now ← gets w_now;
  err ← call_proc (MarkRunning now (pv_Name pv));
  match err with
  | Some err => mret (Some err)
  | None =>
      _ ← spawn {| ct_pv := pv; ct_volMode := volMode; ct_mountPath := mountPath;
                   ct_config := config |};
      mret None
  end.

Definition runJob (pv : PersistentVolume) (volMode mountPath : string)
    (config : MountConfig) : M W (option error) :=
  let u := rc_User c in
  if decide (JobContainerImage u = "")
  then mret (Some (Errorf
         "cannot run cleanup job without specifying job image name in the environment variable"
         [] []))
  else
    now ← gets w_now;
    match NewCleanupJob (rc_time_Format c now) pv volMode (JobContainerImage u)
            (elems (JobTolerations u)) (node_Name (uc_Node u)) (Namespace u) mountPath config with
    | Err err => mret (Some err)
    | Ok job => apiUtil.CreateJob job
    end.

(** The metrics of a deleted volume. *)
Definition record_deletion (pv : PersistentVolume) (volMode : string) (runjob : bool)
    (startTime : option Z) (config : MountConfig) : M W () :=
  let deleteType := if runjob then DeleteTypeJob else DeleteTypeProcess in
  _ ← metric (inc_delete volMode deleteType);
  match startTime with
  | None => mret ()
  | Some _ =>
      let capacityBytes := default 0%Z (pvs_Capacity (pv_Spec pv) !! ResourceStorage) in
      let cleanupCommand :=
        match BlockCleanerCommand config with Some (exe :: _) => exe | _ => "" end in
      metric (observe_delete volMode deleteType (CapacityBreakDown capacityBytes) cleanupCommand)
  end.

(** The case [CSSucceeded] of the switch in [deletePV]. *)
Definition delete_cleaned (pv : PersistentVolume) (volMode : string) (runjob : bool)
    (startTime : option Z) (config : MountConfig) : M W (option error) :=
  err ← apiUtil.DeletePV (pv_Name pv);
  match err with
  | Some err =>
      if negb (IsNotFound err) then
        _ ← Eventf pv EventTypeWarning EventVolumeFailedDelete err;
        mret (Some (Errorf "Error deleting PV %q: %v" [pv_Name pv] [err]))
      else
        _ ← record_deletion pv volMode runjob startTime config;
        mret None
  | None =>
      _ ← record_deletion pv volMode runjob startTime config;
      mret None
  end.

(** The end of [deletePV]: a cleanup is started. *)
Definition start_cleanup (pv : PersistentVolume) (volMode : string) (runjob : bool)
    (mountPath : string) (config : MountConfig) : M W (option error) :=
  if bool_decide (volMode = PersistentVolumeBlock) &&
     bool_decide (default [] (BlockCleanerCommand config) = [])
  then mret (Some (Errorf "Blockcleaner command was empty for pv %q mountPath %s but mount dir is %s"
                     [pv_Name pv; mountPath; MountDir config] []))
  else if runjob then runJob pv volMode mountPath config
  else runProcess pv volMode mountPath config.

(** [deletePV] from the check of a cleanup in progress. *)
Definition delete_by_status (pv : PersistentVolume) (volMode mountPath : string)
    (config : MountConfig) : M W (option error) :=
  let runjob := shouldRunJob volMode in
  inProgress ← InProgress (pv_Name pv) runjob;
  if inProgress : bool then mret None
  else
    status ← RemoveStatus (pv_Name pv) runjob;
    let '(state, startTime, err) := status : CleanupState * option Z * option error in
    match err with
    | Some err => mret (Some err)
    | None =>
        match state with
        | CSSucceeded => delete_cleaned pv volMode runjob startTime config
        | CSFailed | CSNotFound => start_cleanup pv volMode runjob mountPath config
        | CSUnknown | CSRunning =>
            mret (Some (Errorf "Unexpected state %d for pv %s" [pv_Name pv] []))
        end
    end.

Definition deletePV (pv : PersistentVolume) : M W (option error) :=
  match pvs_Local (pv_Spec pv) with
  | None => mret (Some (Errorf "Unsupported volume type" [] []))
  | Some _ =>
      let class := pvs_StorageClassName (pv_Spec pv) in
      match map_get (DiscoveryMap (rc_User c)) class with
      | None => mret (Some (unknown_class class))
      | Some config =>
          path ← GetContainerPath pv config;
          match path with
          | Err err => mret (Some err)
          | Ok mountPath =>
              mode ← getVolMode pv;
              match mode with
              | Err err =>
                  mret (Some (Errorf "failed to get volume mode of path %q: %v" [mountPath] [err]))
              | Ok volMode => delete_by_status pv volMode mountPath config
              end
          end
      end
  end.

(** The handling of an error of [deletePV] in [DeletePVs]. *)
Definition report_failure (pv : PersistentVolume) (err : error) : M W () :=
  mode ← getVolMode pv;
  let mode := match mode with Ok mode => mode | Err _ => "unknown" end in
  let deleteType := if shouldRunJob mode then DeleteTypeJob else DeleteTypeProcess in
  _ ← metric (inc_delete_failed mode deleteType);
  Eventf pv EventTypeWarning EventVolumeFailedDelete
    (Errorf "Error cleaning PV %q: %v" [pv_Name pv] [err]).

(** The body of the loop of [DeletePVs]. *)
Definition reclaimVolume (pv : PersistentVolume) : M W () :=
  if decide (pv_Phase pv ≠ VolumeReleased) then mret ()
  else match om_DeletionTimestamp (pv_meta pv) with
  | Some _ => mret ()
  | None =>
    let policy := pvs_ReclaimPolicy (pv_Spec pv) in
    if decide (policy = PersistentVolumeReclaimRetain) then mret ()
    else if decide (policy = PersistentVolumeReclaimRecycle) then
      Eventf pv EventTypeWarning "VolumeUnsupportedReclaimPolicy"
        (Errorf "Volume has unsupported PersistentVolumeReclaimPolicy: Recycle" [] [])
    else if decide (policy = PersistentVolumeReclaimDelete) then
      err ← deletePV pv;
      match err with
      | Some err => report_failure pv err
      | None => mret ()
      end
    else
      Eventf pv EventTypeWarning "VolumeUnknownReclaimPolicy"
        (Errorf "Volume has unrecognized PersistentVolumeReclaimPolicy" [] [])
  end.

Definition DeletePVs (map_order : gmap string PersistentVolume → list PersistentVolume) : M W () :=
  pvs ← gets (λ w, map_order (w_cache w));
  forM pvs () (λ _ pv, reclaimVolume pv).

(** ** The goroutine *)
Definition execScript (pvName blkdevPath exe : string) (exeArgs : list string)
  : M W (option error) :=
  let env := LocalPVEnv +:+ "=" +:+ blkdevPath in
  out ← gets (λ w, exec_StdoutPipe exe exeArgs (w_fs w));
  match out with
  | Some err => mret (Some err)
  | None =>
      errPipe ← gets (λ w, exec_StderrPipe exe exeArgs (w_fs w));
      match errPipe with
      | Some err => mret (Some err)
      | None =>
          start ← gets (λ w, exec_Start exe exeArgs env (w_fs w));
          match start with
          | Some err => mret (Some err)
          | None => call_fs (exec_Wait exe exeArgs env)
          end
      end
  end.

Definition cleanFilePV (pv : PersistentVolume) (mountPath : string) : M W (option error) :=
  match pvs_Local (pv_Spec pv) with
  | None => panic NilDereference
  | Some lvs => call_fs (DeleteContents (lvs_Path lvs) mountPath)
  end.

Definition cleanBlockPV (pv : PersistentVolume) (blkdevPath : string) (config : MountConfig)
  : M W (option error) :=
  _ ← Eventf pv EventTypeNormal VolumeDelete
        (Errorf "Starting cleanup of Block PV %q, this may take a while" [pv_Name pv] []);
  match pvs_Local (pv_Spec pv) with
  | None => panic NilDereference
  | Some _ =>
      match BlockCleanerCommand config with
      | Some (exe :: args) => execScript (pv_Name pv) blkdevPath exe args
      | _ => panic IndexOutOfRange
      end
  end.

Definition cleanPV (pv : PersistentVolume) (volMode mountPath : string) (config : MountConfig)
  : M W (option error) :=
  if negb (HasPrefix mountPath (MountDir config))
  then mret (Some (Errorf "Unexpected error pv %q mountPath %s but mount dir is %s"
                     [pv_Name pv; mountPath; MountDir config] []))
  else if decide (volMode = PersistentVolumeFilesystem) then cleanFilePV pv mountPath
  else if decide (volMode = PersistentVolumeBlock) then cleanBlockPV pv mountPath config
  else match pvs_Local (pv_Spec pv) with
       | None => panic NilDereference
       | Some lvs =>
           mret (Some (Errorf "Unexpected volume mode %q for deleting path %q"
                         [volMode; lvs_Path lvs] []))
       end.

Definition asyncCleanPV (t : CleanTask) : M W () :=
  err ← cleanPV (ct_pv t) (ct_volMode t) (ct_mountPath t) (ct_config t);
  match err with
  | Some _ => _ ← call_proc (MarkFailed (pv_Name (ct_pv t))); mret ()
  | None => _ ← call_proc (MarkSucceeded (pv_Name (ct_pv t))); mret ()
  end.
End deleter.

(** ** What one pass may do to a volume *)
Section effects.
Context {FS API PT : Type}.
Context `{!VolumeUtil FS, !Exec FS, !KubeClient API, !ProcTable PT}.
Context `{!KubeClientLaws API, !ProcTableLaws PT}.
Abbreviation W := (World FS API PT).
Context (c : RuntimeConfig).

(** The entries of the process table and the objects on the server. *)
Definition entries (w : W) : gmap string ProcEntry := view (w_proc w).
Definition objects (w : W) : gmap string PersistentVolume := api_pvs (w_api w).

(** The mode [getVolMode] finds (it changes nothing). *)
Definition volume_mode (pv : PersistentVolume) (w : W) : option string :=
  match getVolMode c pv w with Done (Ok mode) _ => Some mode | _ => None end.

(** A cleanup of the volume ended successfully and was not yet taken note of. *)
Definition cleaned (pv : PersistentVolume) (w : W) : Prop :=
  match volume_mode pv w with
  | None => False
  | Some mode =>
      if shouldRunJob c mode
      then ∃ job, w_jobLister w (Namespace (rc_User c))
                    (generateCleaningJobName (pv_Name pv)) = Ok job ∧ (0 < job_Succeeded job)%Z
      else ∃ e, entries w !! pv_Name pv = Some e ∧ Status e = CSSucceeded
  end.

(** The volume is to be reclaimed by deletion. *)
Definition reclaimable (pv : PersistentVolume) : Prop :=
  pv_Phase pv = VolumeReleased ∧ om_DeletionTimestamp (pv_meta pv) = None ∧
  pvs_ReclaimPolicy (pv_Spec pv) = PersistentVolumeReclaimDelete.

(** No cleanup process of the volume is running. *)
Definition idle (name : string) (w : W) : Prop :=
  match entries w !! name with Some e => Status e ≠ CSRunning | None => True end.

(** The task a cleanup of [pv] runs. *)
Definition task_of (pv : PersistentVolume) (w : W) (t : CleanTask) : Prop :=
  ct_pv t = pv ∧ volume_mode pv w = Some (ct_volMode t) ∧
  map_get (DiscoveryMap (rc_User c)) (pvs_StorageClassName (pv_Spec pv)) = Some (ct_config t) ∧
  GetContainerPath pv (ct_config t) w = Done (Ok (ct_mountPath t)) w.

(** A task that cannot panic: the volume is local, and a block device has a command. *)
Definition runnable (t : CleanTask) : Prop :=
  pvs_Local (pv_Spec (ct_pv t)) ≠ None ∧
  (ct_volMode t = PersistentVolumeBlock → default [] (BlockCleanerCommand (ct_config t)) ≠ []).

(** [w'] has the given entries, objects and tasks, and is like [w] otherwise
    (metrics, events and jobs on the server aside). *)
Record becomes (w : W) (p : gmap string ProcEntry) (o : gmap string PersistentVolume)
    (ts : list CleanTask) (w' : W) : Prop := {
  bec_entries : entries w' = p;
  bec_objects : objects w' = o;
  bec_tasks : w_tasks w' = ts;
  bec_cache : w_cache w' = w_cache w;
  bec_jobs : w_jobLister w' = w_jobLister w;
  bec_classes : w_classLister w' = w_classLister w;
  bec_fs : w_fs w' = w_fs w;
  bec_mounts : w_mounts w' = w_mounts w;
  bec_now : w_now w' = w_now w;
  bec_ready : w_ready w' = w_ready w;
  bec_taint : w_taintRemoved w' = w_taintRemoved w }.

(** The possible effects of handling [pv] on the entries, objects and tasks. *)
Inductive effect (pv : PersistentVolume) (w : W)
  : gmap string ProcEntry → gmap string PersistentVolume → list CleanTask → Prop :=
| eff_none : effect pv w (entries w) (objects w) (w_tasks w)
| eff_forgotten :
    reclaimable pv → idle (pv_Name pv) w →
    effect pv w (delete (pv_Name pv) (entries w)) (objects w) (w_tasks w)
| eff_started t :
    reclaimable pv → idle (pv_Name pv) w → task_of pv w t → runnable t →
    effect pv w
      (<[pv_Name pv := {| StartTime := w_now w; Status := CSRunning |}]> (entries w))
      (objects w) (w_tasks w ++ [t])%list
| eff_deleted p :
    reclaimable pv → cleaned pv w →
    (p = entries w ∨ idle (pv_Name pv) w ∧ p = delete (pv_Name pv) (entries w)) →
    effect pv w p (delete (pv_Name pv) (objects w)) (w_tasks w).
End effects.

(** ** Lemmas: each operation has one of these effects *)
Section effect_lemmas.
Context {FS API PT : Type}.
Context `{!VolumeUtil FS, !Exec FS, !KubeClient API, !ProcTable PT}.
Context `{!KubeClientLaws API, !ProcTableLaws PT}.
Abbreviation W := (World FS API PT).
Context (c : RuntimeConfig).

Lemma becomes_refl (w : W) : becomes w (entries w) (objects w) (w_tasks w) w.
Proof. by constructor. Qed.

Lemma becomes_trans (w w1 w2 : W) p1 o1 ts1 p2 o2 ts2 :
  becomes w p1 o1 ts1 w1 → becomes w1 p2 o2 ts2 w2 → becomes w p2 o2 ts2 w2.
Proof. intros [] []. constructor; congruence. Qed.

(** Events, metrics, or an API call that does not touch the volumes. *)
Lemma becomes_Eventf pv typ reason msg (w : W) :
  ∃ w', Eventf pv typ reason msg w = Done () w' ∧
        becomes w (entries w) (objects w) (w_tasks w) w'.
Proof. eexists. split; [done|]. by constructor. Qed.

Lemma becomes_metric f (w : W) :
  ∃ w', metric f w = Done () w' ∧ becomes w (entries w) (objects w) (w_tasks w) w'.
Proof. eexists. split; [done|]. by constructor. Qed.

Lemma becomes_set_proc (w : W) t :
  becomes w (view t) (objects w) (w_tasks w) (set_proc t w).
Proof. by constructor. Qed.

Lemma becomes_set_api (w : W) a :
  becomes w (entries w) (api_pvs a) (w_tasks w) (set_api a w).
Proof. by constructor. Qed.

(** [getVolMode] only reads. *)
Lemma getVolMode_pure pv (w : W) :
  pvs_Local (pv_Spec pv) ≠ None → ∃ r, getVolMode c pv w = Done r w.
Proof.
  intros Hl. unfold getVolMode, GetContainerPath. unfold_monad.
  destruct (map_get _ _); [|eauto]. destruct (pvs_Local _); [|done].
  destruct (Rel _ _); eauto.
Qed.

Lemma InProgress_spec name b (w : W) :
  (b = true → rc_hasJobController c = true) →
  ∃ r w', InProgress c name b w = Done r w' ∧ becomes w (entries w) (objects w) (w_tasks w) w' ∧
    (r = false → if b
     then match w_jobLister w (Namespace (rc_User c)) (generateCleaningJobName name) with
          | Ok job => (0 < job_Succeeded job)%Z
          | Err err => IsNotFound err = true
          end
     else idle name w).
Proof.
  intros Hj. unfold InProgress, IsCleaningJobRunning. unfold_monad. destruct b.
  - rewrite Hj by done. destruct (w_jobLister _ _ _) as [job|err].
    + do 2 eexists. split_and!; [done|apply becomes_refl|]. intros ?%Z.leb_gt. done.
    + do 2 eexists. split_and!; [done|apply becomes_refl|]. by intros ?%negb_false_iff.
  - unfold call_proc. pose proof (IsRunning_spec name (w_proc w)) as Hr.
    pose proof (IsRunning_view name (w_proc w)) as Hv.
    destruct (IsRunning name (w_proc w)) as [r t]. simpl in *. do 2 eexists. split_and!; [done| |].
    + unfold entries. rewrite <-Hv. apply becomes_set_proc.
    + intros ->. unfold idle, entries. unfold Abstract.IsRunning in Hr.
      destruct (_ !! _); [|done]. by intros Hst; rewrite bool_decide_true in Hr.
Qed.

Lemma RemoveStatus_proc name (w : W) :
  ∃ st start err w', RemoveStatus c name false w = Done (st, start, err) w' ∧
    ((∃ e, err = Some e ∧ becomes w (entries w) (objects w) (w_tasks w) w') ∨
     (err = None ∧ becomes w (delete name (entries w)) (objects w) (w_tasks w) w' ∧
      (st = CSSucceeded → ∃ e, entries w !! name = Some e ∧ Status e = CSSucceeded))).
Proof.
  unfold RemoveStatus, call_proc. destruct (RemoveEntry_spec name (w_proc w)) as [Hr Hv].
  destruct (RemoveEntry name (w_proc w)) as [[[st start] err] t]. simpl in *.
  do 4 eexists. split; [done|]. unfold Abstract.RemoveEntry in *. unfold entries.
  destruct (view (w_proc w) !! name) as [e|] eqn:E.
  - destruct (decide (Status e = CSRunning ∨ Status e = CSUnknown)); simpl in *.
    + destruct Hr as [e' [= -> -> ->]]. left. exists e'. split; [done|].
      rewrite <-Hv. apply becomes_set_proc.
    + injection Hr as -> -> ->. right. rewrite <-Hv.
      split_and!; [done|apply becomes_set_proc|]. eauto.
  - simpl in *. injection Hr as -> -> ->. right.
    rewrite delete_id by done. rewrite <-Hv.
    split_and!; [done|apply becomes_set_proc|done].
Qed.

Lemma RemoveStatus_job name (w : W) :
  rc_hasJobController c = true →
  ∃ st start err w', RemoveStatus c name true w = Done (st, start, err) w' ∧
    becomes w (entries w) (objects w) (w_tasks w) w' ∧
    (err = None → st = CSSucceeded → ∃ job, w_jobLister w (Namespace (rc_User c))
       (generateCleaningJobName name) = Ok job ∧ job_Succeeded job ≠ 0%Z).
Proof.
  intros Hj. unfold RemoveStatus, RemoveJob, apiUtil.DeleteJob, call_api. rewrite Hj. unfold_monad.
  destruct (w_jobLister _ _ _) as [job|err]; [|destruct (IsNotFound err)].
  - destruct (job_Succeeded job =? 0)%Z eqn:E.
    { do 4 eexists. split_and!; [done|apply becomes_refl|done]. }
    pose proof (api_DeleteJob_pvs (job_Name job) (Namespace (rc_User c))
      DeletePropagationForeground (w_api w)) as Ha.
    destruct (api_DeleteJob _ _ _ _) as [err a]. simpl in Ha.
    assert (becomes w (entries w) (objects w) (w_tasks w) (set_api a w))
      by (unfold objects; rewrite <-Ha; apply becomes_set_api).
    destruct err; do 4 eexists; (split_and!; [done..|]); [done|].
    intros _ _. exists job. split; [done|]. by apply Z.eqb_neq.
  - do 4 eexists. split_and!; [done|apply becomes_refl|done].
  - do 4 eexists. split_and!; [done|apply becomes_refl|done].
Qed.

Lemma DeletePV_spec name (w : W) :
  ∃ err w', apiUtil.DeletePV name w = Done err w' ∧
    becomes w (entries w) (if no_error err then delete name (objects w) else objects w)
      (w_tasks w) w'.
Proof.
  unfold apiUtil.DeletePV, call_api, metric. unfold_monad.
  destruct (api_DeletePV name (w_api w)) as [err a] eqn:E. do 2 eexists. split; [done|].
  destruct err; simpl.
  - apply api_DeletePV_err in E. constructor; done.
  - apply api_DeletePV_ok in E. constructor; done.
Qed.

Lemma record_deletion_spec pv mode b start config (w : W) :
  ∃ w', record_deletion pv mode b start config w = Done () w' ∧
    becomes w (entries w) (objects w) (w_tasks w) w'.
Proof.
  unfold record_deletion, metric. unfold_monad. destruct start; eexists; (split; [done|by constructor]).
Qed.

Lemma delete_cleaned_spec pv mode b start config (w : W) :
  ∃ r w', delete_cleaned pv mode b start config w = Done r w' ∧
    (becomes w (entries w) (objects w) (w_tasks w) w' ∨
     becomes w (entries w) (delete (pv_Name pv) (objects w)) (w_tasks w) w').
Proof.
  unfold delete_cleaned. unfold mbind, M_bind.
  destruct (DeletePV_spec (pv_Name pv) w) as (err&w1&->&H1).
  destruct err as [err|]; simpl in H1.
  - destruct (negb (IsNotFound err)).
    + do 2 eexists. split; [done|]. left. eapply becomes_trans; [done|]. by constructor; destruct H1.
    + destruct (record_deletion_spec pv mode b start config w1) as (w2&->&H2).
      do 2 eexists. split; [done|]. left. eapply becomes_trans; [done|].
      destruct H1 as [<- <- <-]. done.
  - destruct (record_deletion_spec pv mode b start config w1) as (w2&->&H2).
    do 2 eexists. split; [done|]. right. eapply becomes_trans; [done|].
    destruct H1 as [<- <- <-]. done.
Qed.

Lemma start_cleanup_job pv mode path config (w : W) :
  ∃ r w', start_cleanup c pv mode true path config w = Done r w' ∧
    becomes w (entries w) (objects w) (w_tasks w) w'.
Proof.
  unfold start_cleanup, runJob, apiUtil.CreateJob, call_api.
  destruct (_ && _); [do 2 eexists; split; [done|apply becomes_refl]|].
  destruct (decide _); [do 2 eexists; split; [done|apply becomes_refl]|]. unfold_monad.
  destruct (NewCleanupJob _ _ _ _ _ _ _ _ _) as [job|]; [|do 2 eexists; split; [done|apply becomes_refl]].
  pose proof (api_CreateJob_pvs job (w_api w)) as Ha. destruct (api_CreateJob job _) as [err a].
  do 2 eexists. split; [done|]. simpl in Ha. unfold objects. rewrite <-Ha. apply becomes_set_api.
Qed.

Lemma start_cleanup_proc pv mode path config (w : W) :
  entries w !! pv_Name pv = None →
  ∃ r w', start_cleanup c pv mode false path config w = Done r w' ∧
    (becomes w (entries w) (objects w) (w_tasks w) w' ∨
     becomes w (<[pv_Name pv := {| StartTime := w_now w; Status := CSRunning |}]> (entries w))
       (objects w) (w_tasks w ++ [{| ct_pv := pv; ct_volMode := mode; ct_mountPath := path;
                                     ct_config := config |}]) w' ∧
     (mode = PersistentVolumeBlock → default [] (BlockCleanerCommand config) ≠ [])).
Proof.
  intros Hn. unfold start_cleanup, runProcess, spawn, call_proc.
  destruct (_ && _) eqn:Eb; [do 2 eexists; split; [done|left; apply becomes_refl]|]. unfold_monad.
  destruct (MarkRunning_spec (w_now w) (pv_Name pv) (w_proc w)) as [Hr Hv].
  destruct (MarkRunning _ _ _) as [err t]. simpl in *. unfold Abstract.MarkRunning, entries in *.
  rewrite Hn in Hr, Hv. destruct err; [done|]. do 2 eexists. split; [done|]. right.
  split; [by constructor|]. intros Hm Hcmd. by rewrite !bool_decide_true in Eb.
Qed.

(** A job controller exists when jobs are used: [StartLocalController] makes one. *)
Definition job_controller_present : Prop :=
  UseJobForCleaning (rc_User c) = true → rc_hasJobController c = true.

Lemma shouldRunJob_present mode :
  job_controller_present → shouldRunJob c mode = true → rc_hasJobController c = true.
Proof. unfold shouldRunJob. intros H [_ Hj]%andb_true_iff. auto. Qed.

(** A run with one of the effects of [effect]. *)
Definition has_effect {A} (pv : PersistentVolume) (w : W) (m : M W A) (w0 : W) : Prop :=
  ∃ r w' p o ts, m w0 = Done r w' ∧ becomes w p o ts w' ∧ effect c pv w p o ts.

Lemma has_effect_none {A} pv (w w1 : W) (r : A) :
  becomes w (entries w) (objects w) (w_tasks w) w1 → has_effect pv w (mret r) w1.
Proof. intros H. do 5 eexists. split_and!; [done|exact H|apply eff_none]. Qed.

Lemma delete_by_job pv mode config path (w : W) :
  reclaimable pv → rc_hasJobController c = true →
  volume_mode c pv w = Some mode → shouldRunJob c mode = true →
  has_effect pv w (delete_by_status c pv mode path config) w.
Proof.
  intros Hpv Hj Hm Hs. unfold delete_by_status. rewrite Hs. unfold has_effect, mbind, M_bind.
  destruct (InProgress_spec (pv_Name pv) true w) as (r&w1&->&H1&Hr); [done|].
  destruct r; [by apply has_effect_none|].
  specialize (Hr eq_refl). destruct (RemoveStatus_job (pv_Name pv) w1 Hj)
    as (st&start&err&w2&->&H2&Hst).
  pose proof (becomes_trans _ _ _ _ _ _ _ _ _ H1 H2) as H12.
  destruct H1 as [He1 Ho1 Ht1 _ Hl1 _ _ _ _ _ _]. rewrite He1, Ho1, Ht1 in H12.
  destruct err as [err|]; [by apply has_effect_none|].
  destruct st; try (by apply has_effect_none).
  - destruct (start_cleanup_job pv mode path config w2) as (r3&w3&->&H3).
    pose proof (becomes_trans _ _ _ _ _ _ _ _ _ H12 H3) as H13.
    destruct H12 as [E1 E2 E3]. rewrite E1, E2, E3 in H13. by apply has_effect_none.
  - destruct (start_cleanup_job pv mode path config w2) as (r3&w3&->&H3).
    pose proof (becomes_trans _ _ _ _ _ _ _ _ _ H12 H3) as H13.
    destruct H12 as [E1 E2 E3]. rewrite E1, E2, E3 in H13. by apply has_effect_none.
  - destruct (delete_cleaned_spec pv mode true start config w2) as (r3&w3&->&H3).
    destruct (Hst eq_refl eq_refl) as (job&Hjob&Hsucc). rewrite Hl1 in Hjob. rewrite Hjob in Hr.
    assert (cleaned c pv w) by (unfold cleaned; rewrite Hm, Hs; eauto).
    pose proof H12 as [E1 E2 E3]. rewrite E1, E2, E3 in H3.
    destruct H3 as [H3|H3]; pose proof (becomes_trans _ _ _ _ _ _ _ _ _ H12 H3) as H13.
    + by apply has_effect_none.
    + do 5 eexists. split_and!; [done|exact H13|]. apply eff_deleted; auto.
Qed.

Lemma delete_by_process pv mode config path (w : W) :
  reclaimable pv → pvs_Local (pv_Spec pv) ≠ None →
  volume_mode c pv w = Some mode → shouldRunJob c mode = false →
  task_of c pv w {| ct_pv := pv; ct_volMode := mode; ct_mountPath := path; ct_config := config |} →
  has_effect pv w (delete_by_status c pv mode path config) w.
Proof.
  intros Hpv Hl Hm Hs Ht. unfold delete_by_status. rewrite Hs. unfold has_effect, mbind, M_bind.
  destruct (InProgress_spec (pv_Name pv) false w) as (r&w1&->&H1&Hr); [done|].
  destruct r; [by apply has_effect_none|].
  specialize (Hr eq_refl). destruct (RemoveStatus_proc (pv_Name pv) w1) as (st&start&err&w2&->&H2).
  pose proof H1 as [E1 E2 E3 _ _ _ _ _ En _ _]. rewrite E1, E2, E3 in H2.
  destruct H2 as [(e&->&H2)|(->&H2&Hst)];
    pose proof (becomes_trans _ _ _ _ _ _ _ _ _ H1 H2) as H12; [by apply has_effect_none|].
  pose proof H12 as [F1 F2 F3 _ _ _ _ _ Fn _ _].
  assert (has_effect pv w (start_cleanup c pv mode false path config) w2) as Hstart.
  { destruct (start_cleanup_proc pv mode path config w2) as (r3&w3&Hrun&H3).
    { rewrite F1. apply lookup_delete_eq. }
    rewrite F1, F2, F3, Fn in H3. rewrite insert_delete_eq in H3.
    destruct H3 as [H3|[H3 Hcmd]]; pose proof (becomes_trans _ _ _ _ _ _ _ _ _ H12 H3) as H13;
      do 5 eexists; (split_and!; [exact Hrun|exact H13|]).
    - by apply eff_forgotten.
    - by apply eff_started. }
  destruct st; try done; try (do 5 eexists; split_and!; [done|exact H12|by apply eff_forgotten]).
  destruct (delete_cleaned_spec pv mode false start config w2) as (r3&w3&->&H3).
  rewrite F1, F2, F3 in H3.
  destruct H3 as [H3|H3]; pose proof (becomes_trans _ _ _ _ _ _ _ _ _ H12 H3) as H13.
  - do 5 eexists. split_and!; [done|exact H13|]. by apply eff_forgotten.
  - do 5 eexists. split_and!; [done|exact H13|]. apply eff_deleted; [done| |by right].
    unfold cleaned. rewrite Hm, Hs. naive_solver.
Qed.

Lemma deletePV_effect pv (w : W) :
  reclaimable pv → job_controller_present → has_effect pv w (deletePV c pv) w.
Proof.
  intros Hpv Hj. unfold deletePV.
  destruct (pvs_Local (pv_Spec pv)) as [lvs|] eqn:Hl; [|apply has_effect_none, becomes_refl].
  destruct (map_get _ _) as [config|] eqn:Hc; [|apply has_effect_none, becomes_refl].
  destruct (GetContainerPath pv config w) as [path|] eqn:Hp;
    [|unfold GetContainerPath in Hp; rewrite Hl in Hp; by destruct (Rel _ _)].
  assert (s = w) as -> by (unfold GetContainerPath in Hp; rewrite Hl in Hp; by destruct (Rel _ _);
    injection Hp).
  unfold has_effect, mbind at 1, M_bind at 1. rewrite Hp.
  destruct path as [path|]; [|apply has_effect_none, becomes_refl].
  destruct (getVolMode_pure pv w) as [r Hr]; [by rewrite Hl|].
  unfold mbind at 1, M_bind at 1. rewrite Hr.
  destruct r as [mode|]; [|apply has_effect_none, becomes_refl].
  assert (volume_mode c pv w = Some mode) as Hm by (unfold volume_mode; by rewrite Hr).
  destruct (shouldRunJob c mode) eqn:Hs.
  - apply delete_by_job; auto. by eapply shouldRunJob_present.
  - apply delete_by_process; [done|by rewrite Hl|done..].
Qed.

(** [getVolMode] does not dereference a nil [Spec.Local]. *)
Definition supported (pv : PersistentVolume) : Prop :=
  pvs_Local (pv_Spec pv) ≠ None ∨
  map_get (DiscoveryMap (rc_User c)) (pvs_StorageClassName (pv_Spec pv)) = None.

Lemma report_failure_spec pv err (w : W) :
  supported pv →
  ∃ w', report_failure c pv err w = Done () w' ∧
    becomes w (entries w) (objects w) (w_tasks w) w'.
Proof.
  intros Hsup. unfold report_failure, mbind, M_bind.
  assert (∃ r, getVolMode c pv w = Done r w) as [r ->].
  { destruct Hsup as [Hl|Hc]; [by apply getVolMode_pure|].
    unfold getVolMode. rewrite Hc. by eexists. }
  eexists. split; [done|]. by constructor.
Qed.

Lemma reclaimVolume_effect pv (w : W) :
  supported pv → job_controller_present → has_effect pv w (reclaimVolume c pv) w.
Proof.
  intros Hsup Hj. unfold reclaimVolume.
  destruct (decide _) as [|Hphase]; [apply has_effect_none, becomes_refl|].
  destruct (om_DeletionTimestamp _) eqn:Hd; [apply has_effect_none, becomes_refl|].
  destruct (decide _); [apply has_effect_none, becomes_refl|].
  destruct (decide _).
  { do 5 eexists. split_and!; [done| |apply eff_none]. by constructor. }
  destruct (decide _) as [Hpol|].
  2:{ do 5 eexists. split_and!; [done| |apply eff_none]. by constructor. }
  assert (reclaimable pv) as Hpv by (split_and!; [by apply dec_stable|done|done]).
  destruct (deletePV_effect pv w Hpv Hj) as (r&w1&p&o&ts&Hrun&H1&He).
  unfold has_effect, mbind, M_bind. rewrite Hrun. destruct r as [err|].
  - destruct (report_failure_spec pv err w1 Hsup) as (w2&->&H2).
    pose proof (becomes_trans _ _ _ _ _ _ _ _ _ H1 H2) as H12.
    destruct H1 as [E1 E2 E3]. rewrite E1, E2, E3 in H12. by do 5 eexists.
  - by do 5 eexists.
Qed.

(** Conditions on a volume only depend on its own entry and on unchanged state. *)
Section transport.
Context (w w1 : W) (p : gmap string ProcEntry) (o : gmap string PersistentVolume)
  (ts : list CleanTask) (Hb : becomes w p o ts w1) (pv : PersistentVolume)
  (Hsame : p !! pv_Name pv = entries w !! pv_Name pv).

Lemma becomes_mode : volume_mode c pv w1 = volume_mode c pv w.
Proof using Hb.
  destruct Hb. unfold volume_mode, getVolMode, GetContainerPath. unfold_monad.
  destruct (map_get _ _); [|done]. destruct (pvs_Local _); [|done].
  destruct (Rel _ _); [|done]. by rewrite bec_fs0.
Qed.

Lemma becomes_cleaned : cleaned c pv w1 → cleaned c pv w.
Proof using Hb Hsame.
  unfold cleaned. rewrite becomes_mode. destruct Hb. rewrite bec_jobs0, bec_entries0, Hsame. done.
Qed.

Lemma becomes_idle : idle (pv_Name pv) w1 ↔ idle (pv_Name pv) w.
Proof using Hb Hsame. unfold idle. destruct Hb. by rewrite bec_entries0, Hsame. Qed.

Lemma becomes_task t : task_of c pv w1 t → task_of c pv w t.
Proof using Hb.
  unfold task_of, GetContainerPath. rewrite becomes_mode. intros (?&?&?&Hp). split_and!; try done.
  destruct (pvs_Local _); [|done]. by destruct (Rel _ _); injection Hp as ->.
Qed.
End transport.

(** What a pass over [l] does, seen from its initial state. *)
Record pass_result (l : list PersistentVolume) (w w' : W) : Prop := {
  pass_frame : becomes w (entries w') (objects w') (w_tasks w') w';
  pass_untouched : ∀ q, q ∉ (pv_Name <$> l) →
    entries w' !! q = entries w !! q ∧ objects w' !! q = objects w !! q;
  pass_objects : ∀ pv, pv ∈ l → objects w' !! pv_Name pv = objects w !! pv_Name pv ∨
    objects w' !! pv_Name pv = None ∧ reclaimable pv ∧ cleaned c pv w;
  pass_running : ∀ pv, pv ∈ l → ¬ idle (pv_Name pv) w →
    entries w' !! pv_Name pv = entries w !! pv_Name pv;
  pass_tasks : ∃ new, w_tasks w' = (w_tasks w ++ new)%list ∧
    NoDup ((λ t, pv_Name (ct_pv t)) <$> new) ∧
    Forall (λ t, ct_pv t ∈ l ∧ reclaimable (ct_pv t) ∧ idle (pv_Name (ct_pv t)) w ∧
                 task_of c (ct_pv t) w t ∧ runnable t ∧
                 entries w' !! pv_Name (ct_pv t) =
                   Some {| StartTime := w_now w; Status := CSRunning |}) new }.

(** The effect of one volume, seen as changes of single entries. *)
Lemma effect_lookup pv (w : W) p o ts :
  effect c pv w p o ts →
  (∀ q, q ≠ pv_Name pv → p !! q = entries w !! q ∧ o !! q = objects w !! q) ∧
  (o !! pv_Name pv = objects w !! pv_Name pv ∨
   o !! pv_Name pv = None ∧ reclaimable pv ∧ cleaned c pv w) ∧
  (¬ idle (pv_Name pv) w → p !! pv_Name pv = entries w !! pv_Name pv) ∧
  (ts = w_tasks w ∨ ∃ t, ts = (w_tasks w ++ [t])%list ∧ reclaimable pv ∧
     idle (pv_Name pv) w ∧ task_of c pv w t ∧ runnable t ∧
     p !! pv_Name pv = Some {| StartTime := w_now w; Status := CSRunning |}).
Proof.
  intros He. destruct He as [|Hr Hi|t Hr Hi Ht Hru|p Hr Hc Hp].
  - naive_solver.
  - split_and!; [|by left|done|by left]. intros q Hq. by rewrite lookup_delete_ne.
  - split_and!; [|by left|done|].
    + intros q Hq. by rewrite lookup_insert_ne.
    + right. exists t. by rewrite lookup_insert_eq.
  - split_and!; [|right; by rewrite lookup_delete_eq|naive_solver|by left].
    intros q Hq. rewrite lookup_delete_ne by done.
    destruct Hp as [-> |[_ ->]]; [done|]. by rewrite lookup_delete_ne.
Qed.

Lemma forM_reclaim (l : list PersistentVolume) (w : W) :
  NoDup (pv_Name <$> l) → Forall supported l → job_controller_present →
  ∃ w', forM l () (λ _ pv, reclaimVolume c pv) w = Done () w' ∧ pass_result l w w'.
Proof.
  intros Hnd Hsup Hj. revert w. induction l as [|pv l IH]; intros w; simpl.
  { exists w. split; [done|]. split; try done; try (by intros ? ?%not_elem_of_nil).
    exists []. by rewrite app_nil_r, NoDup_nil, Forall_nil. }
  apply NoDup_cons in Hnd as [Hni Hnd]. apply Forall_cons in Hsup as [Hs Hsup].
  destruct (reclaimVolume_effect pv w Hs Hj) as (r&w1&p&o&ts&Hrun&H1&He).
  unfold mbind, M_bind. rewrite Hrun. destruct r.
  destruct (IH Hnd Hsup w1) as (w'&Hrest&[Hf Hu Ho Hr Ht]). exists w'. split; [done|].
  apply effect_lookup in He as (He1&He2&He3&He4).
  pose proof H1 as [E1 E2 E3 _ _ _ _ _ En _ _].
  destruct (Hu (pv_Name pv) Hni) as [Hu1 Hu2].
  assert (∀ pv', pv' ∈ l → p !! pv_Name pv' = entries w !! pv_Name pv' ∧
    o !! pv_Name pv' = objects w !! pv_Name pv') as Hother.
  { intros pv' Hin. apply He1. intros Heq. apply Hni. rewrite <-Heq.
    by apply list_elem_of_fmap_2. }
  split.
  - by apply (becomes_trans _ _ _ _ _ _ _ _ _ H1).
  - intros q Hq. apply not_elem_of_cons in Hq as [Hq1 Hq2].
    destruct (Hu q Hq2) as [-> ->]. rewrite E1, E2. by apply He1.
  - intros pv' [->|Hin]%elem_of_cons; [by rewrite Hu2, E2|].
    destruct (Hother pv' Hin) as [Hp' Ho'].
    destruct (Ho pv' Hin) as [-> |(?&?&?)]; [left; by rewrite E2|right].
    split_and!; [done..|]. by eapply becomes_cleaned.
  - intros pv' [->|Hin]%elem_of_cons Hi; [rewrite Hu1, E1; auto|].
    destruct (Hother pv' Hin) as [Hp' Ho']. rewrite Hr, E1; [done|done|].
    by rewrite (becomes_idle _ _ _ _ _ H1 _ Hp').
  - destruct Ht as (new&Hts&Hnd'&Hnew).
    assert (Forall (λ t, ct_pv t ∈ pv :: l ∧ reclaimable (ct_pv t) ∧
      idle (pv_Name (ct_pv t)) w ∧ task_of c (ct_pv t) w t ∧ runnable t ∧
      entries w' !! pv_Name (ct_pv t) = Some {| StartTime := w_now w; Status := CSRunning |}) new)
      as Hnew'.
    { eapply Forall_impl; [exact Hnew|]. simpl. intros t (Hin&?&?&?&?&?).
      destruct (Hother _ Hin) as [Hp' Ho']. rewrite <-En.
      split_and!; [by right|done|by apply (becomes_idle _ _ _ _ _ H1 _ Hp')|by eapply becomes_task|done|done]. }
    rewrite E3 in Hts. destruct He4 as [-> |(t&->&?&?&Htask&?&?)]; [by exists new|].
    exists (t :: new). rewrite Hts, <-app_assoc. split_and!; [done| |].
    + rewrite fmap_cons. apply NoDup_cons. split; [|done].
      destruct Htask as [-> _]. intros (t'&Heq&Hin)%list_elem_of_fmap.
      rewrite Forall_forall in Hnew. destruct (Hnew t' Hin) as [Hin' _].
      apply Hni. rewrite Heq. by apply list_elem_of_fmap_2.
    + apply Forall_cons. split; [|done]. pose proof Htask as [-> _].
      split_and!; [by left|done..|]. by rewrite Hu1, E1.
Qed.
End effect_lemmas.

(** ** A pass over the cache *)
Section pass.
Context {FS API PT : Type}.
Context `{!VolumeUtil FS, !Exec FS, !KubeClient API, !ProcTable PT}.
Context `{!KubeClientLaws API, !ProcTableLaws PT}.
Abbreviation W := (World FS API PT).
Context (c : RuntimeConfig).

Lemma NoDup_keyed (m : gmap string PersistentVolume) l :
  VolumeCache.keyed m → VolumeCache.cache_order m l → NoDup (pv_Name <$> l).
Proof.
  intros Hk Hl. rewrite Hl. unfold VolumeCache.ListPVs. rewrite <-list_fmap_compose.
  replace ((pv_Name ∘ snd) <$> map_to_list m) with ((map_to_list m).*1).
  { apply NoDup_fst_map_to_list. }
  apply list_fmap_ext. intros i [name pv] Hi. simpl. symmetry.
  apply (map_Forall_lookup_1 _ _ name pv Hk).
  by apply elem_of_map_to_list, list_elem_of_lookup_2 with i.
Qed.

Lemma elem_of_cache_order (m : gmap string PersistentVolume) l pv :
  VolumeCache.keyed m → VolumeCache.cache_order m l →
  pv ∈ l ↔ m !! pv_Name pv = Some pv.
Proof.
  intros Hk Hl. rewrite Hl, VolumeCache.elem_of_ListPVs. split; [|eauto].
  intros [name Hn]. by rewrite (map_Forall_lookup_1 _ _ name pv Hk Hn).
Qed.

Lemma DeletePVs_pass order (w : W) :
  (∀ m, VolumeCache.cache_order m (order m)) → VolumeCache.keyed (w_cache w) →
  map_Forall (λ _, supported c) (w_cache w) → job_controller_present c →
  ∃ w', DeletePVs c order w = Done () w' ∧ pass_result c (order (w_cache w)) w w'.
Proof.
  intros Hord Hk Hsup Hj. unfold DeletePVs. unfold mbind, M_bind, gets.
  apply forM_reclaim; [by eapply NoDup_keyed| |done].
  apply Forall_forall. intros pv Hin.
  apply (elem_of_cache_order _ _ _ Hk (Hord _)) in Hin.
  apply (map_Forall_lookup_1 _ _ _ _ Hsup Hin).
Qed.
End pass.

(** C3. When the cached volumes of the configured classes are local volumes (and a job
    controller is present if one is configured), a pass of the deleter returns, and it
    deletes the API object of a volume only when the cached volume is released, not
    already being deleted, has reclaim policy Delete, and a cleanup of it (process or job)
    ended successfully.  Without the condition on the cache a pass may crash. *)
Theorem deletes_only_cleaned {FS API PT : Type}
    `{!VolumeUtil FS, !Exec FS, !KubeClient API, !ProcTable PT}
    `{!KubeClientLaws API, !ProcTableLaws PT}
    (c : RuntimeConfig) order (w : World FS API PT) :
  (∀ m, VolumeCache.cache_order m (order m)) → VolumeCache.keyed (w_cache w) →
  map_Forall (λ _, supported c) (w_cache w) → job_controller_present c →
  ∃ w', DeletePVs c order w = Done () w' ∧
    ∀ name, objects w' !! name = objects w !! name ∨
      objects w' !! name = None ∧
      ∃ pv, w_cache w !! name = Some pv ∧ reclaimable pv ∧ cleaned c pv w.
Proof.
  intros Hord Hk Hsup Hj.
  destruct (DeletePVs_pass c order w Hord Hk Hsup Hj) as (w'&Hrun&Hp).
  exists w'. split; [done|]. intros name.
  destruct (decide (name ∈ (pv_Name <$> order (w_cache w)))) as [Hin|Hni].
  - apply list_elem_of_fmap in Hin as (pv&->&Hin).
    destruct (pass_objects _ _ _ _ Hp pv Hin) as [|(?&?&?)]; [by left|right].
    apply (elem_of_cache_order _ _ _ Hk (Hord _)) in Hin. eauto.
  - left. apply (pass_untouched _ _ _ _ Hp name Hni).
Qed.


(** C34. A cached volume that is released, has policy Delete, is not a local volume
    and names a configured storage class stops the provisioner at every pass: the
    error of [deletePV] is reported with a call that dereferences the missing
    local source. *)
Theorem unsupported_volume_crashes {FS API PT : Type}
    `{!VolumeUtil FS, !Exec FS, !KubeClient API, !ProcTable PT}
    (c : RuntimeConfig) order (w : World FS API PT) name pv config :
  (∀ m, VolumeCache.cache_order m (order m)) →
  w_cache w !! name = Some pv → reclaimable pv → pvs_Local (pv_Spec pv) = None →
  map_get (DiscoveryMap (rc_User c)) (pvs_StorageClassName (pv_Spec pv)) = Some config →
  crashed (DeletePVs c order w) = true.
Proof.
  intros Hord Hin (Hp&Hd&Hpol) Hl Hc. unfold DeletePVs. unfold mbind at 1, M_bind at 1, gets.
  apply crashed_forM with pv.
  { rewrite (Hord (w_cache w)). apply VolumeCache.elem_of_ListPVs. eauto. }
  intros _ s. unfold reclaimVolume, deletePV. rewrite Hp, Hd, Hpol, Hl. simpl.
  unfold report_failure, getVolMode, GetContainerPath. unfold_monad. by rewrite Hc, Hl.
Qed.

(** ** One volume, cleaned by a process *)
Section lifecycle.
Context {FS API PT : Type}.
Context `{!VolumeUtil FS, !Exec FS, !KubeClient API, !ProcTable PT}.
Context `{!KubeClientLaws API, !ProcTableLaws PT}.
Abbreviation W := (World FS API PT).
Context (c : RuntimeConfig).

(** A block volume for which there is no cleaning command. *)
Definition no_command (t : CleanTask) : bool :=
  bool_decide (ct_volMode t = PersistentVolumeBlock) &&
  bool_decide (default [] (BlockCleanerCommand (ct_config t)) = []).

(** What [deletePV] does to a volume of known mode and path that is cleaned by a process,
    by its entry. *)
Definition lifecycle (pv : PersistentVolume) (t : CleanTask) (w : W)
    (r : option error) (w' : W) : Prop :=
  let n := pv_Name pv in
  match entries w !! n with
  | Some {| Status := CSRunning |} =>
      r = None ∧ becomes w (entries w) (objects w) (w_tasks w) w'
  | Some {| Status := CSUnknown |} =>
      r ≠ None ∧ becomes w (entries w) (objects w) (w_tasks w) w'
  | Some {| Status := CSSucceeded |} =>
      match fst (api_DeletePV n (w_api w)) with
      | None => r = None ∧
          becomes w (delete n (entries w)) (delete n (objects w)) (w_tasks w) w'
      | Some err => (r = None ↔ IsNotFound err = true) ∧
          becomes w (delete n (entries w)) (objects w) (w_tasks w) w'
      end
  | Some {| Status := CSFailed |} | Some {| Status := CSNotFound |} | None =>
      if no_command t
      then r ≠ None ∧ w_api w' = w_api w ∧
        becomes w (delete n (entries w)) (objects w) (w_tasks w) w'
      else r = None ∧ w_api w' = w_api w ∧
        becomes w (<[n := {| StartTime := w_now w; Status := CSRunning |}]> (entries w))
          (objects w) (w_tasks w ++ [t])%list w'
  end.

(** The same for a volume that is cleaned by a job, by what the informer has of the job. *)
Definition job_lifecycle (pv : PersistentVolume) (t : CleanTask) (w : W)
    (r : option error) (w' : W) : Prop :=
  let u := rc_User c in
  match w_jobLister w (Namespace u) (generateCleaningJobName (pv_Name pv)) with
  | Ok job =>
      if (job_Succeeded job <=? 0)%Z then r = None ∧ w' = w
      else
        let '(err, a) :=
          api_DeleteJob (job_Name job) (Namespace u) DeletePropagationForeground (w_api w) in
        match err with
        | Some _ => r ≠ None ∧ w' = set_api a w
        | None =>
            match fst (api_DeletePV (pv_Name pv) a) with
            | None => r = None ∧
                becomes w (entries w) (delete (pv_Name pv) (objects w)) (w_tasks w) w'
            | Some err => (r = None ↔ IsNotFound err = true) ∧
                becomes w (entries w) (objects w) (w_tasks w) w'
            end
        end
  | Err e =>
      if negb (IsNotFound e) then r = None ∧ w' = w
      else if no_command t || bool_decide (JobContainerImage u = "") then r ≠ None ∧ w' = w
      else ∃ job a, NewCleanupJob (rc_time_Format c (w_now w)) pv (ct_volMode t)
             (JobContainerImage u) (elems (JobTolerations u)) (node_Name (uc_Node u))
             (Namespace u) (ct_mountPath t) (ct_config t) = Ok job ∧
           api_CreateJob job (w_api w) = (r, a) ∧ w' = set_api a w
  end.

Lemma deletePV_process_run pv t (w : W) :
  pvs_Local (pv_Spec pv) ≠ None → task_of c pv w t →
  deletePV c pv w = delete_by_status c pv (ct_volMode t) (ct_mountPath t) (ct_config t) w.
Proof.
  intros Hl (_&Hm&Hc&Hp). unfold deletePV, mbind, M_bind.
  destruct (pvs_Local (pv_Spec pv)) as [lvs|] eqn:E; [|done]. rewrite Hc, Hp.
  unfold volume_mode in Hm. destruct (getVolMode_pure c pv w) as [r Hr]; [by rewrite E|].
  rewrite Hr in Hm |- *. by destruct r; simplify_eq.
Qed.

Lemma IsRunning_run name (w : W) :
  ∃ t, call_proc (IsRunning name) w = Done (Abstract.IsRunning name (entries w)) (set_proc t w) ∧
       view t = entries w.
Proof.
  unfold call_proc. pose proof (IsRunning_spec name (w_proc w)) as Hr.
  pose proof (IsRunning_view name (w_proc w)) as Hv.
  destruct (IsRunning name (w_proc w)) as [r t]. simpl in *. subst r. by exists t.
Qed.

Lemma RemoveEntry_run name (w : W) :
  ∃ st start err t, call_proc (RemoveEntry name) w = Done (st, start, err) (set_proc t w) ∧
    match fst (Abstract.RemoveEntry name (entries w)) with
    | Some r => (st, start) = r ∧ err = None
    | None => ∃ e, err = Some e
    end ∧ view t = snd (Abstract.RemoveEntry name (entries w)).
Proof.
  unfold call_proc. destruct (RemoveEntry_spec name (w_proc w)) as [Hr Hv].
  destruct (RemoveEntry name (w_proc w)) as [[[st start] err] t]. simpl in *.
  exists st, start, err, t. split_and!; [done| |done]. fold (entries w) in *.
  destruct (fst (Abstract.RemoveEntry name (entries w))) as [[st' start']|]; naive_solver.
Qed.

Lemma start_cleanup_run pv t (w : W) :
  entries w !! pv_Name pv = None → ct_pv t = pv → no_command t = false →
  ∃ w', start_cleanup c pv (ct_volMode t) false (ct_mountPath t) (ct_config t) w = Done None w' ∧
    w_api w' = w_api w ∧
    becomes w (<[pv_Name pv := {| StartTime := w_now w; Status := CSRunning |}]> (entries w))
      (objects w) (w_tasks w ++ [t]) w'.
Proof.
  intros Hn Hpv Hcmd. unfold no_command in Hcmd.
  unfold start_cleanup, runProcess, spawn, call_proc. unfold_monad. rewrite Hcmd.
  destruct (MarkRunning_spec (w_now w) (pv_Name pv) (w_proc w)) as [Hr Hv].
  destruct (MarkRunning _ _ _) as [err p]. simpl in *. unfold Abstract.MarkRunning in *.
  fold (entries w) in *. rewrite Hn in Hr, Hv. destruct err; [done|].
  eexists. split_and!; [done|done|]. destruct t; simpl in *; subst. by constructor.
Qed.

Lemma delete_cleaned_run pv mode b start config (w : W) :
  ∃ r w', delete_cleaned pv mode b start config w = Done r w' ∧
    match fst (api_DeletePV (pv_Name pv) (w_api w)) with
    | None => r = None ∧ becomes w (entries w) (delete (pv_Name pv) (objects w)) (w_tasks w) w'
    | Some err => (r = None ↔ IsNotFound err = true) ∧
        becomes w (entries w) (objects w) (w_tasks w) w'
    end.
Proof.
  unfold delete_cleaned, apiUtil.DeletePV, call_api, metric. unfold_monad.
  destruct (api_DeletePV (pv_Name pv) (w_api w)) as [[err|] a] eqn:E; simpl;
    [apply api_DeletePV_err in E|apply api_DeletePV_ok in E].
  - destruct (IsNotFound err) eqn:En; simpl.
    + destruct (record_deletion_spec pv mode b start config
        (upd_metrics (count_request APIServerRequestDelete true) (set_api a w))) as (w'&->&[]).
      do 2 eexists. split_and!; [done|done|]. constructor; try done. by etrans.
    + do 2 eexists. split_and!; [done|done|by constructor].
  - destruct (record_deletion_spec pv mode b start config
      (upd_metrics (count_request APIServerRequestDelete false) (set_api a w))) as (w'&->&[]).
    do 2 eexists. split_and!; [done|done|]. constructor; try done. by etrans.
Qed.

(** [delete_by_status] once no process runs: the status is taken out first. *)
Lemma delete_by_process_run pv t (w : W) :
  ct_pv t = pv → shouldRunJob c (ct_volMode t) = false →
  ∃ r w', delete_by_status c pv (ct_volMode t) (ct_mountPath t) (ct_config t) w = Done r w' ∧
    lifecycle pv t w r w'.
Proof.
  intros Hpv Hs. unfold delete_by_status, lifecycle. rewrite Hs.
  unfold InProgress, RemoveStatus. unfold mbind, M_bind.
  destruct (IsRunning_run (pv_Name pv) w) as (t1&->&Hv1). unfold Abstract.IsRunning.
  destruct (RemoveEntry_run (pv_Name pv) (set_proc t1 w)) as (st&start&err&t2&Hrun&Hst&Hv2).
  unfold entries at 1 in Hst. unfold entries at 1 in Hv2. simpl in Hst, Hv2.
  rewrite Hv1 in Hst, Hv2. unfold Abstract.RemoveEntry in Hst, Hv2.
  assert (∀ m, view t2 = m → m !! pv_Name pv = None → m = delete (pv_Name pv) (entries w) →
    ∃ r w', start_cleanup c pv (ct_volMode t) false (ct_mountPath t) (ct_config t)
            (set_proc t2 (set_proc t1 w)) = Done r w' ∧
      if no_command t
      then r ≠ None ∧ w_api w' = w_api w ∧
        becomes w (delete (pv_Name pv) (entries w)) (objects w) (w_tasks w) w'
      else r = None ∧ w_api w' = w_api w ∧
        becomes w (<[pv_Name pv := {| StartTime := w_now w; Status := CSRunning |}]> (entries w))
          (objects w) (w_tasks w ++ [t]) w') as Hstart.
  { intros m Hm Hn Hd. destruct (no_command t) eqn:Hcmd.
    - unfold no_command in Hcmd. unfold start_cleanup. rewrite Hcmd.
      do 2 eexists. split_and!; [done|done|done|]. constructor; try done.
      unfold entries at 1. simpl. by rewrite Hm, Hd.
    - destruct (start_cleanup_run pv t (set_proc t2 (set_proc t1 w)))
        as (w'&Hr&Ha&[]); [by unfold entries; simpl; rewrite Hm|done..|].
      exists None, w'. split_and!; [done|done|done|]. constructor; try done. rewrite bec_entries0.
      unfold entries at 1. simpl. by rewrite Hm, Hd, insert_delete_eq. }
  destruct (entries w !! pv_Name pv) as [[start0 status]|] eqn:E; simpl in *.
  - destruct status; simpl in *; rewrite ?bool_decide_true, ?bool_decide_false by done;
      try (destruct Hst as [[= -> ->] ->]); try (destruct Hst as [e ->]).
    + rewrite Hrun. do 2 eexists. split_and!; [done|done|]. by constructor.
    + rewrite Hrun. destruct (Hstart _ Hv2) as (r&w'&->&?); [apply lookup_delete_eq|done|]. eauto.
    + do 2 eexists. split_and!; [done|done|]. by constructor.
    + rewrite Hrun. destruct (Hstart _ Hv2) as (r&w'&->&?); [apply lookup_delete_eq|done|]. eauto.
    + rewrite Hrun. destruct (delete_cleaned_run pv (ct_volMode t) false (Some start0)
        (ct_config t) (set_proc t2 (set_proc t1 w))) as (r&w'&->&Hd). simpl in Hd.
      exists r, w'. split; [done|].
      destruct (fst (api_DeletePV (pv_Name pv) (w_api w))); destruct Hd as [? []];
        (split; [done|]); constructor; try done; by rewrite bec_entries0.
  - destruct Hst as [[= -> ->] ->]. rewrite Hrun.
    destruct (Hstart _ Hv2) as (r&w'&->&?); [done|by rewrite delete_id|]. eauto.
Qed.

Lemma delete_by_job_run pv t (w : W) :
  shouldRunJob c (ct_volMode t) = true → rc_hasJobController c = true →
  ∃ r w', delete_by_status c pv (ct_volMode t) (ct_mountPath t) (ct_config t) w = Done r w' ∧
    job_lifecycle pv t w r w'.
Proof.
  intros Hs Hj. unfold delete_by_status, job_lifecycle. rewrite Hs.
  unfold InProgress, RemoveStatus, IsCleaningJobRunning, RemoveJob. rewrite Hj.
  unfold mbind, M_bind, mret, M_ret, gets.
  destruct (w_jobLister w _ _) as [job|e] eqn:El.
  - destruct (job_Succeeded job <=? 0)%Z eqn:E0; [by do 2 eexists|]. rewrite El.
    assert ((job_Succeeded job =? 0)%Z = false) as -> by (apply Z.eqb_neq; apply Z.leb_gt in E0; lia).
    unfold apiUtil.DeleteJob, call_api.
    pose proof (api_DeleteJob_pvs (job_Name job) (Namespace (rc_User c))
      DeletePropagationForeground (w_api w)) as Ha.
    destruct (api_DeleteJob _ _ _ _) as [[err|] a]; [by do 2 eexists|]. simpl in Ha.
    destruct (delete_cleaned_run pv (ct_volMode t) true (job_start_time c job) (ct_config t)
      (set_api a w)) as (r&w'&->&Hd). exists r, w'. split; [done|]. simpl in Hd.
    assert (objects (set_api a w) = objects w) as Ho by done. rewrite Ho in Hd.
    destruct (fst (api_DeletePV (pv_Name pv) a)); destruct Hd as [? []]; by split; [|constructor].
  - destruct (IsNotFound e) eqn:En; simpl; [|by do 2 eexists]. rewrite El, En.
    unfold no_command, start_cleanup, runJob. destruct (_ && _) eqn:Hcmd; simpl; [by do 2 eexists|].
    destruct (decide (JobContainerImage (rc_User c) = "")) as [Ei|Ei];
      [rewrite bool_decide_true by done; by do 2 eexists|rewrite bool_decide_false by done].
    unfold apiUtil.CreateJob, call_api, mbind, M_bind, gets.
    unfold shouldRunJob in Hs. apply andb_true_iff in Hs as [->%bool_decide_eq_true _].
    destruct (NewCleanupJob _ _ _ _ _ _ _ _ _) as [job|] eqn:Ejob.
    + destruct (api_CreateJob job (w_api w)) as [err a] eqn:Ea. exists err, (set_api a w).
      split; [done|]. by exists job, a.
    + unfold NewCleanupJob in Ejob. by rewrite decide_True in Ejob.
Qed.

(** Without a task for the volume [deletePV] is an error and changes nothing. *)
Lemma deletePV_error_run pv (w : W) :
  pvs_Local (pv_Spec pv) = None ∨ (∀ t, ¬ task_of c pv w t) →
  ∃ err, deletePV c pv w = Done (Some err) w.
Proof.
  intros Hno. unfold deletePV. destruct (pvs_Local (pv_Spec pv)) as [lvs|] eqn:Hl; [|by eexists].
  destruct Hno as [?|Hno]; [done|].
  destruct (map_get _ _) as [config|] eqn:Hc; [|by eexists].
  assert (∃ r, GetContainerPath pv config w = Done r w) as [r Hr].
  { unfold GetContainerPath. rewrite Hl. destruct (Rel _ _); by eexists. }
  unfold mbind, M_bind. rewrite Hr. destruct r as [path|]; [|by eexists].
  destruct (getVolMode_pure c pv w) as [m Hm]; [by rewrite Hl|]. rewrite Hm.
  destruct m as [mode|]; [|by eexists].
  destruct (Hno {| ct_pv := pv; ct_volMode := mode; ct_mountPath := path; ct_config := config |}).
  split_and!; [done| |done|done]. unfold volume_mode. by rewrite Hm.
Qed.
End lifecycle.

(** ** The goroutine *)
Section goroutine.
Context {FS API PT : Type}.
Context `{!VolumeUtil FS, !Exec FS, !KubeClient API, !ProcTable PT}.
Context `{!KubeClientLaws API, !ProcTableLaws PT}.
Abbreviation W := (World FS API PT).
Context (c : RuntimeConfig).

(** [w'] is [w] with another file system and other entries. *)
Record cleanup_ends (w : W) (fs : FS) (p : gmap string ProcEntry) (w' : W) : Prop := {
  ends_entries : entries w' = p;
  ends_fs : w_fs w' = fs;
  ends_objects : objects w' = objects w;
  ends_tasks : w_tasks w' = w_tasks w;
  ends_cache : w_cache w' = w_cache w;
  ends_api : w_api w' = w_api w;
  ends_jobs : w_jobLister w' = w_jobLister w;
  ends_now : w_now w' = w_now w;
  ends_ready : w_ready w' = w_ready w }.

Definition verdict (err : option error) : CleanupState :=
  match err with None => CSSucceeded | Some _ => CSFailed end.

Lemma mark_done_run err name (w : W) :
  ∃ w', (match err with
         | Some _ => _ ← call_proc (MarkFailed name); mret ()
         | None => _ ← call_proc (MarkSucceeded name); mret ()
         end : M W ()) w = Done () w' ∧
    cleanup_ends w (w_fs w) (snd (Abstract.MarkDone (verdict err) name (entries w))) w'.
Proof.
  unfold call_proc. unfold_monad. destruct err; simpl.
  - destruct (MarkFailed_spec name (w_proc w)) as [_ Hv].
    destruct (MarkFailed name (w_proc w)) as [? t]. eexists. split; [done|]. by constructor.
  - destruct (MarkSucceeded_spec name (w_proc w)) as [_ Hv].
    destruct (MarkSucceeded name (w_proc w)) as [? t]. eexists. split; [done|]. by constructor.
Qed.

(** A run of [cleanPV] ends in a verdict, unless the volume or the command is missing. *)
Lemma cleanPV_run t (w : W) :
  runnable t →
  ∃ err w', cleanPV (ct_pv t) (ct_volMode t) (ct_mountPath t) (ct_config t) w = Done err w' ∧
    cleanup_ends w (w_fs w') (entries w) w' ∧
    (HasPrefix (ct_mountPath t) (MountDir (ct_config t)) = false →
       err ≠ None ∧ w_fs w' = w_fs w).
Proof.
  intros [Hl Hcmd]. unfold cleanPV, cleanFilePV, cleanBlockPV, execScript, Eventf, call_fs.
  destruct (HasPrefix _ _) eqn:E; simpl.
  2:{ do 2 eexists. split_and!; [done| |done]. by constructor. }
  destruct (pvs_Local _) as [lvs|]; [|done].
  destruct (decide _).
  { destruct (DeleteContents _ _ _) as [err fs]. do 2 eexists. split_and!; [done| |done].
    by constructor. }
  destruct (decide _).
  2:{ do 2 eexists. split_and!; [done| |done]. by constructor. }
  specialize (Hcmd ltac:(done)).
  destruct (BlockCleanerCommand _) as [[|exe args]|]; [done| |done]. unfold_monad. simpl.
  destruct (exec_StdoutPipe _ _ _).
  { do 2 eexists. split_and!; [done| |done]. by constructor. }
  destruct (exec_StderrPipe _ _ _).
  { do 2 eexists. split_and!; [done| |done]. by constructor. }
  destruct (exec_Start _ _ _ _).
  { do 2 eexists. split_and!; [done| |done]. by constructor. }
  destruct (exec_Wait _ _ _ _) as [err fs]. do 2 eexists. split_and!; [done| |done].
  by constructor.
Qed.

Lemma asyncCleanPV_run t (w : W) :
  runnable t →
  ∃ err w', asyncCleanPV t w = Done () w' ∧
    cleanup_ends w (w_fs w')
      (snd (Abstract.MarkDone (verdict err) (pv_Name (ct_pv t)) (entries w))) w' ∧
    (HasPrefix (ct_mountPath t) (MountDir (ct_config t)) = false →
       err ≠ None ∧ w_fs w' = w_fs w).
Proof.
  intros Ht. unfold asyncCleanPV.
  destruct (cleanPV_run t w Ht) as (err&w1&Hrun&H1&Hg).
  unfold mbind at 1, M_bind at 1. rewrite Hrun.
  destruct (mark_done_run err (pv_Name (ct_pv t)) w1) as (w2&Hrun2&H2). rewrite Hrun2.
  exists err, w2. split; [done|]. destruct H1, H2. split; [constructor; congruence|].
  intros Hp. by rewrite ends_fs1; apply Hg.
Qed.

(** Cleaning a directory: the verdict and the file system are those of [DeleteContents]. *)
Lemma asyncCleanPV_file_run t lvs (w : W) :
  ct_volMode t = PersistentVolumeFilesystem →
  pvs_Local (pv_Spec (ct_pv t)) = Some lvs →
  HasPrefix (ct_mountPath t) (MountDir (ct_config t)) = true →
  let '(err, fs) := DeleteContents (lvs_Path lvs) (ct_mountPath t) (w_fs w) in
  ∃ w', asyncCleanPV t w = Done () w' ∧
    cleanup_ends w fs
      (snd (Abstract.MarkDone (verdict err) (pv_Name (ct_pv t)) (entries w))) w'.
Proof.
  intros Hm Hl Hp. destruct (DeleteContents _ _ _) as [err fs] eqn:Ed.
  unfold asyncCleanPV, cleanPV, cleanFilePV, call_fs. rewrite Hp, Hm, Hl. simpl.
  unfold mbind at 1, M_bind at 1. rewrite Ed.
  destruct (mark_done_run err (pv_Name (ct_pv t)) (set_fs fs w)) as (w2&Hrun2&[]). rewrite Hrun2.
  eexists. split; [done|]. by constructor.
Qed.
End goroutine.

(** C12. The life of a cleanup, on every branch of [deletePV], where a job controller is
    present if one is configured.  The call returns.  When the volume is not local, its
    class is not configured, or its path or mode cannot be found, the result is an error
    and nothing changes.  With cleaning by a process: a volume with no entry or a failed
    one gets a goroutine and is marked running (or, for a block volume without a command,
    loses the entry and is an error); a running one is left alone; a successful one has
    its entry taken out and its object deleted, where an object that is already gone is
    not an error; any other failure of the API is returned.  With cleaning by a job, by
    what the informer has: a job that runs, or cannot be looked up, is left alone; one
    that succeeded is deleted and then the object of the volume; without a job, one is
    created, or an error returned when there is no command or no image. *)
Theorem deletePV_lifecycle {FS API PT : Type}
    `{!VolumeUtil FS, !Exec FS, !KubeClient API, !ProcTable PT}
    `{!KubeClientLaws API, !ProcTableLaws PT}
    (c : RuntimeConfig) pv (w : World FS API PT) :
  job_controller_present c →
  ((pvs_Local (pv_Spec pv) = None ∨ ∀ t, ¬ task_of c pv w t) →
     ∃ err, deletePV c pv w = Done (Some err) w) ∧
  (∀ t, pvs_Local (pv_Spec pv) ≠ None → task_of c pv w t →
     ∃ r w', deletePV c pv w = Done r w' ∧
       if shouldRunJob c (ct_volMode t) then job_lifecycle c pv t w r w' else lifecycle pv t w r w').
Proof.
  intros Hj. split; [by apply deletePV_error_run|]. intros t Hl Ht.
  rewrite (deletePV_process_run c pv t w Hl Ht).
  destruct (shouldRunJob c (ct_volMode t)) eqn:Hs.
  - apply delete_by_job_run; [done|]. apply andb_true_iff in Hs as [_ Hs]. by apply Hj.
  - apply delete_by_process_run; [apply Ht|done].
Qed.

(** A cleanup goroutine ends with a verdict: it returns, and marks its entry as
    succeeded or failed without touching other entries, the API objects or the
    cache.  When the path it was given does not start with the mount directory of
    the class it leaves the file system alone and the verdict is a failure. *)
Theorem cleanup_goroutine_verdict {FS API PT : Type}
    `{!VolumeUtil FS, !Exec FS, !KubeClient API, !ProcTable PT}
    `{!KubeClientLaws API, !ProcTableLaws PT} t (w : World FS API PT) e :
  runnable t → entries w !! pv_Name (ct_pv t) = Some e →
  ∃ st w', asyncCleanPV t w = Done () w' ∧ (st = CSSucceeded ∨ st = CSFailed) ∧
    cleanup_ends w (w_fs w')
      (<[pv_Name (ct_pv t) := {| StartTime := StartTime e; Status := st |}]> (entries w)) w' ∧
    (HasPrefix (ct_mountPath t) (MountDir (ct_config t)) = false →
       st = CSFailed ∧ w_fs w' = w_fs w).
Proof.
  intros Ht He. destruct (asyncCleanPV_run t w Ht) as (err&w'&Hrun&Hend&Hg).
  exists (verdict err), w'. split; [done|]. unfold Abstract.MarkDone in Hend. rewrite He in Hend.
  split_and!; [destruct err; auto|done|]. intros [Hn Hfs]%Hg. by destruct err.
Qed.

(** The directory volume of class configuration [config] at entry [file]. *)
Definition discovered_at (pv : PersistentVolume) (config : MountConfig) (file : string) : Prop :=
  plain_name file ∧ ∃ fsType, pvs_Local (pv_Spec pv) =
    Some {| lvs_Path := Join [HostDir config; file]; lvs_FSType := fsType |}.

Lemma discovered_task {FS API PT : Type}
    `{!VolumeUtil FS, !Exec FS, !KubeClient API, !ProcTable PT}
    (c : RuntimeConfig) pv config file mode (w : World FS API PT) :
  map_get (DiscoveryMap (rc_User c)) (pvs_StorageClassName (pv_Spec pv)) = Some config →
  HostDir config ≠ "" → discovered_at pv config file →
  GetVolumeMode (rc_goos c) (Join [MountDir config; file]) (w_fs w) = Ok mode →
  task_of c pv w {| ct_pv := pv; ct_volMode := mode;
                    ct_mountPath := Join [MountDir config; file]; ct_config := config |}.
Proof.
  intros Hc Hh (Hf&fsType&Hl) Hm.
  assert (GetContainerPath pv config w = Done (Ok (Join [MountDir config; file])) w) as Hp
    by (unfold GetContainerPath; rewrite Hl; simpl; by rewrite Rel_Join).
  split_and!; simpl; [done| |done|done].
  unfold volume_mode, getVolMode. rewrite Hc. unfold mbind, M_bind. rewrite Hp.
  unfold gets. by rewrite Hm.
Qed.

(** C8. A released directory volume is reclaimed.  For a volume the discoverer
    made, in a class whose mount directory is a clean path: the first pass starts
    the goroutine on the very directory that was discovered, the guard on the path
    holds so the goroutine runs [DeleteContents] there, and when that and the
    request to the API server succeed the next pass removes the API object and
    the process table is as it was before. *)
Theorem released_volume_is_reclaimed {FS API PT : Type}
    `{!VolumeUtil FS, !Exec FS, !KubeClient API, !ProcTable PT}
    `{!KubeClientLaws API, !ProcTableLaws PT}
    (c : RuntimeConfig) pv config file (w : World FS API PT) fs path :
  map_get (DiscoveryMap (rc_User c)) (pvs_StorageClassName (pv_Spec pv)) = Some config →
  config_ok config → Clean (MountDir config) = MountDir config → MountDir config ≠ "." →
  discovered_at pv config file →
  path = Join [MountDir config; file] → entries w !! pv_Name pv = None →
  GetVolumeMode (rc_goos c) path (w_fs w) = Ok PersistentVolumeFilesystem →
  DeleteContents (Join [HostDir config; file]) path (w_fs w) = (None, fs) →
  GetVolumeMode (rc_goos c) path fs = Ok PersistentVolumeFilesystem →
  fst (api_DeletePV (pv_Name pv) (w_api w)) = None → w_tasks w = [] →
  ∃ w1 w2 w3 t,
    deletePV c pv w = Done None w1 ∧ w_tasks w1 = [t] ∧ ct_mountPath t = path ∧
    asyncCleanPV t w1 = Done () w2 ∧ w_fs w2 = fs ∧
    deletePV c pv (set_tasks [] w2) = Done None w3 ∧
    objects w3 = delete (pv_Name pv) (objects w) ∧ entries w3 = entries w.
Proof.
  intros Hc (_&Hh&Hm&_&_) Hclean Hdot Hdisc -> He Hmode Hdc Hmode2 Hdel Hts.
  pose proof Hdisc as (Hf&fsType&Hl).
  set (t := {| ct_pv := pv; ct_volMode := PersistentVolumeFilesystem;
               ct_mountPath := Join [MountDir config; file]; ct_config := config |}).
  assert (shouldRunJob c PersistentVolumeFilesystem = false) as Hs by done.
  pose proof (discovered_task c pv config file _ w Hc Hh Hdisc Hmode) as Ht1. fold t in Ht1.
  destruct (delete_by_process_run c pv t w eq_refl Hs) as (r1&w1&Hrun1&H1).
  unfold lifecycle in H1. rewrite He in H1. simpl in H1. destruct H1 as (->&A1&H1).
  pose proof (asyncCleanPV_file_run t _ w1 eq_refl Hl (HasPrefix_Join _ _ Hm Hclean Hdot Hf)) as H2.
  simpl in H2. rewrite (bec_fs _ _ _ _ _ H1), Hdc in H2. destruct H2 as (w2&Hrun2&H2).
  destruct H1 as [E1 O1 T1 _ _ _ _ _ N1 _ _]. destruct H2 as [E2 F2 O2 _ _ A2 _ _ _].
  rewrite E1 in E2. unfold Abstract.MarkDone in E2. simpl in E2. rewrite lookup_insert_eq in E2.
  simpl in E2. rewrite insert_insert_eq in E2.
  assert (entries (set_tasks [] w2) =
    <[pv_Name pv := {| StartTime := w_now w; Status := CSSucceeded |}]> (entries w)) as E2' by done.
  destruct (delete_by_process_run c pv t (set_tasks [] w2) eq_refl Hs) as (r3&w3&Hrun3&H3).
  unfold lifecycle in H3. rewrite E2', lookup_insert_eq in H3. simpl in H3.
  rewrite A2, A1, Hdel in H3. destruct H3 as [-> [E3 O3 _ _ _ _ _ _ _ _ _]].
  rewrite delete_insert_id in E3 by done.
  exists w1, w2, w3, t. rewrite Hts in T1.
  split_and!; [by rewrite (deletePV_process_run c pv t w); [|rewrite Hl|]|done|done|done|done| |by rewrite O3; f_equal;
    rewrite <-O1, <-O2|done].
  rewrite (deletePV_process_run c pv t); [done|by rewrite Hl|].
  apply discovered_task; simpl; [done..|]. by rewrite F2.
Qed.

(** A volume whose path is in a sibling of the host directory. *)
Definition sibling_pv : PersistentVolume := sample_pv "pv" "sc" "/mnt/disks-backup/data".

Definition sibling_task : CleanTask := {|
  ct_pv := sibling_pv; ct_volMode := PersistentVolumeFilesystem;
  ct_mountPath := "/mnt/disks-backup/data"; ct_config := sample_mount |}.

(** The guard of [cleanPV] compares strings, not paths: for a class mounted at
    /mnt/disks and a volume at /mnt/disks-backup/data, the deleter's own path
    computation yields /mnt/disks-backup/data, which is not below the mount
    directory, and the goroutine deletes the contents of that directory. *)
Theorem guard_accepts_sibling_directory {FS API PT : Type}
    `{!VolumeUtil FS, !Exec FS, !KubeClient API, !ProcTable PT}
    `{!KubeClientLaws API, !ProcTableLaws PT} (w : World FS API PT) :
  GetContainerPath sibling_pv sample_mount w = Done (Ok (ct_mountPath sibling_task)) w ∧
  ¬ path_elems (MountDir sample_mount) `prefix_of` path_elems (ct_mountPath sibling_task) ∧
  w_fs (final (asyncCleanPV sibling_task w)) =
    snd (DeleteContents "/mnt/disks-backup/data" "/mnt/disks-backup/data" (w_fs w)).
Proof.
  split_and!.
  - done.
  - intros Hp. assert (¬ ["mnt"; "disks"] `prefix_of` ["mnt"; "disks-backup"; "data"]) as Hn.
    { intros [k Hk]. done. }
    by apply Hn.
  - pose proof (asyncCleanPV_file_run sibling_task
      {| lvs_Path := "/mnt/disks-backup/data"; lvs_FSType := None |} w eq_refl eq_refl eq_refl) as H.
    simpl in H. destruct (DeleteContents _ _ _) as [err fs]. destruct H as (w'&->&[]). done.
Qed.

(** ** Witnesses *)

(** Commands that succeed without effect, for the in-memory file system. *)
#[export] Instance Fake_Exec : Exec Fake.FakeVolumeUtil := {|
  exec_StdoutPipe _ _ _ := None; exec_StderrPipe _ _ _ := None;
  exec_Start _ _ _ _ := None; exec_Wait _ _ _ fs := (None, fs) |}.

Definition example_fs : Fake.FakeVolumeUtil := {|
  Fake.directoryFiles := {["/discoveryPath/dir1" :=
    [{| Fake.fde_Name := "mount1"; Fake.fde_VolumeType := Fake.FakeEntryFile;
        Fake.fde_Hash := 0; Fake.fde_Capacity := 100 |}]]};
  Fake.deleteShouldFail := false |}.

Definition example_pv : PersistentVolume := sample_pv "pv1" "sc1" "/mnt/disks/dir1/mount1".

Definition example_world (cached : list PersistentVolume) (table : list (string * ProcEntry))
  : World Fake.FakeVolumeUtil MemServer ProcTableImpl.ProcTableImpl := {|
  w_cache := list_to_map ((λ pv, (pv_Name pv, pv)) <$> cached);
  w_proc := {| ProcTableImpl.procTable := list_to_map table; ProcTableImpl.succeeded := 0;
               ProcTableImpl.failed := 0 |};
  w_jobLister := λ _ name, Err (mem_not_found name);
  w_classLister := λ name, Err (mem_not_found name);
  w_api := {| mem_pvs := list_to_map ((λ pv, (pv_Name pv, pv)) <$> cached); mem_jobs := ∅;
              mem_nodes := ∅; mem_pvcs := ∅; mem_down := false |};
  w_fs := example_fs; w_mounts := Ok ["/discoveryPath/dir1/mount1"]; w_events := [];
  w_metrics := no_metrics; w_tasks := []; w_ready := false; w_taintRemoved := false;
  w_now := 7 |}.

Lemma cache_order_refl m : VolumeCache.cache_order m (VolumeCache.ListPVs m).
Proof. unfold VolumeCache.cache_order. reflexivity. Qed.

Definition example_succeeded := [("pv1", {| StartTime := 1; Status := CSSucceeded |})].

Lemma deletes_only_cleaned_witness :
  ∃ w', DeletePVs example_runtime VolumeCache.ListPVs
          (example_world [example_pv] example_succeeded) = Done () w' ∧
    objects w' !! "pv1" = None ∧ objects (example_world [example_pv] example_succeeded) !! "pv1"
      = Some example_pv.
Proof.
  pose proof (deletes_only_cleaned example_runtime VolumeCache.ListPVs
    (example_world [example_pv] example_succeeded) cache_order_refl) as H.
  destruct H as (w'&Hrun&_).
  - apply (VolumeCache.keyed_Add example_pv), VolumeCache.keyed_New.
  - apply map_Forall_insert_2; [by left|apply map_Forall_empty].
  - done.
  - exists w'. split; [exact Hrun|]. vm_compute in Hrun. injection Hrun as <-. by vm_compute.
Defined.


(** A volume of the configured class that another provisioner's driver backs. *)
Definition example_nonlocal : PersistentVolume := {|
  pv_meta := named "pv2";
  pv_Spec := {|
    pvs_ReclaimPolicy := PersistentVolumeReclaimDelete; pvs_Capacity := ∅; pvs_Local := None;
    pvs_AccessModes := []; pvs_StorageClassName := "sc1"; pvs_VolumeMode := None;
    pvs_MountOptions := []; pvs_NodeAffinity := None; pvs_ClaimRef := None |};
  pv_Phase := VolumeReleased |}.

Lemma unsupported_volume_crashes_witness :
  crashed (DeletePVs example_runtime VolumeCache.ListPVs
             (example_world [example_pv; example_nonlocal] [])) = true.
Proof.
  apply (unsupported_volume_crashes example_runtime VolumeCache.ListPVs
    (example_world [example_pv; example_nonlocal] []) "pv2" example_nonlocal
    (example_mount "dir1" "Filesystem") cache_order_refl); done.
Defined.

Definition example_task : CleanTask := {|
  ct_pv := example_pv; ct_volMode := PersistentVolumeFilesystem;
  ct_mountPath := "/discoveryPath/dir1/mount1";
  ct_config := example_mount "dir1" "Filesystem" |}.

Lemma deletePV_lifecycle_witness :
  (∃ r w', deletePV example_runtime example_pv (example_world [example_pv] []) = Done r w' ∧
     w_tasks w' = [example_task]) ∧
  ∃ err, deletePV example_runtime (sample_pv "pv1" "unknown" "/mnt/disks/dir1/mount1")
    (example_world [] []) = Done (Some err) (example_world [] []).
Proof.
  split.
  - destruct (deletePV_lifecycle example_runtime example_pv (example_world [example_pv] []))
      as [_ H]; [done|].
    destruct (H example_task) as (r&w'&Hrun&_); [done|by split_and!; vm_compute|].
    exists r, w'. split; [exact Hrun|]. vm_compute in Hrun. by injection Hrun as _ <-.
  - apply (deletePV_lifecycle example_runtime); [done|]. right. intros t (_&_&Hc&_). done.
Defined.

Definition example_running := [("pv1", {| StartTime := 1; Status := CSRunning |})].

Lemma cleanup_goroutine_verdict_witness :
  ∃ st w', asyncCleanPV example_task (example_world [example_pv] example_running) = Done () w' ∧
    entries w' !! "pv1" = Some {| StartTime := 1; Status := st |}.
Proof.
  destruct (cleanup_goroutine_verdict example_task (example_world [example_pv] example_running)
    {| StartTime := 1; Status := CSRunning |}) as (st&w'&Hrun&_&Hend&_); [by split|done|].
  exists st, w'. split; [exact Hrun|]. by destruct Hend as [-> ].
Defined.

Lemma released_volume_is_reclaimed_witness :
  ∃ w3, objects (API := MemServer) (FS := Fake.FakeVolumeUtil) (PT := ProcTableImpl.ProcTableImpl) w3
    = delete "pv1" (objects (example_world [example_pv] [])).
Proof.
  destruct (released_volume_is_reclaimed example_runtime example_pv
    (example_mount "dir1" "Filesystem") "mount1" (example_world [example_pv] []) example_fs
    "/discoveryPath/dir1/mount1") as (w1&w2&w3&t&_&_&_&_&_&_&Ho&_).
  - done.
  - split_and!; try done; [by do 2 eexists|by right].
  - done.
  - done.
  - split; [by split_and!|]. by exists None.
  - done.
  - done.
  - by vm_compute.
  - done.
  - by vm_compute.
  - done.
  - done.
  - by exists w3.
Defined.
