(* ===== verification/Discovery.v ===== *)
(** * Discovery: finding volumes and creating their objects, [pkg/discovery]

    [NewDiscoverer] computes what all created volumes share; [DiscoverLocalVolumes]
    is one pass over the configured classes.  The JSON codec of node affinities is
    an argument of the definitions that use it, the order of the loop over the
    classes of [DiscoverLocalVolumes]. *)
From S2P Require Import Prelude GoLib FilePath K8s VolumeUtil Common Cache Metrics ProcTable.
From S2P Require Import Runtime Populator WorkQueue JobController Deleter.
From Stdlib Require Import Ascii.

Record Discoverer := {
  d_config : RuntimeConfig;
  d_Labels : gmap string string;
  d_nodeSelector : NodeSelector;
  d_ownerReference : OwnerReference }.

(** ** Construction *)
Definition generateOwnerReference (node : Node) : result OwnerReference :=
  let m := node_meta node in
  if decide (om_Name m = "") then Err (Errorf "Node does not have name" [] [])
  else if decide (om_UID m = "") then Err (Errorf "Node does not have UID" [] [])
  else Ok {| or_Kind := "Node"; or_APIVersion := "v1"; or_Name := om_Name m; or_UID := om_UID m |}.

Definition generateNodeSelector (node : Node) : result NodeSelector :=
  match om_Labels (node_meta node) with
  | None => Err (Errorf "Node does not have labels" [] [])
  | Some labels =>
      match labels !! NodeLabelKey with
      | None => Err (Errorf "Node does not have expected label %s" [NodeLabelKey] [])
      | Some nodeValue =>
          Ok {| ns_NodeSelectorTerms := [{|
            nst_MatchExpressions := [{| nsr_Key := NodeLabelKey;
              nsr_Operator := NodeSelectorOpIn; nsr_Values := [nodeValue] |}];
            nst_MatchFields := [] |}] |}
      end
  end.

(** The labels of every volume: the listed labels of the node, then the configured
    ones (the keys of a map are distinct, so the order of that loop is irrelevant). *)
Definition pv_labels (u : UserConfig) : gmap string string :=
  let labelMap := fold_left (λ m labelName,
    match map_get (om_Labels (node_meta (uc_Node u))) labelName with
    | Some labelVal => <[labelName := labelVal]> m
    | None => m
    end) (elems (NodeLabelsForPV u)) ∅ in
  default ∅ (LabelsForPV u) ∪ labelMap.

Definition NewDiscoverer (config : RuntimeConfig) : result Discoverer :=
  let u := rc_User config in
  match generateOwnerReference (uc_Node u) with
  | Err err => Err (Errorf "Failed to generate owner reference: %v" [] [err])
  | Ok ownerRef =>
      match generateNodeSelector (uc_Node u) with
      | Err err => Err (Errorf "Failed to generate node selector: %v" [] [err])
      | Ok nodeSelector =>
          Ok {| d_config := config; d_Labels := pv_labels u; d_nodeSelector := nodeSelector;
                d_ownerReference := ownerRef |}
      end
  end.

(** ** Names, capacities and affinities *)
Definition generatePVName (file node class : string) : string :=
  let h := fnv32a_write (fnv32a_write (fnv32a_write fnv_offset32 file) node) class in
  "local-pv-" +:+ format_x h.

Definition roundDownCapacityPretty (capacityBytes : Z) : Z :=
  let round (unit : Z) (rest : Z) : Z :=
    let size := Z.quot capacityBytes unit in
    if (10 <=? size)%Z then (size * unit)%Z else rest in
  round GiB (round MiB capacityBytes).

Definition GetStorageNodeAffinityFromAnnotation (Unmarshal : string → result NodeAffinity)
    (annotations : gomap string) : result (option NodeAffinity) :=
  if (0 <? map_len annotations)%nat &&
     bool_decide (map_get_str annotations AlphaStorageNodeAffinityAnnotation ≠ "")
  then match Unmarshal (map_get_str annotations AlphaStorageNodeAffinityAnnotation) with
       | Err err => Err err
       | Ok affinity => Ok (Some affinity)
       end
  else Ok None.

(** The annotations are the state; writing to a nil map panics. *)
Definition StorageNodeAffinityToAlphaAnnotation (Marshal : NodeAffinity → result string)
    (affinity : option NodeAffinity) : M (gomap string) (option error) :=
  match affinity with
  | None => mret None
  | Some affinity =>
      match Marshal affinity with
      | Err err => mret (Some err)
      | Ok json => λ annotations,
          match annotations with
          | None => Crash (Panicked "assignment to entry in nil map") annotations
          | Some m => Done None (Some (<[AlphaStorageNodeAffinityAnnotation := json]> m))
          end
      end
  end.

(** ** The pass *)
Section discoverer.
Context {FS API PT : Type}.
Context `{!VolumeUtil FS, !KubeClient API, !ProcTable PT}.
Context (Marshal : NodeAffinity → result string).
Abbreviation W := (World FS API PT).
Context (d : Discoverer).
Local Abbreviation c := (d_config d).

(** [Readyz.Check]. *)
Definition readyz_Check : M W (option error) :=
  ready ← gets w_ready;
  mret (if ready : bool then None else Some (Errorf "discovererNotReady" [] [])).

Definition getReclaimPolicyFromStorageClass (name : string) : M W (result string) :=
  classes ← gets w_classLister;
  match classes name with
  | Err err => mret (Err err)
  | Ok class => mret (Ok (default PersistentVolumeReclaimDelete (sc_ReclaimPolicy class)))
  end.

Definition getMountOptionsFromStorageClass (name : string) : M W (result (list string)) :=
  classes ← gets w_classLister;
  match classes name with
  | Err err => mret (Err err)
  | Ok class => mret (Ok (sc_MountOptions class))
  end.

(** The parts of [createPV]: the configuration of the object, and its creation. *)
Definition local_pv_config (file class reclaimPolicy : string) (mountOptions : list string)
    (config : MountConfig) (capacityByte : Z) (volMode accessMode : string)
    (useAlpha : bool) (affinityAnn : string) (nodeAffinity : option VolumeNodeAffinity)
  : LocalPVConfig := {|
  lpc_Name := generatePVName file (node_Name (uc_Node (rc_User c))) class;
  lpc_HostPath := Join [HostDir config; file];
  lpc_Capacity := roundDownCapacityPretty capacityByte; lpc_StorageClass := class;
  lpc_ReclaimPolicy := reclaimPolicy; lpc_ProvisionerName := rc_Name c;
  lpc_UseAlphaAPI := useAlpha; lpc_AffinityAnn := affinityAnn;
  lpc_NodeAffinity := nodeAffinity; lpc_VolumeMode := volMode; lpc_AccessMode := accessMode;
  lpc_MountOptions := mountOptions;
  lpc_FsType := if decide (mc_FsType config = "") then None else Some (mc_FsType config);
  lpc_Labels := Some (d_Labels d); lpc_SetPVOwnerRef := SetPVOwnerRef (rc_User c);
  lpc_OwnerReference := Some (d_ownerReference d) |}.

Definition submitPV (localPVConfig : LocalPVConfig) : M W (option error) :=
  pvSpec ← CreateLocalPVSpec localPVConfig;
  r ← apiUtil.CreatePV pvSpec;
  match r with
  | Err err =>
      mret (Some (Errorf "error creating PV %q for volume at %q: %v"
                    [lpc_Name localPVConfig; lpc_HostPath localPVConfig] [err]))
  | Ok _ => _ ← metric (inc_discovery (lpc_VolumeMode localPVConfig)); mret None
  end.

Definition createPV (file class reclaimPolicy : string) (mountOptions : list string)
    (config : MountConfig) (capacityByte : Z) (volMode accessMode : string)
  : M W (option error) :=
  let localPVConfig :=
    local_pv_config file class reclaimPolicy mountOptions config capacityByte volMode accessMode in
  let volumeNodeSelector :=
    {| ns_NodeSelectorTerms := (ns_NodeSelectorTerms (d_nodeSelector d) ++ elems (Selector config))%list |} in
  if UseAlphaAPI (rc_User c) then
    match StorageNodeAffinityToAlphaAnnotation Marshal
            (Some {| na_RequiredDuringSchedulingIgnoredDuringExecution := Some volumeNodeSelector |})
            (Some ∅) with
    | Crash e _ => panic e
    | Done (Some err) _ =>
        mret (Some (Errorf "error converting volume affinity to alpha annotation: %v" [] [err]))
    | Done None tmpAnnotations =>
        submitPV (localPVConfig true
                    (map_get_str tmpAnnotations AlphaStorageNodeAffinityAnnotation) None)
    end
  else
    submitPV (localPVConfig false "" (Some {| vna_Required := Some volumeNodeSelector |})).

(** What a pass over a directory accumulates. *)
Record Totals := { discoErrors : list error; totalBlock : Z; totalFS : Z }.

Definition add_error (err : error) (t : Totals) : Totals :=
  {| discoErrors := (discoErrors t ++ [err])%list; totalBlock := totalBlock t; totalFS := totalFS t |}.

Definition add_block (n : Z) (t : Totals) : Totals :=
  {| discoErrors := discoErrors t; totalBlock := wrap64 (totalBlock t + n); totalFS := totalFS t |}.

Definition add_fs (n : Z) (t : Totals) : Totals :=
  {| discoErrors := discoErrors t; totalBlock := totalBlock t; totalFS := wrap64 (totalFS t + n) |}.

(** The loop over the name patterns; [None] is [filepath.ErrBadPattern]. *)
Fixpoint match_patterns (patterns : list string) (file : string) (matched : bool) : option bool :=
  match patterns with
  | [] => Some matched
  | pattern :: rest =>
      if decide (pattern = "") then match_patterns rest file matched
      else match Match pattern file with
           | None => None
           | Some true => Some true
           | Some false => match_patterns rest file false
           end
  end.

(** The body of the loop over the files from the switch on the volume mode. *)
Definition provision_file (class reclaimPolicy : string) (mountPointMap : gset string)
    (config : MountConfig) (mountOptions : list string) (volMode file : string) (acc : Totals)
  : M W Totals :=
  let filePath := Join [MountDir config; file] in
  let outsidePath := Join [HostDir config; file] in
  let desiredAccessMode :=
    if decide (mc_AccessMode config = "") then ReadWriteOnce else mc_AccessMode config in
  let desireVolumeMode := mc_VolumeMode config in
  let create (capacityByte : Z) (acc : Totals) : M W Totals :=
    err ← createPV file class reclaimPolicy mountOptions config capacityByte desireVolumeMode
            desiredAccessMode;
    mret match err with Some err => add_error err acc | None => acc end in
  fs ← gets w_fs;
  if decide (volMode = PersistentVolumeBlock) then
    match GetBlockCapacityByte filePath fs with
    | Err err => mret (add_error (Errorf "path %q block stats error: %v" [filePath] [err]) acc)
    | Ok capacityByte => create capacityByte (add_block capacityByte acc)
    end
  else if decide (volMode = PersistentVolumeFilesystem) then
    if decide (desireVolumeMode = PersistentVolumeBlock) then
      mret (add_error (Errorf "path %q of filesystem mode cannot be used to create block volume"
                         [filePath] []) acc)
    else
      match IsLikelyMountPoint outsidePath filePath mountPointMap fs with
      | (true, None) =>
          match GetFsCapacityByte outsidePath filePath fs with
          | Err err => mret (add_error (Errorf "path %q fs stats error: %v" [filePath] [err]) acc)
          | Ok capacityByte => create capacityByte (add_fs capacityByte acc)
          end
      | (_, err) =>
          mret (add_error (Errorf "path %q is not a valid mount point: %v" [filePath]
                             (option_list err)) acc)
      end
  else mret (add_error (Errorf "path %q has unexpected volume type %q" [filePath; volMode] []) acc).

(** The body from the computation of the volume mode (the file matched). *)
Definition discover_file (class reclaimPolicy : string) (mountPointMap : gset string)
    (config : MountConfig) (file : string) (acc : Totals) : M W Totals :=
  let u := rc_User c in
  let filePath := Join [MountDir config; file] in
  mode ← gets (λ w, GetVolumeMode (rc_goos c) filePath (w_fs w));
  match mode with
  | Err err => mret (add_error err acc)
  | Ok volMode =>
    let pvName := generatePVName file (node_Name (uc_Node u)) class in
    existing ← gets (λ w, VolumeCache.GetPV pvName (w_cache w));
    match existing with
    | Some pv =>
        if bool_decide (pvs_VolumeMode (pv_Spec pv) = Some PersistentVolumeBlock) &&
           bool_decide (volMode = PersistentVolumeFilesystem)
        then
          let err := Errorf
            "incorrect Volume Mode: PV %q requires block mode but path %q was in fs mode"
            [pvName; filePath] [] in
          _ ← Eventf pv EventTypeWarning EventVolumeFailedDelete err;
          mret (add_error err acc)
        else mret acc
    | None =>
      let outsidePath := Join [HostDir config; file] in
      existingPVNames ← gets (λ w, VolumeCache.LookupPVsByPath outsidePath (w_cache w));
      match existingPVNames with
      | _ :: _ => mret acc
      | [] =>
        let usejob :=
          bool_decide (volMode = PersistentVolumeBlock) && UseJobForCleaning u in
        inProgress ← InProgress c pvName usejob;
        if inProgress : bool then mret acc
        else
          status ← RemoveStatus c pvName usejob;
          match snd (status : CleanupState * option Z * option error) with
          | Some _ => mret acc
          | None =>
            options ← getMountOptionsFromStorageClass class;
            match options with
            | Err err =>
                mret (add_error (Errorf "failed to get mount options from storage class %s: %v"
                                   [class] [err]) acc)
            | Ok mountOptions =>
                provision_file class reclaimPolicy mountPointMap config mountOptions volMode file acc
            end
          end
      end
    end
  end.

(** The loop over the files of the directory; a malformed pattern ends it. *)
Fixpoint discover_files (class reclaimPolicy : string) (mountPointMap : gset string)
    (config : MountConfig) (namePatterns files : list string) (acc : Totals)
  : M W (result Totals) :=
  match files with
  | [] => mret (Ok acc)
  | file :: rest =>
      match match_patterns namePatterns file false with
      | None => mret (Err (Errorf "syntax error in pattern" [] []))
      | Some matched =>
          acc ← (if bool_decide (NamePattern config ≠ "") && negb matched then mret acc
                 else discover_file class reclaimPolicy mountPointMap config file acc);
          discover_files class reclaimPolicy mountPointMap config namePatterns rest acc
      end
  end.

Definition discoverVolumesAtPath (class : string) (config : MountConfig) : M W (option error) :=
  policy ← getReclaimPolicyFromStorageClass class;
  match policy with
  | Err err =>
      mret (Some (Errorf "failed to get ReclaimPolicy from storage class %q: %v" [class] [err]))
  | Ok reclaimPolicy =>
    if bool_decide (reclaimPolicy ≠ PersistentVolumeReclaimRetain) &&
       bool_decide (reclaimPolicy ≠ PersistentVolumeReclaimDelete)
    then mret (Some (Errorf
      "unsupported ReclaimPolicy %q from storage class %q, supported policy are Retain and Delete"
      [reclaimPolicy; class] []))
    else
      files ← gets (λ w, ReadDir (MountDir config) (w_fs w));
      match files with
      | Err err => mret (Some (Errorf "error reading directory: %v" [] [err]))
      | Ok files =>
        mountPoints ← gets w_mounts;
        match mountPoints with
        | Err err => mret (Some (Errorf "error retrieving mountpoints: %v" [] [err]))
        | Ok mountPoints =>
          let mountPointMap := list_to_set mountPoints in
          let namePatterns :=
            if decide (NamePattern config = "") then []
            else split_on ","%char (NamePattern config) in
          totals ← discover_files class reclaimPolicy mountPointMap config namePatterns files
                     {| discoErrors := []; totalBlock := 0; totalFS := 0 |};
          match totals with
          | Err err => mret (Some err)
          | Ok totals =>
            _ ← metric (set_capacity PersistentVolumeBlock (totalBlock totals));
            _ ← metric (set_capacity PersistentVolumeFilesystem (totalFS totals));
            match discoErrors totals with
            | [] => mret None
            | errs => mret (Some (Errorf "%d error(s) while discovering volumes: %v" [] errs))
            end
          end
        end
      end
  end.

Definition DiscoverLocalVolumes
    (class_order : gmap string MountConfig → list (string * MountConfig)) : M W () :=
  readyz ← forM (class_order (default ∅ (DiscoveryMap (rc_User c)))) true (λ readyz '(class, config),
    err ← discoverVolumesAtPath class config;
    mret match err with Some _ => false | None => readyz end);
  modify (set_ready readyz).
End discoverer.

(** ** What a pass may do *)
Section discovery_effects.
Context {FS API PT : Type}.
Context `{!VolumeUtil FS, !KubeClient API, !ProcTable PT}.
Context `{!KubeClientLaws API, !ProcTableLaws PT}.
Context (Marshal : NodeAffinity → result string).
Abbreviation W := (World FS API PT).
Context (d : Discoverer).
Local Abbreviation c := (d_config d).
Local Abbreviation u := (rc_User (d_config d)).

(** The object made for the entry [file] of the directory of a class. *)
Record provisioned (file class : string) (config : MountConfig) (pv : PersistentVolume) : Prop := {
  prov_name : pv_Name pv = generatePVName file (node_Name (uc_Node u)) class;
  prov_path : option_map lvs_Path (pvs_Local (pv_Spec pv)) = Some (Join [HostDir config; file]);
  prov_class : pvs_StorageClassName (pv_Spec pv) = class;
  prov_policy : pvs_ReclaimPolicy (pv_Spec pv) = PersistentVolumeReclaimRetain ∨
                pvs_ReclaimPolicy (pv_Spec pv) = PersistentVolumeReclaimDelete;
  prov_mode : pvs_VolumeMode (pv_Spec pv) = Some (mc_VolumeMode config);
  prov_annotation : map_get (om_Annotations (pv_meta pv)) AnnProvisionedBy = Some (rc_Name c);
  prov_affinity : UseAlphaAPI u = false →
    pvs_NodeAffinity (pv_Spec pv) = Some {| vna_Required := Some {| ns_NodeSelectorTerms :=
      (ns_NodeSelectorTerms (d_nodeSelector d) ++ elems (Selector config))%list |} |};
  prov_labels : om_Labels (pv_meta pv) = Some (d_Labels d);
  prov_owner : SetPVOwnerRef u = true → om_OwnerReferences (pv_meta pv) = [d_ownerReference d];
  prov_phase : pv_Phase pv ≠ VolumeReleased }.

(** The status the server assigns does not matter. *)
Lemma provisioned_status file class config st pv :
  provisioned file class config pv → snd st ≠ VolumeReleased →
  provisioned file class config (with_status st pv).
Proof. by intros [] ?; split. Qed.

(** No cleanup, by process or by job, of a volume of the given mode is in progress. *)
Definition not_cleaning (name mode : string) (w : W) : Prop :=
  if shouldRunJob c mode
  then match w_jobLister w (Namespace u) (generateCleaningJobName name) with
       | Ok job => (0 < job_Succeeded job)%Z
       | Err err => IsNotFound err = true
       end
  else idle name w.

(** In state [w] there is a volume to make an object for at [file]. *)
Record discoverable (file class : string) (config : MountConfig) (w : W) : Prop := {
  disc_class : map_get (DiscoveryMap u) class = Some config;
  disc_listed : ∃ files, ReadDir (MountDir config) (w_fs w) = Ok files ∧ file ∈ files;
  disc_matches : NamePattern config = "" ∨
    match_patterns (split_on ","%char (NamePattern config)) file false = Some true;
  disc_not_cached :
    w_cache w !! generatePVName file (node_Name (uc_Node u)) class = None;
  disc_path_free : ∀ key pv, w_cache w !! key = Some pv →
    VolumeCache.has_local_path (Join [HostDir config; file]) pv = false;
  disc_idle : ∃ mode, GetVolumeMode (rc_goos c) (Join [MountDir config; file]) (w_fs w) = Ok mode ∧
    not_cleaning (generatePVName file (node_Name (uc_Node u)) class) mode w }.

(** The effect of a pass, or of a part of it. *)
Record discovers (w w' : W) : Prop := {
  dis_cache : w_cache w' = w_cache w;
  dis_tasks : w_tasks w' = w_tasks w;
  dis_fs : w_fs w' = w_fs w;
  dis_mounts : w_mounts w' = w_mounts w;
  dis_jobs : w_jobLister w' = w_jobLister w;
  dis_classes : w_classLister w' = w_classLister w;
  dis_now : w_now w' = w_now w;
  dis_entries : entries w' ⊆ entries w;
  dis_running : ∀ name e, entries w !! name = Some e → Status e = CSRunning →
    entries w' !! name = Some e;
  dis_kept : objects w ⊆ objects w';
  dis_new : ∀ name pv, objects w !! name = None → objects w' !! name = Some pv →
    ∃ file class config, discoverable file class config w ∧ provisioned file class config pv ∧
      pv_Name pv = name;
  dis_fresh : ∀ name, objects w !! name = None → is_Some (objects w' !! name) →
    UseJobForCleaning u = false → entries w' !! name = None }.

Lemma idle_back name (w w1 : W) : discovers w w1 → idle name w1 → idle name w.
Proof.
  intros Hd Hi. unfold idle in *. destruct (entries w !! name) as [e|] eqn:E; [|done].
  intros Hst. by rewrite (dis_running _ _ Hd name e E Hst) in Hi.
Qed.

Lemma discoverable_back file class config (w w1 : W) :
  discovers w w1 → discoverable file class config w1 → discoverable file class config w.
Proof.
  intros Hd [H1 H2 Hm H3 H4 (mode&H5&H6)]. pose proof (idle_back (generatePVName file
    (node_Name (uc_Node u)) class) w w1 Hd) as Hib. destruct Hd.
  rewrite dis_fs0 in H2, H5. rewrite dis_cache0 in H3, H4.
  split; [done..|]. exists mode. split; [done|]. unfold not_cleaning in *.
  rewrite dis_jobs0 in H6. destruct (shouldRunJob _ _); [done|auto].
Qed.

#[global] Instance discovers_preorder : PreOrder discovers.
Proof.
  split; [intros w; split; auto; [naive_solver|by intros ? -> [??]]|].
  intros w w1 w2 H1 H2. pose proof (discoverable_back) as Hback.
  split; try (destruct H1, H2; congruence).
  - etrans; [apply (dis_entries _ _ H2)|apply (dis_entries _ _ H1)].
  - intros name e He Hst. apply (dis_running _ _ H2); [|done]. by apply (dis_running _ _ H1).
  - etrans; [apply (dis_kept _ _ H1)|apply (dis_kept _ _ H2)].
  - intros name pv Hn Hpv. destruct (objects w1 !! name) as [pv1|] eqn:E.
    + pose proof (lookup_weaken _ _ _ _ E (dis_kept _ _ H2)). simplify_eq.
      apply (dis_new _ _ H1); congruence.
    + destruct (dis_new _ _ H2 name pv E Hpv) as (file&class&config&?&?&?).
      exists file, class, config. eauto.
  - intros name Hn Hs Hu. destruct (objects w1 !! name) as [pv1|] eqn:E.
    + pose proof (dis_fresh _ _ H1 name Hn ltac:(by eexists) Hu) as Hf.
      destruct (entries w2 !! name) as [e|] eqn:Ee; [|done].
      by rewrite (lookup_weaken _ _ _ _ Ee (dis_entries _ _ H2)) in Hf.
    + by apply (dis_fresh _ _ H2).
Qed.

(** Steps that leave the entries and the objects alone. *)
Lemma discovers_becomes (w w' : W) :
  becomes w (entries w) (objects w) (w_tasks w) w' → discovers w w'.
Proof.
  intros [E1 E2]. split; try done; rewrite ?E1, ?E2; try done; [intros; congruence|].
  by intros name -> [??].
Qed.

Lemma CreatePV_run pv (w : W) :
  ∃ r w', apiUtil.CreatePV pv w = Done r w' ∧
    if is_ok r
    then objects w !! pv_Name pv = None ∧
         ∃ st, snd st ≠ VolumeReleased ∧
           becomes w (entries w) (<[pv_Name pv := with_status st pv]> (objects w)) (w_tasks w) w'
    else becomes w (entries w) (objects w) (w_tasks w) w'.
Proof.
  unfold apiUtil.CreatePV, call_api, metric. unfold_monad.
  destruct (api_CreatePV pv (w_api w)) as [[pv'|e] a] eqn:E; simpl.
  - apply api_CreatePV_ok in E as [E1 E2]. do 2 eexists. split; [done|]. split; [done|].
    eexists. split; [apply (api_assigned_phase (w_api w))|]. by constructor.
  - apply api_CreatePV_err in E. do 2 eexists. split; [done|]. by constructor.
Qed.

(** The object [createPV] asks for. *)
Lemma CreateLocalPVSpec_run file class policy options config capacity accessMode useAlpha ann aff
    (w : W) :
  policy = PersistentVolumeReclaimRetain ∨ policy = PersistentVolumeReclaimDelete →
  UseAlphaAPI u = useAlpha →
  (useAlpha = false → aff = Some {| vna_Required := Some {| ns_NodeSelectorTerms :=
      (ns_NodeSelectorTerms (d_nodeSelector d) ++ elems (Selector config))%list |} |}) →
  ∃ pv, CreateLocalPVSpec (local_pv_config d file class policy options config capacity
          (mc_VolumeMode config) accessMode useAlpha ann aff) w = Done pv w ∧
    provisioned file class config pv ∧
    pvs_Capacity (pv_Spec pv) = {[ResourceStorage := roundDownCapacityPretty capacity]}.
Proof.
  intros Hpol Hu Haff. unfold CreateLocalPVSpec. simpl.
  destruct useAlpha; destruct (SetPVOwnerRef u) eqn:Hs; unfold_monad;
    (eexists; split_and!; [done| |done]); split; simpl; try done;
    rewrite ?Hu, ?Hs; try done; try (intros _; by apply Haff).
Qed.

Definition creates (file class : string) (config : MountConfig) (capacity : Z) (w : W)
    (err : option error) (w' : W) : Prop :=
  becomes w (entries w) (objects w) (w_tasks w) w' ∧ err ≠ None ∨
  err = None ∧ ∃ pv, provisioned file class config pv ∧ objects w !! pv_Name pv = None ∧
    becomes w (entries w) (<[pv_Name pv := pv]> (objects w)) (w_tasks w) w' ∧
    pvs_Capacity (pv_Spec pv) = {[ResourceStorage := roundDownCapacityPretty capacity]}.

Lemma submitPV_run cfg pv file class config capacity (w : W) :
  CreateLocalPVSpec cfg w = Done pv w → provisioned file class config pv →
  pvs_Capacity (pv_Spec pv) = {[ResourceStorage := roundDownCapacityPretty capacity]} →
  ∃ err w', submitPV cfg w = Done err w' ∧ creates file class config capacity w err w'.
Proof.
  intros Hc Hp Hcap. unfold submitPV, mbind, M_bind. rewrite Hc.
  destruct (CreatePV_run pv w) as (r&w1&->&Hr). destruct r as [pv'|e]; simpl in Hr.
  - destruct Hr as (Hn&st&Hst&[]). do 2 eexists. split; [done|]. right. split; [done|].
    exists (with_status st pv). split_and!; [by apply provisioned_status|done| |done]. by constructor.
  - do 2 eexists. split; [done|]. by left.
Qed.

(** [createPV] creates one object, as described, or none. *)
Lemma createPV_run file class policy options config capacity accessMode (w : W) :
  policy = PersistentVolumeReclaimRetain ∨ policy = PersistentVolumeReclaimDelete →
  ∃ err w', createPV Marshal d file class policy options config capacity
      (mc_VolumeMode config) accessMode w = Done err w' ∧
    creates file class config capacity w err w'.
Proof.
  intros Hpol. unfold createPV. destruct (UseAlphaAPI u) eqn:Hu.
  - simpl. destruct (Marshal _) as [json|err]; simpl.
    + edestruct CreateLocalPVSpec_run as (pv&?&?&?);
        [done|done| |by eapply submitPV_run]. done.
    + do 2 eexists. split; [done|]. left. split; [apply becomes_refl|done].
  - edestruct CreateLocalPVSpec_run as (pv&?&?&?); [done|done| |by eapply submitPV_run]. done.
Qed.

(** With process-based cleaning, no status of an earlier cleanup is left. *)
Definition fresh (file class : string) (w : W) : Prop :=
  UseJobForCleaning u = false →
  entries w !! generatePVName file (node_Name (uc_Node u)) class = None.

(** One file for which there is a volume to provision. *)
Lemma creates_discovers file class config capacity (w w' : W) err :
  discoverable file class config w → fresh file class w →
  creates file class config capacity w err w' → discovers w w'.
Proof.
  intros Hd Hfresh [[Hb _]|(_&pv&Hp&Hn&Hb&_)]; [by apply discovers_becomes|].
  destruct Hb as [E1 E2]. split; try done; rewrite ?E1, ?E2; try done.
  - by apply insert_subseteq.
  - intros name pv' Hnone Hsome. apply lookup_insert_Some in Hsome as [[<- <-]|[_ ?]];
      [|congruence]. eauto 10.
  - intros name Hnone [pv' Hsome]. apply lookup_insert_Some in Hsome as [[<- <-]|[_ ?]];
      [|congruence]. rewrite (prov_name _ _ _ _ Hp). apply Hfresh.
Qed.

Lemma provision_file_run class policy mps config options mode file acc (w : W) :
  policy = PersistentVolumeReclaimRetain ∨ policy = PersistentVolumeReclaimDelete →
  discoverable file class config w → fresh file class w →
  ∃ acc' w', provision_file Marshal d class policy mps config options mode file acc w
      = Done acc' w' ∧ discovers w w'.
Proof.
  intros Hpol Hd Hfresh. unfold provision_file.
  assert (∀ r, ∃ acc' w', (mret r : M W Totals) w = Done acc' w' ∧ discovers w w') as Hret
    by (intros r; by exists r, w).
  assert (∀ capacity acc accessMode, ∃ acc' w',
    (err ← createPV Marshal d file class policy options config capacity (mc_VolumeMode config)
             accessMode;
     mret match err with Some err => add_error err acc | None => acc end : M W Totals) w = Done acc' w' ∧
    discovers w w') as Hcreate.
  { intros capacity acc0 accessMode.
    destruct (createPV_run file class policy options config capacity accessMode w Hpol)
      as (err&w1&E&H1). unfold mbind, M_bind. rewrite E. do 2 eexists. split; [done|].
    by eapply creates_discovers. }
  cbv zeta. unfold mbind at 1, M_bind at 1, gets.
  destruct (decide (mode = PersistentVolumeBlock)).
  { destruct (GetBlockCapacityByte _ _); [apply Hcreate|apply Hret]. }
  destruct (decide (mode = PersistentVolumeFilesystem)); [|apply Hret].
  destruct (decide (mc_VolumeMode config = PersistentVolumeBlock)); [apply Hret|].
  destruct (IsLikelyMountPoint _ _ _ _) as [[] []]; [apply Hret| |apply Hret|apply Hret].
  destruct (GetFsCapacityByte _ _ _); [apply Hcreate|apply Hret].
Qed.

(** Taking out a finished status keeps the volume discoverable. *)
Lemma discovers_removal file class config p (w w' : W) :
  let name := generatePVName file (node_Name (uc_Node u)) class in
  discoverable file class config w → becomes w p (objects w) (w_tasks w) w' →
  (p = entries w ∨ idle name w ∧ p = delete name (entries w)) →
  discovers w w' ∧ discoverable file class config w'.
Proof.
  intros name [H1 H2 Hm H3 H4 (mode&H5&H6)] [E1 E2 E3 E4 E5 E6 E7] Hp.
  assert (∀ q e, entries w !! q = Some e → Status e = CSRunning → p !! q = Some e) as Hrun.
  { intros q e He Hst. destruct Hp as [-> |[Hi ->]]; [done|].
    destruct (decide (q = name)) as [-> |]; [|by rewrite lookup_delete_ne].
    unfold idle in Hi. by rewrite He in Hi. }
  split.
  - split; try done; rewrite ?E1, ?E2; try done;
      [|by intros; congruence|by intros q -> [??]].
    destruct Hp as [-> |[_ ->]]; [done|apply delete_subseteq].
  - split; rewrite ?E4, ?E7; try done. exists mode. split; [done|]. unfold not_cleaning in *.
    rewrite E5. destruct (shouldRunJob _ _); [done|]. unfold idle in *. rewrite E1.
    destruct Hp as [-> |[_ ->]]; [done|]. by rewrite lookup_delete_eq.
Qed.

Lemma discover_file_run class policy mps config file files acc (w : W) :
  job_controller_present c →
  policy = PersistentVolumeReclaimRetain ∨ policy = PersistentVolumeReclaimDelete →
  map_get (DiscoveryMap u) class = Some config →
  ReadDir (MountDir config) (w_fs w) = Ok files → file ∈ files →
  (NamePattern config = "" ∨
    match_patterns (split_on ","%char (NamePattern config)) file false = Some true) →
  ∃ acc' w', discover_file Marshal d class policy mps config file acc w = Done acc' w' ∧
    discovers w w'.
Proof.
  intros Hj Hpol Hc Hr Hin Hpat. unfold discover_file.
  assert (∀ r, ∃ acc' w', (mret r : M W Totals) w = Done acc' w' ∧ discovers w w') as Hret
    by (intros r; by exists r, w).
  cbv zeta. unfold mbind, M_bind, gets.
  destruct (GetVolumeMode _ _ _) as [mode|] eqn:Hmode; [|apply Hret].
  destruct (VolumeCache.GetPV _ _) as [pv|] eqn:Hg.
  { destruct (_ && _); [|apply Hret]. do 2 eexists. split; [done|].
    apply discovers_becomes. by constructor. }
  destruct (VolumeCache.LookupPVsByPath _ _) eqn:Hl; [|apply Hret].
  change (bool_decide _ && UseJobForCleaning _) with (shouldRunJob c mode).
  set (name := generatePVName _ _ _) in *.
  destruct (InProgress_spec c name (shouldRunJob c mode) w) as (r&w1&->&H1&Hidle).
  { by apply shouldRunJob_present. }
  destruct r. { do 2 eexists. split; [done|]. by apply discovers_becomes. }
  specialize (Hidle eq_refl).
  assert (discoverable file class config w) as Hdis.
  { split; [done|by exists files|done|done| |by exists mode].
    by apply VolumeCache.LookupPVsByPath_nil. }
  destruct (discovers_removal _ _ _ _ _ _ Hdis H1) as [Hd1 Hdis1]; [by left|].
  assert (∃ st start err w2, RemoveStatus c name (shouldRunJob c mode) w1
     = Done (st, start, err) w2 ∧ discovers w1 w2 ∧ discoverable file class config w2 ∧
     (err = None → fresh file class w2))
    as (st&start&err&w2&->&Hd2&Hdis2&Hfresh).
  { destruct (shouldRunJob c mode) eqn:Es.
    - destruct (RemoveStatus_job c name w1 (shouldRunJob_present c mode Hj Es))
        as (st&start&err&w2&E&H2&_). exists st, start, err, w2. split; [done|].
      apply and_assoc. split; [eapply discovers_removal; [done|exact H2|by left]|].
      intros _ Hu. unfold shouldRunJob in Es. by rewrite Hu, andb_false_r in Es.
    - destruct (RemoveStatus_proc c name w1) as (st&start&err&w2&E&H2).
      exists st, start, err, w2. split; [done|].
      apply and_assoc. destruct H2 as [(e&He&H2)|(_&H2&_)].
      + split; [|congruence]. eapply discovers_removal; [done|exact H2|by left].
      + split.
        * eapply discovers_removal; [done|exact H2|right; split; [|done]].
          unfold idle. by rewrite (bec_entries _ _ _ _ _ H1).
        * intros _ _. rewrite (bec_entries _ _ _ _ _ H2). apply lookup_delete_eq. }
  destruct err as [err|]; simpl. { do 2 eexists. split; [done|]. by etrans. }
  unfold getMountOptionsFromStorageClass, mbind, M_bind, gets.
  destruct (w_classLister w2 class) as [sc|]; simpl.
  2:{ do 2 eexists. split; [done|]. by etrans. }
  destruct (provision_file_run class policy mps config (sc_MountOptions sc) mode file acc w2 Hpol Hdis2
    (Hfresh eq_refl))
    as (acc'&w3&->&H3).
  do 2 eexists. split; [done|]. by etrans; [|etrans].
Qed.

Lemma discover_files_run class policy mps config all files acc (w : W) :
  job_controller_present c →
  policy = PersistentVolumeReclaimRetain ∨ policy = PersistentVolumeReclaimDelete →
  map_get (DiscoveryMap u) class = Some config →
  ReadDir (MountDir config) (w_fs w) = Ok all → files ⊆ all →
  let patterns := if decide (NamePattern config = "") then []
                  else split_on ","%char (NamePattern config) in
  ∃ r w', discover_files Marshal d class policy mps config patterns files acc w = Done r w' ∧
    discovers w w'.
Proof.
  intros Hj Hpol Hc Hr Hsub patterns. revert acc w Hr.
  induction files as [|file files IH]; intros acc w Hr; simpl; [by do 2 eexists|].
  assert (file ∈ all ∧ files ⊆ all) as [Hin Hsub'] by set_solver.
  destruct (match_patterns patterns file false) as [matched|] eqn:Em; [|by do 2 eexists].
  unfold mbind, M_bind. destruct (bool_decide _ && negb matched) eqn:Eb; [by apply IH|].
  assert (NamePattern config = "" ∨
    match_patterns (split_on ","%char (NamePattern config)) file false = Some true) as Hpat.
  { subst patterns. destruct (decide (NamePattern config = "")); [by left|right].
    rewrite bool_decide_true in Eb by done. destruct matched; done. }
  destruct (discover_file_run class policy mps config file all acc w Hj Hpol Hc Hr Hin Hpat)
    as (acc'&w1&->&H1).
  destruct (IH Hsub' acc' w1) as (r&w2&->&H2); [by rewrite (dis_fs _ _ H1)|].
  do 2 eexists. split; [done|]. by etrans.
Qed.

Lemma discoverVolumesAtPath_run class config :
  job_controller_present c → map_get (DiscoveryMap u) class = Some config →
  returns discovers (discoverVolumesAtPath Marshal d class config).
Proof.
  intros Hj Hc w. unfold discoverVolumesAtPath, getReclaimPolicyFromStorageClass.
  unfold mbind, M_bind, gets. destruct (w_classLister w class) as [sc|]; simpl; [|by do 2 eexists].
  destruct (bool_decide _ && _) eqn:Ep; [by do 2 eexists|].
  destruct (ReadDir _ _) as [files|] eqn:Er; [|by do 2 eexists].
  destruct (w_mounts w) as [mps|]; [|by do 2 eexists].
  destruct (discover_files_run class (default PersistentVolumeReclaimDelete (sc_ReclaimPolicy sc))
    (list_to_set mps) config files files
    {| discoErrors := []; totalBlock := 0; totalFS := 0 |} w) as (r&w1&->&H1); try done.
  { apply andb_false_iff in Ep as [?%bool_decide_eq_false|?%bool_decide_eq_false];
      [left|right]; by apply dec_stable. }
  destruct r as [totals|]; [|by do 2 eexists].
  assert (discovers w (upd_metrics (set_capacity PersistentVolumeFilesystem (totalFS totals))
    (upd_metrics (set_capacity PersistentVolumeBlock (totalBlock totals)) w1))).
  { etrans; [done|]. apply discovers_becomes. by constructor. }
  unfold metric, modify. destruct (discoErrors totals); by do 2 eexists.
Qed.

(** Every order a loop over the configured classes may take. *)
Definition classes_order
    (class_order : gmap string MountConfig → list (string * MountConfig)) : Prop :=
  ∀ m, class_order m ≡ₚ map_to_list m.

Lemma DiscoverLocalVolumes_run class_order :
  job_controller_present c → classes_order class_order →
  returns discovers (DiscoverLocalVolumes Marshal d class_order).
Proof.
  intros Hj Hord. unfold DiscoverLocalVolumes. apply returns_bind; [apply _| |].
  - apply returns_forM; [apply _|]. intros b [class config] Hin.
    rewrite (Hord (default ∅ (DiscoveryMap u))), elem_of_map_to_list in Hin.
    apply returns_bind; [apply _| |intros; by apply returns_ret; apply _].
    apply discoverVolumesAtPath_run; [done|].
    unfold map_get. by destruct (DiscoveryMap u).
  - intros b. apply returns_modify. intros w. split; try done; unfold objects; simpl.
    + intros name pv Hn Hs. congruence.
    + by intros name -> [??].
Qed.

(** ** Creation of a volume that meets every condition *)
Lemma createPV_succeeds file class policy options config capacity accessMode (w : W) :
  UseAlphaAPI u = false →
  (∀ pv, pv_Name pv = generatePVName file (node_Name (uc_Node u)) class →
     is_ok (fst (api_CreatePV pv (w_api w))) = true) →
  ∃ w', createPV Marshal d file class policy options config capacity
          (mc_VolumeMode config) accessMode w = Done None w'.
Proof.
  intros Hu Hok. unfold createPV. rewrite Hu. unfold submitPV, CreateLocalPVSpec. simpl.
  destruct (SetPVOwnerRef u); unfold apiUtil.CreatePV, call_api, metric; unfold_monad; simpl;
    match goal with |- context [api_CreatePV ?pv ?a] =>
      pose proof (Hok pv eq_refl); destruct (api_CreatePV pv a) as [[]]; [|done] end;
    by eexists.
Qed.

Lemma provision_file_creates class policy mps config options file acc capacity (w : W) :
  policy = PersistentVolumeReclaimRetain ∨ policy = PersistentVolumeReclaimDelete →
  UseAlphaAPI u = false → mc_VolumeMode config ≠ PersistentVolumeBlock →
  IsLikelyMountPoint (Join [HostDir config; file]) (Join [MountDir config; file]) mps (w_fs w)
    = (true, None) →
  GetFsCapacityByte (Join [HostDir config; file]) (Join [MountDir config; file]) (w_fs w)
    = Ok capacity →
  (∀ pv, pv_Name pv = generatePVName file (node_Name (uc_Node u)) class →
     is_ok (fst (api_CreatePV pv (w_api w))) = true) →
  ∃ w' pv, provision_file Marshal d class policy mps config options PersistentVolumeFilesystem file
      acc w = Done (add_fs capacity acc) w' ∧ provisioned file class config pv ∧
    becomes w (entries w) (<[pv_Name pv := pv]> (objects w)) (w_tasks w) w' ∧
    pvs_Capacity (pv_Spec pv) = {[ResourceStorage := roundDownCapacityPretty capacity]}.
Proof.
  intros Hpol Hu Hmode Hmp Hcap Hok. unfold provision_file. cbv zeta. unfold mbind, M_bind, gets.
  rewrite decide_False, decide_True, decide_False, Hmp, Hcap by done.
  set (am := if decide _ then _ else _).
  destruct (createPV_succeeds file class policy options config capacity am w Hu Hok) as [w' Hrun].
  destruct (createPV_run file class policy options config capacity am w Hpol)
    as (err&w''&Hrun'&Hc). rewrite Hrun in Hrun'. injection Hrun' as <- <-.
  destruct Hc as [[_ ?]|(_&pv&Hp&_&Hb&Hcp)]; [done|].
  exists w', pv. by rewrite Hrun.
Qed.
End discovery_effects.

(** ** Properties *)

(** C5. Discovery is safe.  A pass over the configured directories returns, leaves
    the cache and all goroutines alone, never touches the status of a cleanup that
    is running, keeps every object of the API server, and creates an object only
    for a listed file that matches the class's patterns, whose name is not cached,
    whose path no cached volume has, and whose cleanup is not in progress; the
    object has the described name, path, class, policy, mode, affinity and owner. *)
Theorem discovery_creates_only_new {FS API PT : Type}
    `{!VolumeUtil FS, !KubeClient API, !ProcTable PT}
    `{!KubeClientLaws API, !ProcTableLaws PT}
    Marshal (d : Discoverer) class_order (w : World FS API PT) :
  job_controller_present (d_config d) → classes_order class_order →
  ∃ w', DiscoverLocalVolumes Marshal d class_order w = Done () w' ∧ discovers d w w'.
Proof.
  intros Hj Hord.
  destruct (DiscoverLocalVolumes_run Marshal d class_order Hj Hord w) as ([]&w'&?&?). eauto.
Qed.

(** C24. A discovered volume is recognised and not made twice.  Let a pass of the
    discoverer, from any state, create an object.  When the populator gets the
    informer's notification of it, on any cache, the object is cached under its name; and
    any later pass, from a state with this cache and in whatever state the rest is,
    leaves the name on the server as it finds it: even when others have deleted the
    object meanwhile, it is not created again while it is cached. *)
Theorem discovered_volume_is_cached {FS API PT : Type}
    `{!VolumeUtil FS, !KubeClient API, !ProcTable PT}
    `{!KubeClientLaws API, !ProcTableLaws PT}
    Marshal (d : Discoverer) order1 order2 (w1 w1' w2 w2' : World FS API PT) cache name pv :
  job_controller_present (d_config d) → classes_order order1 → classes_order order2 →
  DiscoverLocalVolumes Marshal d order1 w1 = Done () w1' →
  objects w1 !! name = None → objects w1' !! name = Some pv →
  w_cache w2 = AddFunc (d_config d) (ObjPV pv) cache →
  DiscoverLocalVolumes Marshal d order2 w2 = Done () w2' →
  w_cache w2 !! name = Some pv ∧ objects w2' !! name = objects w2 !! name.
Proof.
  intros Hj Ho1 Ho2 Hrun1 Hn Hs Hc2 Hrun2.
  destruct (DiscoverLocalVolumes_run Marshal d order1 Hj Ho1 w1) as ([]&x1&E1&Hd1).
  destruct (DiscoverLocalVolumes_run Marshal d order2 Hj Ho2 w2) as ([]&x2&E2&Hd2).
  rewrite Hrun1 in E1. injection E1 as <-. rewrite Hrun2 in E2. injection E2 as <-.
  destruct (dis_new _ _ _ Hd1 name pv Hn Hs) as (file&class&config&_&Hp&<-).
  assert (w_cache w2 !! pv_Name pv = Some pv) as Hcached.
  { rewrite Hc2. simpl. rewrite handlePVUpdate_spec. unfold owned.
    rewrite (prov_annotation _ _ _ _ _ Hp), bool_decide_true by done. apply lookup_insert_eq. }
  split; [done|]. destruct (objects w2 !! pv_Name pv) as [old|] eqn:Hold.
  { exact (lookup_weaken _ _ _ _ Hold (dis_kept _ _ _ Hd2)). }
  destruct (objects w2' !! pv_Name pv) as [pv'|] eqn:Hnew; [|done]. exfalso.
  destruct (dis_new _ _ _ Hd2 _ pv' Hold Hnew) as (file'&class'&config'&Hdis&Hp'&Hname).
  pose proof (disc_not_cached _ _ _ _ _ Hdis) as Hnc.
  rewrite <-(prov_name _ _ _ _ _ Hp'), Hname in Hnc. congruence.
Qed.

(** C11. A new directory volume is provisioned.  Let the class be configured for
    filesystem volumes (not mode Block) with policy Retain or Delete, and the beta API be
    used.  For a file in filesystem mode that is a mount point and whose capacity can be
    read, whose name and path are not cached and that has no cleanup entry, in a class with
    known mount options, discovery creates exactly one object when the API server accepts
    it: with the rounded capacity, and without an error being recorded. *)
Theorem new_volume_is_provisioned {FS API PT : Type}
    `{!VolumeUtil FS, !KubeClient API, !ProcTable PT}
    `{!KubeClientLaws API, !ProcTableLaws PT}
    Marshal (d : Discoverer) class config policy mps file acc sc capacity
    (w : World FS API PT) name :
  let u := rc_User (d_config d) in
  let inside := Join [MountDir config; file] in
  let outside := Join [HostDir config; file] in
  name = generatePVName file (node_Name (uc_Node u)) class →
  policy = PersistentVolumeReclaimRetain ∨ policy = PersistentVolumeReclaimDelete →
  UseAlphaAPI u = false → mc_VolumeMode config ≠ PersistentVolumeBlock →
  GetVolumeMode (rc_goos (d_config d)) inside (w_fs w) = Ok PersistentVolumeFilesystem →
  w_cache w !! name = None → VolumeCache.LookupPVsByPath outside (w_cache w) = [] →
  entries w !! name = None → w_classLister w class = Ok sc →
  IsLikelyMountPoint outside inside mps (w_fs w) = (true, None) →
  GetFsCapacityByte outside inside (w_fs w) = Ok capacity →
  (∀ pv, pv_Name pv = name → is_ok (fst (api_CreatePV pv (w_api w))) = true) →
  ∃ w' pv, discover_file Marshal d class policy mps config file acc w
      = Done (add_fs capacity acc) w' ∧
    provisioned d file class config pv ∧ objects w' = <[name := pv]> (objects w) ∧
    pvs_Capacity (pv_Spec pv) = {[ResourceStorage := roundDownCapacityPretty capacity]}.
Proof.
  intros u inside outside -> Hpol Hu Hmode Hm Hnc Hpath He Hsc Hmp Hcap Hok. subst u inside outside.
  unfold discover_file. cbv zeta. unfold mbind, M_bind, gets.
  rewrite Hm. unfold VolumeCache.GetPV. rewrite Hnc, Hpath.
  rewrite (bool_decide_false (PersistentVolumeFilesystem = _)) by done. simpl.
  unfold InProgress, RemoveStatus. destruct (IsRunning_run (generatePVName file
    (node_Name (uc_Node (rc_User (d_config d)))) class) w) as (t1&->&Hv1). unfold Abstract.IsRunning. rewrite He.
  destruct (RemoveEntry_run (generatePVName file (node_Name (uc_Node (rc_User (d_config d)))) class)
    (set_proc t1 w)) as (st&start&err&t2&->&Hst&Hv2).
  assert (entries (set_proc t1 w) = entries w) as E1 by done.
  unfold Abstract.RemoveEntry in Hst, Hv2. rewrite E1, He in Hst, Hv2. simpl in Hst.
  destruct Hst as [_ ->]. simpl.
  unfold getMountOptionsFromStorageClass, mbind, M_bind, gets. simpl. rewrite Hsc. simpl.
  destruct (provision_file_creates Marshal d class policy mps config (sc_MountOptions sc) file acc
    capacity (set_proc t2 (set_proc t1 w))) as (w'&pv&Hrun&Hp&Hb&Hc); try done.
  exists w', pv. split_and!; [done|done| |done].
  rewrite (bec_objects _ _ _ _ _ Hb). by rewrite (prov_name _ _ _ _ _ Hp).
Qed.

(** ** Errors are kept, and readiness means none *)
Section readiness.
Context {FS API PT : Type}.
Context `{!VolumeUtil FS, !KubeClient API, !ProcTable PT}.
Context `{!KubeClientLaws API, !ProcTableLaws PT}.
Context (Marshal : NodeAffinity → result string).
Abbreviation W := (World FS API PT).
Context (d : Discoverer).
Local Abbreviation c := (d_config d).
Local Abbreviation u := (rc_User (d_config d)).

Definition grows (acc acc' : Totals) : Prop := discoErrors acc `prefix_of` discoErrors acc'.

Lemma grows_error e acc : grows acc (add_error e acc).
Proof. by exists [e]. Qed.

Lemma provision_file_grows class policy mps config options mode file acc :
  yields (provision_file Marshal d class policy mps config options mode file acc : M W _) (grows acc).
Proof.
  unfold provision_file. cbv zeta.
  solve_yields; repeat case_match; try (by eexists [_]); exists []; by rewrite app_nil_r.
Qed.

Lemma discover_file_grows class policy mps config file acc :
  yields (discover_file Marshal d class policy mps config file acc : M W _) (grows acc).
Proof.
  unfold discover_file. cbv zeta.
  solve_yields; try (done || apply grows_error || apply provision_file_grows).
Qed.

Lemma discover_file_mode class policy mps config file acc (w : W) acc' w' :
  discover_file Marshal d class policy mps config file acc w = Done acc' w' →
  discoErrors acc' = [] →
  discoErrors acc = [] ∧
  is_ok (GetVolumeMode (rc_goos c) (Join [MountDir config; file]) (w_fs w)) = true.
Proof.
  intros Hrun Hnil. pose proof (discover_file_grows class policy mps config file acc w) as Hg.
  rewrite Hrun in Hg. destruct Hg as [l Hl]. rewrite Hnil in Hl. symmetry in Hl.
  apply app_nil in Hl as [Hacc _]. split; [done|].
  unfold discover_file in Hrun. cbv zeta in Hrun. unfold mbind at 1, M_bind at 1, gets at 1 in Hrun.
  destruct (GetVolumeMode _ _ _); [done|]. injection Hrun as <- _. simpl in Hnil.
  by destruct (discoErrors acc).
Qed.

(** What holds of a class when its directory was processed without error. *)
Definition healthy (class : string) (config : MountConfig) (w : W) : Prop :=
  ∃ sc files mps, w_classLister w class = Ok sc ∧
    (default PersistentVolumeReclaimDelete (sc_ReclaimPolicy sc) = PersistentVolumeReclaimRetain ∨
     default PersistentVolumeReclaimDelete (sc_ReclaimPolicy sc) = PersistentVolumeReclaimDelete) ∧
    ReadDir (MountDir config) (w_fs w) = Ok files ∧ w_mounts w = Ok mps ∧
    ∀ file, file ∈ files →
      let patterns := if decide (NamePattern config = "") then []
                      else split_on ","%char (NamePattern config) in
      ∃ matched, match_patterns patterns file false = Some matched ∧
        (NamePattern config = "" ∨ matched = true →
         is_ok (GetVolumeMode (rc_goos c) (Join [MountDir config; file]) (w_fs w)) = true).

Lemma discover_files_modes class policy mps config all files acc (w : W) acc' w' :
  job_controller_present c →
  policy = PersistentVolumeReclaimRetain ∨ policy = PersistentVolumeReclaimDelete →
  map_get (DiscoveryMap u) class = Some config →
  ReadDir (MountDir config) (w_fs w) = Ok all → files ⊆ all →
  let patterns := if decide (NamePattern config = "") then []
                  else split_on ","%char (NamePattern config) in
  discover_files Marshal d class policy mps config patterns files acc w = Done (Ok acc') w' →
  discoErrors acc' = [] →
  discoErrors acc = [] ∧
  ∀ file, file ∈ files → ∃ matched, match_patterns patterns file false = Some matched ∧
    (NamePattern config = "" ∨ matched = true →
     is_ok (GetVolumeMode (rc_goos c) (Join [MountDir config; file]) (w_fs w)) = true).
Proof.
  intros Hj Hpol Hc Hr Hsub patterns. revert acc w Hr.
  induction files as [|file files IH]; intros acc w Hr Hrun Hnil; simpl in Hrun.
  { injection Hrun as -> _. split; [done|]. by intros ? ?%not_elem_of_nil. }
  assert (file ∈ all ∧ files ⊆ all) as [Hin Hsub'] by set_solver.
  destruct (match_patterns patterns file false) as [matched|] eqn:Em; [|done].
  unfold mbind, M_bind in Hrun. destruct (bool_decide _ && negb matched) eqn:Eb.
  - destruct (IH Hsub' acc w Hr Hrun Hnil) as [Hacc Hfiles]. split; [done|].
    intros f [->|Hf]%elem_of_cons; [|auto]. exists matched. split; [done|].
    apply andb_true_iff in Eb as [Hne%bool_decide_eq_true Hmt%negb_true_iff]. naive_solver.
  - assert (NamePattern config = "" ∨
      match_patterns (split_on ","%char (NamePattern config)) file false = Some true) as Hpat.
    { subst patterns. destruct (decide (NamePattern config = "")); [by left|right].
      rewrite bool_decide_true in Eb by done. destruct matched; done. }
    destruct (discover_file_run Marshal d class policy mps config file all acc w Hj Hpol Hc Hr Hin Hpat)
      as (acc1&w1&E1&H1). rewrite E1 in Hrun.
    destruct (IH Hsub' acc1 w1) as [Hacc1 Hfiles]; [by rewrite (dis_fs _ _ _ H1)|done|done|].
    destruct (discover_file_mode _ _ _ _ _ _ _ _ _ E1 Hacc1) as [Hacc Hmode]. split; [done|].
    rewrite (dis_fs _ _ _ H1) in Hfiles.
    intros f [->|Hf]%elem_of_cons; [|auto]. by exists matched.
Qed.

Lemma discoverVolumesAtPath_healthy class config (w w' : W) :
  job_controller_present c → map_get (DiscoveryMap u) class = Some config →
  discoverVolumesAtPath Marshal d class config w = Done None w' → healthy class config w.
Proof.
  intros Hj Hc. unfold discoverVolumesAtPath, getReclaimPolicyFromStorageClass.
  unfold mbind, M_bind, gets. destruct (w_classLister w class) as [sc|] eqn:Ec; simpl; [|done].
  destruct (bool_decide _ && _) eqn:Ep; [done|].
  assert (default PersistentVolumeReclaimDelete (sc_ReclaimPolicy sc) = PersistentVolumeReclaimRetain
    ∨ default PersistentVolumeReclaimDelete (sc_ReclaimPolicy sc) = PersistentVolumeReclaimDelete)
    as Hpol.
  { apply andb_false_iff in Ep as [?%bool_decide_eq_false|?%bool_decide_eq_false];
      [left|right]; by apply dec_stable. }
  destruct (ReadDir _ _) as [files|] eqn:Er; [|done].
  destruct (w_mounts w) as [mps|] eqn:Em; [|done].
  destruct (discover_files _ _ _ _ _ _ _ _ _ _) as [[totals|]|] eqn:Ed; [|done|done].
  unfold metric, modify. destruct (discoErrors totals) eqn:El; [|done]. intros _.
  exists sc, files, mps. split_and!; [done..|]. intros file Hin.
  destruct (discover_files_modes _ _ _ _ files _ _ _ _ _ Hj Hpol Hc Er (reflexivity _) Ed El)
    as [_ Hf]. by apply Hf.
Qed.

Lemma healthy_back class config (w w1 : W) :
  discovers d w w1 → healthy class config w1 → healthy class config w.
Proof.
  intros H. unfold healthy. by rewrite (dis_fs _ _ _ H), (dis_classes _ _ _ H), (dis_mounts _ _ _ H).
Qed.

(** The loop over the classes: its flag is true only if no class had an error. *)
Lemma forM_ready l (w w' : W) :
  job_controller_present c →
  (∀ kc, kc ∈ l → map_get (DiscoveryMap u) (fst kc) = Some (snd kc)) →
  forM l true (λ readyz '(class, config),
    err ← discoverVolumesAtPath Marshal d class config;
    mret match err with Some _ => false | None => readyz end) w = Done true w' →
  ∀ class config, (class, config) ∈ l → healthy class config w.
Proof.
  intros Hj. revert w. induction l as [|[k cfg] l IH]; intros w Hl Hrun class config Hin;
    [by apply not_elem_of_nil in Hin|].
  simpl in Hrun. unfold mbind, M_bind in Hrun.
  destruct (discoverVolumesAtPath_run Marshal d k cfg Hj (Hl (k, cfg) ltac:(left)) w)
    as (err&w1&E1&H1). rewrite E1 in Hrun. destruct err as [err|]; simpl in Hrun.
  - exfalso. clear -Hrun. revert w1 Hrun.
    induction l as [|[k' cfg'] l IH]; intros w1 Hrun; [done|]. simpl in Hrun.
    unfold mbind, M_bind in Hrun. destruct (discoverVolumesAtPath _ _ _ _ w1) as [[]|]; [..|done];
      simpl in Hrun; by eapply IH.
  - apply elem_of_cons in Hin as [[= -> ->]|Hin].
    + eapply discoverVolumesAtPath_healthy; [done| |done]. apply (Hl (k, cfg)). left.
    + eapply healthy_back; [done|]. eapply IH; [|done|done]. intros kc Hkc. apply Hl. by right.
Qed.
End readiness.

(** C21. Readiness is truthful: after a pass the readiness check succeeds only if,
    for every configured class, its storage class was found with a supported
    reclaim policy, its directory and the mount table could be read, its name
    patterns are well formed, and every matching entry of the directory is a
    directory or a block device. *)
Theorem ready_means_healthy {FS API PT : Type}
    `{!VolumeUtil FS, !KubeClient API, !ProcTable PT}
    `{!KubeClientLaws API, !ProcTableLaws PT}
    Marshal (d : Discoverer) class_order (w w' w'' : World FS API PT) class config :
  job_controller_present (d_config d) → classes_order class_order →
  DiscoverLocalVolumes Marshal d class_order w = Done () w' →
  readyz_Check w' = Done None w'' →
  map_get (DiscoveryMap (rc_User (d_config d))) class = Some config →
  healthy d class config w.
Proof.
  intros Hj Hord Hrun Hready Hc.
  assert ((class, config) ∈ class_order (default ∅ (DiscoveryMap (rc_User (d_config d))))) as Hin.
  { rewrite (Hord _), elem_of_map_to_list. unfold map_get in Hc. by destruct (DiscoveryMap _). }
  unfold DiscoverLocalVolumes, mbind at 1, M_bind at 1 in Hrun.
  destruct (forM _ _ _ w) as [ready w1|] eqn:E; [|done]. injection Hrun as <-.
  destruct ready; [|done]. clear Hready.
  eapply (forM_ready Marshal d _ w w1 Hj); [|done|done].
  intros [k cfg]. rewrite (Hord _), elem_of_map_to_list. intros Hk.
  unfold map_get. by destruct (DiscoveryMap _).
Qed.

(** ** Names, capacities, affinities *)

(** The unit in which a capacity is shown: the largest of GiB, MiB and the byte of which
    there are at least ten, bytes for less. *)
Definition pretty_unit (n : Z) : Z :=
  if (10 * GiB <=? n)%Z then GiB else if (10 * MiB <=? n)%Z then MiB else 1.

(** Rounding down to whole units. *)
Lemma round_down_unit n :
  (0 ≤ n)%Z → roundDownCapacityPretty n = (n / pretty_unit n * pretty_unit n)%Z.
Proof.
  intros Hn. unfold roundDownCapacityPretty, pretty_unit.
  rewrite !Z.quot_div_nonneg by (unfold GiB, MiB; lia).
  assert (∀ unit, (0 < unit)%Z → (10 <=? n / unit)%Z = (10 * unit <=? n)%Z) as Hq.
  { intros unit Hu. apply eq_iff_eq_true. rewrite !Z.leb_le. split; intros H.
    - pose proof (Z.mul_div_le n unit Hu). nia.
    - apply Z.div_le_lower_bound; lia. }
  rewrite !Hq by (unfold GiB, MiB; lia).
  destruct (10 * GiB <=? n)%Z; [done|]. destruct (10 * MiB <=? n)%Z; [done|].
  by rewrite Z.div_1_r, Z.mul_1_r.
Qed.

Lemma pretty_unit_cases n :
  (pretty_unit n = GiB ∧ 10 * GiB ≤ n ∨ pretty_unit n = MiB ∧ 10 * MiB ≤ n < 10 * GiB ∨
   pretty_unit n = 1 ∧ n < 10 * MiB)%Z.
Proof.
  unfold pretty_unit. destruct (Z.leb_spec (10 * GiB) n); [by left|right].
  destruct (Z.leb_spec (10 * MiB) n); [by left|by right].
Qed.

(** A whole number of its own units is rounded to itself. *)
Lemma round_down_fixed n :
  (0 ≤ n)%Z → (n mod pretty_unit n = 0)%Z → roundDownCapacityPretty n = n.
Proof.
  intros Hn Hm. rewrite round_down_unit by done.
  pose proof (Z.div_mod n (pretty_unit n)) as E.
  destruct (pretty_unit_cases n) as [[Hu _]|[[Hu _]|[Hu _]]]; rewrite Hu in *;
    unfold GiB, MiB in *; lia.
Qed.

(** C30. Capacities are rounded down to a pretty number: the result is the largest
    multiple of GiB that is not more than the measured capacity when this is at least
    ten GiB, the largest multiple of MiB when it is at least ten MiB and less than ten
    GiB, and the capacity itself below that.  So it is at least ten elevenths of the
    capacity, rounding it again changes nothing, and a larger capacity is never shown as
    a smaller one. *)
Theorem round_down_capacity (n : Z) :
  (0 ≤ n)%Z →
  let r := roundDownCapacityPretty n in
  (10 * GiB ≤ n → r mod GiB = 0 ∧ r ≤ n < r + GiB)%Z ∧
  (10 * MiB ≤ n < 10 * GiB → r mod MiB = 0 ∧ r ≤ n < r + MiB)%Z ∧
  (n < 10 * MiB → r = n)%Z ∧
  (0 ≤ r ≤ n)%Z ∧ (10 * n ≤ 11 * r)%Z ∧ roundDownCapacityPretty r = r ∧
  ∀ m, (n ≤ m)%Z → (r ≤ roundDownCapacityPretty m)%Z.
Proof.
  intros Hn r.
  assert (∀ k, (0 ≤ k)%Z → let u := pretty_unit k in let q := roundDownCapacityPretty k in
    (q mod u = 0 ∧ q ≤ k < q + u)%Z) as Hround.
  { intros k Hk u q. subst q. rewrite round_down_unit by done. fold u.
    assert (0 < u)%Z by (destruct (pretty_unit_cases k) as [[E _]|[[E _]|[E _]]]; subst u; by rewrite E).
    split; [by apply Z.mod_mul; lia|]. pose proof (Z.div_mod k u). pose proof (Z.mod_pos_bound k u). lia. }
  destruct (Hround n Hn) as [Hmod Hr]. fold r in Hmod, Hr. clearbody r.
  assert (pretty_unit r = pretty_unit n) as Hunit.
  { pose proof (pretty_unit_cases r).
    destruct (pretty_unit_cases n) as [[E ?]|[[E ?]|[E ?]]]; rewrite E in Hmod, Hr |- *;
      unfold GiB, MiB in *; Z.div_mod_to_equations; lia. }
  pose proof (pretty_unit_cases n) as Hcase.
  assert (0 ≤ r)%Z as Hr0 by (unfold GiB, MiB in *; lia).
  split_and!; try lia.
  - intros H. replace GiB with (pretty_unit n) by (unfold GiB, MiB in *; lia). done.
  - intros H. replace MiB with (pretty_unit n) by (unfold GiB, MiB in *; lia). done.
  - intros H. unfold GiB, MiB in *; lia.
  - pose proof (pretty_unit_cases r) as Hcr. rewrite Hunit in Hcr. unfold GiB, MiB in *. lia.
  - apply round_down_fixed; [done|]. by rewrite Hunit.
  - intros m Hm. destruct (Hround m ltac:(lia)) as [Hmodm Hm'].
    destruct (pretty_unit_cases n) as [[E ?]|[[E ?]|[E ?]]];
      destruct (pretty_unit_cases m) as [[Em ?]|[[Em ?]|[Em ?]]];
      rewrite ?E, ?Em in *; unfold GiB, MiB in *; Z.div_mod_to_equations; lia.
Qed.

(** The examples of the repository's tests. *)
Lemma round_down_capacity_witness :
  let n := (13 * GiB - 1)%Z in
  (10 * GiB ≤ n)%Z ∧ (roundDownCapacityPretty n ≤ n < roundDownCapacityPretty n + GiB)%Z ∧
  roundDownCapacityPretty n = (12 * GiB)%Z ∧
  roundDownCapacityPretty (10000 * MiB - 1) = (9999 * MiB)%Z.
Proof.
  intros n. destruct (round_down_capacity n ltac:(vm_compute; discriminate)) as (H&_).
  split_and!; [vm_compute; discriminate|apply H; vm_compute; discriminate
    |apply H; vm_compute; discriminate|reflexivity|reflexivity].
Defined.

Lemma generatePVName_hash file node class :
  generatePVName file node class =
  "local-pv-" +:+ format_x (fnv32a_write fnv_offset32 (file +:+ node +:+ class)).
Proof. unfold generatePVName. by rewrite !fnv32a_write_app, string_app_assoc. Qed.

(** C31. Names of volumes.  Two names are equal exactly when the 32-bit hashes of
    the concatenations of file, node and class are (formatting loses nothing), a
    name is the fixed prefix and at most eight digits; and because the parts are
    concatenated without a separator, a file [f] of the class [node ++ class] and a
    file [f ++ node] of [class] always get the same name. *)
Theorem pv_name_collisions node :
  (∀ f1 c1 f2 c2, generatePVName f1 node c1 = generatePVName f2 node c2 ↔
     fnv32a_write fnv_offset32 (f1 +:+ node +:+ c1) =
     fnv32a_write fnv_offset32 (f2 +:+ node +:+ c2)) ∧
  (∀ f c, HasPrefix (generatePVName f node c) "local-pv-" = true ∧
     String.length (generatePVName f node c) ≤ 17) ∧
  (∀ f c, generatePVName f node (node +:+ c) = generatePVName (f +:+ node) node c).
Proof.
  assert (∀ s, (0 ≤ fnv32a_write fnv_offset32 s < uint32_mod)%Z) as Hr
    by (intros s; by apply fnv32a_write_range).
  split_and!.
  - intros f1 c1 f2 c2. rewrite !generatePVName_hash. split; [|by intros ->].
    intros [= E]. by apply format_x_inj in E.
  - intros f c. rewrite generatePVName_hash. split; [apply HasPrefix_spec; by eexists|].
    set (h := fnv32a_write _ _). pose proof (format_x_length h).
    change (9 + String.length (format_x h) ≤ 17). lia.
  - intros f c. rewrite !generatePVName_hash. by rewrite string_app_assoc.
Qed.

(** The alpha annotation round trip: an affinity written to the annotations of
    a volume is read back, for any codec that decodes what it encodes to a
    non-empty text. *)
Theorem affinity_annotation_roundtrip (Marshal : NodeAffinity → result string)
    (Unmarshal : string → result NodeAffinity) affinity json annotations :
  Marshal affinity = Ok json → json ≠ "" → Unmarshal json = Ok affinity →
  ∃ annotations',
    StorageNodeAffinityToAlphaAnnotation Marshal (Some affinity) (Some annotations)
      = Done None annotations' ∧
    GetStorageNodeAffinityFromAnnotation Unmarshal annotations' = Ok (Some affinity).
Proof.
  intros HM Hne HU. eexists. split; [simpl; by rewrite HM|].
  unfold GetStorageNodeAffinityFromAnnotation, map_get_str, map_get, map_len. simpl.
  rewrite lookup_insert_eq. simpl. rewrite bool_decide_true, andb_true_r by done.
  destruct (0 <? _)%nat eqn:E; [by rewrite HU|]. exfalso.
  apply Nat.ltb_ge in E. assert (size (<[AlphaStorageNodeAffinityAnnotation := json]> annotations) = 0)
    as Hs%map_size_empty_inv by lia. by apply insert_non_empty in Hs.
Qed.

(** A volume made for a node is a volume of that node: without extra selector
    terms, the node names read back from its affinity are the host name of the
    node the discoverer runs on. *)
Theorem provisioned_node_names config d file class mount pv hostname :
  NewDiscoverer config = Ok d → UseAlphaAPI (rc_User config) = false → elems (Selector mount) = [] →
  map_get (om_Labels (node_meta (rc_Node config))) NodeLabelKey = Some hostname →
  provisioned d file class mount pv →
  GetLocalPersistentVolumeNodeNames pv = Some [hostname].
Proof.
  intros Hnew Hu Hsel Hhost Hp. unfold NewDiscoverer in Hnew.
  destruct (generateOwnerReference _) as [ref|]; [|done].
  destruct (generateNodeSelector _) as [sel|] eqn:Hs; [|done]. injection Hnew as <-.
  unfold generateNodeSelector in Hs. unfold map_get, rc_Node in Hhost.
  destruct (om_Labels _) as [labels|]; [|done]. rewrite Hhost in Hs. injection Hs as <-.
  pose proof (prov_affinity _ _ _ _ _ Hp Hu) as Haff. simpl in Haff. rewrite Hsel in Haff.
  unfold GetLocalPersistentVolumeNodeNames. rewrite Haff. simpl.
  unfold terms_nodes, term_nodes, term_nodes_step. simpl.
  replace (∅ ∪ ({[hostname]} ∪ ∅)) with ({[hostname]} : gset string) by set_solver.
  unfold sets_List. by rewrite elements_singleton.
Qed.

(** ** Witnesses *)
Definition example_class : StorageClass :=
  {| sc_ReclaimPolicy := None; sc_MountOptions := [] |}.

(** The example world with known storage classes. *)
Definition example_classes (w : World Fake.FakeVolumeUtil MemServer ProcTableImpl.ProcTableImpl)
  : World Fake.FakeVolumeUtil MemServer ProcTableImpl.ProcTableImpl := {|
  w_cache := w_cache w; w_proc := w_proc w; w_jobLister := w_jobLister w;
  w_classLister := λ _, Ok example_class; w_api := w_api w; w_fs := w_fs w; w_mounts := w_mounts w;
  w_events := w_events w; w_metrics := w_metrics w; w_tasks := w_tasks w;
  w_ready := w_ready w; w_taintRemoved := w_taintRemoved w; w_now := w_now w |}.

Definition example_discoverer : Discoverer := {|
  d_config := example_runtime; d_Labels := ∅;
  d_nodeSelector := {| ns_NodeSelectorTerms := [{|
    nst_MatchExpressions := [{| nsr_Key := NodeLabelKey; nsr_Operator := NodeSelectorOpIn;
                                nsr_Values := ["test-node"] |}];
    nst_MatchFields := [] |}] |};
  d_ownerReference := {| or_Kind := "Node"; or_APIVersion := "v1"; or_Name := "test-node";
                         or_UID := "d9607e19-f88f-11e6-a518-42010a800195" |} |}.

Definition example_marshal : NodeAffinity → result string := λ _, Ok "{}".

Lemma classes_order_refl : classes_order map_to_list.
Proof. intros m. reflexivity. Qed.

(** The name is the one the repository's tests expect for this file. *)
Lemma discovery_creates_only_new_witness :
  ∃ w', DiscoverLocalVolumes example_marshal example_discoverer map_to_list
          (example_classes (example_world [] [])) = Done () w' ∧
    (∃ pv, objects w' !! "local-pv-aaaafef5" = Some pv) ∧
    discovers example_discoverer (example_classes (example_world [] [])) w'.
Proof.
  destruct (discovery_creates_only_new example_marshal example_discoverer map_to_list
    (example_classes (example_world [] []))) as (w'&Hrun&Hd); [done|apply classes_order_refl|].
  exists w'. split_and!; [exact Hrun| |exact Hd].
  vm_compute in Hrun. injection Hrun as <-. vm_compute. by eexists.
Defined.

Definition example_initial := example_classes (example_world [] []).

(** The object is deleted by others before the second pass. *)
Lemma discovered_volume_is_cached_witness :
  ∃ pv w2', DiscoverLocalVolumes example_marshal example_discoverer map_to_list
      (upd_cache (AddFunc example_runtime (ObjPV pv)) example_initial) = Done () w2' ∧
    objects w2' !! "local-pv-aaaafef5" = objects example_initial !! "local-pv-aaaafef5".
Proof.
  destruct (DiscoverLocalVolumes_run example_marshal example_discoverer map_to_list
    ltac:(done) classes_order_refl example_initial) as ([]&w1'&Hrun1&_).
  assert (∃ pv, objects w1' !! "local-pv-aaaafef5" = Some pv) as [pv Hpv].
  { vm_compute in Hrun1. injection Hrun1 as <-. vm_compute. by eexists. }
  destruct (DiscoverLocalVolumes_run example_marshal example_discoverer map_to_list
    ltac:(done) classes_order_refl (upd_cache (AddFunc example_runtime (ObjPV pv)) example_initial))
    as ([]&w2'&Hrun2&_).
  exists pv, w2'. split; [exact Hrun2|].
  apply (discovered_volume_is_cached example_marshal example_discoverer map_to_list map_to_list
    example_initial w1' (upd_cache (AddFunc example_runtime (ObjPV pv)) example_initial) w2' ∅
    "local-pv-aaaafef5" pv ltac:(done) classes_order_refl classes_order_refl Hrun1 eq_refl Hpv
    eq_refl Hrun2).
Defined.

Lemma new_volume_is_provisioned_witness :
  ∃ w' pv, discover_file example_marshal example_discoverer "sc1" PersistentVolumeReclaimDelete
      {["/discoveryPath/dir1/mount1"]} (example_mount "dir1" "Filesystem") "mount1"
      {| discoErrors := []; totalBlock := 0; totalFS := 0 |} example_initial
      = Done {| discoErrors := []; totalBlock := 0; totalFS := 100 |} w' ∧
    objects w' = <["local-pv-aaaafef5" := pv]> (objects example_initial).
Proof.
  destruct (new_volume_is_provisioned example_marshal example_discoverer "sc1"
    (example_mount "dir1" "Filesystem") PersistentVolumeReclaimDelete
    {["/discoveryPath/dir1/mount1"]} "mount1"
    {| discoErrors := []; totalBlock := 0; totalFS := 0 |} example_class 100 example_initial
    "local-pv-aaaafef5") as (w'&pv&Hrun&_&Ho&_);
    [reflexivity|by right|reflexivity|discriminate|vm_compute; reflexivity..| |by exists w', pv].
  intros pv Hpv. simpl. rewrite Hpv. reflexivity.
Defined.

(** The example with one configured class. *)
Definition single_class_user : UserConfig := {|
  uc_Node := example_node; DiscoveryMap := Some {["sc1" := example_mount "dir1" "Filesystem"]};
  NodeLabelsForPV := None; UseAlphaAPI := false; UseJobForCleaning := false;
  Namespace := "default"; JobContainerImage := ""; JobTolerations := None;
  MinResyncPeriod := 300; UseNodeNameOnly := false; LabelsForPV := None;
  SetPVOwnerRef := false; RemoveNodeNotReadyTaint := false;
  ProvisionerNotReadyNodeTaintKey := "" |}.

Definition single_class_discoverer : Discoverer := {|
  d_config := {| rc_User := single_class_user; rc_Name := "test-provisioner"; rc_goos := "linux";
                 rc_hasJobController := false; rc_time_Format := format_d;
                 rc_time_Parse := λ _, None |};
  d_Labels := d_Labels example_discoverer; d_nodeSelector := d_nodeSelector example_discoverer;
  d_ownerReference := d_ownerReference example_discoverer |}.

Lemma ready_means_healthy_witness :
  healthy single_class_discoverer "sc1" (example_mount "dir1" "Filesystem") example_initial.
Proof.
  destruct (DiscoverLocalVolumes_run example_marshal single_class_discoverer map_to_list
    ltac:(done) classes_order_refl example_initial) as ([]&w'&Hrun&Hd).
  apply (ready_means_healthy example_marshal single_class_discoverer map_to_list example_initial
    w' w'); [done|apply classes_order_refl|exact Hrun| |reflexivity].
  vm_compute in Hrun. injection Hrun as <-. by vm_compute.
Defined.

Lemma affinity_annotation_roundtrip_witness :
  ∃ annotations', GetStorageNodeAffinityFromAnnotation
    (λ _, Ok {| na_RequiredDuringSchedulingIgnoredDuringExecution := None |}) annotations'
    = Ok (Some {| na_RequiredDuringSchedulingIgnoredDuringExecution := None |}).
Proof.
  destruct (affinity_annotation_roundtrip example_marshal
    (λ _, Ok {| na_RequiredDuringSchedulingIgnoredDuringExecution := None |})
    {| na_RequiredDuringSchedulingIgnoredDuringExecution := None |} "{}" ∅) as (a&_&H);
    [reflexivity|discriminate|reflexivity|]. by exists a.
Defined.

Lemma provisioned_node_names_witness :
  ∃ pv, GetLocalPersistentVolumeNodeNames pv = Some ["test-node"].
Proof.
  assert (NewDiscoverer example_runtime = Ok example_discoverer) as Hnew by (vm_compute; reflexivity).
  destruct (CreateLocalPVSpec_run (FS := Fake.FakeVolumeUtil) (API := MemServer)
    (PT := ProcTableImpl.ProcTableImpl) example_discoverer "mount1" "sc1"
    PersistentVolumeReclaimDelete [] (example_mount "dir1" "Filesystem") 100 "" false ""
    (Some {| vna_Required := Some {| ns_NodeSelectorTerms :=
      ns_NodeSelectorTerms (d_nodeSelector example_discoverer) |} |}) example_initial)
    as (pv&_&Hp&_); [by right|done|done|].
  exists pv. apply (provisioned_node_names example_runtime example_discoverer "mount1" "sc1"
    (example_mount "dir1" "Filesystem") pv "test-node" Hnew); done.
Defined.
