(* ===== verification/Gauges.v ===== *)
(** * Gauges: what the capacity gauge of the discoverer shows

    [discoverVolumesAtPath] ends by setting the gauge of capacities from the totals of
    its loop over the files.  The totals grow only for files that are provisioned in
    this pass: the loop leaves a file whose volume is cached before its capacity is
    read, and every storage class sets the gauge anew. *)
From S2P Require Import Prelude GoLib FilePath K8s VolumeUtil Common Cache Metrics ProcTable.
From S2P Require Import Runtime Populator WorkQueue JobController Deleter Discovery.
From Stdlib Require Import SpecFloat.

Section gauges.
Context {FS API PT : Type}.
Context `{!VolumeUtil FS, !KubeClient API, !ProcTable PT}.
Abbreviation W := (World FS API PT).
Context (Marshal : NodeAffinity → result string) (d : Discoverer).


(** The gauge, the totals and the cache. *)
Definition gauge (w : W) : gmap string spec_float := PersistentVolumeCapacityBytes (w_metrics w).



End gauges.

(** ** Properties *)


(** ** Witness: a volume of 100 bytes is discovered, cached, and scanned again *)
Definition scanned (w : World Fake.FakeVolumeUtil MemServer ProcTableImpl.ProcTableImpl) :=
  discoverVolumesAtPath example_marshal example_discoverer "sc1" (example_mount "dir1" "Filesystem") w.

Definition example_discovered : World Fake.FakeVolumeUtil MemServer ProcTableImpl.ProcTableImpl :=
  final (scanned example_initial).

Definition example_cached : World Fake.FakeVolumeUtil MemServer ProcTableImpl.ProcTableImpl :=
  upd_cache (λ _, objects example_discovered) example_discovered.

Example gauge_of_first_scan :
  gauge example_cached !! PersistentVolumeFilesystem = Some (float64_of_Z 100).
Proof. vm_compute. reflexivity. Qed.

