(* ===== verification/NodeTaint.v ===== *)
(** * NodeTaint: removal of the not-ready taint, [pkg/node-taint] and [util.GetNode]

    The remover of the taint that keeps pods off a node until the provisioner is
    ready, and the retrying read of a node it uses.  Sleeping between attempts is
    not modelled: it only delays the next one. *)
From S2P Require Import Prelude GoLib K8s Common Cache Metrics ProcTable Runtime.

Definition maxGetNodesRetries : nat := 3.
Definition maxRemoveTaintRetries : nat := 3.

Section taint.
Context {FS API PT : Type} `{!KubeClient API}.
Abbreviation W := (World FS API PT).

(** [GetNode]: [left] attempts are left; the last failure is fatal. *)
Fixpoint get_node_loop (name : string) (left : nat) : M W Node :=
  match left with
  | 0 => panic (Fatal "Could not get node information")
  | S left' =>
      r ← call_api (api_GetNode name);
      match r with
      | Ok node => mret node
      | Err _ => get_node_loop name left'
      end
  end.

Definition GetNode (name : string) : M W Node := get_node_loop name maxGetNodesRetries.

Context (c : RuntimeConfig).

(** The loop over the taints: was the key found, and the other taints. *)
Definition split_taints (key : string) (taints : list Taint) : bool * list Taint :=
  fold_left (λ '(taintExists, currTaints) taint,
    if decide (taint_Key taint = key) then (true, currTaints)
    else (taintExists, (currTaints ++ [taint])%list)) taints (false, []).

Definition RemoveNodeTaint : M W (option error) :=
  let u := rc_User c in
  removed ← gets w_taintRemoved;
  if negb (RemoveNodeNotReadyTaint u) || removed then mret None
  else
    node ← GetNode (node_Name (uc_Node u));
    let '(taintExists, currTaints) :=
      split_taints (ProvisionerNotReadyNodeTaintKey u) (node_Taints node) in
    if negb taintExists then mret None
    else
      err ← call_api (api_UpdateNode {| node_meta := node_meta node; node_Taints := currTaints |});
      match err with
      | Some err => mret (Some err)
      | None => _ ← modify (set_taintRemoved true); mret None
      end.

Definition ShouldRemoveTaint : M W bool :=
  removed ← gets w_taintRemoved;
  mret (negb removed && RemoveNodeNotReadyTaint (rc_User c)).

(** The loop: [left] is [maxRemoveTaintRetries - retries]. *)
Fixpoint remove_taint_loop (left : nat) : M W () :=
  should ← ShouldRemoveTaint;
  if negb should then mret ()
  else match left with
  | 0 => mret ()
  | S left' =>
      err ← RemoveNodeTaint;
      match err with
      | None => mret ()
      | Some _ => remove_taint_loop left'
      end
  end.

Definition RemoveTaintWithBackoff : M W () := remove_taint_loop maxRemoveTaintRetries.
End taint.

(** ** Lemmas *)
Lemma split_taints_acc key taints b acc :
  fold_left (λ '(taintExists, currTaints) taint,
    if decide (taint_Key taint = key) then (true, currTaints)
    else (taintExists, (currTaints ++ [taint])%list)) taints (b, acc) =
  (b || bool_decide (Exists (λ t, taint_Key t = key) taints),
   (acc ++ filter (λ t, taint_Key t ≠ key) taints)%list).
Proof.
  revert b acc. induction taints as [|t taints IH]; intros b acc; cbn [fold_left].
  - rewrite filter_nil, app_nil_r, bool_decide_false by (by intros ?%Exists_nil).
    by rewrite orb_false_r.
  - rewrite filter_cons. destruct (decide (taint_Key t = key)) as [E|E].
    + rewrite IH, decide_False by tauto.
      rewrite (bool_decide_true (Exists _ (t :: taints))) by (by left). by rewrite orb_true_r.
    + rewrite IH, decide_True, <-app_assoc by done. f_equal. f_equal.
      apply bool_decide_ext. rewrite Exists_cons. tauto.
Qed.

Lemma split_taints_spec key taints :
  split_taints key taints =
  (bool_decide (Exists (λ t, taint_Key t = key) taints), filter (λ t, taint_Key t ≠ key) taints).
Proof. unfold split_taints. by rewrite split_taints_acc. Qed.

(** C29. Removing the taint.  When removal is enabled and was not done, and the node
    can be read: a node without the taint is not updated; otherwise the node is
    written back with every taint of that key removed and all others kept in
    order, and the remover notes that it is done exactly when the update
    succeeded. *)
Theorem remove_node_taint_spec {FS API PT : Type} `{!KubeClient API}
    (c : RuntimeConfig) (w : World FS API PT) node w1 :
  let key := ProvisionerNotReadyNodeTaintKey (rc_User c) in
  RemoveNodeNotReadyTaint (rc_User c) = true → w_taintRemoved w = false →
  GetNode (node_Name (uc_Node (rc_User c))) w = Done node w1 →
  if decide (Exists (λ t, taint_Key t = key) (node_Taints node)) then
    let '(err, api) := api_UpdateNode {| node_meta := node_meta node;
      node_Taints := filter (λ t, taint_Key t ≠ key) (node_Taints node) |} (w_api w1) in
    RemoveNodeTaint c w = Done err (set_taintRemoved (no_error err) (set_api api w1))
  else RemoveNodeTaint c w = Done None w1.
Proof.
  intros key Hen Hrem Hget. subst key.
  assert (w_taintRemoved w1 = false) as Hrem1.
  { assert (preserves (same w_taintRemoved) (GetNode (FS := FS) (PT := PT)
      (node_Name (uc_Node (rc_User c))))) as Hp.
    { unfold GetNode. induction maxGetNodesRetries; simpl; solve_frame. done. }
    specialize (Hp w). rewrite Hget in Hp. unfold same in Hp. simpl in Hp. congruence. }
  unfold RemoveNodeTaint, mbind, M_bind, gets, call_api. rewrite Hrem, Hen. simpl.
  rewrite Hget, split_taints_spec.
  destruct (decide _) as [He|He]; [rewrite bool_decide_true by done|by rewrite bool_decide_false].
  simpl. destruct (api_UpdateNode _ _) as [[err|] api]; [|done].
  unfold mret, M_ret. f_equal. destruct w1; simpl in *. by subst.
Qed.

(** ** Witness *)
Definition tainted_node : Node := {|
  node_meta := named "test-node";
  node_Taints := [{| taint_Key := "not-ready"; taint_Value := ""; taint_Effect := "NoSchedule" |};
                  {| taint_Key := "other"; taint_Value := ""; taint_Effect := "NoSchedule" |}] |}.

Definition taint_runtime : RuntimeConfig := {|
  rc_User := {|
    uc_Node := tainted_node; DiscoveryMap := None; NodeLabelsForPV := None; UseAlphaAPI := false;
    UseJobForCleaning := false; Namespace := ""; JobContainerImage := ""; JobTolerations := None;
    MinResyncPeriod := 0; UseNodeNameOnly := false; LabelsForPV := None; SetPVOwnerRef := false;
    RemoveNodeNotReadyTaint := true; ProvisionerNotReadyNodeTaintKey := "not-ready" |};
  rc_Name := ""; rc_goos := "linux"; rc_hasJobController := false; rc_time_Format := λ _, "";
  rc_time_Parse := λ _, None |}.

Definition tainted_world : World () MemServer ProcTableImpl.ProcTableImpl := {|
  w_cache := ∅; w_proc := ProcTableImpl.NewProcTable;
  w_jobLister := λ _ name, Err (mem_not_found name);
  w_classLister := λ name, Err (mem_not_found name);
  w_api := {| mem_pvs := ∅; mem_jobs := ∅; mem_nodes := {["test-node" := tainted_node]};
              mem_pvcs := ∅; mem_down := false |};
  w_fs := (); w_mounts := Ok []; w_events := []; w_metrics := no_metrics; w_tasks := [];
  w_ready := true; w_taintRemoved := false; w_now := 0 |}.

Lemma remove_node_taint_spec_witness :
  ∃ w', RemoveNodeTaint taint_runtime tainted_world = Done None w' ∧
    node_Taints <$> mem_nodes (w_api w') !! "test-node" =
    Some [{| taint_Key := "other"; taint_Value := ""; taint_Effect := "NoSchedule" |}].
Proof.
  pose proof (remove_node_taint_spec taint_runtime tainted_world tainted_node tainted_world
    eq_refl eq_refl eq_refl) as H.
  rewrite decide_True in H by (by left). eexists. split; [exact H|]. vm_compute. reflexivity.
Defined.
