(* ===== verification/Controller.v ===== *)
(** * Controller: the sync loop, [pkg/controller]

    [StartLocalController] builds the parts and runs the loop; [RunLocalController]
    restarts it when the configuration changes.  The loop, the informer's handlers
    and the cleanup goroutines run concurrently: [sys_step] is one step of any of
    them on the shared state, [System], where the loop advances volume by volume
    and class by class, a goroutine takes its effect in one step, and the rest of
    the cluster may change at any time. *)
From S2P Require Import Prelude GoLib FilePath K8s VolumeUtil Common Cache Metrics ProcTable.
From S2P Require Import Runtime Populator WorkQueue JobController Deleter Discovery NodeTaint.

(** ** Starting the controller *)
Definition provisionerName (config : UserConfig) : string :=
  let m := node_meta (uc_Node config) in
  if UseNodeNameOnly config then "local-volume-provisioner-" +:+ om_Name m
  else "local-volume-provisioner-" +:+ om_Name m +:+ "-" +:+ om_UID m.

(** What the process finds at start: the platform, the outcome of the
    constructors it calls, the JSON codec and the clock's text format. *)
Record Env := {
  env_goos : string;
  env_NewVolumeUtil : option error;
  env_NewJobController : option error;
  env_informers_synced : bool;
  env_Marshal : NodeAffinity → result string;
  env_time_Format : Z → string;
  env_time_Parse : string → option Z }.

Section controller.
Context {FS API PT : Type}.
Context `{!VolumeUtil FS, !Exec FS, !KubeClient API, !ProcTable PT}.
Abbreviation W := (World FS API PT).
Context (env : Env).

Definition runtimeConfig (config : UserConfig) : RuntimeConfig := {|
  rc_User := config; rc_Name := provisionerName config; rc_goos := env_goos env;
  rc_hasJobController := UseJobForCleaning config;
  rc_time_Format := env_time_Format env; rc_time_Parse := env_time_Parse env |}.

(** The patterns registered with [http.DefaultServeMux] and the shared state. *)
Abbreviation Process := (gset string * W)%type.

(** [ServeMux.Handle] panics on a pattern that is registered already. *)
Definition mux_Handle (pattern : string) : M Process () := λ '(mux, w),
  if decide (pattern ∈ mux)
  then Crash (Panicked "http: multiple registrations") (mux, w)
  else Done () ({[pattern]} ∪ mux, w).

(** [healthz.InstallPathHandler]. *)
Definition InstallPathHandler (path : string) (checks : list string) : M Process () :=
  _ ← mux_Handle path;
  forM checks () (λ _ check, mux_Handle (path +:+ "/" +:+ check)).

Definition update_world (f : W → W) : M Process () := modify (λ '(mux, w), (mux, f w)).

(** [StartLocalController] up to its loop. *)
Definition init_controller (config : UserConfig) : M Process Discoverer :=
  match env_NewVolumeUtil env with
  | Some _ => panic (Fatal "Error initializing VolumeUtil")
  | None =>
      let rc := runtimeConfig config in
      _ ← update_world (upd_cache (λ _, VolumeCache.NewVolumeCache));
      _ ← (if UseJobForCleaning config
           then match env_NewJobController env with
                | Some _ => panic (Fatal "Error initializing jobController")
                | None => mret ()
                end
           else mret ());
      match NewDiscoverer rc with
      | Err _ => panic (Fatal "Error initializing discoverer")
      | Ok discoverer =>
          _ ← update_world (set_ready false);
          _ ← InstallPathHandler "/ready" ["DiscovererReadyzCheck"];
          if env_informers_synced env then
            _ ← update_world (set_taintRemoved false);
            mret discoverer
          else panic (Fatal "Error syncing informer")
      end
  end.

(** The last statement of the loop's body. *)
Definition taint_stage (d : Discoverer) : M W () :=
  should ← ShouldRemoveTaint (d_config d);
  if negb should then
    err ← readyz_Check;
    match err with
    | None => RemoveTaintWithBackoff (d_config d)
    | Some _ => mret ()
    end
  else mret ().

(** The loop's body, when nothing runs concurrently. *)
Definition sync_pass (order : gmap string PersistentVolume → list PersistentVolume)
    (class_order : gmap string MountConfig → list (string * MountConfig))
    (d : Discoverer) : M W () :=
  _ ← DeletePVs (d_config d) order;
  _ ← DiscoverLocalVolumes (env_Marshal env) d class_order;
  taint_stage d.

(** ** The concurrent system *)

(** Where the loop is: at the [select], or in one of the parts of a pass. *)
Inductive phase :=
| Selecting
| Deleting (pvs : list PersistentVolume)
| Discovering (classes : list (string * MountConfig)) (readyz : bool)
| Tainting.

Record System := {
  sy_mux : gset string;
  sy_world : W;
  sy_disc : Discoverer;
  sy_phase : phase }.

Definition at_phase (s : System) (w : W) (p : phase) : System :=
  {| sy_mux := sy_mux s; sy_world := w; sy_disc := sy_disc s; sy_phase := p |}.

(** A change made by the rest of the cluster or of the node. *)
Record env_change (w w' : W) : Prop := {
  env_same_cache : w_cache w' = w_cache w;
  env_same_proc : w_proc w' = w_proc w;
  env_same_tasks : w_tasks w' = w_tasks w;
  env_same_ready : w_ready w' = w_ready w;
  env_same_taint : w_taintRemoved w' = w_taintRemoved w }.

(** A step of the loop itself. *)
Inductive loop_step (d : Discoverer) : W → phase → W → phase → Prop :=
| step_list w l :
    VolumeCache.cache_order (w_cache w) l → loop_step d w Selecting w (Deleting l)
| step_reclaim w pv l w' :
    reclaimVolume (d_config d) pv w = Done () w' →
    loop_step d w (Deleting (pv :: l)) w' (Deleting l)
| step_scan w l :
    l ≡ₚ map_to_list (default ∅ (DiscoveryMap (rc_User (d_config d)))) →
    loop_step d w (Deleting []) w (Discovering l true)
| step_discover w class config l readyz err w' :
    discoverVolumesAtPath (env_Marshal env) d class config w = Done err w' →
    loop_step d w (Discovering ((class, config) :: l) readyz)
      w' (Discovering l (if no_error err then readyz else false))
| step_ready w readyz :
    loop_step d w (Discovering [] readyz) (set_ready readyz w) Tainting
| step_taint w w' :
    taint_stage d w = Done () w' → loop_step d w Tainting w' Selecting.

(** A cleanup goroutine runs, or others change what the process works on. *)
Inductive process_step (w : W) : W → Prop :=
| step_goroutine ts1 t ts2 w' :
    w_tasks w = (ts1 ++ t :: ts2)%list →
    asyncCleanPV t (set_tasks (ts1 ++ ts2)%list w) = Done () w' → process_step w w'
| step_env w' : env_change w w' → process_step w w'.

(** The handlers of the controller's informer. *)
Definition informer_handler (c : RuntimeConfig)
    (f : gmap string PersistentVolume → gmap string PersistentVolume) : Prop :=
  (∃ obj, f = AddFunc c obj) ∨ (∃ old obj, f = UpdateFunc c old obj) ∨ (∃ obj, f = DeleteFunc obj).

Inductive sys_step (s : System) : System → Prop :=
| step_loop w p :
    loop_step (sy_disc s) (sy_world s) (sy_phase s) w p → sys_step s (at_phase s w p)
| step_informer f :
    informer_handler (d_config (sy_disc s)) f →
    sys_step s (at_phase s (upd_cache f (sy_world s)) (sy_phase s))
| step_process w :
    process_step (sy_world s) w → sys_step s (at_phase s w (sy_phase s))
| step_restart config mux w d :
    sy_phase s = Selecting →
    init_controller config (sy_mux s, sy_world s) = Done d (mux, w) →
    sys_step s {| sy_mux := mux; sy_world := w; sy_disc := d; sy_phase := Selecting |}.

(** A process that has just started its first controller. *)
Definition started (config : UserConfig) (s : System) : Prop :=
  ∃ mux w, init_controller config (mux, w) = Done (sy_disc s) (sy_mux s, sy_world s) ∧
    w_tasks w = [] ∧ sy_phase s = Selecting.
End controller.

(** ** The invariant *)
Section system_invariant.
Context {FS API PT : Type}.
Context `{!VolumeUtil FS, !Exec FS, !KubeClient API, !ProcTable PT}.
Context `{!KubeClientLaws API, !ProcTableLaws PT}.
Abbreviation W := (World FS API PT).
Abbreviation Process := (gset string * W)%type.
Context (env : Env).

Definition task_name (t : CleanTask) : string := pv_Name (ct_pv t).

Definition running (name : string) (p : gmap string ProcEntry) : Prop :=
  ∃ e, p !! name = Some e ∧ Status e = CSRunning.

(** A cleanup that should be done: of a released volume with policy Delete, with the
    configuration of its class and at the path that its host path has in the container. *)
Definition legitimate (c : RuntimeConfig) (t : CleanTask) : Prop :=
  reclaimable (ct_pv t) ∧
  map_get (DiscoveryMap (rc_User c)) (pvs_StorageClassName (pv_Spec (ct_pv t))) =
    Some (ct_config t) ∧
  GetContainerPath (ct_pv t) (ct_config t) () = Done (Ok (ct_mountPath t)) ().

(** Goroutines and entries that are running correspond one to one; goroutines do
    what they should and cannot panic. *)
Record tasks_inv (c : RuntimeConfig) (p : gmap string ProcEntry) (ts : list CleanTask) : Prop := {
  inv_nodup : NoDup (task_name <$> ts);
  inv_running : ∀ name, name ∈ (task_name <$> ts) ↔ running name p;
  inv_runnable : Forall runnable ts;
  inv_legitimate : Forall (legitimate c) ts }.

Record sys_inv (s : System (FS := FS) (API := API) (PT := PT)) : Prop := {
  inv_tasks : tasks_inv (d_config (sy_disc s)) (entries (sy_world s)) (w_tasks (sy_world s));
  inv_keyed : VolumeCache.keyed (w_cache (sy_world s));
  inv_jobs : job_controller_present (d_config (sy_disc s));
  inv_mux : "/ready" ∈ sy_mux s;
  inv_phase : match sy_phase s with
    | Discovering l _ => ∀ class config, (class, config) ∈ l →
        map_get (DiscoveryMap (rc_User (d_config (sy_disc s)))) class = Some config
    | _ => True
    end }.

Lemma idle_running name (w : W) : idle name w → ¬ running name (entries w).
Proof. unfold idle. intros Hi (e&He&Hst). by rewrite He in Hi. Qed.

(** Entries that are not running may come and go. *)
Lemma tasks_inv_delete c name (w : W) ts :
  tasks_inv c (entries w) ts → idle name w → tasks_inv c (delete name (entries w)) ts.
Proof.
  intros [Hn Hr Hu Hg] Hi. split; [done| |done..]. intros q. rewrite Hr. unfold running.
  destruct (decide (q = name)) as [-> |Hq].
  - apply idle_running in Hi. rewrite lookup_delete_eq.
    split; [intros H; by destruct (Hi H)|by intros (?&?&_)].
  - by rewrite lookup_delete_ne.
Qed.

Lemma tasks_inv_start c t (w : W) ts now :
  tasks_inv c (entries w) ts → idle (task_name t) w → runnable t → legitimate c t →
  tasks_inv c (<[task_name t := {| StartTime := now; Status := CSRunning |}]> (entries w)) (ts ++ [t]).
Proof.
  intros [Hn Hr Hu Hg] Hi Ht Hl. apply idle_running in Hi. rewrite <-Hr in Hi. split.
  - rewrite fmap_app. apply NoDup_app. split_and!; [done| |apply NoDup_singleton].
    intros q Hq ->%list_elem_of_singleton. done.
  - intros q. rewrite fmap_app, elem_of_app, Hr. simpl. rewrite list_elem_of_singleton. unfold running.
    destruct (decide (q = task_name t)) as [-> |Hq].
    + rewrite lookup_insert_eq. split; [intros _; by eexists|by right].
    + rewrite lookup_insert_ne by done. split; [by intros [?|?]|by left].
  - apply Forall_app. by rewrite Forall_singleton.
  - apply Forall_app. by rewrite Forall_singleton.
Qed.

Lemma legitimate_task c pv (w : W) t : reclaimable pv → task_of c pv w t → legitimate c t.
Proof.
  intros Hr (<-&_&Hc&Hp). split_and!; [done|done|]. revert Hp. unfold GetContainerPath.
  destruct (pvs_Local _) as [lvs|]; [|done]. destruct (Rel _ _); [|done]. by intros [= <-].
Qed.

Lemma tasks_inv_effect c pv (w : W) p o ts :
  effect c pv w p o ts → tasks_inv c (entries w) (w_tasks w) → tasks_inv c p ts.
Proof.
  intros [| |t Hrec Hi Ht|p' _ _ [-> |[? ->]]] Hinv;
    [done|by apply tasks_inv_delete| |done|by apply tasks_inv_delete].
  assert (legitimate c t) as Hl by (by eapply legitimate_task).
  destruct Ht as [<- _]. by apply tasks_inv_start.
Qed.

(** A step of the deleter that returns has one of the described effects, also for
    volumes that may make it crash. *)
Lemma reclaimVolume_done c pv (w w' : W) :
  job_controller_present c → reclaimVolume c pv w = Done () w' →
  ∃ p o ts, becomes w p o ts w' ∧ effect c pv w p o ts.
Proof.
  intros Hj Hrun.
  destruct (decide (pvs_Local (pv_Spec pv) = None)) as [Hl|Hl];
  [destruct (map_get (DiscoveryMap (rc_User c)) (pvs_StorageClassName (pv_Spec pv))) as [cfg|] eqn:Hc|].
  - assert (becomes w (entries w) (objects w) (w_tasks w) w') as Hb.
    { revert Hrun. unfold reclaimVolume, deletePV. rewrite Hl.
      destruct (decide _); [intros [= <-]; apply becomes_refl|].
      destruct (om_DeletionTimestamp _); [intros [= <-]; apply becomes_refl|].
      destruct (decide _); [intros [= <-]; apply becomes_refl|].
      destruct (decide _); [intros [= <-]; by constructor|].
      destruct (decide _); [|intros [= <-]; by constructor].
      unfold report_failure, getVolMode, GetContainerPath. unfold_monad. by rewrite Hc, Hl. }
    do 3 eexists. split; [done|apply eff_none].
  - destruct (reclaimVolume_effect c pv w) as (r&w1&p&o&ts&E&?&?); [by right|done|].
    rewrite Hrun in E. injection E as <- <-. eauto.
  - destruct (reclaimVolume_effect c pv w) as (r&w1&p&o&ts&E&?&?); [by left|done|].
    rewrite Hrun in E. injection E as <- <-. eauto.
Qed.

Lemma tasks_inv_discovers d (w w' : W) :
  discovers d w w' → tasks_inv (d_config d) (entries w) (w_tasks w) →
  tasks_inv (d_config d) (entries w') (w_tasks w').
Proof.
  intros Hd [Hn Hr Hu Hg]. rewrite (dis_tasks _ _ _ Hd). split; [done| |done..]. intros q. rewrite Hr.
  split; intros (e&He&Hst); exists e; (split; [|done]).
  - by apply (dis_running _ _ _ Hd).
  - by apply (lookup_weaken _ _ _ _ He), (dis_entries _ _ _ Hd).
Qed.

(** The end of a goroutine. *)
Lemma tasks_inv_end c ts1 t ts2 (w w' : W) :
  tasks_inv c (entries w) (ts1 ++ t :: ts2) →
  asyncCleanPV t (set_tasks (ts1 ++ ts2) w) = Done () w' →
  tasks_inv c (entries w') (w_tasks w') ∧ w_cache w' = w_cache w.
Proof.
  intros [Hn Hr Hu Hg] Hrun. assert (runnable t) as Ht
    by (rewrite Forall_forall in Hu; apply Hu; set_solver).
  destruct (asyncCleanPV_run t (set_tasks (ts1 ++ ts2) w) Ht) as (err&w1&E&Hend&_).
  rewrite Hrun in E. injection E as <-. destruct Hend as [He _ _ Hts Hc _ _ _ _].
  rewrite He, Hts. split; [|done]. simpl.
  change (entries (set_tasks (ts1 ++ ts2) w)) with (entries w).
  assert (running (task_name t) (entries w)) as (e&Hent&_)
    by (apply Hr; rewrite fmap_app; set_solver).
  unfold Abstract.MarkDone. fold (task_name t). rewrite Hent. simpl.
  rewrite fmap_app, fmap_cons in Hn.
  assert ((task_name t ∉ (task_name <$> (ts1 ++ ts2)%list)) ∧ NoDup (task_name <$> (ts1 ++ ts2)%list))
    as [Hnt Hn'].
  { rewrite fmap_app. apply NoDup_cons. by rewrite Permutation_middle. }
  split; [done| | |].
  - intros q. unfold running. destruct (decide (q = task_name t)) as [-> |Hq].
    + rewrite lookup_insert_eq. split; [done|]. intros (e'&[= <-]&Hst). by destruct err.
    + rewrite lookup_insert_ne by done. rewrite <-(Hr q). rewrite !fmap_app, !elem_of_app, fmap_cons.
      rewrite elem_of_cons. tauto.
  - apply Forall_app in Hu as [? [_ ?]%Forall_cons]. by apply Forall_app.
  - apply Forall_app in Hg as [? [_ ?]%Forall_cons]. by apply Forall_app.
Qed.

(** Starting a controller: what it changes, and that the handler is registered. *)
Lemma init_controller_done config mux (w : W) d mux' w' :
  init_controller env config (mux, w) = Done d (mux', w') →
  d_config d = runtimeConfig env config ∧ ("/ready" ∉ mux) ∧ "/ready" ∈ mux' ∧
  w_tasks w' = w_tasks w ∧ w_proc w' = w_proc w ∧ w_api w' = w_api w ∧
  w_cache w' = VolumeCache.NewVolumeCache ∧ w_ready w' = false ∧ w_taintRemoved w' = false.
Proof.
  unfold init_controller, update_world, InstallPathHandler, mux_Handle. unfold_monad.
  destruct (env_NewVolumeUtil env); [done|].
  assert (∀ (k : Process → outcome Process Discoverer), (match
    (if UseJobForCleaning config then
       match env_NewJobController env with
       | Some _ => λ s, Crash (Fatal "Error initializing jobController") s
       | None => λ s, Done () s
       end else λ s, Done () s) (mux, upd_cache (λ _, VolumeCache.NewVolumeCache) w) with
    | Done _ s => k s | Crash e s => Crash e s end) = Done d (mux', w') →
    k (mux, upd_cache (λ _, VolumeCache.NewVolumeCache) w) = Done d (mux', w')) as Hjob.
  { intros k. destruct (UseJobForCleaning config); [|done]. by destruct (env_NewJobController env). }
  intros Hrun. apply Hjob in Hrun. clear Hjob.
  destruct (NewDiscoverer _) as [d'|] eqn:Hd; [|done].
  destruct (decide ("/ready" ∈ mux)); [done|]. simpl in Hrun.
  unfold mbind, M_bind, mret, M_ret in Hrun.
  destruct (decide (("/ready" +:+ "/" +:+ "DiscovererReadyzCheck") ∈ ({["/ready"]} ∪ mux)));
    [done|]. destruct (env_informers_synced env); [|done].
  injection Hrun as <- <- <-.
  assert (d_config d' = runtimeConfig env config) as Hcfg.
  { unfold NewDiscoverer in Hd. destruct (generateOwnerReference _); [|done].
    destruct (generateNodeSelector _); [|done]. by injection Hd as <-. }
  split_and!; [done|done|set_solver|done..].
Qed.

Lemma runtimeConfig_jobs config : job_controller_present (runtimeConfig env config).
Proof. by intros H. Qed.

(** [RemoveTaintWithBackoff] does nothing when there is nothing to remove. *)
Lemma taint_stage_idle d (w : W) : taint_stage d w = Done () w.
Proof.
  unfold taint_stage, RemoveTaintWithBackoff, remove_taint_loop, ShouldRemoveTaint, readyz_Check.
  unfold_monad. destruct (negb (w_taintRemoved w) && _) eqn:E; [done|]. simpl.
  destruct (w_ready w); [|done]. simpl. by rewrite E.
Qed.

Lemma keyed_informer c f m :
  informer_handler c f →
  VolumeCache.keyed m → VolumeCache.keyed (f m).
Proof.
  assert (∀ pv, VolumeCache.keyed m → VolumeCache.keyed (handlePVUpdate c pv m)) as Hupd.
  { intros pv Hk. rewrite handlePVUpdate_spec. case_match; [|done]. by apply map_Forall_insert_2. }
  intros [(obj&->)|[(old&obj&->)|(obj&->)]] Hk.
  - destruct obj; simpl; auto.
  - destruct obj; simpl; auto.
  - destruct obj as [pv|[pv| |]|]; simpl; try done; rewrite handlePVDelete_spec;
      by apply map_Forall_delete.
Qed.

Lemma sys_inv_loop s w p :
  sys_inv s → loop_step env (sy_disc s) (sy_world s) (sy_phase s) w p → sys_inv (at_phase s w p).
Proof.
  intros [Ht Hk Hj Hm Hp] Hstep. inversion Hstep as
    [? l|? pv l ? Hrun E1 E2|? l Hl|? class config l readyz err ? Hrun E1 E2|? readyz|? ? Hrun];
    subst; try (by split).
  - destruct (reclaimVolume_done _ _ _ _ Hj Hrun) as (p&o&ts&[F1 F2 F3 F4]&He).
    split; simpl; [|by rewrite F4|done..]. rewrite F1, F3. by eapply tasks_inv_effect.
  - split; simpl; [done..|]. intros class config. rewrite Hl, elem_of_map_to_list.
    unfold map_get. by destruct (DiscoveryMap _).
  - rewrite <-E2 in Hp.
    destruct (discoverVolumesAtPath_run (env_Marshal env) (sy_disc s) class config Hj
      (Hp class config ltac:(left)) (sy_world s)) as (err'&w'&E&Hd).
    rewrite Hrun in E. injection E as <- <-. split; simpl; [|by rewrite (dis_cache _ _ _ Hd)|done..|].
    + by eapply tasks_inv_discovers.
    + intros class' config' Hin. apply Hp. by right.
  - rewrite taint_stage_idle in Hrun. injection Hrun as <-. by split.
Qed.

Lemma sys_inv_step s s' : sys_inv s → sys_step env s s' → sys_inv s'.
Proof.
  intros Hinv Hstep. pose proof Hinv as [Ht Hk Hj Hm Hp].
  destruct Hstep as [w p Hl|f Hf|w [ts1 t ts2 w' Hts Hrun|w' Henv]|config mux w d _ Hrun].
  - by apply sys_inv_loop.
  - split; try done. simpl. by eapply keyed_informer.
  - rewrite Hts in Ht. destruct (tasks_inv_end _ _ _ _ _ _ Ht Hrun) as [? Hc].
    split; simpl; [done|by rewrite Hc|done..].
  - destruct Henv as [E1 E2 E3]. split; simpl; unfold entries; rewrite ?E1, ?E2, ?E3; done.
  - by apply init_controller_done in Hrun as (_&?&_).
Qed.

Lemma sys_inv_reachable s s' : sys_inv s → rtc (sys_step env) s s' → sys_inv s'.
Proof. intros Hs. apply rtc_invariant; [done|]. apply sys_inv_step. Qed.

Lemma sys_inv_started config s :
  started env config s → entries (sy_world s) = ∅ → sys_inv s.
Proof.
  intros (mux&w&Hinit&Hts&Hph) He.
  apply init_controller_done in Hinit as (Hd&_&Hmux&E3&_&_&E1&_&_).
  split; [|by rewrite E1; apply VolumeCache.keyed_New|by rewrite Hd; apply runtimeConfig_jobs|done|
    by rewrite Hph].
  rewrite E3, Hts, He. split; [apply NoDup_nil_2| |done..]. intros name. simpl.
  split; [by intros ?%not_elem_of_nil|]. by intros (e&?&_).
Qed.
End system_invariant.

(** Cleanups of a volume never overlap.  In every state that a started
    provisioner can reach, whatever the interleaving of the sync loop, the
    informer, the goroutines, restarts and changes made by others: at most one
    goroutine cleans a volume, the volumes being cleaned are exactly those whose
    entry says running, and no goroutine can panic. *)
Theorem concurrent_cleanups_exclusive {FS API PT : Type}
    `{!VolumeUtil FS, !Exec FS, !KubeClient API, !ProcTable PT}
    `{!KubeClientLaws API, !ProcTableLaws PT}
    (env : Env) config (s s' : System (FS := FS) (API := API) (PT := PT)) :
  started env config s → entries (sy_world s) = ∅ → rtc (sys_step env) s s' →
  let ts := w_tasks (sy_world s') in
  NoDup (task_name <$> ts) ∧
  (∀ name, name ∈ (task_name <$> ts) ↔ running name (entries (sy_world s'))) ∧
  Forall (λ t, ∀ w : World FS API PT, ∃ w', asyncCleanPV t w = Done () w') ts.
Proof.
  intros Hs He Hr ts. destruct (sys_inv_reachable env s s') as [[Hn Hrun Hu _] _ _ _ _];
    [by eapply sys_inv_started|done|]. split_and!; [done|done|].
  eapply Forall_impl; [exact Hu|]. intros t Ht w.
  destruct (asyncCleanPV_run t w Ht) as (err&w'&?&_). eauto.
Qed.

(** C4. No volume is offered while it is being cleaned.  In every reachable state,
    with process-based cleaning, a step of the discoverer creates no object whose
    name a cleanup goroutine is working on. *)
Theorem no_creation_during_cleanup {FS API PT : Type}
    `{!VolumeUtil FS, !Exec FS, !KubeClient API, !ProcTable PT}
    `{!KubeClientLaws API, !ProcTableLaws PT}
    (env : Env) config (s s1 : System (FS := FS) (API := API) (PT := PT)) class mount l readyz err w name :
  started env config s → entries (sy_world s) = ∅ → rtc (sys_step env) s s1 →
  UseJobForCleaning (rc_User (d_config (sy_disc s1))) = false →
  sy_phase s1 = Discovering ((class, mount) :: l) readyz →
  discoverVolumesAtPath (env_Marshal env) (sy_disc s1) class mount (sy_world s1) = Done err w →
  objects (sy_world s1) !! name = None → is_Some (objects w !! name) →
  name ∉ (task_name <$> w_tasks (sy_world s1)).
Proof.
  intros Hs He Hr Huse Hph Hrun Hnone [pv Hpv].
  destruct (sys_inv_reachable env s s1) as [[_ Hrunning _ _] _ Hj _ Hp];
    [by eapply sys_inv_started|done|]. rewrite Hph in Hp.
  destruct (discoverVolumesAtPath_run (env_Marshal env) (sy_disc s1) class mount Hj
    (Hp class mount ltac:(left)) (sy_world s1)) as (err'&w'&E&Hd).
  rewrite Hrun in E. injection E as <- <-. rewrite Hrunning.
  destruct (dis_new _ _ _ Hd name pv Hnone Hpv) as (file&class'&config'&Hdis&Hprov&<-).
  destruct (disc_idle _ _ _ _ _ Hdis) as (mode&_&Hidle).
  unfold not_cleaning, shouldRunJob in Hidle. rewrite Huse, andb_false_r in Hidle.
  rewrite (prov_name _ _ _ _ _ Hprov). by apply idle_running.
Qed.

(** C32. The not-ready taint is never removed by the sync loop: its condition asks
    for [!ShouldRemoveTaint()], and then the removal has nothing to do.  The last
    part of the loop's body changes nothing, in any state and configuration. *)
Theorem sync_loop_never_removes_taint {FS API PT : Type} `{!KubeClient API}
    (d : Discoverer) (w : World FS API PT) :
  taint_stage d w = Done () w.
Proof. apply taint_stage_idle. Qed.

(** C33. A changed configuration stops the process.  [RunLocalController] starts a
    second controller in the same process, whose registration of the readiness
    handler panics: in every reachable state a restart fails to start, and when
    everything else succeeds it is this panic. *)
Theorem restart_panics {FS API PT : Type}
    `{!VolumeUtil FS, !Exec FS, !KubeClient API, !ProcTable PT}
    `{!KubeClientLaws API, !ProcTableLaws PT}
    (env : Env) config (s s' : System (FS := FS) (API := API) (PT := PT)) new_config :
  started env config s → entries (sy_world s) = ∅ → rtc (sys_step env) s s' →
  ∃ e p, init_controller env new_config (sy_mux s', sy_world s') = Crash e p ∧
    (env_NewVolumeUtil env = None → env_NewJobController env = None →
     is_ok (NewDiscoverer (runtimeConfig env new_config)) = true →
     e = Panicked "http: multiple registrations").
Proof.
  intros Hs He Hr. destruct (sys_inv_reachable env s s') as [_ _ _ Hm _];
    [by eapply sys_inv_started|done|].
  destruct (init_controller env new_config (sy_mux s', sy_world s')) as [d [mux w]|e p] eqn:E.
  { apply init_controller_done in E as (_&?&_). done. }
  do 2 eexists. split; [done|]. intros H1 H2 H3. revert E.
  unfold init_controller, update_world, InstallPathHandler, mux_Handle. unfold_monad.
  rewrite H1, H2. destruct (NewDiscoverer _); [|done].
  destruct (UseJobForCleaning new_config); simpl; rewrite decide_True by done; by intros [= <- _].
Qed.

(** ** Witnesses *)
Definition example_env : Env := {|
  env_goos := "linux"; env_NewVolumeUtil := None; env_NewJobController := None;
  env_informers_synced := true; env_Marshal := example_marshal;
  env_time_Format := format_d; env_time_Parse := λ _, None |}.

Definition example_start : outcome (gset string * World _ _ _) Discoverer :=
  init_controller example_env single_class_user (∅, example_initial).

Definition example_system : System (FS := Fake.FakeVolumeUtil) (API := MemServer)
    (PT := ProcTableImpl.ProcTableImpl) := {|
  sy_mux := fst (final example_start); sy_world := snd (final example_start);
  sy_disc := match example_start with Done d _ => d | Crash _ _ => example_discoverer end;
  sy_phase := Selecting |}.

Lemma example_started : started example_env single_class_user example_system.
Proof. exists ∅, example_initial. split_and!; vm_compute; reflexivity. Qed.

Lemma concurrent_cleanups_exclusive_witness :
  NoDup (task_name <$> w_tasks (sy_world example_system)).
Proof.
  apply (concurrent_cleanups_exclusive example_env single_class_user example_system example_system
    example_started); [reflexivity|apply rtc_refl].
Defined.

(** The state in which the only class is about to be scanned. *)
Definition example_scanning : System (FS := Fake.FakeVolumeUtil) (API := MemServer)
    (PT := ProcTableImpl.ProcTableImpl) :=
  at_phase example_system (sy_world example_system)
    (Discovering [("sc1", example_mount "dir1" "Filesystem")] true).

Lemma example_scanning_reachable : rtc (sys_step example_env) example_system example_scanning.
Proof.
  eapply rtc_l; [apply (step_loop example_env example_system), (step_list _ _ _ []), cache_order_refl|].
  eapply rtc_once.
  apply (step_loop example_env (at_phase example_system (sy_world example_system) (Deleting []))).
  apply step_scan. vm_compute. reflexivity.
Qed.

Lemma no_creation_during_cleanup_witness :
  "local-pv-aaaafef5" ∉ (task_name <$> w_tasks (sy_world example_scanning)).
Proof.
  destruct (discoverVolumesAtPath (env_Marshal example_env) (sy_disc example_scanning) "sc1"
    (example_mount "dir1" "Filesystem") (sy_world example_scanning)) as [err w|] eqn:E;
    [|vm_compute in E; discriminate].
  apply (no_creation_during_cleanup example_env single_class_user example_system example_scanning
    "sc1" (example_mount "dir1" "Filesystem") [] true err w "local-pv-aaaafef5" example_started);
    [reflexivity|apply example_scanning_reachable|reflexivity|reflexivity|exact E|reflexivity|].
  vm_compute in E. injection E as _ <-. vm_compute. by eexists.
Defined.

Lemma restart_panics_witness :
  ∃ p, init_controller example_env single_class_user
         (sy_mux example_system, sy_world example_system) =
       Crash (Panicked "http: multiple registrations") p.
Proof.
  destruct (restart_panics example_env single_class_user example_system example_system
    single_class_user example_started) as (e&p&E&He); [reflexivity|apply rtc_refl|].
  exists p. rewrite E. rewrite He; reflexivity.
Defined.
