(* ===== verification/Timeline.v ===== *)
(** * Timeline: an object, the events under way, and what an observer has seen of it

    An API server changes objects one by one; an informer delivers the changes to an
    observer later, in order, and may leave out changes that another one followed.  An
    object may get into a final state, in which it stays until it is deleted (a volume that
    is released, a job that has succeeded); the observer acts when it sees this.
    [timeline] is the invariant under which the observer, however late, acts on the
    incarnation of the object that is final, and not on a later one of the same name. *)
From S2P Require Import Prelude.

Inductive event (A : Type) := EvSet (x : A) | EvDel.
Arguments EvSet {A} x.
Arguments EvDel {A}.

(** ** Cutting lists *)
(** A list that ends with [e] is cut at or before it. *)
Lemma snoc_middle {A} (l : list A) e l1 x l2 :
  l ++ [e] = l1 ++ x :: l2 →
  (l2 = [] ∧ l1 = l ∧ x = e) ∨ ∃ l2', l2 = l2' ++ [e] ∧ l = l1 ++ x :: l2'.
Proof.
  destruct l2 as [|y l2 _] using rev_ind.
  - intros [-> [= ->]]%app_inj_tail. by left.
  - rewrite app_comm_cons, app_assoc. intros [-> ->]%app_inj_tail. right. eauto.
Qed.

(** Where a concatenation is cut. *)
Lemma drop_middle {A} (l1 l2 k1 k2 : list A) (x : A) :
  l1 ++ l2 = k1 ++ x :: k2 →
  (∃ k, l1 = k1 ++ x :: k ∧ k2 = k ++ l2) ∨ (∃ k, l2 = k ++ x :: k2 ∧ k1 = l1 ++ k).
Proof.
  revert k1. induction l1 as [|y l1 IH]; intros k1 E; [right; by exists k1|].
  destruct k1 as [|z k1]; injection E as -> E.
  - left. exists l1. by subst.
  - destruct (IH k1 E) as [(k&->&->)|(k&->&->)]; [left|right]; by exists k.
Qed.

Section timelines.
Context {A : Type} (fin : A → Prop).

Definition final_event (e : event A) : Prop :=
  match e with EvSet x => fin x | EvDel => False end.

(** [last_life l o]: the events [l] keep an object final, and the last of them may
    delete it; the object is then [o]. *)
Definition last_life (l : list (event A)) (o : option A) : Prop :=
  (Forall final_event l ∧ ∃ x, o = Some x ∧ fin x) ∨
  (∃ l', l = l' ++ [EvDel] ∧ Forall final_event l' ∧ o = None).

Definition no_final (l : list (event A)) : Prop := Forall (λ e, ¬ final_event e) l.

Definition seen_final (cached : option A) : Prop :=
  ∃ x, cached = Some x ∧ fin x.

(** What holds between the object as the observer has it, the events under way [l] and
    the object [o] on the server.  [hot]: the observer takes the object for a final one. *)
Record timeline (hot : Prop) (cached : option A) (l : list (event A))
    (o : option A) : Prop := {
  tl_hot : hot → seen_final cached ∧ last_life l o ∨ cached = None ∧ l = [] ∧ o = None;
  tl_final : ∀ l1 e l2, l = l1 ++ e :: l2 → final_event e → last_life l2 o;
  tl_deleted : ∀ l1 l2, l = l1 ++ EvDel :: l2 → o = None → no_final l2;
  tl_gone : cached = None → o = None → no_final l }.

Lemma last_life_set l x y :
  last_life l (Some x) → fin y → last_life (l ++ [EvSet y]) (Some y).
Proof.
  intros [[Hl _]|(?&_&_&?)] Hr; [|done]. left. split; [|eauto].
  apply Forall_app. by rewrite Forall_singleton.
Qed.

Lemma last_life_delete l x : last_life l (Some x) → last_life (l ++ [EvDel]) None.
Proof. intros [[Hl _]|(?&_&_&?)]; [|done]. right. eauto. Qed.

Lemma last_life_some l x : last_life l (Some x) → Forall final_event l ∧ fin x.
Proof. intros [[Hl (?&[= <-]&?)]|(?&_&_&?)]; done. Qed.

Section timeline.
Context (hot : Prop) (cached : option A) (l : list (event A)).

Lemma timeline_weaken (hot' : Prop) o :
  timeline hot cached l o → (hot' → hot) → timeline hot' cached l o.
Proof. intros [] ?. by split; auto. Qed.

(** The object is updated; a final one stays final. *)
Lemma timeline_set x y :
  timeline hot cached l (Some x) → (fin x → fin y) →
  timeline hot cached (l ++ [EvSet y]) (Some y).
Proof.
  intros [Hh Hr Hd Hg] Hkeep. split; [| |done..].
  - intros [[Hc Hl]|(_&_&?)]%Hh; [left|done]. split; [done|].
    eapply last_life_set; [done|]. by apply Hkeep, (last_life_some l).
  - intros l1 e l2 [(->&_&->)|(l2'&->&->)]%snoc_middle He.
    + left. split; [done|]. eauto.
    + specialize (Hr _ _ _ eq_refl He). eapply last_life_set; [done|].
      by apply Hkeep, (last_life_some l2').
Qed.

(** It is deleted: after the final state was seen, or when none is under way. *)
Lemma timeline_delete x :
  timeline hot cached l (Some x) →
  (seen_final cached ∧ last_life l (Some x) ∨ no_final l) →
  timeline hot cached (l ++ [EvDel]) None.
Proof.
  intros [Hh Hr Hd Hg] Hok. split.
  - intros [[Hc Hl]|(_&_&?)]%Hh; [left|done]. split; [done|]. by eapply last_life_delete.
  - intros l1 e l2 [(->&_&->)|(l2'&->&->)]%snoc_middle He; [done|].
    eapply last_life_delete. by eapply Hr.
  - intros l1 l2 [(->&_&_)|(l2'&->&->)]%snoc_middle _; [constructor|].
    apply Forall_app. split; [|by repeat constructor; intros []].
    destruct Hok as [[_ [Hl _]%last_life_some]|Hl].
    + apply Forall_app in Hl as [_ [[]]%Forall_cons].
    + by apply Forall_app in Hl as [_ [_ ?]%Forall_cons].
  - intros -> _. destruct Hok as [[(?&?&_) _]|Hl]; [done|].
    apply Forall_app. split; [done|]. repeat constructor. by intros [].
Qed.
End timeline.

(** An object that is not known is created anew. *)
Lemma timeline_create hot l x :
  timeline hot None l None → ¬ fin x →
  timeline False None (l ++ [EvSet x]) (Some x).
Proof.
  intros [_ Hr Hd Hg] Hpv. specialize (Hg eq_refl eq_refl). split; try done.
  intros l1 e l2 Hl He.
  assert (no_final (l ++ [EvSet x])) as Hno by (apply Forall_app; by repeat constructor).
  rewrite Hl in Hno. by apply Forall_app in Hno as [_ [? _]%Forall_cons].
Qed.

Section deliver.
Context (rest : Prop) (cached : option A) (l : list (event A))
  (o : option A).

Lemma timeline_tail (hot hot' : Prop) cached' e :
  timeline hot cached (e :: l) o →
  (hot' → seen_final cached' ∧ last_life l o ∨ cached' = None ∧ l = [] ∧ o = None) →
  (cached' = None → o = None → no_final l) → timeline hot' cached' l o.
Proof.
  intros [_ Hr Hd _] Hh Hg. split; [done| | |done].
  - intros l1 e' l2 ->. by apply (Hr (e :: l1)).
  - intros l1 l2 ->. by apply (Hd (e :: l1)).
Qed.

(** In the last life of an object only final states come before the deletion. *)
Lemma last_life_cons e : last_life (e :: l) o → (final_event e ∧ last_life l o) ∨ (e = EvDel ∧ l = [] ∧ o = None).
Proof.
  intros [[[? ?]%Forall_cons ?]|(l'&E&Hl&->)]; [left; split; [done|by left]|].
  destruct l' as [|e' l']; [injection E as -> ->; by right|injection E as <- ->; left].
  apply Forall_cons in Hl as [? ?]. split; [done|]. right. eauto.
Qed.

(** The informer delivers an update: the object is known then, or was not and is
    ignored. *)
Lemma timeline_deliver_set x cached' :
  timeline (seen_final cached ∨ rest) cached (EvSet x :: l) o →
  (cached' = Some x ∨ cached' = None ∧ cached = None) →
  timeline (seen_final cached' ∨ rest) cached' l o.
Proof.
  intros Ht Hc. pose proof Ht as [Hh Hr _ Hg]. apply (timeline_tail _ _ _ _ Ht).
  - intros Hhot. assert (fin x ∧ cached' = Some x) as [Hpv ->].
    { destruct Hhot as [(?&->&?)|Hrest]; [destruct Hc as [|[? _]]; simplify_eq; done|].
      destruct (Hh (or_intror Hrest)) as [[(?&->&_) Hl]|(_&?&_)]; [|done].
      apply last_life_cons in Hl as [[? _]|(?&_)]; [|done]. naive_solver. }
    left. split; [by exists x|]. by apply (Hr [] (EvSet x) l).
  - intros -> ->. destruct Hc as [|[_ ->]]; [done|].
    by destruct (proj1 (Forall_cons _ _ _) (Hg eq_refl eq_refl)).
Qed.

(** It delivers a deletion. *)
Lemma timeline_deliver_del :
  timeline (seen_final cached ∨ rest) cached (EvDel :: l) o →
  timeline (seen_final None ∨ rest) None l o.
Proof.
  intros Ht. pose proof Ht as [Hh _ Hd _]. apply (timeline_tail _ _ _ _ Ht).
  - intros [(?&?&_)|Hrest]; [done|]. right.
    destruct (Hh (or_intror Hrest)) as [[_ Hl]|(_&?&_)]; [|done].
    apply last_life_cons in Hl as [[[] _]|(_&?&?)]; done.
  - intros _. by apply (Hd [] l).
Qed.
End deliver.

(** An event that others follow is left out. *)
Lemma last_life_drop l1 e l2 o : l2 ≠ [] → last_life (l1 ++ e :: l2) o → last_life (l1 ++ l2) o.
Proof.
  intros Hne [[Hl Ho]|(l'&E&Hl&->)].
  - left. split; [|done]. apply Forall_app in Hl as [? [_ ?]%Forall_cons]. by apply Forall_app.
  - right. destruct l2 as [|x l2 _] using rev_ind; [done|].
    rewrite app_comm_cons, app_assoc in E. apply app_inj_tail in E as [<- ->].
    exists (l1 ++ l2). split_and!; [by rewrite app_assoc| |done].
    apply Forall_app in Hl as [? [_ ?]%Forall_cons]. by apply Forall_app.
Qed.

Lemma timeline_drop hot cached l1 e l2 o :
  l2 ≠ [] → timeline hot cached (l1 ++ e :: l2) o → timeline hot cached (l1 ++ l2) o.
Proof.
  intros Hne [Hh Hr Hd Hg]. split.
  - intros [[? ?]|(_&?&_)]%Hh; [left|by destruct l1]. split; [done|]. by eapply last_life_drop.
  - intros k1 x k2 [(k&->&->)|(k&->&->)]%drop_middle Hx.
    + eapply last_life_drop; [done|]. eapply (Hr k1 x); [|done]. by rewrite <-app_assoc.
    + eapply (Hr (l1 ++ e :: k) x); [|done]. by rewrite <-app_assoc.
  - intros k1 k2 [(k&->&->)|(k&->&->)]%drop_middle Ho.
    + specialize (Hd k1 (k ++ e :: l2)). rewrite <-app_assoc in Hd.
      specialize (Hd eq_refl Ho). apply Forall_app in Hd as [? [_ ?]%Forall_cons]. by apply Forall_app.
    + apply (Hd (l1 ++ e :: k)); [|done]. by rewrite <-app_assoc.
  - intros Hc Ho. specialize (Hg Hc Ho). apply Forall_app in Hg as [? [_ ?]%Forall_cons].
    by apply Forall_app.
Qed.

(** ** Changes on the server *)

(** The events a watch sends when an object changes. *)
Inductive observed : option A → option A → list (event A) → Prop :=
| obs_same o : observed o o []
| obs_set o x : observed o (Some x) [EvSet x]
| obs_del x : observed (Some x) None [EvDel].

(** What others may do to an object: update it, where a final one stays final, and
    delete it, but not when it is final and the observer has yet to see that. *)
Inductive cluster_change (cached : option A) (l : list (event A)) : option A → option A → Prop :=
| cc_same o : cluster_change cached l o o
| cc_update x y : (fin x → fin y) → cluster_change cached l (Some x) (Some y)
| cc_delete x : seen_final cached ∨ no_final l → cluster_change cached l (Some x) None.

(** Steps that leave the object as it is. *)
Lemma timeline_same (hot hot' : Prop) cached l o l' :
  timeline hot cached l o → observed o o l' → (hot' → hot) →
  timeline hot' cached (l ++ l') o.
Proof.
  intros Ht Ho Hhot. apply (timeline_weaken hot); [|done].
  inversion Ho; subst; [by rewrite app_nil_r|by eapply timeline_set].
Qed.

Lemma timeline_cluster (rest : Prop) cached l o o' l' :
  timeline (seen_final cached ∨ rest) cached l o → cluster_change cached l o o' →
  observed o o' l' → timeline (seen_final cached ∨ rest) cached (l ++ l') o'.
Proof.
  intros Ht Hcc Hl. destruct Hcc as [o|x y Hkeep|x Hok].
  - by eapply timeline_same.
  - inversion Hl; subst; [by eapply timeline_same|by eapply timeline_set].
  - inversion Hl; subst. eapply timeline_delete; [done|].
    destruct Hok as [Hsr|?]; [left|by right]. split; [done|].
    by destruct (tl_hot _ _ _ _ Ht (or_introl Hsr)) as [[_ ?]|(_&_&?)].
Qed.

(** At the start nothing is known, and the objects are listed. *)
Definition listed (o : option A) : list (event A) :=
  match o with Some x => [EvSet x] | None => [] end.

Lemma timeline_listed (hot : Prop) o : ¬ hot → timeline hot None (listed o) o.
Proof.
  intros Hno. destruct o as [x|]; split; try done; simpl.
  - intros [|? l1] y l2 Hl Hr; [|by destruct l1]. injection Hl as <- <-. left. eauto.
  - by intros [|??] ? ?.
  - by intros [|??] ?.
  - intros _ _. constructor.
Qed.

(** The observer acts on an object it takes for final: it is final, if it exists. *)
Lemma timeline_hot (hot : Prop) cached l x : timeline hot cached l (Some x) → hot → fin x.
Proof.
  intros Ht Hh. by destruct (tl_hot _ _ _ _ Ht Hh) as [[_ [_ ?]%last_life_some]|(_&_&?)].
Qed.

(** It deletes such an object. *)
Lemma timeline_act (hot hot' : Prop) cached l o l' :
  timeline hot cached l o → hot → observed o None l' → timeline hot' cached (l ++ l') None.
Proof.
  intros Ht Hh Hl. destruct o as [x|]; [|by eapply timeline_same].
  inversion Hl; subst. eapply timeline_weaken; [eapply timeline_delete; [done|]|done].
  left. by destruct (tl_hot _ _ _ _ Ht Hh) as [?|(_&_&?)].
Qed.
End timelines.
Arguments observed {A}.
Arguments listed {A}.

(** ** Events of all objects, by name *)
Section pending.
Context {A : Type}.
Implicit Types p : string → list (event A).

Definition observe (o o' : gmap string A) p p' : Prop :=
  ∀ n, ∃ l, p' n = p n ++ l ∧ observed (o !! n) (o' !! n) l.

Lemma observe_same (o : gmap string A) p : observe o o p p.
Proof. intros n. exists []. rewrite app_nil_r. split; [done|constructor]. Qed.

Definition with_pending (n : string) (l : list (event A)) p : string → list (event A) :=
  λ m, if decide (m = n) then l else p m.

Lemma with_pending_eq n l p : with_pending n l p n = l.
Proof. unfold with_pending. by rewrite decide_True. Qed.

Lemma with_pending_ne n m l p : m ≠ n → with_pending n l p m = p m.
Proof. intros. unfold with_pending. by rewrite decide_False. Qed.

Lemma observe_insert (o : gmap string A) n x p :
  observe o (<[n := x]> o) p (with_pending n (p n ++ [EvSet x]) p).
Proof.
  intros m. destruct (decide (m = n)) as [-> |Hm].
  - exists [EvSet x]. rewrite with_pending_eq, lookup_insert_eq. split; [done|constructor].
  - exists []. rewrite with_pending_ne, lookup_insert_ne, app_nil_r by done.
    split; [done|constructor].
Qed.

Context (name : A → string).

Definition keyed_by (o : gmap string A) : Prop := ∀ n x, o !! n = Some x → name x = n.
Definition keyed_events p : Prop := ∀ n x, EvSet x ∈ p n → name x = n.

Lemma keyed_listed o : keyed_by o → keyed_events (λ n, listed (o !! n)).
Proof.
  intros Ho n x. destruct (o !! n) eqn:E; simpl; [|by intros ?%not_elem_of_nil].
  intros [= ->]%list_elem_of_singleton. by apply Ho.
Qed.

Lemma keyed_observe o o' p p' :
  keyed_by o' → observe o o' p p' → keyed_events p → keyed_events p'.
Proof.
  intros Hk Ho Hp n x. destruct (Ho n) as (l&->&Hl). rewrite elem_of_app.
  intros [?|Hin]; [by apply Hp|]. inversion Hl as [|? y E1 E2|]; subst.
  - by apply not_elem_of_nil in Hin.
  - apply list_elem_of_singleton in Hin as [= ->]. by apply Hk.
  - by apply list_elem_of_singleton in Hin.
Qed.

(** Fewer events of one object. *)
Lemma keyed_fewer n l p : l ⊆ p n → keyed_events p → keyed_events (with_pending n l p).
Proof.
  intros Hl Hp m x. destruct (decide (m = n)) as [-> |Hm].
  - rewrite with_pending_eq. intros ?%Hl. by apply Hp.
  - rewrite with_pending_ne by done. apply Hp.
Qed.
End pending.
