(* ===== verification/Lag.v ===== *)
(** * Lag: the cache behind the API server

    In [sys_step] the volume cache and the API server change independently.  Here the
    cache is fed by the server: each change of an object is an event that the informer
    delivers to the handlers of [pkg/populator] later, in order, possibly leaving out
    events that another one followed (after a relist).  The sync loop acts on the cache,
    which may be arbitrarily far behind.  The question is whether a volume that is in use
    can be cleaned. *)
From S2P Require Import Prelude GoLib FilePath K8s VolumeUtil Common Cache Metrics ProcTable.
From S2P Require Import Runtime Populator WorkQueue JobController Deleter Discovery NodeTaint.
From S2P Require Import Timeline Controller.

(** ** The events of one volume *)
Definition released (pv : PersistentVolume) : Prop := pv_Phase pv = VolumeReleased.

Abbreviation event := (Timeline.event PersistentVolume).
Abbreviation seen_released := (Timeline.seen_final released).
Abbreviation timeline := (Timeline.timeline released).

(** ** The system with events under way *)
Section lagged.
Context {FS API PT : Type}.
Context `{!VolumeUtil FS, !Exec FS, !KubeClient API, !ProcTable PT}.
Context `{!KubeClientLaws API, !ProcTableLaws PT}.
Abbreviation W := (World FS API PT).
Context (env : Env).
(** Names that others than this provisioner create volumes under. *)
Context (foreign : string → Prop).

Record Lagged := {
  lg_sys : System (FS := FS) (API := API) (PT := PT);
  lg_pending : string → list event }.

(** The call of a handler of the populator by which an event of volume [n] is
    delivered. *)
Inductive handles (c : RuntimeConfig) (n : string)
  : event → (gmap string PersistentVolume → gmap string PersistentVolume) → Prop :=
| handle_add pv : handles c n (EvSet pv) (AddFunc c (ObjPV pv))
| handle_update old pv : handles c n (EvSet pv) (UpdateFunc c old (ObjPV pv))
| handle_delete pv : pv_Name pv = n → handles c n EvDel (DeleteFunc (ObjPV pv))
| handle_tombstone pv :
    pv_Name pv = n → handles c n EvDel (DeleteFunc (ObjTombstone (ObjPV pv))).

Inductive lag_step (g : Lagged) : Lagged → Prop :=
| lag_loop w ph p :
    loop_step env (sy_disc (lg_sys g)) (sy_world (lg_sys g)) (sy_phase (lg_sys g)) w ph →
    observe (objects (sy_world (lg_sys g))) (objects w) (lg_pending g) p →
    lag_step g {| lg_sys := at_phase (lg_sys g) w ph; lg_pending := p |}
| lag_goroutine ts1 t ts2 w :
    w_tasks (sy_world (lg_sys g)) = (ts1 ++ t :: ts2)%list →
    asyncCleanPV t (set_tasks (ts1 ++ ts2)%list (sy_world (lg_sys g))) = Done () w →
    lag_step g {| lg_sys := at_phase (lg_sys g) w (sy_phase (lg_sys g));
                  lg_pending := lg_pending g |}
| lag_cluster w p :
    env_change (sy_world (lg_sys g)) w → keyed_by pv_Name (objects w) →
    (∀ n, ¬ foreign n → cluster_change released (w_cache (sy_world (lg_sys g)) !! n) (lg_pending g n)
            (objects (sy_world (lg_sys g)) !! n) (objects w !! n)) →
    observe (objects (sy_world (lg_sys g))) (objects w) (lg_pending g) p →
    lag_step g {| lg_sys := at_phase (lg_sys g) w (sy_phase (lg_sys g)); lg_pending := p |}
| lag_deliver n e l f :
    lg_pending g n = e :: l → handles (d_config (sy_disc (lg_sys g))) n e f →
    lag_step g {| lg_sys := at_phase (lg_sys g) (upd_cache f (sy_world (lg_sys g)))
                              (sy_phase (lg_sys g));
                  lg_pending := with_pending n l (lg_pending g) |}
| lag_drop n l1 e l2 :
    lg_pending g n = l1 ++ e :: l2 → l2 ≠ [] →
    lag_step g {| lg_sys := lg_sys g; lg_pending := with_pending n (l1 ++ l2) (lg_pending g) |}.

(** It is a system in which cache and server are related. *)
Lemma lag_step_sys g g' :
  lag_step g g' → rtc (sys_step env) (lg_sys g) (lg_sys g').
Proof.
  intros [w ph p Hl _|ts1 t ts2 w Hts Hrun|w p He _ _ _|n e l f _ Hf|]; simpl; [..|done].
  - by apply rtc_once, step_loop.
  - apply rtc_once, step_process. by eapply step_goroutine.
  - by apply rtc_once, step_process, step_env.
  - apply rtc_once, step_informer. unfold informer_handler.
    destruct Hf; [left|right; left|right; right..]; repeat eexists.
Qed.

(** The provisioner takes the volume for one to be cleaned: it is in the list that the
    pass of the deleter goes through, or has an entry in the process table. *)
Definition chosen (n : string) (s : System (FS := FS) (API := API) (PT := PT)) : Prop :=
  (∃ l pv, sy_phase s = Deleting l ∧ pv ∈ l ∧ pv_Name pv = n ∧ released pv) ∨
  is_Some (entries (sy_world s) !! n).

Record lag_inv (g : Lagged) : Prop := {
  lag_sys_inv : sys_inv (lg_sys g);
  lag_process : UseJobForCleaning (rc_User (d_config (sy_disc (lg_sys g)))) = false;
  lag_keyed : keyed_by pv_Name (objects (sy_world (lg_sys g)));
  lag_events : keyed_events pv_Name (lg_pending g);
  lag_timeline : ∀ n, ¬ foreign n →
    timeline (seen_released (w_cache (sy_world (lg_sys g)) !! n) ∨ chosen n (lg_sys g))
      (w_cache (sy_world (lg_sys g)) !! n) (lg_pending g n)
      (objects (sy_world (lg_sys g)) !! n) }.

(** A step of the deleter on one volume. *)
Lemma timeline_reclaim d (w w' : W) pv l (mux : gset string) n cached evs l' :
  let s := {| sy_mux := mux; sy_world := w; sy_disc := d; sy_phase := Deleting (pv :: l) |} in
  let s' := {| sy_mux := mux; sy_world := w'; sy_disc := d; sy_phase := Deleting l |} in
  job_controller_present (d_config d) → reclaimVolume (d_config d) pv w = Done () w' →
  timeline (seen_released cached ∨ chosen n s) cached evs (objects w !! n) →
  observed (objects w !! n) (objects w' !! n) l' →
  timeline (seen_released cached ∨ chosen n s') cached (evs ++ l') (objects w' !! n).
Proof.
  intros s s' Hj Hrun Ht Hl.
  destruct (reclaimVolume_done _ _ _ _ Hj Hrun) as (p&o&ts&[Ep Eo _ _]&He). rewrite Eo in Hl |- *.
  assert (released pv → chosen (pv_Name pv) s) as Hchosen.
  { intros Hr. left. exists (pv :: l), pv. split_and!; [done|by left|done|done]. }
  assert (is_Some (p !! n) → chosen n s) as Hent.
  { intros [e Hp]. destruct (decide (n = pv_Name pv)) as [-> |Hn].
    - destruct He as [|[Hr _] _|t [Hr _] _ _ _|p [Hr _] _ _].
      + right. by exists e.
      + by apply Hchosen.
      + by apply Hchosen.
      + by apply Hchosen.
    - right. apply effect_lookup in He as (Ho&_). destruct (Ho n Hn) as [E _].
      exists e. simpl. congruence. }
  assert (seen_released cached ∨ chosen n s' → seen_released cached ∨ chosen n s) as Hmono.
  { intros [?|[(l0&pv0&[= <-]&?&?&?)|Hp]]; [by left|right; left|right; apply Hent].
    - exists (pv :: l), pv0. split_and!; [done|by right|done|done].
    - simpl in Hp. by rewrite Ep in Hp. }
  assert (o !! n = objects w !! n ∨ n = pv_Name pv ∧ o !! n = None ∧ reclaimable pv) as Ho.
  { apply effect_lookup in He as (Hother&Hthis&_).
    destruct (decide (n = pv_Name pv)) as [-> |Hn]; [|left; by apply Hother].
    destruct Hthis as [|(?&?&_)]; [by left|by right]. }
  destruct Ho as [Ho|(->&Ho&Hr&_)]; rewrite Ho in Hl |- *; [by eapply timeline_same|].
  eapply timeline_act; [done|right; by apply Hchosen|done].
Qed.

(** A scan of the discoverer. *)
Lemma timeline_discover d (w w' : W) ph ph' (mux : gset string) n evs l' :
  let s := {| sy_mux := mux; sy_world := w; sy_disc := d; sy_phase := ph |} in
  let s' := {| sy_mux := mux; sy_world := w'; sy_disc := d; sy_phase := ph' |} in
  UseJobForCleaning (rc_User (d_config d)) = false → discovers d w w' →
  (∀ l, ph' ≠ Deleting l) →
  timeline (seen_released (w_cache w !! n) ∨ chosen n s) (w_cache w !! n) evs (objects w !! n) →
  observed (objects w !! n) (objects w' !! n) l' →
  timeline (seen_released (w_cache w !! n) ∨ chosen n s') (w_cache w !! n) (evs ++ l')
    (objects w' !! n).
Proof.
  intros s s' Hu Hd Hph Ht Hl.
  assert (chosen n s' → is_Some (entries w' !! n)) as Hchosen.
  { intros [(l&?&?&_)|?]; [by destruct (Hph l)|done]. }
  assert (chosen n s' → chosen n s) as Hmono.
  { intros [e He]%Hchosen. right. exists e. by apply (lookup_weaken _ _ _ _ He), (dis_entries _ _ _ Hd). }
  destruct (objects w !! n) as [old|] eqn:Eold.
  { rewrite (lookup_weaken _ _ _ _ Eold (dis_kept _ _ _ Hd)) in Hl |- *.
    eapply timeline_same; [done|done|tauto]. }
  destruct (objects w' !! n) as [pv|] eqn:Enew; [|eapply timeline_same; [done|done|tauto]].
  inversion Hl; subst.
  destruct (dis_new _ _ _ Hd n pv Eold Enew) as (file&class&config&Hdis&Hp&<-).
  pose proof (disc_not_cached _ _ _ _ _ Hdis) as Hnc.
  rewrite <-(prov_name _ _ _ _ _ Hp) in Hnc. rewrite Hnc in Ht |- *.
  eapply timeline_weaken; [eapply timeline_create; [done|]|].
  - exact (prov_phase _ _ _ _ _ Hp).
  - intros [(?&?&_)|[e He]%Hchosen]; [done|].
    by rewrite (dis_fresh _ _ _ Hd (pv_Name pv) Eold ltac:(by eexists) Hu) in He.
Qed.

(** Every step of the loop. *)
Lemma timeline_loop (s : System (FS := FS) (API := API) (PT := PT)) w ph n evs l' :
  sys_inv s → UseJobForCleaning (rc_User (d_config (sy_disc s))) = false →
  loop_step env (sy_disc s) (sy_world s) (sy_phase s) w ph →
  timeline (seen_released (w_cache (sy_world s) !! n) ∨ chosen n s) (w_cache (sy_world s) !! n) evs
    (objects (sy_world s) !! n) →
  observed (objects (sy_world s) !! n) (objects w !! n) l' →
  w_cache w = w_cache (sy_world s) ∧
  timeline (seen_released (w_cache w !! n) ∨ chosen n (at_phase s w ph)) (w_cache w !! n)
    (evs ++ l') (objects w !! n).
Proof.
  intros [_ Hk Hj _ Hp] Hu Hstep Ht Hl. destruct s as [mux w0 d ph0]; simpl in *.
  destruct Hstep as [w l Ho|w pv l w' Hrun|w l _|w class config l readyz err w' Hrun|w readyz|w w' Hrun];
    simpl in *.
  - split; [done|]. eapply timeline_same; [done|done|].
    intros [?|[(l0&pv&[= <-]&Hin&<-&Hr)|?]]; [by left| |by right; right].
    left. exists pv. split; [|done]. by apply (elem_of_cache_order _ _ _ Hk Ho).
  - assert (w_cache w' = w_cache w) as Hc
      by (by destruct (reclaimVolume_done _ _ _ _ Hj Hrun) as (?&?&?&[_ _ _ ?]&_)).
    split; [done|]. rewrite Hc. by eapply timeline_reclaim.
  - split; [done|]. eapply timeline_same; [done|done|].
    intros [?|[(?&?&?&_)|?]]; [by left|done|by right; right].
  - destruct (discoverVolumesAtPath_run (env_Marshal env) d class config Hj
      (Hp class config ltac:(left)) w) as (err'&w1&E&Hd). rewrite Hrun in E. injection E as <- <-.
    split; [apply (dis_cache _ _ _ Hd)|]. rewrite (dis_cache _ _ _ Hd).
    by eapply timeline_discover.
  - split; [done|]. eapply timeline_same; [done|done|].
    intros [?|[(?&?&?&_)|?]]; [by left|done|by right; right].
  - rewrite taint_stage_idle in Hrun. injection Hrun as <-. split; [done|].
    eapply timeline_same; [done|done|]. intros [?|[(?&?&?&_)|?]]; [by left|done|by right; right].
Qed.

(** The delivery of an event of [n] changes what is cached under [n] only. *)
Lemma handles_cache c n e f m :
  handles c n e f → (∀ pv, e = EvSet pv → pv_Name pv = n) →
  (∀ q, q ≠ n → f m !! q = m !! q) ∧
  match e with
  | EvSet pv => f m !! n = Some pv ∨ f m !! n = None ∧ m !! n = None
  | EvDel => f m !! n = None
  end.
Proof.
  assert (∀ pv, pv_Name pv = n → (∀ q, q ≠ n → handlePVUpdate c pv m !! q = m !! q) ∧
    (handlePVUpdate c pv m !! n = Some pv ∨ handlePVUpdate c pv m !! n = None ∧ m !! n = None)) as Hset.
  { intros pv Hn. rewrite handlePVUpdate_spec, Hn. destruct (owned c pv || _) eqn:E.
    - split; [intros; by rewrite lookup_insert_ne|]. left. apply lookup_insert_eq.
    - split; [done|]. right. apply orb_false_iff in E as [_ E%bool_decide_eq_false].
      by apply eq_None_not_Some in E. }
  assert (∀ pv, pv_Name pv = n → (∀ q, q ≠ n → handlePVDelete pv m !! q = m !! q) ∧
    handlePVDelete pv m !! n = None) as Hdel.
  { intros pv Hn. rewrite handlePVDelete_spec, Hn.
    split; [intros; by rewrite lookup_delete_ne|apply lookup_delete_eq]. }
  intros [] Hn; simpl; auto.
Qed.

Lemma keyed_loop (s : System (FS := FS) (API := API) (PT := PT)) w ph :
  sys_inv s → loop_step env (sy_disc s) (sy_world s) (sy_phase s) w ph →
  keyed_by pv_Name (objects (sy_world s)) → keyed_by pv_Name (objects w).
Proof.
  intros [_ _ Hj _ Hp] Hstep Hk. destruct s as [mux w0 d ph0]; simpl in *.
  destruct Hstep as [|w pv l w' Hrun| |w class config l readyz err w' Hrun| |w w' Hrun];
    simpl in *; try done.
  - destruct (reclaimVolume_done _ _ _ _ Hj Hrun) as (p&o&ts&[_ Eo _ _]&He).
    intros n pv'. rewrite Eo. destruct He; try apply Hk.
    intros [_ ?]%lookup_delete_Some. by apply Hk.
  - destruct (discoverVolumesAtPath_run (env_Marshal env) d class config Hj
      (Hp class config ltac:(left)) w) as (err'&w1&E&Hd). rewrite Hrun in E. injection E as <- <-.
    intros n pv Hpv. destruct (objects w !! n) as [old|] eqn:E.
    + rewrite (lookup_weaken _ _ _ _ E (dis_kept _ _ _ Hd)) in Hpv. simplify_eq. by apply Hk.
    + by destruct (dis_new _ _ _ Hd n pv E Hpv) as (?&?&?&_&_&?).
  - rewrite taint_stage_idle in Hrun. by injection Hrun as <-.
Qed.

Lemma lag_inv_loop g w ph p :
  lag_inv g → loop_step env (sy_disc (lg_sys g)) (sy_world (lg_sys g)) (sy_phase (lg_sys g)) w ph →
  observe (objects (sy_world (lg_sys g))) (objects w) (lg_pending g) p →
  lag_inv {| lg_sys := at_phase (lg_sys g) w ph; lg_pending := p |}.
Proof.
  intros [Hs Hu Hk He Ht] Hstep Ho. pose proof (keyed_loop _ _ _ Hs Hstep Hk) as Hk'.
  split; simpl; [by eapply sys_inv_loop|done|done|by eapply keyed_observe|].
  intros n Hn. destruct (Ho n) as (l&->&Hl). eapply timeline_loop; eauto.
Qed.

Lemma lag_inv_goroutine g ts1 t ts2 w :
  lag_inv g → w_tasks (sy_world (lg_sys g)) = (ts1 ++ t :: ts2)%list →
  asyncCleanPV t (set_tasks (ts1 ++ ts2)%list (sy_world (lg_sys g))) = Done () w →
  lag_inv {| lg_sys := at_phase (lg_sys g) w (sy_phase (lg_sys g)); lg_pending := lg_pending g |}.
Proof.
  intros [Hs Hu Hk He Ht] Hts Hrun.
  assert (runnable t) as Hr.
  { destruct Hs as [[_ _ Hr _] _ _ _ _]. rewrite Hts, Forall_forall in Hr. apply Hr. set_solver. }
  destruct (asyncCleanPV_run t (set_tasks (ts1 ++ ts2) (sy_world (lg_sys g))) Hr)
    as (err&w1&E&[Hent _ Hobj _ Hc _ _ _ _]&_). rewrite Hrun in E. injection E as <-.
  change (objects (set_tasks _ ?w)) with (objects w) in Hobj.
  change (w_cache (set_tasks _ ?w)) with (w_cache w) in Hc.
  change (entries (set_tasks _ ?w)) with (entries w) in Hent.
  split; simpl; [|done|by rewrite Hobj|done|].
  - eapply (sys_inv_step env); [done|]. apply step_process. by eapply step_goroutine.
  - intros n Hn. rewrite Hobj, Hc. eapply timeline_weaken; [by apply Ht|].
    intros [?|[?|[e Hen]]]; [by left|by right; left|right; right]. simpl in Hen.
    rewrite Hent in Hen. unfold Abstract.MarkDone in Hen.
    destruct (entries (sy_world (lg_sys g)) !! pv_Name (ct_pv t)) eqn:Et; simpl in Hen; [|by eexists].
    apply lookup_insert_Some in Hen as [[<- _]|[_ ?]]; by eexists.
Qed.

Lemma lag_inv_cluster g w p :
  lag_inv g → env_change (sy_world (lg_sys g)) w → keyed_by pv_Name (objects w) →
  (∀ n, ¬ foreign n → cluster_change released (w_cache (sy_world (lg_sys g)) !! n) (lg_pending g n)
          (objects (sy_world (lg_sys g)) !! n) (objects w !! n)) →
  observe (objects (sy_world (lg_sys g))) (objects w) (lg_pending g) p →
  lag_inv {| lg_sys := at_phase (lg_sys g) w (sy_phase (lg_sys g)); lg_pending := p |}.
Proof.
  intros [Hs Hu Hk He Ht] Henv Hk' Hcc Ho. split; simpl; [|done|done|by eapply keyed_observe|].
  - eapply (sys_inv_step env); [done|]. by apply step_process, step_env.
  - intros n Hn. destruct Henv as [Ec Ep _]. rewrite Ec.
    specialize (Ht n Hn). destruct (Ho n) as (l&->&Hl).
    assert (∀ s, sy_world s = w → sy_phase s = sy_phase (lg_sys g) → chosen n s → chosen n (lg_sys g)) as Hch.
    { intros s Es Eph. unfold chosen, entries. by rewrite Es, Eph, Ep. }
    apply (timeline_weaken released (seen_released (w_cache (sy_world (lg_sys g)) !! n) ∨ chosen n (lg_sys g)));
      [|intros [?|?]; [by left|right; by eapply Hch; [..|done]]].
    eapply timeline_cluster; eauto.
Qed.

Lemma lag_inv_deliver g n e l f :
  lag_inv g → lg_pending g n = e :: l → handles (d_config (sy_disc (lg_sys g))) n e f →
  lag_inv {| lg_sys := at_phase (lg_sys g) (upd_cache f (sy_world (lg_sys g)))
                         (sy_phase (lg_sys g));
             lg_pending := with_pending n l (lg_pending g) |}.
Proof.
  intros Hinv Hp Hf. pose proof Hinv as [Hs Hu Hk He Ht].
  destruct (handles_cache _ _ _ _ (w_cache (sy_world (lg_sys g))) Hf) as [Hother Hthis].
  { intros pv ->. apply He. rewrite Hp. by left. }
  split; simpl; [|done|done| |].
  - eapply (sys_inv_reachable env); [exact Hs|].
    exact (lag_step_sys g _ (lag_deliver _ _ _ _ _ Hp Hf)).
  - apply keyed_fewer; [rewrite Hp; set_solver|done].
  - intros m Hm. destruct (decide (m = n)) as [-> |Hmn].
    + rewrite with_pending_eq. specialize (Ht n Hm). rewrite Hp in Ht.
      destruct e as [pv|]; [by eapply timeline_deliver_set|].
      rewrite Hthis. by eapply timeline_deliver_del.
    + rewrite with_pending_ne, Hother by done. by apply Ht.
Qed.

Lemma lag_inv_step g g' : lag_inv g → lag_step g g' → lag_inv g'.
Proof.
  intros Hinv [w ph p Hl Ho|ts1 t ts2 w Hts Hrun|w p He Hk Hcc Ho|n e l f Hp Hf|n l1 e l2 Hp Hne].
  - by apply lag_inv_loop.
  - by eapply lag_inv_goroutine.
  - by eapply lag_inv_cluster.
  - by eapply lag_inv_deliver.
  - destruct Hinv as [Hs Hu Hk He Ht]. split; simpl; [done..| |].
    + apply keyed_fewer; [rewrite Hp; set_solver|done].
    + intros m Hm. destruct (decide (m = n)) as [-> |Hmn].
      * rewrite with_pending_eq. eapply timeline_drop; [done|]. rewrite <-Hp. by apply Ht.
      * rewrite with_pending_ne by done. by apply Ht.
Qed.
End lagged.

Lemma lag_inv_started {FS API PT : Type}
    `{!VolumeUtil FS, !Exec FS, !KubeClient API, !ProcTable PT}
    `{!KubeClientLaws API, !ProcTableLaws PT} (env : Env) (foreign : string → Prop) config
    (s : System (FS := FS) (API := API) (PT := PT)) :
  started env config s → entries (sy_world s) = ∅ → UseJobForCleaning config = false →
  keyed_by pv_Name (objects (sy_world s)) →
  lag_inv foreign {| lg_sys := s; lg_pending := λ n, listed (objects (sy_world s) !! n) |}.
Proof.
  intros Hs He Hu Hk. pose proof (sys_inv_started _ _ _ Hs He) as Hinv.
  destruct Hs as (mux&w&Hinit&_&Hph).
  apply init_controller_done in Hinit as (Hd&_&_&_&_&_&Hc&_&_).
  split; simpl; [done|by rewrite Hd|done|by apply keyed_listed|].
  intros n _. rewrite Hc. unfold VolumeCache.NewVolumeCache. rewrite lookup_empty.
  apply timeline_listed. intros [(?&?&_)|[(?&?&?&_)|[e Hen]]]; [done|congruence|].
  by rewrite He in Hen.
Qed.

(** ** Properties *)

(** C2. A volume in use is not cleaned.  Take a provisioner that cleans by processes, and
    a volume under a name that nobody else creates volumes under.  However far the cache
    is behind the server, provided that released volumes stay released and that others
    delete a released volume only once the provisioner has seen the release: in every
    reachable state, while a goroutine cleans the volume, or the result of a cleanup is
    kept for it, there is no object for it on the server or a released one; and when the
    deleter deletes its object, the object is released at that moment. *)
Theorem volume_in_use_is_not_cleaned {FS API PT : Type}
    `{!VolumeUtil FS, !Exec FS, !KubeClient API, !ProcTable PT}
    `{!KubeClientLaws API, !ProcTableLaws PT}
    (env : Env) (foreign : string → Prop) config
    (s : System (FS := FS) (API := API) (PT := PT)) (g : Lagged) (n : string)
    (Hs : started env config s) (He : entries (sy_world s) = ∅)
    (Hu : UseJobForCleaning config = false) (Hk : keyed_by pv_Name (objects (sy_world s)))
    (Hr : rtc (lag_step env foreign) {| lg_sys := s; lg_pending := λ n, listed (objects (sy_world s) !! n) |} g)
    (Hn : ¬ foreign n) :
  let w := sy_world (lg_sys g) in
  (n ∈ (task_name <$> w_tasks w) ∨ is_Some (entries w !! n) →
     ∀ pv, objects w !! n = Some pv → pv_Phase pv = VolumeReleased) ∧
  (∀ pv l w' old, sy_phase (lg_sys g) = Deleting (pv :: l) →
     reclaimVolume (d_config (sy_disc (lg_sys g))) pv w = Done () w' →
     objects w !! n = Some old → objects w' !! n = None → pv_Phase old = VolumeReleased).
Proof.
  assert (lag_inv foreign g) as [Hinv _ _ _ Ht].
  { eapply (rtc_invariant _ (lag_inv foreign)); [by eapply lag_inv_started| |done].
    apply lag_inv_step. }
  specialize (Ht n Hn). intros w.
  assert (∀ pv, objects w !! n = Some pv → chosen n (lg_sys g) → released pv) as Hchosen.
  { intros pv Hpv Hc. fold w in Ht. rewrite Hpv in Ht.
    apply (timeline_hot _ _ _ _ _ Ht). by right. }
  split.
  - intros Hc pv Hpv. apply Hchosen; [done|]. right. destruct Hc as [Htask|]; [|done].
    apply (inv_running _ _ _ (inv_tasks _ Hinv)) in Htask as (e&?&_). by exists e.
  - intros pv l w' old Hph Hrun Hold Hnew. apply Hchosen; [done|].
    destruct (reclaimVolume_done _ _ _ _ (inv_jobs _ Hinv) Hrun) as (p&o&ts&[_ Eo _ _]&Heff).
    apply effect_lookup in Heff as (Hother&Hthis&_). rewrite Eo in Hnew. fold w in Hother, Hthis.
    destruct (decide (n = pv_Name pv)) as [-> |Hne]; [|by rewrite (proj2 (Hother _ Hne)), Hold in Hnew].
    destruct Hthis as [Hsame|(_&[? _]&_)]; [by rewrite Hsame, Hold in Hnew|].
    left. exists (pv :: l), pv. split_and!; [done|by left|done|done].
Qed.

(** ** Witness: a released volume of the provisioner is cleaned *)
Definition owned_pv : PersistentVolume := {|
  pv_meta := {| om_Name := "pv1"; om_Namespace := ""; om_UID := ""; om_Labels := None;
                om_Annotations := Some {[AnnProvisionedBy := provisionerName single_class_user]};
                om_DeletionTimestamp := None; om_OwnerReferences := [] |};
  pv_Spec := pv_Spec example_pv; pv_Phase := VolumeReleased |}.

Definition lag_start : outcome (gset string * World Fake.FakeVolumeUtil MemServer _) Discoverer :=
  init_controller example_env single_class_user
    (∅, example_classes (example_world [owned_pv] [])).

Definition lag_system : System (FS := Fake.FakeVolumeUtil) (API := MemServer)
    (PT := ProcTableImpl.ProcTableImpl) := {|
  sy_mux := fst (final lag_start); sy_world := snd (final lag_start);
  sy_disc := match lag_start with Done d _ => d | Crash _ _ => example_discoverer end;
  sy_phase := Selecting |}.

Lemma lag_system_started : started example_env single_class_user lag_system.
Proof.
  exists ∅, (example_classes (example_world [owned_pv] [])). split_and!; vm_compute; reflexivity.
Qed.

(** The release has been delivered, and the deleter has started the cleanup. *)
Definition lag_cached : World Fake.FakeVolumeUtil MemServer ProcTableImpl.ProcTableImpl :=
  upd_cache (AddFunc (d_config (sy_disc lag_system)) (ObjPV owned_pv)) (sy_world lag_system).

Definition lag_cleaning : Lagged := {|
  lg_sys := at_phase lag_system
    (final (reclaimVolume (d_config (sy_disc lag_system)) owned_pv lag_cached)) (Deleting []);
  lg_pending := with_pending "pv1" [] ((λ n, listed (objects (sy_world lag_system) !! n))) |}.

Lemma lag_cleaning_reachable :
  rtc (lag_step example_env (λ _, False))
    {| lg_sys := lag_system; lg_pending := (λ n, listed (objects (sy_world lag_system) !! n)) |} lag_cleaning.
Proof.
  eapply rtc_l. { by eapply (lag_deliver _ _ _ "pv1" (EvSet owned_pv) []), handle_add. }
  eapply rtc_l.
  { apply (lag_loop _ _ _ lag_cached (Deleting [owned_pv])); [|apply observe_same].
    apply step_list. vm_compute. reflexivity. }
  eapply rtc_l.
  { apply (lag_loop _ _ _
      (final (reclaimVolume (d_config (sy_disc lag_system)) owned_pv lag_cached)) (Deleting [])
      (with_pending "pv1" [] (λ n, listed (objects (sy_world lag_system) !! n)))).
    - apply step_reclaim. vm_compute. reflexivity.
    - apply observe_same. }
  apply rtc_refl.
Qed.

Lemma volume_in_use_is_not_cleaned_witness :
  "pv1" ∈ (task_name <$> w_tasks (sy_world (lg_sys lag_cleaning))) ∧
  ∀ pv, objects (sy_world (lg_sys lag_cleaning)) !! "pv1" = Some pv → pv_Phase pv = VolumeReleased.
Proof.
  assert ("pv1" ∈ (task_name <$> w_tasks (sy_world (lg_sys lag_cleaning)))) as Htask
    by (vm_compute; left).
  split; [exact Htask|].
  apply (volume_in_use_is_not_cleaned example_env (λ _, False) single_class_user lag_system
    lag_cleaning "pv1" lag_system_started).
  - reflexivity.
  - reflexivity.
  - intros n pv Hpv.
    change ((<["pv1" := owned_pv]> ∅ : gmap string PersistentVolume) !! n = Some pv) in Hpv.
    apply lookup_insert_Some in Hpv as [[<- <-]|[_ Hpv]]; [reflexivity|].
    by apply lookup_empty_Some in Hpv.
  - apply lag_cleaning_reachable.
  - intros [].
  - by left.
Defined.

(** ** Why a release has to be seen first

    The handlers of the populator run after the informer has synced.  A released volume
    whose event is on its way is deleted by somebody else; the discoverer makes a new
    object under its name, which a claim is bound to; then the old event is delivered. *)
Definition late_name : string := generatePVName "mount1" "test-node" "sc1".

Definition late_pv : PersistentVolume := {|
  pv_meta := {| om_Name := late_name; om_Namespace := ""; om_UID := ""; om_Labels := None;
                om_Annotations := Some {[AnnProvisionedBy := "test-provisioner"]};
                om_DeletionTimestamp := None; om_OwnerReferences := [] |};
  pv_Spec := pv_Spec example_pv; pv_Phase := VolumeReleased |}.

Definition bind_volumes (a : MemServer) : MemServer := {|
  mem_pvs := (λ pv, {| pv_meta := pv_meta pv; pv_Spec := pv_Spec pv; pv_Phase := VolumeBound |})
               <$> mem_pvs a;
  mem_jobs := mem_jobs a; mem_nodes := mem_nodes a; mem_pvcs := mem_pvcs a;
  mem_down := mem_down a |}.

(** The deleter then cleans the directory of a volume in use. *)
Example unseen_release_race :
  let c := d_config single_class_discoverer in
  let w1 := final (discoverVolumesAtPath example_marshal single_class_discoverer "sc1"
                     (example_mount "dir1" "Filesystem") example_initial) in
  let w2 := set_api (bind_volumes (w_api w1)) w1 in
  let w3 := upd_cache (AddFunc c (ObjPV late_pv)) w2 in
  ∃ w4, reclaimVolume c late_pv w3 = Done () w4 ∧
    task_name <$> w_tasks w4 = [late_name] ∧
    pv_Phase <$> (objects w4 !! late_name) = Some VolumeBound.
Proof. eexists. split_and!; vm_compute; reflexivity. Qed.
