(* ===== verification/CleanJobs.v ===== *)
(** * CleanJobs: cleaning block volumes with jobs

    With [UseJobForCleaning] a block volume is cleaned by a Kubernetes job named after it.
    The deleter and the discoverer see jobs through the store of an informer, which is
    behind the server, and remove a job by its name.  [job_step] is one step of either, of
    the informer, or of the rest of the cluster, on the shared state and the events under
    way. *)
From S2P Require Import Prelude GoLib FilePath K8s VolumeUtil Common Cache Metrics ProcTable.
From S2P Require Import Runtime WorkQueue JobController Deleter Discovery Timeline.

Section jobs.
Context {FS API PT : Type}.
Context `{!VolumeUtil FS, !Exec FS, !KubeClient API, !ProcTable PT}.
Context `{!KubeClientLaws API, !KubeJobLaws API, !ProcTableLaws PT}.
Abbreviation W := (World FS API PT).

Definition jobs (w : W) : gmap string Job := api_jobs (w_api w).

(** A job that [RemoveJob] takes for complete. *)
Definition succeeded (job : Job) : Prop := job_Succeeded job ≠ 0%Z.

(** What the lister finds under a name. *)
Definition seen_job (c : RuntimeConfig) (w : W) (name : string) : option Job :=
  match w_jobLister w (Namespace (rc_User c)) name with Ok job => Some job | Err _ => None end.

(** ** What the operations do to jobs *)
Definition same_jobs (w w' : W) : Prop :=
  jobs w' = jobs w ∧ w_jobLister w' = w_jobLister w.

#[global] Instance same_jobs_preorder : PreOrder same_jobs.
Proof. split; [done|]. intros w w1 w2 [] []. split; congruence. Qed.

Lemma same_jobs_call_proc {A} (f : PT → A * PT) : preserves same_jobs (call_proc f : M W A).
Proof. intros w. unfold call_proc. by destruct (f (w_proc w)). Qed.

Lemma same_jobs_modify (f : W → W) :
  (∀ w, w_api (f w) = w_api w ∧ w_jobLister (f w) = w_jobLister w) → preserves same_jobs (modify f).
Proof. intros H w. destruct (H w). split; unfold jobs; simpl; congruence. Qed.

Lemma same_jobs_api {A} (f : API → A * API) :
  (∀ a, api_jobs (snd (f a)) = api_jobs a) → preserves same_jobs (call_api f : M W A).
Proof.
  intros H w. unfold call_api. specialize (H (w_api w)). by destruct (f (w_api w)).
Qed.

(** Decomposes a [preserves same_jobs] goal down to the basic operations. *)
Ltac solve_same_jobs :=
  unfold metric, Eventf, apiUtil.DeletePV, apiUtil.CreatePV;
  solve_preserves; intros; first
    [ apply same_jobs_modify; done | apply same_jobs_call_proc
    | apply same_jobs_api; intros; first [apply api_DeletePV_jobs|apply api_CreatePV_jobs]
    | idtac ].

Lemma delete_cleaned_jobs pv mode b start config :
  preserves same_jobs (delete_cleaned pv mode b start config : M W _).
Proof. unfold delete_cleaned, record_deletion. solve_same_jobs. Qed.

Lemma getVolMode_jobs c pv : preserves same_jobs (getVolMode c pv : M W _).
Proof. unfold getVolMode, GetContainerPath. solve_same_jobs. Qed.

Lemma report_failure_jobs c pv err : preserves same_jobs (report_failure c pv err : M W _).
Proof. unfold report_failure. solve_same_jobs. apply getVolMode_jobs. Qed.

Lemma runProcess_jobs pv mode path config :
  preserves same_jobs (runProcess pv mode path config : M W _).
Proof. unfold runProcess. solve_same_jobs. Qed.

Lemma createPV_jobs Marshal d file class policy options config capacity mode accessMode :
  preserves same_jobs (createPV Marshal d file class policy options config capacity mode accessMode
    : M W _).
Proof.
  unfold createPV, submitPV, CreateLocalPVSpec. cbv zeta. solve_same_jobs.
Qed.

(** The deletion of a job was requested: it is gone, or stays marked for deletion until
    its pods are gone. *)
Definition deletes (n : string) (js js' : gmap string Job) : Prop :=
  ∃ job, js !! n = Some job ∧
    (js' = delete n js ∨ ∃ time, js' = <[n := marked_job time job]> js).

(** What became of the job of that name. *)
Definition gone_or_marked (job : Job) (o : option Job) : Prop :=
  o = None ∨ ∃ time, o = Some (marked_job time job).

Lemma deletes_lookup n js js' m :
  deletes n js js' → js' !! m = js !! m ∨
    m = n ∧ ∃ job, js !! m = Some job ∧ gone_or_marked job (js' !! m).
Proof.
  intros (job&Hj&Hjs). destruct (decide (m = n)) as [-> |Hm]; [right|left].
  - split; [done|]. exists job. split; [done|]. unfold gone_or_marked.
    destruct Hjs as [-> |[time ->]]; [left; apply lookup_delete_eq|right].
    exists time. apply lookup_insert_eq.
  - destruct Hjs as [-> |[time ->]]; [by rewrite lookup_delete_ne|by rewrite lookup_insert_ne].
Qed.

(** The effects of handling a volume whose job has the name [n]. *)
Inductive job_effect (c : RuntimeConfig) (n : string) (w w' : W) : Prop :=
| je_same : same_jobs w w' → job_effect c n w w'
| je_removed job :
    w_jobLister w' = w_jobLister w → seen_job c w n = Some job → succeeded job →
    deletes (job_Name job) (jobs w) (jobs w') → job_effect c n w w'
| je_created job :
    w_jobLister w' = w_jobLister w → seen_job c w n = None → jobs w !! n = None →
    job_Name job = n → ¬ succeeded job → jobs w' = <[n := job]> (jobs w) → job_effect c n w w'.

Lemma job_effect_same c n w w1 w2 : job_effect c n w w1 → same_jobs w1 w2 → job_effect c n w w2.
Proof.
  intros [Hs|job E1 H1 H2 H3|job E1 H1 H2 H3 H4 E2] Hsame; pose proof Hsame as [F1 F2].
  - apply je_same. by etrans.
  - eapply je_removed; [congruence|done|done|by rewrite F1].
  - eapply je_created; [congruence|done|done|done|done|congruence].
Qed.

Lemma job_effect_before c n w w1 w2 : same_jobs w w1 → job_effect c n w1 w2 → job_effect c n w w2.
Proof.
  intros Hsame He. pose proof Hsame as [F1 F2].
  assert (seen_job c w1 n = seen_job c w n) as F3 by (unfold seen_job; by rewrite F2).
  destruct He as [Hs|job E1 H1 H2 H3|job E1 H1 H2 H3 H4 E2].
  - apply je_same. by etrans.
  - rewrite F3 in H1. rewrite F1 in H3. eapply je_removed; [congruence|done..].
  - rewrite F3 in H1. rewrite F1 in H2, E2. eapply je_created; [congruence|done..].
Qed.

(** A job that was seen, and that the server had, has succeeded. *)
Definition job_done (c : RuntimeConfig) (n : string) (w : W) : Prop :=
  ∃ job, seen_job c w n = Some job ∧ succeeded job ∧ is_Some (jobs w !! job_Name job).

Lemma start_cleanup_jobs c pv mode path config (w : W) :
  let n := generateCleaningJobName (pv_Name pv) in
  seen_job c w n = None →
  job_effect c n w (final (start_cleanup c pv mode true path config w)) ∧
  objects (final (start_cleanup c pv mode true path config w)) = objects w.
Proof.
  intros n Hn. split.
  2:{ destruct (start_cleanup_job c pv mode path config w) as (r&w'&->&[]). done. }
  unfold start_cleanup, runJob, apiUtil.CreateJob, call_api.
  destruct (_ && _); [by apply je_same|]. destruct (decide _); [by apply je_same|]. unfold_monad.
  destruct (NewCleanupJob _ _ _ _ _ _ _ _ _) as [job|] eqn:Ej; [|by apply je_same].
  apply NewCleanupJob_meta in Ej as (Hname&_).
  destruct (api_CreateJob job (w_api w)) as [[err|] a] eqn:E; simpl.
  - apply je_same. split; [|done]. by eapply api_CreateJob_err.
  - apply api_CreateJob_ok in E as (E1&j'&Hj'&H0&E2). rewrite Hname in E1, E2, Hj'.
    eapply (je_created _ _ _ _ j'); try done. by intros ?.
Qed.

Lemma delete_by_status_process c pv mode path config :
  shouldRunJob c mode = false →
  preserves same_jobs (delete_by_status c pv mode path config : M W _).
Proof.
  intros Hs. unfold delete_by_status, InProgress, RemoveStatus, start_cleanup. rewrite Hs.
  solve_same_jobs; first [apply delete_cleaned_jobs|apply runProcess_jobs].
Qed.

Lemma delete_by_status_jobs c pv mode path config (w : W) :
  let n := generateCleaningJobName (pv_Name pv) in
  let w' := final (delete_by_status c pv mode path config w) in
  job_effect c n w w' ∧
  (shouldRunJob c mode = true → objects w' ≠ objects w → job_done c n w).
Proof.
  intros n w'. subst w'. destruct (shouldRunJob c mode) eqn:Hs.
  2:{ split; [|done]. apply je_same. by apply delete_by_status_process. }
  unfold delete_by_status, InProgress, RemoveStatus, IsCleaningJobRunning, RemoveJob,
    apiUtil.DeleteJob, call_api. rewrite Hs.
  destruct (rc_hasJobController c); [|by split; [apply je_same|]]. unfold_monad. fold n.
  destruct (w_jobLister w (Namespace (rc_User c)) n) as [job|err] eqn:El.
  - assert (seen_job c w n = Some job) as Hseen by (unfold seen_job; by rewrite El).
    destruct (_ <=? 0)%Z; [by split; [apply je_same|]|]. rewrite El.
    destruct (job_Succeeded job =? 0)%Z eqn:E0; [by split; [apply je_same|]|].
    apply Z.eqb_neq in E0.
    pose proof (api_DeleteJob_pvs (job_Name job) (Namespace (rc_User c))
      DeletePropagationForeground (w_api w)) as Ha.
    destruct (api_DeleteJob _ _ _ _) as [[err|] a] eqn:E; simpl in *.
    + split; [|by intros _ []]. apply je_same. split; [|done]. by eapply api_DeleteJob_err.
    + apply api_DeleteJob_ok in E. split; [|intros _ _; exists job; by destruct E as (?&?&_)].
      eapply job_effect_same; [|apply delete_cleaned_jobs]. by eapply je_removed.
  - assert (seen_job c w n = None) as Hseen by (unfold seen_job; by rewrite El).
    destruct (IsNotFound err) eqn:En; simpl; [|by split; [apply je_same|]]. rewrite El, En.
    destruct (start_cleanup_jobs c pv mode path config w Hseen) as [? Ho]. split; [done|].
    by intros _ [].
Qed.

Lemma deletePV_jobs c pv (w : W) :
  let n := generateCleaningJobName (pv_Name pv) in
  let w' := final (deletePV c pv w) in
  job_effect c n w w' ∧
  (∀ mode, volume_mode c pv w = Some mode → shouldRunJob c mode = true →
     objects w' ≠ objects w → job_done c n w).
Proof.
  intros n w'. subst w'. unfold deletePV.
  destruct (pvs_Local (pv_Spec pv)) as [lvs|] eqn:Hl; [|by split; [apply je_same|]].
  destruct (map_get _ _) as [config|] eqn:Hc; [|by split; [apply je_same|]].
  assert (∃ r, GetContainerPath pv config w = Done r w) as [r Hr].
  { unfold GetContainerPath. rewrite Hl. destruct (Rel _ _); by eexists. }
  unfold mbind, M_bind. rewrite Hr.
  destruct r as [path|]; [|by split; [apply je_same|]].
  destruct (getVolMode_pure c pv w) as [m Hm]; [by rewrite Hl|].
  rewrite Hm.
  destruct m as [mode|]; [|by split; [apply je_same|]].
  destruct (delete_by_status_jobs c pv mode path config w) as [He Hd].
  split; [exact He|]. intros mode' Hmode. unfold volume_mode in Hmode. rewrite Hm in Hmode.
  by injection Hmode as <-.
Qed.

Lemma reclaimVolume_jobs c pv (w : W) :
  let n := generateCleaningJobName (pv_Name pv) in
  let w' := final (reclaimVolume c pv w) in
  job_effect c n w w' ∧
  (∀ mode, volume_mode c pv w = Some mode → shouldRunJob c mode = true →
     objects w' ≠ objects w → job_done c n w).
Proof.
  intros n w'. subst w'. unfold reclaimVolume.
  destruct (decide _); [by split; [apply je_same|]|].
  destruct (om_DeletionTimestamp _); [by split; [apply je_same|]|].
  destruct (decide _); [by split; [apply je_same|]|].
  destruct (decide _); [by split; [apply je_same|]|].
  destruct (decide _); [|by split; [apply je_same|]].
  destruct (deletePV_jobs c pv w) as [He Hd]. unfold mbind, M_bind.
  destruct (deletePV c pv w) as [r w1|crash w1]; simpl in He, Hd; [|done].
  destruct r as [err|]; [|done]. split; [by eapply job_effect_same, report_failure_jobs|].
  intros mode Hm Hs Ho. apply (Hd mode Hm Hs). intros E. apply Ho. rewrite <-E.
  unfold report_failure. unfold_monad.
  assert (objects (final (getVolMode c pv w1)) = objects w1) as Hg.
  { unfold getVolMode, GetContainerPath. unfold_monad.
    destruct (map_get _ _); [|done]. destruct (pvs_Local _); [|done]. by destruct (Rel _ _). }
  by destruct (getVolMode c pv w1).
Qed.

(** ** The discoverer *)

(** Jobs that disappear, or are marked for deletion, were seen to have succeeded. *)
Record removes (c : RuntimeConfig) (w w' : W) : Prop := {
  rm_lister : w_jobLister w' = w_jobLister w;
  rm_jobs : ∀ n, jobs w' !! n = jobs w !! n ∨
    (∃ old, jobs w !! n = Some old ∧ gone_or_marked old (jobs w' !! n)) ∧
    ∃ key job, seen_job c w key = Some job ∧ succeeded job ∧ job_Name job = n }.

Lemma gone_or_marked_again job o o' :
  gone_or_marked job o → (o' = o ∨ ∃ job', o = Some job' ∧ gone_or_marked job' o') →
  gone_or_marked job o'.
Proof.
  intros Ho [-> |(job'&->&Ho')]; [done|]. destruct Ho as [|[time [= ->]]]; [done|].
  destruct Ho' as [-> |[time' ->]]; [by left|right]. by exists time'.
Qed.

#[global] Instance removes_preorder c : PreOrder (removes c).
Proof.
  split; [split; auto|]. intros w w1 w2 [E1 H1] [E2 H2]. split; [congruence|]. intros n.
  assert (∀ key, seen_job c w1 key = seen_job c w key) as Hs by (intros; unfold seen_job; by rewrite E1).
  destruct (H2 n) as [-> |[(old&Ho&Hold) (key&job&Hk&Hrest)]]; [apply H1|].
  rewrite Hs in Hk. right. split; [|by exists key, job].
  destruct (H1 n) as [E|[(old1&Ho1&Hold1) _]]; [exists old; by rewrite <-E|].
  exists old1. split; [done|]. eapply gone_or_marked_again; [done|]. right. eauto.
Qed.

Lemma removes_same c {A} (m : M W A) : preserves same_jobs m → preserves (removes c) m.
Proof. intros H w. destruct (H w) as [E1 E2]. split; [done|]. intros n. left. by rewrite E1. Qed.

Lemma RemoveStatus_removes c name b : preserves (removes c) (RemoveStatus c name b : M W _).
Proof.
  unfold RemoveStatus. destruct b; [|apply removes_same, same_jobs_call_proc].
  destruct (rc_hasJobController c); [|apply removes_same; solve_same_jobs].
  intros w. unfold RemoveJob, apiUtil.DeleteJob, call_api. unfold_monad.
  destruct (w_jobLister w _ _) as [job|err] eqn:El; [|by case_match].
  destruct (job_Succeeded job =? 0)%Z eqn:E0; [done|]. apply Z.eqb_neq in E0.
  destruct (api_DeleteJob _ _ _ _) as [[err|] a] eqn:E; simpl.
  - apply api_DeleteJob_err in E. split; [done|]. intros n. left. unfold jobs. simpl. by rewrite E.
  - apply api_DeleteJob_ok in E. split; [done|]. intros n. unfold jobs. simpl.
    destruct (deletes_lookup _ _ _ n E) as [?|[-> ?]]; [by left|right]. split; [done|].
    exists (generateCleaningJobName name), job.
    split_and!; [unfold seen_job; by rewrite El|done|done].
Qed.

Lemma InProgress_jobs c name b : preserves same_jobs (InProgress c name b : M W _).
Proof. unfold InProgress, IsCleaningJobRunning. solve_same_jobs. Qed.

Lemma provision_file_jobs Marshal d class policy mps config options mode file acc :
  preserves same_jobs (provision_file Marshal d class policy mps config options mode file acc
    : M W _).
Proof. unfold provision_file. cbv zeta. solve_same_jobs; apply createPV_jobs. Qed.

Lemma discover_file_removes Marshal d class policy mps config file acc :
  preserves (removes (d_config d))
    (discover_file Marshal d class policy mps config file acc : M W _).
Proof.
  unfold discover_file, getMountOptionsFromStorageClass. solve_preserves; intros;
    first [apply RemoveStatus_removes|apply removes_same]; solve_same_jobs;
    first [apply InProgress_jobs|apply provision_file_jobs].
Qed.

Lemma discoverVolumesAtPath_removes Marshal d class config :
  preserves (removes (d_config d)) (discoverVolumesAtPath Marshal d class config : M W _).
Proof.
  assert (∀ policy mps patterns files acc, preserves (removes (d_config d))
    (discover_files Marshal d class policy mps config patterns files acc : M W _)) as Hfiles.
  { intros policy mps patterns files. induction files as [|file files IH]; intros acc; simpl.
    - apply preserves_ret. apply _.
    - solve_preserves; [apply discover_file_removes|apply IH]. }
  unfold discoverVolumesAtPath, getReclaimPolicyFromStorageClass. cbv zeta.
  solve_preserves; intros; first [apply Hfiles|apply removes_same; solve_same_jobs].
Qed.
End jobs.

(** ** The system *)
Section system.
Context {FS API PT : Type}.
Context `{!VolumeUtil FS, !Exec FS, !KubeClient API, !ProcTable PT}.
Context `{!KubeClientLaws API, !KubeJobLaws API, !ProcTableLaws PT}.
Abbreviation W := (World FS API PT).
Context (Marshal : NodeAffinity → result string) (d : Discoverer).
(** Names that others than this provisioner create jobs under. *)
Context (foreign : string → Prop).
Local Abbreviation c := (d_config d).
Local Abbreviation timeline := (Timeline.timeline succeeded).

Record JobLag := { jl_world : W; jl_pending : string → list (event Job) }.

Inductive job_step (g : JobLag) : JobLag → Prop :=
| js_reclaim pv w p :
    reclaimVolume c pv (jl_world g) = Done () w →
    observe (jobs (jl_world g)) (jobs w) (jl_pending g) p →
    job_step g {| jl_world := w; jl_pending := p |}
| js_discover class config err w p :
    discoverVolumesAtPath Marshal d class config (jl_world g) = Done err w →
    observe (jobs (jl_world g)) (jobs w) (jl_pending g) p →
    job_step g {| jl_world := w; jl_pending := p |}
(** the rest of the cluster, and what else the process does *)
| js_cluster w p :
    (∀ n, seen_job c w n = seen_job c (jl_world g) n) → keyed_by job_Name (jobs w) →
    (∀ n, ¬ foreign n → cluster_change succeeded (seen_job c (jl_world g) n) (jl_pending g n)
            (jobs (jl_world g) !! n) (jobs w !! n)) →
    observe (jobs (jl_world g)) (jobs w) (jl_pending g) p →
    job_step g {| jl_world := w; jl_pending := p |}
(** the informer *)
| js_deliver n e l w :
    jl_pending g n = e :: l → jobs w = jobs (jl_world g) →
    (∀ m, m ≠ n → seen_job c w m = seen_job c (jl_world g) m) →
    seen_job c w n = match e with EvSet job => Some job | EvDel => None end →
    job_step g {| jl_world := w; jl_pending := with_pending n l (jl_pending g) |}
| js_drop n l1 e l2 :
    jl_pending g n = l1 ++ e :: l2 → l2 ≠ [] →
    job_step g {| jl_world := jl_world g; jl_pending := with_pending n (l1 ++ l2) (jl_pending g) |}.

Record job_inv (g : JobLag) : Prop := {
  ji_keyed : keyed_by job_Name (jobs (jl_world g));
  ji_seen : ∀ n job, seen_job c (jl_world g) n = Some job → job_Name job = n;
  ji_events : keyed_events job_Name (jl_pending g);
  ji_timeline : ∀ n, ¬ foreign n →
    timeline (seen_final succeeded (seen_job c (jl_world g) n) ∨ False)
      (seen_job c (jl_world g) n) (jl_pending g n) (jobs (jl_world g) !! n) }.

(** A job after a step of the deleter or the discoverer: as before, gone or marked for
    deletion after it was seen to have succeeded, or new. *)
Definition job_moves (w w' : W) (n : string) : Prop :=
  jobs w' !! n = jobs w !! n ∨
  seen_final succeeded (seen_job c w n) ∧
    (∃ job, jobs w !! n = Some job ∧ gone_or_marked job (jobs w' !! n)) ∨
  seen_job c w n = None ∧ jobs w !! n = None ∧
    ∃ job, jobs w' !! n = Some job ∧ job_Name job = n ∧ ¬ succeeded job.

Lemma moves_inv g w p :
  job_inv g → w_jobLister w = w_jobLister (jl_world g) →
  (∀ n, job_moves (jl_world g) w n) →
  observe (jobs (jl_world g)) (jobs w) (jl_pending g) p →
  job_inv {| jl_world := w; jl_pending := p |}.
Proof.
  intros [Hk Hs He Ht] Hl Hm Ho.
  assert (∀ n, seen_job c w n = seen_job c (jl_world g) n) as Hseen
    by (intros; unfold seen_job; by rewrite Hl).
  assert (keyed_by job_Name (jobs w)) as Hk'.
  { intros n job Hj. destruct (Hm n) as [E|[[_ (old&Hold&[E|[time E]])]|(_&_&job'&E&?&_)]];
      [rewrite E in Hj; by apply Hk|congruence| |congruence].
    rewrite E in Hj. injection Hj as <-. exact (Hk n old Hold). }
  split; simpl; [done|by intros n job; rewrite Hseen; apply Hs|by eapply keyed_observe|].
  intros n Hn. rewrite Hseen. specialize (Ht n Hn). destruct (Ho n) as (l&->&Hobs).
  destruct (Hm n) as [E|[[Hfin (old&Eold&[E|[time E]])]|(Hnone&E&job&E'&_&Hnew)]].
  - rewrite E in Hobs |- *. by eapply timeline_same.
  - rewrite E in Hobs |- *. eapply timeline_act; [done|by left|done].
  - rewrite E, Eold in Hobs. rewrite E. rewrite Eold in Ht.
    eapply timeline_cluster; [done| |done]. by apply cc_update.
  - rewrite E, E' in Hobs. rewrite E' . rewrite Hnone, E in Ht. rewrite Hnone.
    inversion Hobs; subst. eapply timeline_weaken; [by eapply timeline_create|].
    by intros [(?&?&_)|].
Qed.

Lemma reclaim_moves g pv w :
  job_inv g → reclaimVolume c pv (jl_world g) = Done () w →
  w_jobLister w = w_jobLister (jl_world g) ∧ ∀ n, job_moves (jl_world g) w n.
Proof.
  intros Hinv Hrun. destruct (reclaimVolume_jobs c pv (jl_world g)) as [He _].
  rewrite Hrun in He. simpl in He.
  destruct He as [[E1 E2]|job E1 H1 H2 H3|job E1 H1 H2 H3 H4 E2]; (split; [done|]); intros n.
  - left. by rewrite E1.
  - pose proof (ji_seen _ Hinv _ _ H1) as Hname. rewrite Hname in H3.
    destruct (deletes_lookup _ _ _ n H3) as [?|[-> ?]]; [by left|right; left].
    split; [by exists job|done].
  - destruct (decide (n = generateCleaningJobName (pv_Name pv))) as [-> |Hn].
    + right. right. split_and!; [done|done|]. exists job. by rewrite E2, lookup_insert_eq.
    + left. by rewrite E2, lookup_insert_ne.
Qed.

Lemma discover_moves g class config err w :
  job_inv g → discoverVolumesAtPath Marshal d class config (jl_world g) = Done err w →
  w_jobLister w = w_jobLister (jl_world g) ∧ ∀ n, job_moves (jl_world g) w n.
Proof.
  intros Hinv Hrun. destruct (discoverVolumesAtPath_removes Marshal d class config (jl_world g)) as [E Hr].
  rewrite Hrun in E, Hr. simpl in E, Hr. split; [done|]. intros n.
  destruct (Hr n) as [?|[? (key&job&Hs&?&<-)]]; [by left|right; left].
  rewrite <-(ji_seen _ Hinv _ _ Hs) in Hs. split; [by exists job|done].
Qed.

Lemma job_inv_step g g' : job_inv g → job_step g g' → job_inv g'.
Proof.
  intros Hinv Hstep. pose proof Hinv as [Hk Hs He Ht].
  destruct Hstep as [pv w p Hrun Ho|class config err w p Hrun Ho|w p Hseen Hk' Hcc Ho
    |n e l w Hp Hj Hother Hthis|n l1 e l2 Hp Hne].
  - destruct (reclaim_moves _ _ _ Hinv Hrun). by eapply moves_inv.
  - destruct (discover_moves _ _ _ _ _ Hinv Hrun). by eapply moves_inv.
  - split; simpl; [done|by intros n job; rewrite Hseen; apply Hs|exact (keyed_observe _ _ _ _ _ Hk' Ho He)|].
    intros n Hn. rewrite Hseen. destruct (Ho n) as (l&->&?). eapply timeline_cluster; eauto.
  - assert (∀ m job, seen_job c w m = Some job → job_Name job = m) as Hs'.
    { intros m job Hm. destruct (decide (m = n)) as [-> |]; [|by apply Hs; rewrite <-Hother].
      rewrite Hthis in Hm. destruct e; simplify_eq. apply He. rewrite Hp. by left. }
    split; simpl; [by rewrite Hj|done|apply keyed_fewer; [rewrite Hp; set_solver|done]|].
    intros m Hm. rewrite Hj. destruct (decide (m = n)) as [-> |Hmn].
    + rewrite with_pending_eq, Hthis. specialize (Ht n Hm). rewrite Hp in Ht.
      destruct e; [eapply timeline_deliver_set; [exact Ht|by left]|eapply timeline_deliver_del; exact Ht].
    + rewrite with_pending_ne, Hother by done. by apply Ht.
  - split; simpl; [done|done|apply keyed_fewer; [rewrite Hp; set_solver|done]|].
    intros m Hm. destruct (decide (m = n)) as [-> |Hmn].
    + rewrite with_pending_eq. eapply timeline_drop; [done|]. rewrite <-Hp. by apply Ht.
    + rewrite with_pending_ne by done. by apply Ht.
Qed.

(** A job that disappears in a move, or is marked for deletion, had succeeded. *)
Lemma moves_succeeded g w n job :
  job_inv g → job_moves (jl_world g) w n → ¬ foreign n → jobs (jl_world g) !! n = Some job →
  jobs w !! n = Some job ∨ gone_or_marked job (jobs w !! n) ∧ succeeded job.
Proof.
  intros Hinv Hm Hn Hj.
  destruct Hm as [E|[[Hfin (old&Eold&E)]|(_&E&_)]]; [left; congruence|right|congruence].
  rewrite Hj in Eold. injection Eold as <-. split; [done|]. pose proof (ji_timeline _ Hinv n Hn) as Ht. rewrite Hj in Ht.
  eapply timeline_hot; [exact Ht|by left].
Qed.
End system.

(** ** Properties *)

Lemma start_cleanup_submits {FS API PT : Type}
    `{!VolumeUtil FS, !Exec FS, !KubeClient API, !ProcTable PT}
    (c : RuntimeConfig) pv path config (w : World FS API PT) job :
  default [] (BlockCleanerCommand config) ≠ [] → JobContainerImage (rc_User c) ≠ "" →
  NewCleanupJob (rc_time_Format c (w_now w)) pv PersistentVolumeBlock
    (JobContainerImage (rc_User c)) (elems (JobTolerations (rc_User c)))
    (node_Name (uc_Node (rc_User c))) (Namespace (rc_User c)) path config = Ok job →
  start_cleanup c pv PersistentVolumeBlock true path config w =
    let '(err, a) := api_CreateJob job (w_api w) in Done err (set_api a w).
Proof.
  intros Hcmd Himg Ej. unfold start_cleanup, runJob, apiUtil.CreateJob, call_api.
  rewrite (bool_decide_false (default _ _ = _)), andb_false_r, decide_False by done.
  unfold mbind, M_bind, gets. by rewrite Ej.
Qed.

(** C28. The cleanup job works on the right volume.  For a block volume that the
    discoverer made, in a class with a cleaning command, with cleaning by jobs and a job
    image configured, and no job of the volume in the informer's store: [deletePV] makes
    one request, to create a job, and returns its error.  The job is named after the
    volume (injectively), is in the configured namespace and has the label and the node
    selector of the node of the provisioner; its one container runs the cleaning command of
    the class with the variable LOCAL_PV_BLKDEVICE, which the scripts read, set to a path
    that, through the mounts of the pod, is the volume's own path on the host, and has the
    devices of the host under /dev. *)
Theorem cleanup_job_targets_volume {FS API PT : Type}
    `{!VolumeUtil FS, !Exec FS, !KubeClient API, !ProcTable PT}
    (c : RuntimeConfig) pv config file fsType (w : World FS API PT) e :
  let u := rc_User c in
  let n := generateCleaningJobName (pv_Name pv) in
  map_get (DiscoveryMap u) (pvs_StorageClassName (pv_Spec pv)) = Some config →
  HostDir config ≠ "" → MountDir config ≠ "" → plain_name file →
  pvs_Local (pv_Spec pv) =
    Some {| lvs_Path := Join [HostDir config; file]; lvs_FSType := fsType |} →
  GetVolumeMode (rc_goos c) (Join [MountDir config; file]) (w_fs w) = Ok PersistentVolumeBlock →
  default [] (BlockCleanerCommand config) ≠ [] → UseJobForCleaning u = true →
  rc_hasJobController c = true → JobContainerImage u ≠ "" →
  w_jobLister w (Namespace u) n = Err e → IsNotFound e = true →
  ∃ job err a, deletePV c pv w = Done err (set_api a w) ∧ api_CreateJob job (w_api w) = (err, a) ∧
    (∀ pvName, job_Name job = generateCleaningJobName pvName ↔ pvName = pv_Name pv) ∧
    om_Namespace (job_meta job) = Namespace u ∧
    map_get (om_Labels (job_meta job)) NodeNameLabel = Some (node_Name (uc_Node u)) ∧
    ps_NodeSelector (job_PodSpec job) = {[NodeNameLabel := node_Name (uc_Node u)]} ∧
    works_on job (default [] (BlockCleanerCommand config)) "LOCAL_PV_BLKDEVICE"
      (Join [HostDir config; file]).
Proof.
  intros u n Hc Hh Hm Hf Hl Hmode Hcmd Huse Hj Himg Hlist He. subst u n.
  destruct (discovered_task c pv config file PersistentVolumeBlock w Hc Hh) as (_&Hvm&_&Hpath);
    [by split; [|exists fsType]|done|]. simpl in Hvm, Hpath.
  pose proof (NewCleanupJob_works (rc_time_Format c (w_now w)) pv PersistentVolumeBlock
    (JobContainerImage (rc_User c)) (elems (JobTolerations (rc_User c)))
    (node_Name (uc_Node (rc_User c))) (Namespace (rc_User c)) file config Hh Hm Hf) as Hw.
  destruct (NewCleanupJob _ _ _ _ _ _ _ _ _) as [job|] eqn:Ej; [|by destruct Hw as [[] _]].
  destruct Hw as [Hsel Hw]. pose proof (NewCleanupJob_meta _ _ _ _ _ _ _ _ _ _ Ej) as (Hname&Hns&Hlab&_).
  destruct (api_CreateJob job (w_api w)) as [err a] eqn:Ea. exists job, err, a.
  split_and!; [|done| |done|done|done|by destruct Hw as [[_ ?]|[? _]]].
  2:{ intros pvName. rewrite Hname. split; [intros E; symmetry; by apply generateCleaningJobName_inj|by intros ->]. }
  unfold deletePV. rewrite Hl, Hc. unfold mbind at 1, M_bind at 1. rewrite Hpath.
  unfold mbind at 1, M_bind at 1. unfold volume_mode in Hvm.
  destruct (getVolMode_pure c pv w) as [m Hgm]; [by rewrite Hl|].
  rewrite Hgm in Hvm |- *. destruct m as [mode|]; [|done]. injection Hvm as ->.
  unfold delete_by_status, shouldRunJob. rewrite bool_decide_true, Huse by done.
  unfold InProgress, RemoveStatus, IsCleaningJobRunning, RemoveJob. rewrite Hj.
  unfold mbind, M_bind, mret, M_ret, gets. simpl. rewrite Hlist, He. simpl. rewrite Hlist, He.
  by rewrite (start_cleanup_submits c pv _ _ w job Hcmd Himg Ej), Ea.
Qed.

(** C6. Unfinished cleaning jobs are kept.  Take a name that nobody but the provisioner
    creates jobs under.  However far the informer of jobs is behind the server, provided
    that jobs which have succeeded stay so and that others remove one only once the
    provisioner has seen its success: when a step of the deleter or of the discoverer
    makes the job of that name disappear, or has it marked for deletion (with foreground
    propagation the job stays until its pods are gone), the job had succeeded; and when the
    deleter deletes the object of a volume that is cleaned by jobs, the server had the job
    of this volume, possibly marked for deletion, and it had succeeded. *)
Theorem unfinished_jobs_are_kept {FS API PT : Type}
    `{!VolumeUtil FS, !Exec FS, !KubeClient API, !ProcTable PT}
    `{!KubeClientLaws API, !KubeJobLaws API, !ProcTableLaws PT}
    (Marshal : NodeAffinity → result string) (d : Discoverer) (foreign : string → Prop)
    (w0 : World FS API PT) (g : JobLag)
    (Hk : keyed_by job_Name (jobs w0)) (Hs : ∀ n, seen_job (d_config d) w0 n = None)
    (Hr : rtc (job_step Marshal d foreign)
            {| jl_world := w0; jl_pending := λ n, listed (jobs w0 !! n) |} g) :
  let w := jl_world g in
  (∀ w' n job, (∃ pv, reclaimVolume (d_config d) pv w = Done () w') ∨
     (∃ class config err, discoverVolumesAtPath Marshal d class config w = Done err w') →
     ¬ foreign n → jobs w !! n = Some job →
     jobs w' !! n = Some job ∨
     (jobs w' !! n = None ∨ ∃ time, jobs w' !! n = Some (marked_job time job)) ∧
       job_Succeeded job ≠ 0%Z) ∧
  (∀ pv mode w', reclaimVolume (d_config d) pv w = Done () w' →
     volume_mode (d_config d) pv w = Some mode → shouldRunJob (d_config d) mode = true →
     ¬ foreign (generateCleaningJobName (pv_Name pv)) → objects w' ≠ objects w →
     ∃ job, jobs w !! generateCleaningJobName (pv_Name pv) = Some job ∧
       job_Succeeded job ≠ 0%Z).
Proof.
  assert (job_inv d foreign g) as Hinv.
  { eapply (rtc_invariant _ (job_inv d foreign)); [|apply job_inv_step|done].
    split; simpl; [done|by intros n job; rewrite Hs|by apply keyed_listed|].
    intros n _. rewrite Hs. apply timeline_listed. by intros [(?&?&_)|]. }
  intros w. split.
  - intros w' n job [[pv Hrun]|(class&config&err&Hrun)] Hn Hj.
    + destruct (reclaim_moves _ _ _ _ _ Hinv Hrun) as [_ Hm]. by eapply moves_succeeded.
    + destruct (discover_moves _ _ _ _ _ _ _ _ Hinv Hrun) as [_ Hm]. by eapply moves_succeeded.
  - intros pv mode w' Hrun Hmode Hjob Hn Ho.
    destruct (reclaimVolume_jobs (d_config d) pv w) as [_ Hdone]. rewrite Hrun in Hdone.
    destruct (Hdone mode Hmode Hjob Ho) as (job&Hseen&Hfin&[j Hj]).
    rewrite (ji_seen _ _ _ Hinv _ _ Hseen) in Hj. exists j. split; [done|].
    pose proof (ji_timeline _ _ _ Hinv _ Hn) as Ht. fold w in Ht. rewrite Hj in Ht.
    eapply (timeline_hot succeeded); [exact Ht|]. left. by exists job.
Qed.

(** ** Witness: a block volume, from the start of its job to its deletion *)
Definition jobs_user : UserConfig := {|
  uc_Node := example_node; DiscoveryMap := Some {["sc2" := example_mount "dir2" "Block"]};
  NodeLabelsForPV := None; UseAlphaAPI := false; UseJobForCleaning := true;
  Namespace := "default"; JobContainerImage := "cleaner"; JobTolerations := None;
  MinResyncPeriod := 300; UseNodeNameOnly := false; LabelsForPV := None;
  SetPVOwnerRef := false; RemoveNodeNotReadyTaint := false;
  ProvisionerNotReadyNodeTaintKey := "" |}.

Definition jobs_discoverer : Discoverer := {|
  d_config := {| rc_User := jobs_user; rc_Name := "test-provisioner"; rc_goos := "linux";
                 rc_hasJobController := true; rc_time_Format := format_d;
                 rc_time_Parse := λ _, None |};
  d_Labels := d_Labels example_discoverer; d_nodeSelector := d_nodeSelector example_discoverer;
  d_ownerReference := d_ownerReference example_discoverer |}.

Definition block_name : string := generatePVName "dev1" "test-node" "sc2".
Definition block_pv : PersistentVolume := sample_pv block_name "sc2" "/mnt/disks/dir2/dev1".
Definition block_job_name : string := generateCleaningJobName block_name.

(** The server has the volumes [pvs] and the jobs [js], the informer of jobs [seen]. *)
Definition jobs_world (pvs : list PersistentVolume) (js seen : gmap string Job)
  : World Fake.FakeVolumeUtil MemServer ProcTableImpl.ProcTableImpl := {|
  w_cache := list_to_map ((λ pv, (pv_Name pv, pv)) <$> pvs);
  w_proc := ProcTableImpl.NewProcTable;
  w_jobLister := λ _ name, match seen !! name with
                           | Some job => Ok job | None => Err (mem_not_found name) end;
  w_classLister := λ _, Ok example_class;
  w_api := {| mem_pvs := list_to_map ((λ pv, (pv_Name pv, pv)) <$> pvs); mem_jobs := js;
              mem_nodes := ∅; mem_pvcs := ∅; mem_down := false |};
  w_fs := {| Fake.directoryFiles := {["/discoveryPath/dir2" :=
               [{| Fake.fde_Name := "dev1"; Fake.fde_VolumeType := Fake.FakeEntryBlock;
                   Fake.fde_Hash := 0; Fake.fde_Capacity := 100 |}]]};
             Fake.deleteShouldFail := false |};
  w_mounts := Ok []; w_events := []; w_metrics := no_metrics; w_tasks := []; w_ready := false;
  w_taintRemoved := false; w_now := 7 |}.

(** The job that the deleter makes for the volume, and the job when it has succeeded. *)
Definition made_jobs : gmap string Job :=
  jobs (final (reclaimVolume (d_config jobs_discoverer) block_pv (jobs_world [block_pv] ∅ ∅))).

Definition done_jobs : gmap string Job := with_succeeded 1 <$> made_jobs.

(** While the informer has not seen the job yet, the discoverer makes an object for the
    volume, if the old one was deleted meanwhile: the check for a running job asks the
    informer. *)
Example recreated_while_job_runs :
  ∃ err w', discoverVolumesAtPath example_marshal jobs_discoverer "sc2"
      (example_mount "dir2" "Block") (jobs_world [] made_jobs ∅) = Done err w' ∧
    is_Some (objects w' !! block_name) ∧
    job_Succeeded <$> (jobs w' !! block_job_name) = Some 0%Z.
Proof.
  do 2 eexists. split_and!; [vm_compute; reflexivity|vm_compute; by eexists|vm_compute; reflexivity].
Qed.

(** A job that is marked for deletion still counts: when it is there, with its success, at
    the next release of a volume of the same name, the object of this volume is deleted
    and nothing is cleaned. *)
Example marked_job_counts_as_cleanup :
  let js := marked_job 5 <$> done_jobs in
  ∃ w', reclaimVolume (d_config jobs_discoverer) block_pv (jobs_world [block_pv] js js) = Done () w' ∧
    objects w' !! block_name = None ∧
    om_DeletionTimestamp ∘ job_meta <$> (jobs w' !! block_job_name) = Some (Some 0%Z).
Proof. eexists. split_and!; vm_compute; reflexivity. Qed.

Definition made_job : option Job := made_jobs !! block_job_name.

Lemma made_jobs_is : ∃ job, made_jobs = {[block_job_name := job]} ∧ job_Name job = block_job_name ∧
  done_jobs = {[block_job_name := with_succeeded 1 job]}.
Proof.
  assert (job_Name <$> made_job = Some block_job_name) as Hn by (vm_compute; reflexivity).
  assert (made_jobs = match made_job with Some job => {[block_job_name := job]} | None => ∅ end)
    as Em by (vm_compute; reflexivity).
  unfold done_jobs. rewrite Em. clear Em. revert Hn. generalize block_job_name.
  intros n Hn. destruct made_job as [job|]; [|done]. exists job.
  rewrite map_fmap_singleton. by injection Hn.
Qed.

Lemma singleton_keyed n job : job_Name job = n → keyed_by job_Name {[n := job]}.
Proof. by intros E m j [<- <-]%lookup_singleton_Some. Qed.

Lemma seen_jobs_world pvs js seen n :
  seen_job (d_config jobs_discoverer) (jobs_world pvs js seen) n = seen !! n.
Proof. unfold seen_job. simpl. by destruct (seen !! n). Qed.

Definition no_events : string → list (event Job) := λ n, listed ((∅ : gmap string Job) !! n).

(** A change of one job on the server. *)
Lemma observe_job (o o' : gmap string Job) n job p :
  o' = <[n := job]> o → observe o o' p (with_pending n (p n ++ [EvSet job]) p).
Proof. intros ->. apply observe_insert. Qed.

(** The informer delivers the next event of a job. *)
Lemma deliver_job (foreign : string → Prop) g n job l pvs js seen :
  jl_world g = jobs_world pvs js seen → jl_pending g n = EvSet job :: l →
  job_step example_marshal jobs_discoverer foreign g
    {| jl_world := jobs_world pvs js (<[n := job]> seen);
       jl_pending := with_pending n l (jl_pending g) |}.
Proof.
  intros Hw Hp. eapply (js_deliver _ _ _ _ n (EvSet job) l); [done|by rewrite Hw| |].
  - intros m Hm. by rewrite Hw, !seen_jobs_world, lookup_insert_ne.
  - by rewrite seen_jobs_world, lookup_insert_eq.
Qed.

Lemma no_jobs_keyed pvs : keyed_by job_Name (jobs (jobs_world pvs ∅ ∅)).
Proof. intros n job H. unfold jobs in H. simpl in H. by apply lookup_empty_Some in H. Qed.

(** The job is made, succeeds, and its success is delivered. *)
Lemma job_done_reachable :
  ∃ p, rtc (job_step example_marshal jobs_discoverer (λ _, False))
    {| jl_world := jobs_world [block_pv] ∅ ∅; jl_pending := no_events |}
    {| jl_world := jobs_world [block_pv] done_jobs done_jobs; jl_pending := p |}.
Proof.
  destruct made_jobs_is as (job&Em&Hname&Ed). rewrite Ed. unfold made_jobs in Em.
  eexists. eapply rtc_l.
  { eapply (js_reclaim _ _ _ _ block_pv
      (final (reclaimVolume (d_config jobs_discoverer) block_pv (jobs_world [block_pv] ∅ ∅)))).
    - vm_compute. reflexivity.
    - apply (observe_job _ _ block_job_name job). exact Em. }
  eapply rtc_l.
  { eapply (js_cluster _ _ _ _
      (jobs_world [block_pv] {[block_job_name := with_succeeded 1 job]} ∅)).
    - intros m. reflexivity.
    - by apply singleton_keyed.
    - intros m _. cbn [jl_world]. rewrite Em.
      destruct (decide (m = block_job_name)) as [-> |Hm].
      + rewrite lookup_singleton_eq. unfold jobs. simpl. rewrite lookup_singleton_eq. apply cc_update; done.
      + rewrite lookup_singleton_ne by done. unfold jobs. simpl.
        rewrite lookup_singleton_ne by done. apply cc_same.
    - apply (observe_job _ _ block_job_name (with_succeeded 1 job)).
      cbn [jl_world]. rewrite Em, insert_singleton_eq. reflexivity. }
  eapply rtc_l.
  { apply (deliver_job _ _ block_job_name job [EvSet (with_succeeded 1 job)]); [reflexivity|].
    cbn [jl_pending]. rewrite !with_pending_eq. reflexivity. }
  eapply rtc_l.
  { apply (deliver_job _ _ block_job_name (with_succeeded 1 job) []); [reflexivity|].
    cbn [jl_pending]. rewrite !with_pending_eq. reflexivity. }
  rewrite insert_insert_eq. apply rtc_refl.
Qed.

Lemma unfinished_jobs_are_kept_witness :
  let w := jobs_world [block_pv] done_jobs done_jobs in
  objects (final (reclaimVolume (d_config jobs_discoverer) block_pv w)) ≠ objects w ∧
  ∃ job, jobs w !! block_job_name = Some job ∧ job_Succeeded job ≠ 0%Z.
Proof.
  intros w.
  assert (objects (final (reclaimVolume (d_config jobs_discoverer) block_pv w)) ≠ objects w) as Ho
    by (vm_compute; discriminate).
  split; [exact Ho|]. destruct job_done_reachable as [p Hr].
  eapply (unfinished_jobs_are_kept example_marshal jobs_discoverer (λ _, False)
    (jobs_world [block_pv] ∅ ∅) _ (no_jobs_keyed _)
    ltac:(intros n; by rewrite seen_jobs_world) Hr) with (pv := block_pv) (mode := "Block").
  - vm_compute. reflexivity.
  - vm_compute. reflexivity.
  - reflexivity.
  - intros [].
  - exact Ho.
Defined.

Lemma cleanup_job_targets_volume_witness :
  ∃ job err a, deletePV (d_config jobs_discoverer) block_pv (jobs_world [block_pv] ∅ ∅) =
      Done err (set_api a (jobs_world [block_pv] ∅ ∅)) ∧
    works_on job ["/scripts/quick_reset.sh"] "LOCAL_PV_BLKDEVICE" "/mnt/disks/dir2/dev1".
Proof.
  destruct (cleanup_job_targets_volume (d_config jobs_discoverer) block_pv
    (example_mount "dir2" "Block") "dev1" None (jobs_world [block_pv] ∅ ∅)
    (mem_not_found block_job_name)) as (job&err&a&Hrun&_&_&_&_&_&Hw).
  - reflexivity.
  - discriminate.
  - discriminate.
  - split_and!; [discriminate|discriminate|discriminate|reflexivity].
  - reflexivity.
  - vm_compute. reflexivity.
  - discriminate.
  - reflexivity.
  - reflexivity.
  - discriminate.
  - reflexivity.
  - reflexivity.
  - exists job, err, a. split; [exact Hrun|exact Hw].
Defined.
