(* ===== verification/NodeCleanup.v ===== *)
(** * NodeCleanup: the node-cleanup controller, [pkg/node-cleanup]

    Claims and volumes that refer to deleted nodes are removed: [CleanupController]
    deletes, after a delay, the claim of a volume whose nodes are all gone;
    [Deleter] deletes stale volume objects.  Listers are snapshots of informer
    stores; the API server and the delayed queue are the state. *)
From S2P Require Import Prelude GoLib K8s VolumeUtil Common WorkQueue.

(** ** State *)
Record Listers := {
  ls_nodes : NodeLister;
  ls_GetPV : string → result PersistentVolume;
  ls_ListPVs : result (list PersistentVolume);
  ls_GetPVC : string → string → result PersistentVolumeClaim }.

(** The configuration of both parts. *)
Record CleanupConfig := { storageClassNames : list string; pvcDeletionDelay : Z }.

(** The state: server, queue, recorded events (on claim references) and counters. *)
Record CleanupWorld {API Q : Type} := {
  cl_api : API;
  cl_queue : Q;
  cl_events : list ObjectReference;
  cl_pvcDeleted : Z;
  cl_pvcDeleteFailed : Z;
  cl_pvDeleted : gmap string Z;
  cl_pvDeleteFailed : gmap string Z }.
Arguments CleanupWorld : clear implicits.

Section cleanup.
Context {API Q : Type} `{!KubeClient API, !WorkQueue Q}.
Abbreviation W := (CleanupWorld API Q).

Definition cl_set_api (a : API) (w : W) : W := {|
  cl_api := a; cl_queue := cl_queue w; cl_events := cl_events w; cl_pvcDeleted := cl_pvcDeleted w;
  cl_pvcDeleteFailed := cl_pvcDeleteFailed w; cl_pvDeleted := cl_pvDeleted w;
  cl_pvDeleteFailed := cl_pvDeleteFailed w |}.

Definition cl_enqueue (r : ObjectReference) (q : Q) (w : W) : W := {|
  cl_api := cl_api w; cl_queue := q; cl_events := (cl_events w ++ [r])%list;
  cl_pvcDeleted := cl_pvcDeleted w; cl_pvcDeleteFailed := cl_pvcDeleteFailed w;
  cl_pvDeleted := cl_pvDeleted w; cl_pvDeleteFailed := cl_pvDeleteFailed w |}.

Definition cl_set_queue (q : Q) (w : W) : W := {|
  cl_api := cl_api w; cl_queue := q; cl_events := cl_events w;
  cl_pvcDeleted := cl_pvcDeleted w; cl_pvcDeleteFailed := cl_pvcDeleteFailed w;
  cl_pvDeleted := cl_pvDeleted w; cl_pvDeleteFailed := cl_pvDeleteFailed w |}.

(** [PersistentVolumeClaimDelete(Failed)Total.Inc()]. *)
Definition count_pvc (failed : bool) (w : W) : W := {|
  cl_api := cl_api w; cl_queue := cl_queue w; cl_events := cl_events w;
  cl_pvcDeleted := if failed then cl_pvcDeleted w else (cl_pvcDeleted w + 1)%Z;
  cl_pvcDeleteFailed := if failed then (cl_pvcDeleteFailed w + 1)%Z else cl_pvcDeleteFailed w;
  cl_pvDeleted := cl_pvDeleted w; cl_pvDeleteFailed := cl_pvDeleteFailed w |}.

Definition inc_phase (phase : string) (m : gmap string Z) : gmap string Z :=
  <[phase := (1 + default 0%Z (m !! phase))%Z]> m.

(** [PersistentVolumeDelete(Failed)Total.WithLabelValues(phase).Inc()]. *)
Definition count_pv (failed : bool) (phase : string) (w : W) : W := {|
  cl_api := cl_api w; cl_queue := cl_queue w; cl_events := cl_events w;
  cl_pvcDeleted := cl_pvcDeleted w; cl_pvcDeleteFailed := cl_pvcDeleteFailed w;
  cl_pvDeleted := if failed then cl_pvDeleted w else inc_phase phase (cl_pvDeleted w);
  cl_pvDeleteFailed := if failed then inc_phase phase (cl_pvDeleteFailed w)
                       else cl_pvDeleteFailed w |}.

Context (ls : Listers) (cfg : CleanupConfig).

(** ** [CleanupController] *)
Definition deletePVC (pvc : PersistentVolumeClaim) : M W (option error) := λ w,
  let m := pvc_meta pvc in
  let '(err, a) := api_DeletePVC (om_Namespace m) (om_Name m) (om_UID m) (cl_api w) in
  match err with
  | Some err => Done (if IsNotFound err then None else Some err) (cl_set_api a w)
  | None => Done None (cl_set_api a w)
  end.

Definition syncHandler (pvName : string) : M W (option error) :=
  match ls_GetPV ls pvName with
  | Err err => mret (if IsNotFound err then None else Some err)
  | Ok pv =>
      match GetLocalPersistentVolumeNodeNames pv with
      | None => mret None
      | Some nodeNames =>
          if AnyNodeExists (ls_nodes ls) nodeNames then mret None
          else
            match pvs_ClaimRef (pv_Spec pv) with
            | None => mret None
            | Some pvClaimRef =>
                match ls_GetPVC ls (ref_Namespace pvClaimRef) (ref_Name pvClaimRef) with
                | Err err => mret (if IsNotFound err then None else Some err)
                | Ok pvc =>
                    if bool_decide (pvc_VolumeName pvc ≠ pv_Name pv) ||
                       bool_decide (om_UID (pvc_meta pvc) ≠ ref_UID pvClaimRef)
                    then mret None
                    else
                      err ← deletePVC pvc;
                      match err with
                      | Some err => _ ← modify (count_pvc true); mret (Some err)
                      | None => _ ← modify (count_pvc false); mret None
                      end
                end
            end
      end
  end.

(** [processNextWorkItem] with the item it got.  The queue holds strings, so the type
    assertion on the key always succeeds. *)
Definition processGot (pvName : string) : M W () :=
  err ← syncHandler pvName;
  _ ← modify (λ w, cl_set_queue (match err with
                                | Some _ => wq_AddRateLimited pvName (cl_queue w)
                                | None => wq_Forget pvName (cl_queue w)
                                end) w);
  modify (λ w, cl_set_queue (wq_Done pvName (cl_queue w)) w).

Definition processNextWorkItem : M W bool :=
  got ← gets (λ w, wq_Get (cl_queue w));
  let '(key, q) := got in
  _ ← modify (cl_set_queue q);
  match key with
  | None => mret false
  | Some pvName => _ ← processGot pvName; mret true
  end.

Definition shouldEnqueueEntry (pv : PersistentVolume) (nodeNames : list string) : bool :=
  match pvs_ClaimRef (pv_Spec pv) with
  | None => false
  | Some _ => negb (AnyNodeExists (ls_nodes ls) nodeNames)
  end.

(** The body of the loop of [startCleanupTimersIfNeeded]. *)
Definition startTimer (pv : PersistentVolume) : M W () :=
  if negb (IsLocalPVWithStorageClass pv (storageClassNames cfg)) then mret ()
  else match GetLocalPersistentVolumeNodeNames pv with
  | None => mret ()
  | Some nodeNames =>
      if shouldEnqueueEntry pv nodeNames then
        match pvs_ClaimRef (pv_Spec pv) with
        | None => panic NilDereference
        | Some r =>
            modify (λ w, cl_enqueue r
                           (wq_AddAfter (pv_Name pv) (pvcDeletionDelay cfg) (cl_queue w)) w)
        end
      else mret ()
  end.

(** Also the handler [nodeDeleted]. *)
Definition startCleanupTimersIfNeeded : M W () :=
  match ls_ListPVs ls with
  | Err _ => mret ()
  | Ok pvs => forM pvs () (λ _ pv, startTimer pv)
  end.

(** ** [Deleter] *)
Definition referencesNonExistentNode (localPV : PersistentVolume) : bool :=
  match GetLocalPersistentVolumeNodeNames localPV with
  | None => false
  | Some nodeNames => negb (AnyNodeExists (ls_nodes ls) nodeNames)
  end.

Definition deletePV (pvName : string) : M W (option error) := λ w,
  let '(err, a) := api_DeletePV pvName (cl_api w) in
  match err with
  | Some err => Done (if IsNotFound err then None else Some err) (cl_set_api a w)
  | None => Done None (cl_set_api a w)
  end.

(** The body of the loop of [DeletePVs]. *)
Definition deleteStale (pv : PersistentVolume) : M W () :=
  if negb (IsLocalPVWithStorageClass pv (storageClassNames cfg)) then mret ()
  else if negb (referencesNonExistentNode pv) then mret ()
  else
    let phase := pv_Phase pv in
    let isReleasedWithDeleteReclaim :=
      bool_decide (phase = VolumeReleased) &&
      bool_decide (pvs_ReclaimPolicy (pv_Spec pv) = PersistentVolumeReclaimDelete) in
    let isAvailable := bool_decide (phase = VolumeAvailable) in
    if isReleasedWithDeleteReclaim || isAvailable then
      err ← deletePV (pv_Name pv);
      match err with
      | Some _ => modify (count_pv true phase)
      | None => modify (count_pv false phase)
      end
    else mret ().

Definition DeletePVs : M W () :=
  match ls_ListPVs ls with
  | Err _ => mret ()
  | Ok pvs => forM pvs () (λ _ pv, deleteStale pv)
  end.
End cleanup.

(** ** When a volume is stale *)

(** A node of the store that a host name of the volume refers to: by its name, or
    by its host name label. *)
Definition referred_node (nodes : list Node) (name : string) : Prop :=
  ∃ n, n ∈ nodes ∧
    (node_Name n = name ∨ map_get (om_Labels (node_meta n)) NodeLabelKey = Some name).

(** The host names a volume's affinity allows: some term has host name
    expressions, and all of those list the name. *)
Definition allowed_host (pv : PersistentVolume) (name : string) : Prop :=
  ∃ sel, (pvs_NodeAffinity (pv_Spec pv) ≫= vna_Required) = Some sel ∧
    Exists (λ t, Exists hostname_in (nst_MatchExpressions t) ∧
                 Forall (λ e, hostname_in e → name ∈ nsr_Values e) (nst_MatchExpressions t))
      (ns_NodeSelectorTerms sel).

Lemma elem_of_node_names pv names name :
  GetLocalPersistentVolumeNodeNames pv = Some names → name ∈ names ↔ allowed_host pv name.
Proof.
  unfold GetLocalPersistentVolumeNodeNames, allowed_host.
  destruct (pvs_NodeAffinity (pv_Spec pv)) as [a|]; [|done]. simpl.
  destruct (vna_Required a) as [sel|]; [|done]. intros [= <-].
  rewrite elem_of_sets_List, elem_of_terms_nodes. split.
  - intros H. exists sel. split; [done|]. eapply Exists_impl; [exact H|].
    intros t. by rewrite elem_of_term_nodes.
  - intros (?&[= <-]&H). eapply Exists_impl; [exact H|]. intros t. by rewrite elem_of_term_nodes.
Qed.

Definition stale (nodes : list Node) (pv : PersistentVolume) : Prop :=
  is_Some (pvs_NodeAffinity (pv_Spec pv) ≫= vna_Required) ∧
  ∀ name, allowed_host pv name → valid_label_value name = true ∧ ¬ referred_node nodes name.

Lemma stale_node_names nodes pv names :
  GetLocalPersistentVolumeNodeNames pv = Some names →
  AnyNodeExists (store_lister nodes) names = false ↔
  ∀ name, allowed_host pv name → valid_label_value name = true ∧ ¬ referred_node nodes name.
Proof.
  intros Hn. rewrite <-not_true_iff_false, AnyNodeExists_store. split.
  - intros Hno name Ha. apply (elem_of_node_names _ _ _ Hn) in Ha.
    destruct (valid_label_value name) eqn:Ev; [|exfalso; apply Hno; eauto].
    split; [done|]. intros (n&Hin&[Hname|Hlabel]); apply Hno; exists name; (split; [done|]).
    + left. eauto.
    + right; right. eauto.
  - intros Hall (name&Hin&Hcase). apply (elem_of_node_names _ _ _ Hn) in Hin.
    destruct (Hall name Hin) as [Hv Hr].
    destruct Hcase as [(n&?&?)|[?|(n&?&?)]]; [|congruence|]; apply Hr; exists n; auto.
Qed.

(** C20. Which volumes are stale.  On informer stores, a volume refers to
    non-existent nodes exactly when it has a required affinity and no node exists,
    by name or by host name label, for any host name that the affinity allows (a
    name that is no valid label value counts as existing). *)
Theorem stale_volume_iff nodes get list pvc pv :
  let ls := {| ls_nodes := store_lister nodes; ls_GetPV := get; ls_ListPVs := list;
               ls_GetPVC := pvc |} in
  referencesNonExistentNode ls pv = true ↔ stale nodes pv.
Proof.
  intros ls. unfold referencesNonExistentNode, stale.
  destruct (GetLocalPersistentVolumeNodeNames pv) as [names|] eqn:Hn.
  - rewrite negb_true_iff. simpl. rewrite (stale_node_names nodes pv names Hn).
    split; [|tauto]. intros H. split; [|done].
    unfold GetLocalPersistentVolumeNodeNames in Hn.
    destruct (pvs_NodeAffinity _) as [a|]; [|done]. simpl.
    destruct (vna_Required a); [done|done].
  - split; [done|]. intros [[sel Hs] _]. unfold GetLocalPersistentVolumeNodeNames in Hn.
    destruct (pvs_NodeAffinity _) as [a|]; [|done]. simpl in Hs. by rewrite Hs in Hn.
Qed.

(** An affinity that never names a host makes a volume stale.  A local volume
    whose required affinity has no host name expression (for example only a zone,
    or an empty selector) is taken to refer to no existing node, whatever nodes
    there are: the list of node names is empty but not nil. *)
Theorem affinity_without_hostname_is_stale ls pv sel :
  (pvs_NodeAffinity (pv_Spec pv) ≫= vna_Required) = Some sel →
  Forall (λ t, Forall (λ e, ¬ hostname_in e) (nst_MatchExpressions t)) (ns_NodeSelectorTerms sel) →
  GetLocalPersistentVolumeNodeNames pv = Some [] ∧ referencesNonExistentNode ls pv = true.
Proof.
  intros Hs Hall.
  assert (∃ names, GetLocalPersistentVolumeNodeNames pv = Some names) as [names Hn].
  { unfold GetLocalPersistentVolumeNodeNames. destruct (pvs_NodeAffinity _) as [a|]; [|done].
    simpl in Hs. rewrite Hs. eauto. }
  assert (names = []) as ->.
  { destruct names as [|name names]; [done|]. exfalso.
    assert (name ∈ name :: names) as Hin by left.
    apply (elem_of_node_names _ _ _ Hn) in Hin as (sel'&Hs'&Hex). rewrite Hs in Hs'.
    injection Hs' as <-. rewrite Forall_forall in Hall. apply Exists_exists in Hex as (t&Ht&He&_).
    apply Exists_exists in He as (e&He&Hh). specialize (Hall t Ht).
    rewrite Forall_forall in Hall. by apply (Hall e). }
  split; [done|]. unfold referencesNonExistentNode. by rewrite Hn.
Qed.

(** ** What the controllers delete *)
Section cleanup_lemmas.
Context {API Q : Type} `{!KubeClient API, !WorkQueue Q}.
Context `{!KubeClientLaws API, !KubeClaimLaws API}.
Abbreviation W := (CleanupWorld API Q).
Context (ls : Listers) (cfg : CleanupConfig).

Definition cl_pvs (w : W) : gmap string PersistentVolume := api_pvs (cl_api w).
Definition cl_pvcs (w : W) : gmap (string * string) PersistentVolumeClaim := api_pvcs (cl_api w).

(** The claim of volume [name] is orphaned: the volume is bound to it, both refer
    to each other, and no node of the volume exists. *)
Definition orphaned (name : string) (pvc : PersistentVolumeClaim) : Prop :=
  ∃ pv r names, ls_GetPV ls name = Ok pv ∧ pvs_ClaimRef (pv_Spec pv) = Some r ∧
    ls_GetPVC ls (ref_Namespace r) (ref_Name r) = Ok pvc ∧
    pvc_VolumeName pvc = pv_Name pv ∧ om_UID (pvc_meta pvc) = ref_UID r ∧
    GetLocalPersistentVolumeNodeNames pv = Some names ∧
    AnyNodeExists (ls_nodes ls) names = false.

Lemma deletePVC_run pvc (w : W) :
  let key := (om_Namespace (pvc_meta pvc), om_Name (pvc_meta pvc)) in
  ∃ err w', deletePVC pvc w = Done err w' ∧ cl_pvs w' = cl_pvs w ∧ cl_queue w' = cl_queue w ∧
    (cl_pvcs w' = cl_pvcs w ∨
     cl_pvcs w' = delete key (cl_pvcs w) ∧ err = None ∧
     ∃ c, cl_pvcs w !! key = Some c ∧ om_UID (pvc_meta c) = om_UID (pvc_meta pvc)).
Proof.
  intros key. unfold deletePVC.
  pose proof (api_DeletePVC_pvs (om_Namespace (pvc_meta pvc)) (om_Name (pvc_meta pvc))
    (om_UID (pvc_meta pvc)) (cl_api w)) as Hpv.
  destruct (api_DeletePVC _ _ _ (cl_api w)) as [[err|] a] eqn:E; simpl in Hpv.
  - apply api_DeletePVC_err in E. do 2 eexists. split_and!; [done|done|done|by left].
  - apply api_DeletePVC_ok in E as [Hc Ha]. do 2 eexists. split_and!; [done|done|done|].
    fold (cl_pvcs w) key in Hc, Ha. destruct (cl_pvcs w !! key) as [c|] eqn:Ec; [right|left].
    + split_and!; [done|done|]. exists c. by split; [|apply Hc].
    + unfold cl_pvcs at 1. simpl. by rewrite Ha, delete_id.
Qed.

(** What deleting stale volumes may change. *)
Definition deletable (pv : PersistentVolume) : Prop :=
  IsLocalPVWithStorageClass pv (storageClassNames cfg) = true ∧
  referencesNonExistentNode ls pv = true ∧
  (pv_Phase pv = VolumeReleased ∧
   pvs_ReclaimPolicy (pv_Spec pv) = PersistentVolumeReclaimDelete ∨
   pv_Phase pv = VolumeAvailable).

Record deletes_stale (pvs : list PersistentVolume) (w w' : W) : Prop := {
  ds_claims : cl_pvcs w' = cl_pvcs w;
  ds_queue : cl_queue w' = cl_queue w;
  ds_volumes : ∀ name, cl_pvs w' !! name = cl_pvs w !! name ∨
    cl_pvs w' !! name = None ∧ ∃ pv, pv ∈ pvs ∧ pv_Name pv = name ∧ deletable pv }.

#[global] Instance deletes_stale_preorder pvs : PreOrder (deletes_stale pvs).
Proof.
  split; [by split; auto|]. intros w w1 w2 [H1 H2 H3] [H4 H5 H6].
  split; [congruence..|]. intros name.
  destruct (H6 name) as [-> |[? ?]]; [apply H3|by right].
Qed.

Lemma deletePV_run name (w : W) :
  ∃ err w', deletePV name w = Done err w' ∧ cl_pvcs w' = cl_pvcs w ∧ cl_queue w' = cl_queue w ∧
    (cl_pvs w' = cl_pvs w ∨ cl_pvs w' = delete name (cl_pvs w)).
Proof.
  unfold deletePV. pose proof (api_DeletePV_pvcs name (cl_api w)) as Hc.
  destruct (api_DeletePV name (cl_api w)) as [[err|] a] eqn:E; simpl in Hc.
  - apply api_DeletePV_err in E. do 2 eexists. split_and!; [done|done|done|by left].
  - apply api_DeletePV_ok in E. do 2 eexists. split_and!; [done|done|done|by right].
Qed.

Lemma deleteStale_run pvs pv :
  pv ∈ pvs → returns (deletes_stale pvs) (deleteStale ls cfg pv).
Proof.
  intros Hin w. unfold deleteStale.
  destruct (IsLocalPVWithStorageClass _ _) eqn:H1; simpl; [|by do 2 eexists].
  destruct (referencesNonExistentNode ls pv) eqn:H2; simpl; [|by do 2 eexists].
  destruct (_ || _) eqn:H3; [|by do 2 eexists].
  assert (deletable pv) as Hdel.
  { split_and!; [done..|]. apply orb_true_iff in H3 as [H3|H3%bool_decide_eq_true]; [left|by right].
    by apply andb_true_iff in H3 as [?%bool_decide_eq_true ?%bool_decide_eq_true]. }
  destruct (deletePV_run (pv_Name pv) w) as (err&w1&Hrun&Hc&Hq&Hp). unfold mbind, M_bind.
  rewrite Hrun. destruct err; do 2 eexists; (split; [done|]); (split; [done..|]); intros name;
    (destruct Hp as [Hp|Hp]; [left; by rewrite <-Hp|]);
    (destruct (decide (name = pv_Name pv)) as [-> |Hne];
      [right; split; [rewrite <-(lookup_delete_eq (cl_pvs w) (pv_Name pv)), <-Hp; done|by exists pv]
      |left; rewrite <-(lookup_delete_ne (cl_pvs w) (pv_Name pv) name), <-Hp by done; done]).
Qed.

(** The volumes a timer is started for. *)
Definition timed (pv : PersistentVolume) : bool :=
  IsLocalPVWithStorageClass pv (storageClassNames cfg) &&
  match GetLocalPersistentVolumeNodeNames pv with
  | None => false
  | Some nodeNames => shouldEnqueueEntry ls pv nodeNames
  end.

Lemma startTimer_run pv (w : W) :
  ∃ w', startTimer ls cfg pv w = Done () w' ∧ cl_api w' = cl_api w ∧
    cl_queue w' = if timed pv then wq_AddAfter (pv_Name pv) (pvcDeletionDelay cfg) (cl_queue w)
                  else cl_queue w.
Proof.
  unfold startTimer, timed. destruct (IsLocalPVWithStorageClass _ _); [|by eexists]. simpl.
  destruct (GetLocalPersistentVolumeNodeNames pv) as [names|]; [|by eexists].
  destruct (shouldEnqueueEntry ls pv names) eqn:E; [|by eexists].
  unfold shouldEnqueueEntry in E. destruct (pvs_ClaimRef _); [|done]. by eexists.
Qed.
(** Handling a queued volume. *)
Lemma syncHandler_run name (w : W) :
  ∃ err w', syncHandler ls name w = Done err w' ∧ cl_pvs w' = cl_pvs w ∧
    cl_queue w' = cl_queue w ∧
    (cl_pvcs w' = cl_pvcs w ∨
     ∃ pvc c, orphaned name pvc ∧ err = None ∧
       let key := (om_Namespace (pvc_meta pvc), om_Name (pvc_meta pvc)) in
       cl_pvcs w !! key = Some c ∧ om_UID (pvc_meta c) = om_UID (pvc_meta pvc) ∧
       cl_pvcs w' = delete key (cl_pvcs w)).
Proof.
  assert (∀ r, ∃ err w', (mret r : M W (option error)) w = Done err w' ∧ cl_pvs w' = cl_pvs w ∧
    cl_queue w' = cl_queue w ∧ (cl_pvcs w' = cl_pvcs w ∨ False)) as Hret
    by (intros r; do 2 eexists; split_and!; try done; by left).
  unfold syncHandler.
  destruct (ls_GetPV ls name) as [pv|] eqn:H1; [|naive_solver].
  destruct (GetLocalPersistentVolumeNodeNames pv) as [names|] eqn:H2; [|naive_solver].
  destruct (AnyNodeExists _ names) eqn:H3; [naive_solver|].
  destruct (pvs_ClaimRef _) as [r|] eqn:H4; [|naive_solver].
  destruct (ls_GetPVC _ _ _) as [pvc|] eqn:H5; [|naive_solver].
  destruct (bool_decide _ || bool_decide _) eqn:H6; [naive_solver|].
  apply orb_false_iff in H6 as [H6%bool_decide_eq_false H7%bool_decide_eq_false].
  apply dec_stable in H6, H7.
  destruct (deletePVC_run pvc w) as (err&w1&Hrun&Hpv&Hq&Hc). unfold mbind, M_bind. rewrite Hrun.
  assert (∀ b, cl_pvs (count_pvc b w1) = cl_pvs w ∧ cl_queue (count_pvc b w1) = cl_queue w ∧
    cl_pvcs (count_pvc b w1) = cl_pvcs w1) as Hcount by (intros b; split_and!; done).
  destruct err as [err|]; do 2 eexists; (split_and!; [done|apply Hcount..|]).
  - left. destruct (Hcount true) as (_&_&->). destruct Hc as [?|(_&?&_)]; done.
  - destruct (Hcount false) as (_&_&->). destruct Hc as [?|(Hd&_&c&Hl&Hu)]; [by left|right].
    exists pvc, c. split_and!; [|done..]. exists pv, r, names. done.
Qed.

(** A pass over the listed volumes. *)
Lemma DeletePVs_run pvs (w : W) :
  ls_ListPVs ls = Ok pvs → ∃ w', DeletePVs ls cfg w = Done () w' ∧ deletes_stale pvs w w'.
Proof.
  intros Hl. unfold DeletePVs. rewrite Hl.
  assert (returns (deletes_stale pvs) (forM pvs () (λ _ pv, deleteStale ls cfg pv)
    : M W ())) as Hrun.
  { apply returns_forM; [apply _|]. intros _ pv Hin. by apply deleteStale_run. }
  destruct (Hrun w) as ([]&w'&?&?). eauto.
Qed.
End cleanup_lemmas.

(** C15. Claims are deleted safely.  Handling a queued volume never changes volumes
    or the queue, and the only claim it can delete is the orphaned claim of that
    volume: the listed claim and volume refer to each other, no node of the volume
    exists, and the claim that is removed from the server has the UID the volume
    was bound to (a new claim of the same name is never deleted). *)
Theorem claim_deletion_is_safe {API Q : Type} `{!KubeClient API, !WorkQueue Q}
    `{!KubeClientLaws API, !KubeClaimLaws API} (ls : Listers) name (w : CleanupWorld API Q) :
  ∃ err w', syncHandler ls name w = Done err w' ∧ cl_pvs w' = cl_pvs w ∧
    cl_queue w' = cl_queue w ∧
    (cl_pvcs w' = cl_pvcs w ∨
     ∃ pvc c, orphaned ls name pvc ∧ err = None ∧
       let key := (om_Namespace (pvc_meta pvc), om_Name (pvc_meta pvc)) in
       cl_pvcs w !! key = Some c ∧ om_UID (pvc_meta c) = om_UID (pvc_meta pvc) ∧
       cl_pvcs w' = delete key (cl_pvcs w)).
Proof. apply syncHandler_run. Qed.

(** C16. Stale volumes are deleted safely.  A pass over the listed volumes changes
    neither claims nor the queue, and it deletes the object of a volume only if the
    volume is local, of one of the configured classes, refers to non-existent
    nodes, and is available, or released with reclaim policy Delete. *)
Theorem stale_deletion_is_safe {API Q : Type} `{!KubeClient API, !WorkQueue Q}
    `{!KubeClientLaws API, !KubeClaimLaws API} (ls : Listers) cfg pvs (w : CleanupWorld API Q) :
  ls_ListPVs ls = Ok pvs →
  ∃ w', DeletePVs ls cfg w = Done () w' ∧ deletes_stale ls cfg pvs w w'.
Proof. apply DeletePVs_run. Qed.

(** Timers.  When a node is deleted (and at start), exactly the listed local
    volumes of the configured classes that are bound to a claim and whose nodes
    are all gone are queued, in order, each with the configured delay; nothing is
    deleted yet. *)
Theorem timers_for_orphaned_volumes {API Q : Type} `{!KubeClient API, !WorkQueue Q}
    (ls : Listers) cfg pvs (w : CleanupWorld API Q) :
  ls_ListPVs ls = Ok pvs →
  ∃ w', startCleanupTimersIfNeeded ls cfg w = Done () w' ∧ cl_api w' = cl_api w ∧
    cl_queue w' = fold_left (λ q pv, wq_AddAfter (pv_Name pv) (pvcDeletionDelay cfg) q)
                    (List.filter (timed ls cfg) pvs) (cl_queue w).
Proof.
  intros Hl. unfold startCleanupTimersIfNeeded. rewrite Hl. clear Hl. revert w.
  induction pvs as [|pv pvs IH]; intros w; simpl; [by exists w|].
  destruct (startTimer_run ls cfg pv w) as (w1&E1&Ha1&Hq1). unfold mbind, M_bind. rewrite E1.
  destruct (IH w1) as (w2&E2&Ha2&Hq2). exists w2. rewrite E2, Ha2, Hq2, Hq1.
  split_and!; [done|done|]. by destruct (timed ls cfg pv).
Qed.

(** ** Witnesses *)

(** A volume on a deleted node, bound to a claim; the node of the store is another. *)
Definition orphan_claim : PersistentVolumeClaim := {|
  pvc_meta := {| om_Name := "claim"; om_Namespace := "ns"; om_UID := "uid-1"; om_Labels := None;
                 om_Annotations := None; om_DeletionTimestamp := None; om_OwnerReferences := [] |};
  pvc_VolumeName := "pv1" |}.

Definition affinity_of (key : string) (values : list string) : VolumeNodeAffinity := {|
  vna_Required := Some {| ns_NodeSelectorTerms := [{|
    nst_MatchExpressions := [{| nsr_Key := key; nsr_Operator := NodeSelectorOpIn;
                                nsr_Values := values |}];
    nst_MatchFields := [] |}] |} |}.

Definition bound_volume (affinity : VolumeNodeAffinity) (phase : string) : PersistentVolume := {|
  pv_meta := named "pv1";
  pv_Spec := {|
    pvs_ReclaimPolicy := PersistentVolumeReclaimDelete; pvs_Capacity := ∅;
    pvs_Local := Some {| lvs_Path := "/mnt/disks/vol1"; lvs_FSType := None |};
    pvs_AccessModes := []; pvs_StorageClassName := "sc1"; pvs_VolumeMode := None;
    pvs_MountOptions := []; pvs_NodeAffinity := Some affinity;
    pvs_ClaimRef := Some {| ref_Namespace := "ns"; ref_Name := "claim"; ref_UID := "uid-1" |} |};
  pv_Phase := phase |}.

Definition present_node : Node := {| node_meta := named "node-2"; node_Taints := [] |}.

Definition cleanup_listers (pv : PersistentVolume) : Listers := {|
  ls_nodes := store_lister [present_node]; ls_GetPV := λ _, Ok pv; ls_ListPVs := Ok [pv];
  ls_GetPVC := λ _ _, Ok orphan_claim |}.

Definition cleanup_config : CleanupConfig :=
  {| storageClassNames := ["sc1"]; pvcDeletionDelay := 60 |}.

Definition cleanup_world (pv : PersistentVolume) : CleanupWorld MemServer MemQueue := {|
  cl_api := {| mem_pvs := {["pv1" := pv]}; mem_jobs := ∅; mem_nodes := ∅;
               mem_pvcs := {[("ns", "claim") := orphan_claim]}; mem_down := false |};
  cl_queue := empty_queue; cl_events := []; cl_pvcDeleted := 0; cl_pvcDeleteFailed := 0;
  cl_pvDeleted := ∅; cl_pvDeleteFailed := ∅ |}.

Lemma claim_deletion_is_safe_witness :
  ∃ err w', syncHandler (cleanup_listers (bound_volume (affinity_of LabelHostname ["node-1"]) VolumeBound))
      "pv1" (cleanup_world (bound_volume (affinity_of LabelHostname ["node-1"]) VolumeBound))
      = Done err w' ∧ cl_pvcs w' = ∅.
Proof.
  destruct (claim_deletion_is_safe
    (cleanup_listers (bound_volume (affinity_of LabelHostname ["node-1"]) VolumeBound)) "pv1"
    (cleanup_world (bound_volume (affinity_of LabelHostname ["node-1"]) VolumeBound)))
    as (err&w'&Hrun&_).
  exists err, w'. split; [exact Hrun|]. vm_compute in Hrun. injection Hrun as _ <-. reflexivity.
Defined.

Lemma stale_deletion_is_safe_witness :
  ∃ w', DeletePVs (cleanup_listers (bound_volume (affinity_of LabelHostname ["node-1"]) VolumeReleased))
      cleanup_config
      (cleanup_world (bound_volume (affinity_of LabelHostname ["node-1"]) VolumeReleased))
      = Done () w' ∧ cl_pvs w' = ∅.
Proof.
  destruct (stale_deletion_is_safe
    (cleanup_listers (bound_volume (affinity_of LabelHostname ["node-1"]) VolumeReleased)) cleanup_config
    [bound_volume (affinity_of LabelHostname ["node-1"]) VolumeReleased]
    (cleanup_world (bound_volume (affinity_of LabelHostname ["node-1"]) VolumeReleased)) eq_refl)
    as (w'&Hrun&_).
  exists w'. split; [exact Hrun|]. vm_compute in Hrun. injection Hrun as <-. reflexivity.
Defined.

Lemma timers_for_orphaned_volumes_witness :
  ∃ w', startCleanupTimersIfNeeded
      (cleanup_listers (bound_volume (affinity_of LabelHostname ["node-1"]) VolumeBound)) cleanup_config
      (cleanup_world (bound_volume (affinity_of LabelHostname ["node-1"]) VolumeBound)) = Done () w' ∧
    mq_delayed (cl_queue w') = [("pv1", 60%Z)].
Proof.
  destruct (timers_for_orphaned_volumes
    (cleanup_listers (bound_volume (affinity_of LabelHostname ["node-1"]) VolumeBound)) cleanup_config
    [bound_volume (affinity_of LabelHostname ["node-1"]) VolumeBound]
    (cleanup_world (bound_volume (affinity_of LabelHostname ["node-1"]) VolumeBound)) eq_refl)
    as (w'&Hrun&_&Hq).
  exists w'. split; [exact Hrun|]. rewrite Hq. vm_compute. reflexivity.
Defined.

Lemma affinity_without_hostname_is_stale_witness :
  referencesNonExistentNode
    (cleanup_listers (bound_volume (affinity_of "topology.kubernetes.io/zone" ["z1"]) VolumeAvailable))
    (bound_volume (affinity_of "topology.kubernetes.io/zone" ["z1"]) VolumeAvailable) = true.
Proof.
  eapply affinity_without_hostname_is_stale; [reflexivity|].
  repeat constructor. intros [H _]. discriminate.
Defined.
