(* ===== verification/Workers.v ===== *)
(** * Workers: the goroutines that take items from a work queue

    [CleanupController.Run] with its worker goroutines, and [jobController.Run], which is
    a worker itself: [wait.Until] around [runWorker], which calls [processNextItem] until
    the queue is shut down.  A worker holds an item between [queue.Get] and [queue.Done],
    and the steps of workers, of [Run], of the queue and of the event handlers
    interleave. *)
From S2P Require Import Prelude GoLib K8s Common WorkQueue JobController NodeCleanup.

(** ** Invariant of the queue: what needs processing is queued, once, or is being
    processed *)
Record queue_inv (q : Queue) : Prop := {
  qi_nodup : NoDup (q_queue q);
  qi_queue : ∀ k, k ∈ q_queue q ↔ k ∈ q_dirty q ∧ k ∉ q_processing q }.

Lemma new_queue_inv : queue_inv new_queue.
Proof. split; simpl; [constructor|set_solver]. Qed.

Lemma Add_inv k q : queue_inv q → queue_inv (queue.Add k q).
Proof.
  intros [Hnd Hq]. unfold queue.Add. destruct (q_shuttingDown q); [by split|].
  case_decide as Hk; [by split|]. split; simpl.
  - case_decide; [done|]. apply NoDup_app. split_and!; [done| |apply NoDup_singleton].
    intros k' Hin ->%list_elem_of_singleton. by apply Hq in Hin as [].
  - intros k'. case_decide; set_solver.
Qed.

Lemma waiting_inv w q : queue_inv q → queue_inv (queue.with_waiting w q).
Proof. by intros []. Qed.

Lemma failures_inv f q : queue_inv q → queue_inv (queue.with_failures f q).
Proof. by intros []. Qed.

Lemma AddAfter_inv k d q : queue_inv q → queue_inv (queue.AddAfter k d q).
Proof.
  intros. unfold queue.AddAfter. destruct (q_shuttingDown q); [done|].
  case_decide; [by apply Add_inv|by apply waiting_inv].
Qed.

Lemma Get_inv k q q' : queue_inv q → queue.Get q = (Some k, q') → queue_inv q'.
Proof.
  intros [Hnd Hq] H. unfold queue.Get in H. destruct (q_queue q) as [|k' ks] eqn:Hks; [done|].
  injection H as -> <-. apply NoDup_cons in Hnd as [??]. split; simpl; [done|].
  intros k'. specialize (Hq k'). set_solver.
Qed.

Lemma Done_inv k q : k ∈ q_processing q → queue_inv q → queue_inv (queue.Done k q).
Proof.
  intros Hk [Hnd Hq]. split; simpl.
  - case_decide; [|done]. apply NoDup_app. split_and!; [done| |apply NoDup_singleton].
    intros k' Hin ->%list_elem_of_singleton. by apply Hq in Hin as [].
  - intros k'. specialize (Hq k'). case_decide;
      rewrite ?elem_of_app, ?list_elem_of_singleton, Hq, elem_of_difference, elem_of_singleton;
      destruct (decide (k' = k)); naive_solver.
Qed.

(** What goroutines other than the workers do to the queue. *)
Inductive queue_change (q : Queue) : Queue → Prop :=
| change_add k : queue_change q (queue.Add k q)
| change_after k d : queue_change q (queue.AddAfter k d q)
| change_ripen k : queue_change q (queue.ripen k q).

Lemma ripen_inv k q : queue_inv q → queue_inv (queue.ripen k q).
Proof.
  intros. unfold queue.ripen. destruct (q_shuttingDown q); [done|].
  by apply Add_inv, waiting_inv.
Qed.

(** The parts of a queue that a change by others leaves alone. *)
Definition same_hold (q q' : Queue) : Prop :=
  q_processing q' = q_processing q ∧ q_shuttingDown q' = q_shuttingDown q ∧
  (q_shuttingDown q = true → q' = q).

Lemma queue_change_inv q q' : queue_change q q' → queue_inv q → queue_inv q' ∧ same_hold q q'.
Proof.
  intros [] ?.
  - split; [by apply Add_inv|]. unfold same_hold, queue.Add.
    destruct (q_shuttingDown q) eqn:?; [done|]. by case_decide.
  - split; [by apply AddAfter_inv|]. unfold same_hold, queue.AddAfter, queue.Add.
    destruct (q_shuttingDown q) eqn:?; [done|]. by repeat case_decide.
  - split; [by apply ripen_inv|]. unfold same_hold, queue.ripen, queue.Add.
    destruct (q_shuttingDown q) eqn:E; [done|]. simpl. rewrite E. by case_decide.
Qed.

Lemma queue_changes_inv q q' :
  rtc queue_change q q' → queue_inv q → queue_inv q' ∧ same_hold q q'.
Proof.
  induction 1 as [|q q1 q' Hc _ IH]; intros; [done|].
  destruct (queue_change_inv _ _ Hc) as [? (Hp&Hs&He)]; [done|].
  destruct IH as [? (Hp'&Hs'&He')]; [done|]. split; [done|]. unfold same_hold.
  rewrite Hp', Hp, Hs', Hs. split_and!; [done..|]. intros Hd.
  rewrite He' by congruence. by apply He.
Qed.

(** ** Workers *)

(** What a pool of workers shares: a queue, the handler of an item, which ends by
    forgetting or requeueing the item and calling [Done], and what else happens. *)
Class Shared (S : Type) := {
  sh_queue : S → Queue;
  sh_set_queue : Queue → S → S;
  sh_handle : string → S → S → Prop;
  sh_env : S → S → Prop;
  sh_queue_set : ∀ q s, sh_queue (sh_set_queue q s) = q;
  sh_handle_total : ∀ k s, ∃ s', sh_handle k s s';
  sh_handle_queue : ∀ k s s', sh_handle k s s' →
    sh_queue s' = wq_Done k (wq_Forget k (sh_queue s)) ∨
    sh_queue s' = wq_Done k (wq_AddRateLimited k (sh_queue s));
  sh_env_queue : ∀ s s', sh_env s s' → rtc queue_change (sh_queue s) (sh_queue s') }.

(** Where a goroutine is that runs [wait.Until(runWorker, time.Second, stop)]: at the
    check of [stop], in [queue.Get], in the handler, or in the select on [stop] and the
    timer after [runWorker] returned. *)
Inductive worker := Checking | Fetching | Handling (k : string) | Sleeping | Finished.

#[export] Instance worker_eq_dec : EqDecision worker.
Proof. solve_decision. Defined.

(** The item a worker is at. *)
Definition held (w : worker) : option string :=
  match w with Handling k => Some k | _ => None end.

Lemma held_elem k (ws : list worker) : k ∈ omap held ws → Handling k ∈ ws.
Proof. intros (w&?&Hk)%list_elem_of_omap. by destruct w; simplify_eq/=. Qed.

Lemma held_once (ws : list worker) i j k :
  NoDup (omap held ws) → ws !! i = Some (Handling k) → ws !! j = Some (Handling k) → i = j.
Proof.
  revert i j. induction ws as [|w ws IH]; intros i j Hn Hi Hj; [done|].
  assert (∀ n, ws !! n = Some (Handling k) → k ∈ omap held ws) as Hin.
  { intros n Hw%list_elem_of_lookup_2. apply list_elem_of_omap. by exists (Handling k). }
  destruct i as [|i], j as [|j]; simplify_eq/=; try done.
  - apply NoDup_cons in Hn as [[]]. by eapply Hin.
  - apply NoDup_cons in Hn as [[]]. by eapply Hin.
  - f_equal. eapply IH; [|done..]. destruct (held w); [by apply NoDup_cons in Hn as []|done].
Qed.

Section workers.
Context {S : Type} `{!Shared S}.

Inductive worker_step (stop : bool) : worker → S → worker → S → Prop :=
| check_stopped s : stop = true → worker_step stop Checking s Finished s
| check_open s : stop = false → worker_step stop Checking s Fetching s
| get_item s k q :
    wq_Get (sh_queue s) = (Some k, q) →
    worker_step stop Fetching s (Handling k) (sh_set_queue q s)
| get_quit s :
    q_queue (sh_queue s) = [] → q_shuttingDown (sh_queue s) = true →
    worker_step stop Fetching s Sleeping s
| handle_item s k s' : sh_handle k s s' → worker_step stop (Handling k) s Fetching s'
| sleep_stopped s : stop = true → worker_step stop Sleeping s Finished s
| sleep_over s : worker_step stop Sleeping s Checking s.

(** The workers, the state they share, and whether the stop channel is closed. *)
Record Pool := { p_shared : S; p_stop : bool; p_workers : list worker }.

Inductive pool_env (p : Pool) : Pool → Prop :=
| env_stop : pool_env p {| p_shared := p_shared p; p_stop := true; p_workers := p_workers p |}
| env_event s : sh_env (p_shared p) s →
    pool_env p {| p_shared := s; p_stop := p_stop p; p_workers := p_workers p |}.

Inductive pool_work (p : Pool) : Pool → Prop :=
| work l1 w l2 w' s :
    p_workers p = l1 ++ w :: l2 → worker_step (p_stop p) w (p_shared p) w' s →
    pool_work p {| p_shared := s; p_stop := p_stop p; p_workers := l1 ++ w' :: l2 |}.

(** The items that are being processed are those the workers are at, each at one. *)
Record pool_inv (p : Pool) : Prop := {
  pi_queue : queue_inv (sh_queue (p_shared p));
  pi_nodup : NoDup (omap held (p_workers p));
  pi_held : ∀ k, k ∈ q_processing (sh_queue (p_shared p)) ↔ k ∈ omap held (p_workers p) }.

Lemma pool_env_inv p p' : pool_env p p' → pool_inv p → pool_inv p'.
Proof.
  intros [|s Hs] [Hq Hn Hh]; [by split|].
  destruct (queue_changes_inv _ _ (sh_env_queue _ _ Hs) Hq) as [? (Hp&_&_)].
  split; simpl; [done..|]. by rewrite Hp.
Qed.

(** The queue when a handler has ended: the item is not processed any more; what needs
    processing can only have become more, by this item, and only before a shutdown. *)
Lemma handle_queue_inv k s s' :
  sh_handle k s s' → k ∈ q_processing (sh_queue s) → queue_inv (sh_queue s) →
  queue_inv (sh_queue s') ∧
  q_processing (sh_queue s') = q_processing (sh_queue s) ∖ {[k]} ∧
  q_shuttingDown (sh_queue s') = q_shuttingDown (sh_queue s) ∧
  (q_shuttingDown (sh_queue s) = true → q_dirty (sh_queue s') = q_dirty (sh_queue s)).
Proof.
  intros [-> | ->]%sh_handle_queue Hk Hq; simpl.
  - split_and!; [|done..]. apply Done_inv; [done|by apply failures_inv].
  - unfold queue.AddRateLimited.
    set (q := queue.with_failures _ (sh_queue s)).
    assert (queue_inv q) as Hq' by by apply failures_inv.
    destruct (queue_change_inv _ _ (change_after q k (When (queue.NumRequeues k (sh_queue s))))
                Hq') as [? (Hp&Hs&He)].
    split_and!; [apply Done_inv; [by rewrite Hp|done]|by rewrite Hp|by rewrite Hs|].
    intros Hd. by rewrite He.
Qed.

Lemma held_middle l1 w l2 :
  omap held (l1 ++ w :: l2) ≡ₚ option_list (held w) ++ omap held (l1 ++ l2).
Proof.
  rewrite !omap_app. simpl. destruct (held w); simpl; [|done].
  by rewrite Permutation_middle.
Qed.

Lemma Get_held k q q' :
  queue_inv q → queue.Get q = (Some k, q') →
  k ∈ q_dirty q ∧ (k ∉ q_processing q) ∧ (q_dirty q' = q_dirty q ∖ {[k]}) ∧
  q_processing q' = {[k]} ∪ q_processing q ∧ q_shuttingDown q' = q_shuttingDown q.
Proof.
  intros [_ Hq] H. unfold queue.Get in H. destruct (q_queue q) as [|k' ks] eqn:Hks; [done|].
  injection H as -> <-. simpl. destruct (proj1 (Hq k)); [by left|done].
Qed.

Lemma pool_work_inv p p' : pool_work p p' → pool_inv p → pool_inv p'.
Proof.
  intros [l1 w l2 w' s Hw Hstep] [Hq Hn Hh].
  rewrite Hw in Hn, Hh. setoid_rewrite held_middle in Hh. rewrite held_middle in Hn.
  destruct p as [s0 stop ws]; simpl in *.
  destruct Hstep as [s _|s _|s k q Hg|s ? _|s k s' Hs|s _|s]; simpl in *;
    try (split; simpl; [done|by rewrite held_middle|by setoid_rewrite held_middle]).
  - destruct (Get_held _ _ _ Hq Hg) as (_&Hk&_&Hp&_).
    split; simpl; rewrite ?sh_queue_set; [by eapply Get_inv|rewrite held_middle; simpl|].
    + apply NoDup_cons. by rewrite <- Hh.
    + intros k'. rewrite held_middle, Hp, elem_of_union, elem_of_singleton, Hh. simpl.
      by rewrite elem_of_cons.
  - apply NoDup_cons in Hn as [Hk Hn].
    destruct (handle_queue_inv _ _ _ Hs) as (?&Hp&_); [apply Hh; by left|done|].
    split; simpl; [done|by rewrite held_middle|].
    intros k'. rewrite held_middle, Hp, elem_of_difference, elem_of_singleton, Hh. simpl.
    rewrite elem_of_cons. naive_solver.
Qed.

(** ** Termination after a shutdown

    The number of steps the workers can still make: each item that needs processing takes
    two, after the one that a worker at the queue takes to find it. *)
Definition weight (w : worker) : nat :=
  match w with Handling _ => 4 | Fetching => 3 | Sleeping => 2 | Checking => 1 | Finished => 0 end.

Definition pool_measure (p : Pool) : nat :=
  3 * size (q_dirty (sh_queue (p_shared p))) + sum_list_with weight (p_workers p).

(** The queue is shut down and the stop channel is closed. *)
Record down (p : Pool) : Prop := {
  down_stop : p_stop p = true;
  down_queue : q_shuttingDown (sh_queue (p_shared p)) = true }.

Lemma down_env p p' :
  pool_env p p' → pool_inv p → down p → down p' ∧ pool_measure p' = pool_measure p.
Proof.
  intros [|s Hs] [Hq _ _] [? Hd]; [by split|].
  destruct (queue_changes_inv _ _ (sh_env_queue _ _ Hs) Hq) as [_ (_&_&He)].
  unfold pool_measure. simpl. rewrite He by done. split; [|done]. split; simpl; [done|].
  by rewrite He.
Qed.

Lemma down_work p p' :
  pool_work p p' → pool_inv p → down p → down p' ∧ pool_measure p' < pool_measure p.
Proof.
  intros [l1 w l2 w' s Hw Hstep] [Hq _ Hh] [Hstop Hd].
  unfold pool_measure. rewrite Hw in Hh |- *. setoid_rewrite held_middle in Hh.
  destruct p as [s0 stop ws]; simpl in *. rewrite !sum_list_with_app. simpl.
  destruct Hstep as [s _|s ?|s k q Hg|s ? _|s k s' Hs|s _|s]; simpl in *; try congruence;
    try (split; [done|lia]).
  - destruct (Get_held _ _ _ Hq Hg) as (Hk&_&Hdirty&_&Hs).
    split; [split; simpl; rewrite ?sh_queue_set; congruence|].
    rewrite sh_queue_set, Hdirty, size_difference, size_singleton by set_solver.
    assert (size (q_dirty (sh_queue s)) ≠ 0) by (rewrite size_non_empty_iff; set_solver). lia.
  - destruct (handle_queue_inv _ _ _ Hs) as (_&_&Hs'&Hdirty); [apply Hh; by left|done|].
    rewrite Hdirty by done. split; [split; simpl; congruence|lia].
Qed.

(** After a shutdown, a worker that has not finished can make a step. *)
Lemma down_progress p w : down p → w ∈ p_workers p → w ≠ Finished → ∃ p', pool_work p p'.
Proof.
  intros [Hstop Hd] (l1&l2&Hw)%list_elem_of_split Hfin.
  assert (∃ w' s, worker_step (p_stop p) w (p_shared p) w' s) as (w'&s&?).
  { destruct w as [| |k| |]; [| | | |done].
    - do 2 eexists. by apply check_stopped.
    - destruct (queue.Get (sh_queue (p_shared p))) as [[k|] q] eqn:Hg.
      + do 2 eexists. by eapply get_item.
      + do 2 eexists. apply get_quit; [|done].
        unfold queue.Get in Hg. by destruct (q_queue _).
    - destruct (sh_handle_total k (p_shared p)) as [s' ?]. do 2 eexists. by eapply handle_item.
    - do 2 eexists. by apply sleep_stopped. }
  eexists. by eapply work.
Qed.

(** [runs n p p']: a run in which the workers make [n] steps. *)
Inductive runs : nat → Pool → Pool → Prop :=
| runs_refl p : runs 0 p p
| runs_env n p p1 p2 : pool_env p p1 → runs n p1 p2 → runs n p p2
| runs_work n p p1 p2 : pool_work p p1 → runs n p1 p2 → runs (Datatypes.S n) p p2.

Lemma runs_down n p p' :
  runs n p p' → pool_inv p → down p → down p' ∧ n + pool_measure p' ≤ pool_measure p.
Proof.
  induction 1 as [p|n p p1 p2 Hs _ IH|n p p1 p2 Hs _ IH]; intros Hi Hd; [by split|..].
  - destruct (down_env _ _ Hs Hi Hd) as [? <-]. by apply IH; [eapply pool_env_inv|].
  - destruct (down_work _ _ Hs Hi Hd) as [? ?].
    destruct IH; [by eapply pool_work_inv|done|]. split; [done|lia].
Qed.

(** A run after a shutdown is bounded, and when it cannot go on all workers have finished. *)
Lemma runs_end n p p' :
  runs n p p' → pool_inv p → down p →
  n ≤ pool_measure p ∧
  ((∀ p'', ¬ pool_work p' p'') → Forall (λ w, w = Finished) (p_workers p')).
Proof.
  intros Hr Hi Hd. destruct (runs_down _ _ _ Hr Hi Hd) as [Hd' ?]. split; [lia|].
  intros Hstuck. apply Forall_forall. intros w Hw.
  destruct (decide (w = Finished)) as [|Hne]; [done|].
  by destruct (down_progress _ _ Hd' Hw Hne) as [p'' ?%Hstuck].
Qed.
End workers.

(** ** [CleanupController.Run]

    It waits for the caches, starts the workers, looks for stale volumes, waits for the
    context to be done and, when it returns, shuts the queue down. *)
Inductive run_pc := Syncing | Launching (i : nat) | Scanning | Waiting | Returned (failed : bool).

Section run.
Context {S : Type} `{!Shared S}.

Record RunState := { r_pc : run_pc; r_pool : Pool (S := S) }.

Definition shut_down (p : Pool) : Pool :=
  {| p_shared := sh_set_queue (queue.ShutDown (sh_queue (p_shared p))) (p_shared p);
     p_stop := p_stop p; p_workers := p_workers p |}.

Definition launch (p : Pool (S := S)) : Pool (S := S) :=
  {| p_shared := p_shared p; p_stop := p_stop p; p_workers := p_workers p ++ [Checking] |}.

Inductive run_step (workers : nat) (r : RunState) : RunState → Prop :=
| run_env p : pool_env (r_pool r) p → run_step workers r {| r_pc := r_pc r; r_pool := p |}
| run_work p : pool_work (r_pool r) p → run_step workers r {| r_pc := r_pc r; r_pool := p |}
| run_synced :
    r_pc r = Syncing → run_step workers r {| r_pc := Launching 0; r_pool := r_pool r |}
| run_sync_failed :
    r_pc r = Syncing → p_stop (r_pool r) = true →
    run_step workers r {| r_pc := Returned true; r_pool := shut_down (r_pool r) |}
| run_launch i :
    r_pc r = Launching i → i < workers →
    run_step workers r {| r_pc := Launching (i + 1); r_pool := launch (r_pool r) |}
| run_launched i :
    r_pc r = Launching i → workers ≤ i →
    run_step workers r {| r_pc := Scanning; r_pool := r_pool r |}
| run_scan s :
    r_pc r = Scanning → sh_env (p_shared (r_pool r)) s →
    run_step workers r {| r_pc := Waiting; r_pool :=
      {| p_shared := s; p_stop := p_stop (r_pool r); p_workers := p_workers (r_pool r) |} |}
| run_done :
    r_pc r = Waiting → p_stop (r_pool r) = true →
    run_step workers r {| r_pc := Returned false; r_pool := shut_down (r_pool r) |}.

(** [Run] is called, with a queue in any good state in which no worker has an item. *)
Definition run_start (s : S) : RunState :=
  {| r_pc := Syncing; r_pool := {| p_shared := s; p_stop := false; p_workers := [] |} |}.

Definition idle (q : Queue) : Prop := queue_inv q ∧ q_processing q = ∅.

Record run_inv (r : RunState) : Prop := {
  ri_pool : pool_inv (r_pool r);
  ri_down : ∀ failed, r_pc r = Returned failed → down (r_pool r) }.

Lemma shut_down_inv p : pool_inv p → pool_inv (shut_down p).
Proof.
  intros [[Hnd Hq] Hn Hh].
  split; simpl; [|done|]; rewrite sh_queue_set; simpl; [by split|done].
Qed.

Lemma launch_inv p : pool_inv p → pool_inv (launch p).
Proof. intros []. split; simpl; [done|..]; rewrite omap_app; simpl; by rewrite app_nil_r. Qed.

Lemma run_step_inv workers r r' : run_step workers r r' → run_inv r → run_inv r'.
Proof.
  intros Hstep [Hp Hd].
  destruct Hstep as [p Hs|p Hs|Hpc|Hpc ?|i Hpc ?|i Hpc ?|s Hpc Hs|Hpc ?]; split; simpl; try done.
  - by eapply pool_env_inv.
  - intros f Hf. eapply down_env; eauto.
  - by eapply pool_work_inv.
  - intros f Hf. eapply down_work; eauto.
  - by apply shut_down_inv.
  - intros f _. split; simpl; [done|]. by rewrite sh_queue_set.
  - by apply launch_inv.
  - by eapply pool_env_inv; [apply env_event|].
  - by apply shut_down_inv.
  - intros f _. split; simpl; [done|]. by rewrite sh_queue_set.
Qed.

Lemma run_inv_reachable workers s r :
  idle (sh_queue s) → rtc (run_step workers) (run_start s) r → run_inv r.
Proof.
  intros [Hq Hp] Hr.
  assert (run_inv (run_start s)) as Hi.
  { split; simpl; [|done]. split; simpl; [done|constructor|]. rewrite Hp. set_solver. }
  eapply (rtc_invariant _ run_inv); [done|intros; by eapply run_step_inv|done].
Qed.

(** ** [jobController.Run]

    The same loop, run by [Run] itself: the queue is shut down when the loop has ended. *)
Record JobRun := { j_returned : bool; j_pool : Pool (S := S) }.

Inductive job_run_step (j : JobRun) : JobRun → Prop :=
| job_env p : pool_env (j_pool j) p → job_run_step j {| j_returned := j_returned j; j_pool := p |}
| job_work p : pool_work (j_pool j) p → job_run_step j {| j_returned := j_returned j; j_pool := p |}
| job_return :
    j_returned j = false → p_workers (j_pool j) = [Finished] →
    job_run_step j {| j_returned := true; j_pool := shut_down (j_pool j) |}.

Definition job_run_start (s : S) : JobRun :=
  {| j_returned := false; j_pool := {| p_shared := s; p_stop := false; p_workers := [Checking] |} |}.

(** [Run] is inside [runWorker], with the queue open. *)
Record in_worker (j : JobRun) : Prop := {
  iw_returned : j_returned j = false;
  iw_worker : ∃ w, p_workers (j_pool j) = [w] ∧ (w = Fetching ∨ is_Some (held w));
  iw_open : q_shuttingDown (sh_queue (p_shared (j_pool j))) = false;
  iw_inv : pool_inv (j_pool j) }.

Lemma singleton_middle {A} (x y : A) l1 l2 : [x] = l1 ++ y :: l2 → l1 = [] ∧ y = x ∧ l2 = [].
Proof. destruct l1 as [|? []]; naive_solver. Qed.

(** Workers do not open or shut the queue. *)
Lemma pool_work_open p p' :
  pool_work p p' → pool_inv p →
  q_shuttingDown (sh_queue (p_shared p')) = q_shuttingDown (sh_queue (p_shared p)).
Proof.
  intros [l1 w l2 w' s Hw Hstep] [Hq _ Hh]. rewrite Hw in Hh. setoid_rewrite held_middle in Hh.
  destruct p as [s0 stop ws]; simpl in *.
  destruct Hstep as [s _|s _|s k q Hg|s ? _|s k s' Hs|s _|s]; simpl in *; try done.
  - rewrite sh_queue_set. by destruct (Get_held _ _ _ Hq Hg) as (_&_&_&_&?).
  - destruct (handle_queue_inv _ _ _ Hs) as (_&_&?&_); [apply Hh; by left|done|done].
Qed.

Lemma in_worker_work p p' w :
  pool_work p p' → p_workers p = [w] → w = Fetching ∨ is_Some (held w) →
  q_shuttingDown (sh_queue (p_shared p)) = false →
  ∃ w', p_workers p' = [w'] ∧ (w' = Fetching ∨ is_Some (held w')).
Proof.
  intros [l1 w0 l2 w' s Hw Hstep] Hws Hin Hopen.
  rewrite Hws in Hw. apply singleton_middle in Hw as (->&->&->). simpl in *.
  destruct p as [s0 stop ws]; simpl in *. eexists. split; [done|].
  destruct Hstep; simpl in *; try (by destruct Hin as [?|[??]]); [|congruence|by left].
  right. by eexists.
Qed.

Lemma pool_env_open p p' :
  pool_env p p' → pool_inv p → p_workers p' = p_workers p ∧
  q_shuttingDown (sh_queue (p_shared p')) = q_shuttingDown (sh_queue (p_shared p)).
Proof.
  intros [|s Hs] Hi; [done|]. split; [done|]. simpl.
  by destruct (queue_changes_inv _ _ (sh_env_queue _ _ Hs) (pi_queue _ Hi)) as [_ (_&?&_)].
Qed.

Lemma in_worker_step j j' : job_run_step j j' → in_worker j → in_worker j'.
Proof.
  intros Hstep [Hr (w&Hw&Hin) Ho Hi]. destruct Hstep as [p Hs|p Hs|_ Hf].
  - destruct (pool_env_open _ _ Hs Hi) as [Hw' Ho'].
    split; simpl; [done|rewrite Hw'; eauto|congruence|by eapply pool_env_inv].
  - split; simpl; [done|by eapply in_worker_work| |by eapply pool_work_inv].
    by erewrite pool_work_open.
  - rewrite Hw in Hf. injection Hf as ->. by destruct Hin as [?|[??]].
Qed.

(** Until the loop has ended, [Run] has not returned and the queue is open. *)
Record job_run_inv (j : JobRun) : Prop := {
  jr_pool : pool_inv (j_pool j);
  jr_worker : ∃ w, p_workers (j_pool j) = [w] ∧
    (w ≠ Finished → j_returned j = false ∧
       q_shuttingDown (sh_queue (p_shared (j_pool j))) = false) }.

Lemma job_run_inv_step j j' : job_run_step j j' → job_run_inv j → job_run_inv j'.
Proof.
  intros Hstep [Hi (w&Hw&Hopen)]. destruct Hstep as [p Hs|p Hs|_ Hf].
  - destruct (pool_env_open _ _ Hs Hi) as [Hw' Ho']. split; simpl; [by eapply pool_env_inv|].
    exists w. by rewrite Hw', Ho'.
  - split; simpl; [by eapply pool_work_inv|]. rewrite (pool_work_open _ _ Hs Hi).
    destruct Hs as [l1 w0 l2 w' s Hws Hstep]. rewrite Hw in Hws.
    apply singleton_middle in Hws as (->&->&->). simpl. exists w'. split; [done|].
    intros _. apply Hopen. intros ->. inversion Hstep.
  - split; simpl; [by apply shut_down_inv|]. exists Finished. by rewrite Hf.
Qed.

Lemma job_reachable s j :
  idle (sh_queue s) → q_shuttingDown (sh_queue s) = false →
  rtc job_run_step (job_run_start s) j → p_workers (j_pool j) = [Fetching] → in_worker j.
Proof.
  intros [Hq Hp] Ho Hj Hf.
  assert (job_run_inv j) as [Hi (w&Hw&Hopen)].
  { eapply (rtc_invariant _ job_run_inv); [|intros; by eapply job_run_inv_step|done].
    split; simpl; [|by exists Checking].
    split; simpl; [done|constructor|]. rewrite Hp. set_solver. }
  rewrite Hf in Hw. injection Hw as <-. destruct Hopen; [done|]. split; try done.
  exists Fetching. auto.
Qed.
End run.

(** ** The two controllers *)

(** The queue of the job controller: informer events, and retries that are due. *)
#[export, program] Instance job_shared : Shared Queue := {|
  sh_queue q := q;
  sh_set_queue q _ := q;
  sh_handle k q q' := ∃ jobLister, q' = JobController.processGot jobLister k q;
  sh_env q q' := (∃ m, q' = job_event m q) ∨ (∃ k, q' = queue.ripen k q) |}.
Next Obligation. done. Qed.
Next Obligation.
  intros k q. eexists. by exists (λ _ name, Err (APIError ReasonNotFound name)).
Qed.
Next Obligation.
  intros k q q' [jobLister ->]. unfold JobController.processGot.
  destruct (processItem jobLister k); [by left|]. case_match; [by right|by left].
Qed.
Next Obligation.
  intros q q' [[m ->]|[k ->]]; apply rtc_once; [apply change_add|apply change_ripen].
Qed.

Section cleanup.
Context {API : Type} `{!KubeClient API} (cfg : CleanupConfig).
Abbreviation W := (CleanupWorld API Queue).

(** The handler of an item leaves the queue to [processGot]. *)
Lemma syncHandler_queue ls k (w : W) :
  ∃ err w', syncHandler ls k w = Done err w' ∧ cl_queue w' = cl_queue w.
Proof.
  unfold syncHandler, deletePVC. unfold_monad.
  repeat (case_match; simplify_eq/=; try by do 2 eexists).
Qed.

Lemma startTimer_queue ls pv :
  preserves (λ w w' : W, rtc queue_change (cl_queue w) (cl_queue w')) (startTimer ls cfg pv).
Proof.
  intros w. unfold startTimer. unfold_monad.
  repeat (case_match; simplify_eq/=; try done).
  apply rtc_once, change_after.
Qed.

#[export] Instance queue_changes_preorder :
  PreOrder (λ w w' : W, rtc queue_change (cl_queue w) (cl_queue w')).
Proof. split; [by intros ?|intros ???; apply transitivity]. Qed.

Lemma scan_queue ls (w w' : W) :
  startCleanupTimersIfNeeded ls cfg w = Done () w' →
  rtc queue_change (cl_queue w) (cl_queue w').
Proof.
  intros H.
  assert (preserves (λ w w' : W, rtc queue_change (cl_queue w) (cl_queue w'))
            (startCleanupTimersIfNeeded ls cfg)) as Hp.
  { unfold startCleanupTimersIfNeeded. destruct (ls_ListPVs ls).
    - apply preserves_forM; [apply _|]. intros. apply startTimer_queue.
    - apply preserves_ret. apply _. }
  specialize (Hp w). by rewrite H in Hp.
Qed.

(** The state of the cleanup controller: a handler sees some state of the listers; the
    scan of [nodeDeleted], delayed items that are due, and anything that does not touch
    the queue. *)
#[program] Definition cleanup_shared : Shared W := {|
  sh_queue := cl_queue;
  sh_set_queue := cl_set_queue;
  sh_handle k w w' := ∃ ls, NodeCleanup.processGot ls k w = Done () w';
  sh_env w w' :=
    (∃ ls, startCleanupTimersIfNeeded ls cfg w = Done () w') ∨
    (∃ k, w' = cl_set_queue (queue.ripen k (cl_queue w)) w) ∨ cl_queue w' = cl_queue w |}.
Next Obligation. done. Qed.
Next Obligation.
  intros k w.
  set (ls := {| ls_nodes := store_lister []; ls_ListPVs := Ok [];
                ls_GetPV n := Err (APIError ReasonNotFound n);
                ls_GetPVC _ n := Err (APIError ReasonNotFound n) |}).
  destruct (syncHandler_queue ls k w) as (err&w1&Hs&_).
  eexists. exists ls. unfold processGot. unfold_monad. by rewrite Hs.
Qed.
Next Obligation.
  intros k w w' [ls H]. destruct (syncHandler_queue ls k w) as (err&w1&Hs&Hq).
  unfold processGot in H. unfold_monad. rewrite Hs in H. injection H as <-. simpl. rewrite Hq.
  destruct err; [by right|by left].
Qed.
Next Obligation.
  intros w w' [[ls H]|[[k ->]|H]]; [by eapply scan_queue|apply rtc_once, change_ripen|by rewrite H].
Qed.
End cleanup.

(** ** Properties *)

(** C17. Whatever the interleaving of the workers of the node-cleanup controller with
    scans, deliveries of delayed items, the shutdown and each other: no two workers are
    ever at the same volume, and a volume that needs to be looked at is in the queue, or
    with a worker after which it will be in the queue. *)
Theorem one_worker_per_volume {API : Type} `{!KubeClient API} (cfg : CleanupConfig)
    (workers : nat) (w : CleanupWorld API Queue) (r : RunState)
    (Hidle : idle (cl_queue w))
    (Hr : rtc (run_step (Shared0 := cleanup_shared cfg) workers) (run_start w) r) :
  (∀ i j k, p_workers (r_pool r) !! i = Some (Handling k) →
     p_workers (r_pool r) !! j = Some (Handling k) → i = j) ∧
  (∀ k, let q := cl_queue (p_shared (r_pool r)) in
     k ∈ q_dirty q → k ∉ q_queue q → Handling k ∈ p_workers (r_pool r)).
Proof.
  destruct (run_inv_reachable (Shared0 := cleanup_shared cfg) _ _ _ Hidle Hr)
    as [[[_ Hq] Hn Hh] _]. split.
  - intros i j k. by apply held_once.
  - intros k q Hd Hnq. apply held_elem, Hh. simpl in *. destruct (decide (k ∈ q_processing q));
      [done|]. exfalso. apply Hnq, Hq. done.
Qed.

(** C18. When [CleanupController.Run] has returned, its workers stop: whatever else goes
    on, they make at most [pool_measure] steps more, and as long as one of them has not
    finished some worker can go on.  ([Run] does not wait for them: in the witness it has
    returned while a worker is at a volume.) *)
Theorem workers_stop {API : Type} `{!KubeClient API} (cfg : CleanupConfig)
    (workers : nat) (w : CleanupWorld API Queue) (r : RunState) (failed : bool) (n : nat)
    (p : Pool)
    (Hidle : idle (cl_queue w))
    (Hr : rtc (run_step (Shared0 := cleanup_shared cfg) workers) (run_start w) r)
    (Hret : r_pc r = Returned failed)
    (Hruns : runs (Shared0 := cleanup_shared cfg) n (r_pool r) p) :
  n ≤ pool_measure (Shared0 := cleanup_shared cfg) (r_pool r) ∧
  ((∀ p', ¬ pool_work (Shared0 := cleanup_shared cfg) p p') →
   Forall (λ x, x = Finished) (p_workers p)).
Proof.
  destruct (run_inv_reachable (Shared0 := cleanup_shared cfg) _ _ _ Hidle Hr) as [Hp Hd].
  eapply runs_end; eauto.
Qed.

(** C36. [jobController.Run] cannot be stopped: once it is in [runWorker] (which takes a
    step after its start, if it was not stopped before), it never returns and never shuts
    the queue down, whether the stop channel is closed or not; and with an empty queue it
    blocks. *)
Theorem job_controller_never_stops (q : Queue) (j j' : JobRun)
    (Hidle : idle q) (Hopen : q_shuttingDown q = false)
    (Hj : rtc job_run_step (job_run_start q) j) (Hin : p_workers (j_pool j) = [Fetching])
    (Hj' : rtc job_run_step j j') :
  j_returned j' = false ∧ p_workers (j_pool j') ≠ [Finished] ∧
  q_shuttingDown (p_shared (j_pool j')) = false ∧
  (p_workers (j_pool j') = [Fetching] → q_queue (p_shared (j_pool j')) = [] →
   ∀ p, ¬ pool_work (j_pool j') p).
Proof.
  assert (in_worker j') as [Hr (w&Hw&Hheld) Ho _].
  { eapply (rtc_invariant _ in_worker); [by eapply (job_reachable q)| |done].
    intros; by eapply in_worker_step. }
  split_and!; [done| |done|].
  - rewrite Hw. intros [= ->]. by destruct Hheld as [?|[??]].
  - intros Hf He p [l1 w0 l2 w' s Hws Hstep]. rewrite Hf in Hws.
    apply singleton_middle in Hws as (_&->&_). simpl in *.
    inversion Hstep as [| |? ? ? Hg| | | |]; subst; simpl in *; [|congruence].
    unfold queue.Get in Hg. by rewrite He in Hg.
Qed.

(** ** Witnesses: two workers, and a volume in the queue *)
Definition queue_pv1 : Queue :=
  {| q_queue := ["pv1"]; q_dirty := {["pv1"]}; q_processing := ∅; q_waiting := ∅;
     q_failures := ∅; q_shuttingDown := false |}.

Definition queued_world (q : Queue) : CleanupWorld MemServer Queue := {|
  cl_api := {| mem_pvs := ∅; mem_jobs := ∅; mem_nodes := ∅; mem_pvcs := ∅; mem_down := false |};
  cl_queue := q; cl_events := []; cl_pvcDeleted := 0; cl_pvcDeleteFailed := 0;
  cl_pvDeleted := ∅; cl_pvDeleteFailed := ∅ |}.

Lemma queue_pv1_idle : idle queue_pv1.
Proof.
  split; [split; simpl|done]; [apply NoDup_singleton|].
  intros k. rewrite list_elem_of_singleton. set_solver.
Qed.

Abbreviation example_step := (run_step (Shared0 := cleanup_shared cleanup_config) 2).

(** [Run] has returned, and a worker is at the volume. *)
Definition example_returned : RunState := {|
  r_pc := Returned false;
  r_pool := {| p_shared := queued_world (queue.ShutDown (snd (queue.Get queue_pv1)));
               p_stop := true; p_workers := [Handling "pv1"; Checking] |} |}.

Lemma example_returned_reachable :
  rtc example_step (run_start (queued_world queue_pv1)) example_returned.
Proof.
  set (cs := cleanup_shared (API := MemServer) cleanup_config).
  eapply rtc_l; [by apply run_synced|].
  eapply rtc_l; [apply (run_launch _ _ 0); [done|lia]|].
  eapply rtc_l; [apply (run_launch _ _ 1); [done|lia]|].
  eapply rtc_l; [apply (run_launched _ _ 2); [done|lia]|].
  eapply rtc_l; [apply (run_scan _ _ (queued_world queue_pv1)); [done|by right; right]|].
  eapply rtc_l. { eapply run_work, (work _ [] Checking [Checking]); [done|by apply check_open]. }
  eapply rtc_l.
  { eapply run_work, (work _ [] Fetching [Checking]); [done|by eapply get_item]. }
  eapply rtc_l; [apply run_env, env_stop|].
  eapply rtc_l; [by apply run_done|].
  apply rtc_refl.
Qed.

Lemma one_worker_per_volume_witness :
  idle queue_pv1 ∧ rtc example_step (run_start (queued_world queue_pv1)) example_returned ∧
  ∀ j, p_workers (r_pool example_returned) !! j = Some (Handling "pv1") → j = 0.
Proof.
  split_and!; [apply queue_pv1_idle|apply example_returned_reachable|].
  intros j Hj. symmetry.
  exact (proj1 (one_worker_per_volume cleanup_config 2 (queued_world queue_pv1) example_returned
    queue_pv1_idle example_returned_reachable) 0 j "pv1" eq_refl Hj).
Defined.

(** The five steps to the end. *)
Definition example_ended : Pool := {|
  p_shared := queued_world (queue.Done "pv1" (queue.Forget "pv1"
                (queue.ShutDown (snd (queue.Get queue_pv1)))));
  p_stop := true; p_workers := [Finished; Finished] |}.

Lemma example_ends :
  runs (Shared0 := cleanup_shared cleanup_config) 5 (r_pool example_returned) example_ended.
Proof.
  set (cs := cleanup_shared (API := MemServer) cleanup_config).
  eapply runs_work.
  { apply (work _ [] (Handling "pv1") [Checking] Fetching
             (queued_world (queue.Done "pv1" (queue.Forget "pv1"
                (queue.ShutDown (snd (queue.Get queue_pv1))))))); [done|]. apply handle_item.
    exists {| ls_nodes := store_lister []; ls_ListPVs := Ok [];
              ls_GetPV n := Err (APIError ReasonNotFound n);
              ls_GetPVC _ n := Err (APIError ReasonNotFound n) |}. reflexivity. }
  eapply runs_work; [apply (work _ [] Fetching [Checking]); [done|by apply get_quit]|].
  eapply runs_work; [apply (work _ [] Sleeping [Checking]); [done|by apply sleep_over]|].
  eapply runs_work; [apply (work _ [] Checking [Checking]); [done|by apply check_stopped]|].
  eapply runs_work; [apply (work _ [Finished] Checking []); [done|by apply check_stopped]|].
  apply runs_refl.
Qed.

(** [Run] has returned before the worker is done with the volume; the bound is reached. *)
Lemma workers_stop_witness :
  Handling "pv1" ∈ p_workers (r_pool example_returned) ∧
  5 ≤ pool_measure (Shared0 := cleanup_shared cleanup_config) (r_pool example_returned) ∧
  pool_measure (Shared0 := cleanup_shared cleanup_config) (r_pool example_returned) = 5.
Proof.
  split_and!; [by left| |vm_compute; reflexivity].
  exact (proj1 (workers_stop cleanup_config 2 (queued_world queue_pv1) example_returned false 5
    example_ended queue_pv1_idle example_returned_reachable eq_refl example_ends)).
Defined.

(** The job controller is stopped while it waits for an item. *)
Definition example_job_run (stop : bool) : JobRun := {|
  j_returned := false;
  j_pool := {| p_shared := new_queue; p_stop := stop; p_workers := [Fetching] |} |}.

Lemma job_controller_never_stops_witness :
  rtc job_run_step (job_run_start new_queue) (example_job_run true) ∧
  ∀ p, ¬ pool_work (j_pool (example_job_run true)) p.
Proof.
  assert (rtc job_run_step (job_run_start new_queue) (example_job_run false)) as H1.
  { eapply rtc_l; [|apply rtc_refl].
    apply job_work, (work (j_pool (job_run_start new_queue)) [] Checking [] Fetching new_queue);
      [done|by apply check_open]. }
  assert (rtc job_run_step (example_job_run false) (example_job_run true)) as H2.
  { eapply rtc_l; [apply job_env, env_stop|apply rtc_refl]. }
  split; [by etrans|].
  apply (job_controller_never_stops new_queue (example_job_run false) (example_job_run true)
           (conj new_queue_inv eq_refl) eq_refl H1 eq_refl H2); reflexivity.
Defined.
