(* ===== verification/Watcher.v ===== *)
(** * Watcher: reloading the configuration, [pkg/watcher]

    [ConfigWatcher.Run] keeps one [ProvisionerConfiguration] variable that every
    cycle decodes into, and copies it to [lastAppliedConfig] when it sends it.  A
    copy of the struct shares its maps and the arrays of its slices, so these live in
    a heap here and configurations hold references.  Decoding works in place, as
    documented for [json.Unmarshal], which the YAML decoder calls: a map that is not
    nil is reused, a slice is reset to length zero and its elements are appended. *)
From S2P Require Import Prelude GoLib K8s Common.

(** ** References to maps *)
Section map_refs.
Context {V : Type}.

Definition map_deref (h : gmap nat V) (r : option nat) : option V :=
  match r with Some l => h !! l | None => None end.

(** The value [m] after decoding into [r]: in place unless one of them is nil. *)
Definition map_store (m : option V) (r : option nat) (h : gmap nat V)
  : option nat * gmap nat V :=
  match m with
  | None => (None, h)
  | Some m =>
      let l := match r with Some l => l | None => fresh (dom h) end in
      (Some l, <[l := m]> h)
  end.
End map_refs.

(** ** References to slices *)
Record slice := { sl_array : nat; sl_len : nat }.

#[export] Instance slice_eq_dec : EqDecision slice.
Proof. solve_decision. Defined.

Section slice_refs.
Context {A : Type} (zero : A) (spare : nat → nat).

Definition slice_deref (h : gmap nat (list A)) (r : option slice) : goslice A :=
  match r with
  | Some s => take (sl_len s) <$> h !! sl_array s
  | None => None
  end.

(** A new array for [l], with [spare] unused elements. *)
Definition slice_alloc (l : list A) (h : gmap nat (list A)) : option slice * gmap nat (list A) :=
  let p := fresh (dom h) in
  (Some {| sl_array := p; sl_len := length l |},
   <[p := l ++ replicate (spare (length l)) zero]> h).

(** The elements [l] after decoding into [r].  An empty list gets a new slice unless
    the slice is empty already; elements overwrite the array from its start; when it
    has not enough room they continue in a new one, which has them all. *)
Definition slice_store (l : goslice A) (r : option slice) (h : gmap nat (list A))
  : option slice * gmap nat (list A) :=
  match l with
  | None => (None, h)
  | Some l =>
      match r with
      | None => slice_alloc l h
      | Some s =>
          let array := default [] (h !! sl_array s) in
          if decide (l = []) then
            if decide (sl_len s = 0) then (r, h) else slice_alloc l h
          else if decide (length l ≤ length array) then
            (Some {| sl_array := sl_array s; sl_len := length l |},
             <[sl_array s := l ++ drop (length l) array]> h)
          else slice_alloc l (<[sl_array s := take (length array) l]> h)
      end
  end.
End slice_refs.

(** ** Configurations in the heap *)
Record Heap := {
  h_classes : gmap nat (gmap string MountConfig);
  h_labels : gmap nat (gmap string string);
  h_strings : gmap nat (list string);
  h_tolerations : gmap nat (list Toleration) }.

(** A Go struct value: its references, and the other fields (in a configuration
    whose maps and slices are nil). *)
Record ConfigVal := {
  cv_classes : option nat;
  cv_labels : option nat;
  cv_nodeLabels : option slice;
  cv_tolerations : option slice;
  cv_fields : ProvisionerConfiguration }.

Definition with_refs (classes : gomap MountConfig) (labels : gomap string)
    (nodeLabels : goslice string) (tolerations : goslice Toleration)
    (c : ProvisionerConfiguration) : ProvisionerConfiguration := {|
  StorageClassConfig := classes;
  pc_NodeLabelsForPV := nodeLabels; pc_UseAlphaAPI := pc_UseAlphaAPI c;
  pc_UseJobForCleaning := pc_UseJobForCleaning c; pc_JobTolerations := tolerations;
  pc_MinResyncPeriod := pc_MinResyncPeriod c; pc_UseNodeNameOnly := pc_UseNodeNameOnly c;
  pc_LabelsForPV := labels; pc_SetPVOwnerRef := pc_SetPVOwnerRef c;
  pc_RemoveNodeNotReadyTaint := pc_RemoveNodeNotReadyTaint c;
  pc_ProvisionerNotReadyNodeTaintKey := pc_ProvisionerNotReadyNodeTaintKey c |}.

(** The fields that are not references. *)
Definition scalars (c : ProvisionerConfiguration) : ProvisionerConfiguration :=
  with_refs None None None None c.

(** What [reflect.DeepEqual] looks at: the value with its references followed. *)
Definition deref (h : Heap) (v : ConfigVal) : ProvisionerConfiguration :=
  with_refs (map_deref (h_classes h) (cv_classes v)) (map_deref (h_labels h) (cv_labels v))
    (slice_deref (h_strings h) (cv_nodeLabels v))
    (slice_deref (h_tolerations h) (cv_tolerations v)) (cv_fields v).

Definition zero_toleration : Toleration :=
  {| tol_Key := ""; tol_Operator := ""; tol_Value := ""; tol_Effect := "";
     tol_Seconds := None |}.

(** ** [ConfigWatcher] *)
Record WatcherState := {
  ws_heap : Heap;
  ws_lastAppliedConfig : ConfigVal;
  ws_provisionerConfig : ConfigVal;
  ws_sent : list ConfigVal }.

(** [NewConfigWatcher] and the first statement of [Run]: the variable starts with a
    new empty map and the default resync period of five minutes. *)
Definition fresh_config : ProvisionerConfiguration := {|
  StorageClassConfig := None; pc_NodeLabelsForPV := None; pc_UseAlphaAPI := false;
  pc_UseJobForCleaning := false; pc_JobTolerations := None; pc_MinResyncPeriod := 300;
  pc_UseNodeNameOnly := false; pc_LabelsForPV := None; pc_SetPVOwnerRef := false;
  pc_RemoveNodeNotReadyTaint := false; pc_ProvisionerNotReadyNodeTaintKey := "" |}.

Definition NewConfigWatcher (config : ConfigVal) (h : Heap) : WatcherState :=
  let l := fresh (dom (h_classes h)) in
  {| ws_heap := {| h_classes := <[l := ∅]> (h_classes h); h_labels := h_labels h;
                   h_strings := h_strings h; h_tolerations := h_tolerations h |};
     ws_lastAppliedConfig := config;
     ws_provisionerConfig := {| cv_classes := Some l; cv_labels := None; cv_nodeLabels := None;
                                cv_tolerations := None; cv_fields := fresh_config |};
     ws_sent := [] |}.

Section watcher.
(** The spare room of new arrays. *)
Context (spare : nat → nat).
(** [LoadProvisionerConfigs] at the watched path: the error and the value of the
    configuration afterwards, from its value before. *)
Context (load : ProvisionerConfiguration → option error * ProvisionerConfiguration).

(** Decoding in place. *)
Definition load_into (v : ConfigVal) (h : Heap) : option error * ConfigVal * Heap :=
  let '(err, config) := load (deref h v) in
  let '(classes, hc) := map_store (StorageClassConfig config) (cv_classes v) (h_classes h) in
  let '(labels, hl) := map_store (pc_LabelsForPV config) (cv_labels v) (h_labels h) in
  let '(nodeLabels, hs) :=
    slice_store "" spare (pc_NodeLabelsForPV config) (cv_nodeLabels v) (h_strings h) in
  let '(tolerations, ht) :=
    slice_store zero_toleration spare (pc_JobTolerations config) (cv_tolerations v)
      (h_tolerations h) in
  (err, {| cv_classes := classes; cv_labels := labels; cv_nodeLabels := nodeLabels;
           cv_tolerations := tolerations; cv_fields := scalars config |},
   {| h_classes := hc; h_labels := hl; h_strings := hs; h_tolerations := ht |}).

(** One cycle of [Run]. *)
Definition reload_cycle : M WatcherState () := λ s,
  let '(err, v, h) := load_into (ws_provisionerConfig s) (ws_heap s) in
  match err with
  | Some _ =>
      Crash (Fatal "Error parsing Provisioner's configuration")
        {| ws_heap := h; ws_lastAppliedConfig := ws_lastAppliedConfig s;
           ws_provisionerConfig := v; ws_sent := ws_sent s |}
  | None =>
      if decide (deref h (ws_lastAppliedConfig s) = deref h v)
      then Done () {| ws_heap := h; ws_lastAppliedConfig := ws_lastAppliedConfig s;
                      ws_provisionerConfig := v; ws_sent := ws_sent s |}
      else Done () {| ws_heap := h; ws_lastAppliedConfig := v;
                      ws_provisionerConfig := v; ws_sent := (ws_sent s ++ [v])%list |}
  end.
End watcher.

(** ** What storing through a reference guarantees

    The laws that maps and slices share: the stored value is read back; references
    stay valid and apart; a reference that is apart reads what it read before; and a
    second reference to the same place sees the stored value exactly when the shape
    did not change, and is then the same reference as the one stored through. *)
Class RefLaws {H R X : Type} (rd : H → R → X) (store : X → R → H → R * H)
    (valid : H → R → Prop) (apart : R → R → Prop) (same_shape : relation X) : Prop := {
  store_read : ∀ x r h, valid h r → rd (snd (store x r h)) (fst (store x r h)) = x;
  store_valid : ∀ x r h, valid h r → valid (snd (store x r h)) (fst (store x r h));
  store_valid_other : ∀ x r h q, valid h r → valid h q → valid (snd (store x r h)) q;
  store_apart : ∀ x r h q, valid h q → apart q r → apart q (fst (store x r h));
  store_frame : ∀ x r h q, valid h r → valid h q → apart q r → rd (snd (store x r h)) q = rd h q;
  store_shared : ∀ x r h, valid h r → rd (snd (store x r h)) r = x ↔ same_shape (rd h r) x;
  store_same : ∀ x r h, valid h r → same_shape (rd h r) x → fst (store x r h) = r }.

Section map_laws.
Context {V : Type}.

Definition map_valid (h : gmap nat V) (r : option nat) : Prop :=
  match r with Some l => l ∈ dom h | None => True end.
Definition map_apart (q r : option nat) : Prop := ∀ l, q = Some l → r ≠ Some l.
Definition both_nil_or_not {X} (x y : option X) : Prop := is_Some x ↔ is_Some y.

#[export] Instance map_ref_laws :
  RefLaws (map_deref (V := V)) map_store map_valid map_apart both_nil_or_not.
Proof.
  split.
  - intros [m|] r h Hr; simpl; [apply lookup_insert_eq|done].
  - intros [m|] r h Hr; simpl; [set_solver|done].
  - intros [m|] r h [q|] Hr Hq; simpl in *; [set_solver|done..].
  - intros [m|] [l|] h q Hq Ha l' ->; simpl in *; [by apply Ha| |done..].
    intros [= <-]. by apply (is_fresh (dom h)).
  - intros [m|] r h [q|] _ Hq Ha; simpl in *; [|done..]. apply lookup_insert_ne.
    destruct r as [l|]; [intros ->; by eapply Ha|]. intros <-. by apply (is_fresh (dom h)).
  - intros [m|] [l|] h Hr; unfold both_nil_or_not; simpl in *.
    + rewrite lookup_insert_eq. apply elem_of_dom in Hr. naive_solver.
    + split; [done|]. intros [_ H]. by destruct H as [? ?].
    + apply elem_of_dom in Hr as [x ->]. split; [done|]. intros [H _]. by destruct H.
    + done.
  - intros [m|] [l|] h Hr [H1 H2]; simpl in *; [done|by destruct H2| |done].
    by apply elem_of_dom, H1 in Hr as [? ?].
Qed.
End map_laws.

Section slice_laws.
Context {A : Type} (zero : A) (spare : nat → nat).

Definition slice_valid (h : gmap nat (list A)) (r : option slice) : Prop :=
  match r with
  | Some s => ∃ array, h !! sl_array s = Some array ∧ sl_len s ≤ length array
  | None => True
  end.
Definition slice_apart (q r : option slice) : Prop :=
  ∀ s t, q = Some s → r = Some t → sl_array s ≠ sl_array t.
Definition same_length (x y : goslice A) : Prop := length <$> x = length <$> y.

Lemma fresh_array (h : gmap nat (list A)) p array : h !! p = Some array → fresh (dom h) ≠ p.
Proof. intros H <-. by apply (is_fresh (dom h)), elem_of_dom_2 with array. Qed.

(** A new array: its slice reads the elements, and nothing else changes. *)
Lemma slice_alloc_spec l h :
  slice_deref (snd (slice_alloc zero spare l h)) (fst (slice_alloc zero spare l h)) = Some l ∧
  slice_valid (snd (slice_alloc zero spare l h)) (fst (slice_alloc zero spare l h)) ∧
  ∀ p array, h !! p = Some array → snd (slice_alloc zero spare l h) !! p = Some array.
Proof.
  unfold slice_alloc. simpl. rewrite lookup_insert_eq. split_and!.
  - simpl. by rewrite take_app_length.
  - eexists. split; [done|]. rewrite length_app. lia.
  - intros p array Hp. rewrite lookup_insert_ne; [done|]. by eapply fresh_array.
Qed.

(** The four ways of storing. *)
Lemma slice_store_cases l r h :
  slice_valid h r →
  (l = None ∧ slice_store zero spare l r h = (None, h)) ∨
  (∃ x, l = Some x ∧ r = None ∧ slice_store zero spare l r h = slice_alloc zero spare x h) ∨
  ∃ x s array, l = Some x ∧ r = Some s ∧ h !! sl_array s = Some array ∧ sl_len s ≤ length array ∧
    ((x = [] ∧ sl_len s = 0 ∧ slice_store zero spare l r h = (r, h)) ∨
     (x = [] ∧ sl_len s ≠ 0 ∧ slice_store zero spare l r h = slice_alloc zero spare x h) ∨
     (x ≠ [] ∧ length x ≤ length array ∧ slice_store zero spare l r h =
        (Some {| sl_array := sl_array s; sl_len := length x |},
         <[sl_array s := x ++ drop (length x) array]> h)) ∨
     (length array < length x ∧ slice_store zero spare l r h =
        slice_alloc zero spare x (<[sl_array s := take (length array) x]> h))).
Proof.
  intros Hr. destruct l as [x|]; [right|by left]. destruct r as [s|]; [right|left; eauto].
  destruct Hr as (array&Ha&Hlen). exists x, s, array. split_and!; try done. unfold slice_store.
  rewrite Ha. simpl. destruct (decide (x = [])) as [-> |Hx].
  - destruct (decide (sl_len s = 0)); [left|right; left]; done.
  - right; right. destruct (decide (length x ≤ length array)); [left; done|right].
    split; [lia|done].
Qed.

Lemma slice_store_own l r h :
  slice_valid h r →
  slice_deref (snd (slice_store zero spare l r h)) (fst (slice_store zero spare l r h)) = l ∧
  slice_valid (snd (slice_store zero spare l r h)) (fst (slice_store zero spare l r h)).
Proof.
  intros Hr. destruct (slice_store_cases l r h Hr) as
    [(->&->)|[(x&->&_&->)|(x&s&array&->&->&Ha&Hlen&[(->&H0&->)|[(->&_&->)|[(_&Hf&->)|(_&->)]]])]].
  - done.
  - destruct (slice_alloc_spec x h) as (?&?&_). done.
  - simpl. rewrite Ha, H0. simpl. rewrite take_0. split; [done|]. exists array. split; [done|lia].
  - destruct (slice_alloc_spec [] h) as (?&?&_). done.
  - simpl. rewrite lookup_insert_eq. simpl. rewrite take_app_length. split; [done|].
    eexists. split; [done|]. rewrite length_app. lia.
  - destruct (slice_alloc_spec x (<[sl_array s := take (length array) x]> h)) as (?&?&_). done.
Qed.

(** Arrays other than the one stored through keep their elements, and all keep
    their length. *)
Lemma slice_store_arrays l r h p array :
  slice_valid h r → h !! p = Some array →
  ∃ array', snd (slice_store zero spare l r h) !! p = Some array' ∧ length array' = length array ∧
    ((∀ s, r = Some s → sl_array s ≠ p) → array' = array).
Proof.
  intros Hr Hp. destruct (slice_store_cases l r h Hr) as
    [(->&->)|[(x&->&_&->)|(x&s&old&->&->&Ha&Hlen&[(->&H0&->)|[(->&_&->)|[(_&Hf&->)|(Hf&->)]]])]];
    try (exists array; done);
    try (exists array; split_and!; [|done|done]; by apply (slice_alloc_spec _ h)).
  - destruct (decide (sl_array s = p)) as [<-|Hne].
    + rewrite Hp in Ha. injection Ha as <-. simpl. rewrite lookup_insert_eq. eexists.
      split_and!; [done| |by intros H; destruct (H s)].
      rewrite length_app, length_drop. lia.
    + exists array. simpl. by rewrite lookup_insert_ne.
  - destruct (decide (sl_array s = p)) as [<-|Hne].
    + rewrite Hp in Ha. injection Ha as <-. exists (take (length array) x).
      split_and!; [|rewrite length_take; lia|by intros H; destruct (H s)].
      apply (slice_alloc_spec x). apply lookup_insert_eq.
    + exists array. split_and!; [|done|done]. apply (slice_alloc_spec x). by rewrite lookup_insert_ne.
Qed.

Lemma slice_store_shared l r h :
  slice_valid h r →
  slice_deref (snd (slice_store zero spare l r h)) r = l ↔ same_length (slice_deref h r) l.
Proof.
  intros Hr. unfold same_length. destruct (slice_store_cases l r h Hr) as
    [(->&->)|[(x&->&->&->)|(x&s&array&->&->&Ha&Hlen&[(->&H0&->)|[(->&H0&->)|[(Hx&Hf&->)|(Hf&->)]]])]].
  - simpl. by destruct (slice_deref h r).
  - done.
  - simpl. rewrite Ha, H0. simpl. by rewrite take_0.
  - cbn [slice_deref]. assert (h !! sl_array s = Some array) as Ha' by done.
    apply (slice_alloc_spec [] h) in Ha'. rewrite Ha', Ha. simpl.
    rewrite length_take. split; [|intros [= ?]; lia].
    intros [= E%(f_equal length)]. rewrite length_take in E. simpl in E. lia.
  - simpl. rewrite lookup_insert_eq, Ha. simpl. rewrite length_take, Nat.min_l by lia. split.
    + intros [= E%(f_equal length)]. rewrite length_take, length_app, length_drop in E. f_equal. lia.
    + intros [= ->]. by rewrite take_app_length.
  - cbn [slice_deref]. assert (snd (slice_alloc zero spare x (<[sl_array s := take (length array) x]> h))
      !! sl_array s = Some (take (length array) x)) as ->
      by (apply (slice_alloc_spec x), lookup_insert_eq).
    rewrite Ha. simpl. rewrite length_take. split; [|intros [= ?]; lia].
    intros [= E%(f_equal length)]. rewrite !length_take in E. lia.
Qed.

#[export] Instance slice_ref_laws :
  RefLaws slice_deref (slice_store zero spare) slice_valid slice_apart same_length.
Proof.
  split.
  - intros x r h Hr. by apply slice_store_own.
  - intros x r h Hr. by apply slice_store_own.
  - intros x r h [q|] Hr Hq; [|done]. destruct Hq as (array&Ha&Hlen).
    destruct (slice_store_arrays x r h _ _ Hr Ha) as (array'&Ha'&Hl&_).
    exists array'. split; [done|lia].
  - intros x r h q Hq Hap s t -> E. destruct Hq as (array&Ha&_). simpl in Ha.
    unfold slice_store, slice_alloc in E. destruct x as [x|]; [|done].
    destruct r as [s0|]; [|injection E as <-; simpl; by apply not_eq_sym, (fresh_array h _ array)].
    specialize (Hap s s0 eq_refl eq_refl).
    repeat case_decide; injection E as <-; simpl; try done;
      apply not_eq_sym; eapply fresh_array; [done|]. by rewrite lookup_insert_ne.
  - intros x r h [q|] Hr Hq Hap; [|done]. destruct Hq as (array&Ha&Hlen). cbn [slice_deref].
    destruct (slice_store_arrays x r h _ _ Hr Ha) as (array'&->&_&Hsame). rewrite Ha, Hsame; [done|].
    intros s ->. by apply not_eq_sym, Hap.
  - intros x r h Hr. by apply slice_store_shared.
  - intros x r h Hr. unfold same_length. destruct (slice_store_cases x r h Hr) as
      [(->&->)|[(y&->&->&->)|(y&s&array&->&->&Ha&Hlen&[(->&H0&->)|[(->&H0&->)|[(Hx&Hf&->)|(Hf&->)]]])]];
      cbn [slice_deref]; try rewrite Ha; simpl; rewrite ?length_take; try done.
    + destruct r as [s|]; [|done]. destruct Hr as (array&Ha&_). simpl. by rewrite Ha.
    + intros [= ?]. lia.
    + intros [= <-]. rewrite Nat.min_l by lia. by destruct s.
    + intros [= ?]. lia.
Qed.
End slice_laws.

(** ** Whole configurations *)
Record config_valid (h : Heap) (v : ConfigVal) : Prop := {
  val_classes : map_valid (h_classes h) (cv_classes v);
  val_labels : map_valid (h_labels h) (cv_labels v);
  val_nodeLabels : slice_valid (h_strings h) (cv_nodeLabels v);
  val_tolerations : slice_valid (h_tolerations h) (cv_tolerations v);
  val_fields : scalars (cv_fields v) = cv_fields v }.

Record config_apart (q v : ConfigVal) : Prop := {
  ap_classes : map_apart (cv_classes q) (cv_classes v);
  ap_labels : map_apart (cv_labels q) (cv_labels v);
  ap_nodeLabels : slice_apart (cv_nodeLabels q) (cv_nodeLabels v);
  ap_tolerations : slice_apart (cv_tolerations q) (cv_tolerations v) }.

(** Equal up to the contents of maps and the elements of slices. *)
Record same_shape (c1 c2 : ProvisionerConfiguration) : Prop := {
  sh_scalars : scalars c1 = scalars c2;
  sh_classes : both_nil_or_not (StorageClassConfig c1) (StorageClassConfig c2);
  sh_labels : both_nil_or_not (pc_LabelsForPV c1) (pc_LabelsForPV c2);
  sh_nodeLabels : same_length (pc_NodeLabelsForPV c1) (pc_NodeLabelsForPV c2);
  sh_tolerations : same_length (pc_JobTolerations c1) (pc_JobTolerations c2) }.

Lemma config_eq (c1 c2 : ProvisionerConfiguration) :
  c1 = c2 ↔ scalars c1 = scalars c2 ∧ StorageClassConfig c1 = StorageClassConfig c2 ∧
    pc_LabelsForPV c1 = pc_LabelsForPV c2 ∧ pc_NodeLabelsForPV c1 = pc_NodeLabelsForPV c2 ∧
    pc_JobTolerations c1 = pc_JobTolerations c2.
Proof.
  split; [by intros ->|]. destruct c1, c2. unfold scalars, with_refs. simpl.
  intros ([= -> -> -> -> -> -> ->]&->&->&->&->). done.
Qed.

Section loading.
Context (spare : nat → nat).
Context (load : ProvisionerConfiguration → option error * ProvisionerConfiguration).

(** Loading into a valid configuration: what it reads afterwards, what others read. *)
Record loaded (v : ConfigVal) (h : Heap) (config : ProvisionerConfiguration)
    (v' : ConfigVal) (h' : Heap) : Prop := {
  ld_read : deref h' v' = config;
  ld_valid : config_valid h' v';
  ld_valid_other : ∀ q, config_valid h q → config_valid h' q;
  ld_apart : ∀ q, config_valid h q → config_apart q v → config_apart q v' ∧ deref h' q = deref h q;
  ld_shared : deref h' v = config ↔ same_shape (deref h v) config;
  ld_same : same_shape (deref h v) config → v' = v }.

Lemma load_into_spec v h :
  config_valid h v →
  ∃ v' h', load_into spare load v h = (fst (load (deref h v)), v', h') ∧
    loaded v h (snd (load (deref h v))) v' h'.
Proof.
  intros [V1 V2 V3 V4 V5]. unfold load_into. destruct (load (deref h v)) as [err config]. simpl.
  set (st1 := map_store (StorageClassConfig config) (cv_classes v) (h_classes h)).
  set (st2 := map_store (pc_LabelsForPV config) (cv_labels v) (h_labels h)).
  set (st3 := slice_store "" spare (pc_NodeLabelsForPV config) (cv_nodeLabels v) (h_strings h)).
  set (st4 := slice_store zero_toleration spare (pc_JobTolerations config) (cv_tolerations v)
                (h_tolerations h)).
  rewrite (surjective_pairing st1), (surjective_pairing st2), (surjective_pairing st3),
    (surjective_pairing st4).
  do 2 eexists. split; [done|]. split.
  - apply config_eq. unfold deref. simpl. split_and!; [done|by apply store_read..].
  - split; simpl; [by apply store_valid..|done].
  - intros q []. split; simpl; [by apply store_valid_other..|done].
  - intros q [Q1 Q2 Q3 Q4 Q5] [A1 A2 A3 A4]. split.
    + split; simpl; by apply store_apart.
    + apply config_eq. unfold deref. simpl. split_and!; [done|by apply store_frame..].
  - rewrite config_eq. unfold deref at 1 2 3 4 5. cbn [with_refs StorageClassConfig pc_LabelsForPV
      pc_NodeLabelsForPV pc_JobTolerations h_classes h_labels h_strings h_tolerations].
    unfold st1, st2, st3, st4. rewrite !store_shared by done.
    split; [intros (?&?&?&?&?); by split|intros []; by split_and!].
  - intros [S0 S1 S2 S3 S4]. destruct v as [r1 r2 r3 r4 fields]; simpl in *. f_equal.
    + by apply store_same.
    + by apply store_same.
    + by apply store_same.
    + by apply store_same.
    + by rewrite <-S0, <-V5.
Qed.
End loading.

(** ** Runs of the watcher *)
Section runs.
Context (spare : nat → nat) (applied : ConfigVal).

(** A cycle that returns, whatever the files hold at that time. *)
Definition watcher_step (s s' : WatcherState) : Prop :=
  ∃ load, reload_cycle spare load s = Done () s'.

(** Before anything was sent the variable is apart from the configuration applied at
    start; afterwards it is the configuration applied last. *)
Record watcher_inv (initial : ProvisionerConfiguration) (s : WatcherState) : Prop := {
  wi_variable : config_valid (ws_heap s) (ws_provisionerConfig s);
  wi_applied : config_valid (ws_heap s) (ws_lastAppliedConfig s);
  wi_phase : if decide (ws_sent s = [])
    then config_apart (ws_lastAppliedConfig s) (ws_provisionerConfig s) ∧
         deref (ws_heap s) (ws_lastAppliedConfig s) = initial
    else ws_lastAppliedConfig s = ws_provisionerConfig s }.

Lemma watcher_inv_new h :
  config_valid h applied → watcher_inv (deref h applied) (NewConfigWatcher applied h).
Proof.
  intros [V1 V2 V3 V4 V5]. unfold NewConfigWatcher. set (l := fresh (dom (h_classes h))).
  assert (∀ k, cv_classes applied = Some k → k ≠ l) as Hl.
  { intros k E ->. rewrite E in V1. by apply (is_fresh (dom (h_classes h))). }
  split; simpl.
  - split; simpl; [set_solver|done..].
  - split; simpl; [|done..]. destruct (cv_classes applied); simpl in *; [set_solver|done].
  - split; [split; simpl|].
    + intros k E [= ->]. by eapply Hl.
    + done.
    + by intros ? ? _.
    + by intros ? ? _.
    + apply config_eq. unfold deref. simpl. split_and!; try done.
      destruct (cv_classes applied) as [k|] eqn:E; [|done]. simpl.
      apply lookup_insert_ne. by apply not_eq_sym, Hl.
Qed.

(** When a cycle takes the loaded configuration for the one applied last. *)
Definition unnoticed (initial : ProvisionerConfiguration) (s : WatcherState)
    (config : ProvisionerConfiguration) : Prop :=
  if decide (ws_sent s = []) then initial = config
  else same_shape (deref (ws_heap s) (ws_lastAppliedConfig s)) config.

Lemma reload_cycle_run initial load s config :
  watcher_inv initial s → load (deref (ws_heap s) (ws_provisionerConfig s)) = (None, config) →
  ∃ s', reload_cycle spare load s = Done () s' ∧ watcher_inv initial s' ∧
    deref (ws_heap s') (ws_provisionerConfig s') = config ∧
    ((unnoticed initial s config ∧ ws_sent s' = ws_sent s) ∨
     (¬ unnoticed initial s config ∧ ws_sent s' = (ws_sent s ++ [ws_provisionerConfig s'])%list)).
Proof.
  intros [Hv Ha Hp] Hload. unfold reload_cycle.
  destruct (load_into_spec spare load _ _ Hv) as (v'&h'&->&Hld). rewrite Hload in *. simpl in *.
  assert (deref h' (ws_lastAppliedConfig s) = deref h' v' ↔ unnoticed initial s config) as Hiff.
  { rewrite (ld_read _ _ _ _ _ Hld). unfold unnoticed. destruct (decide (ws_sent s = [])).
    - destruct Hp as [Hap <-]. by destruct (ld_apart _ _ _ _ _ Hld _ Ha Hap) as [_ ->].
    - rewrite Hp. apply Hld. }
  destruct (decide (deref h' _ = deref h' v')) as [E|E].
  - eexists. split; [done|]. split_and!; [|apply Hld|by left; split; [apply Hiff|]].
    split; simpl; [apply Hld|by apply Hld|]. apply Hiff in E. unfold unnoticed in E.
    destruct (decide (ws_sent s = [])).
    + destruct Hp as [Hap Hi]. by destruct (ld_apart _ _ _ _ _ Hld _ Ha Hap) as [? ->].
    + rewrite Hp in E |- *. symmetry. by apply Hld.
  - eexists. split; [done|]. split_and!; [|apply Hld|by right; split; [rewrite <-Hiff|]].
    split; simpl; [apply Hld|apply Hld|]. rewrite decide_False; [done|]. by destruct (ws_sent s).
Qed.

Lemma watcher_inv_reachable h s :
  config_valid h applied → rtc watcher_step (NewConfigWatcher applied h) s →
  watcher_inv (deref h applied) s.
Proof.
  intros Hv. apply rtc_invariant; [by apply watcher_inv_new|].
  intros s1 s2 Hinv [load Hrun].
  destruct (load (deref (ws_heap s1) (ws_provisionerConfig s1))) as [[e|] config] eqn:Hload.
  - unfold reload_cycle in Hrun.
    destruct (load_into_spec spare load _ _ (wi_variable _ _ Hinv)) as (v'&h'&E&_).
    by rewrite E, Hload in Hrun.
  - destruct (reload_cycle_run _ _ _ _ Hinv Hload) as (s'&E&?&_). rewrite Hrun in E. by injection E as <-.
Qed.
End runs.

(** ** Properties *)

(** C37. Which changes are noticed.  In every state the watcher can reach, whatever
    was loaded before, a cycle that loads a configuration returns, and reports it
    exactly in these cases: as long as nothing was reported, when it differs from the
    configuration applied at start; afterwards, only when its shape differs from the
    one reported last (another scalar setting, another number of node labels or
    tolerations, a map that became nil or not).  Since the maps and arrays are shared
    by then, any other change of storage classes, labels and lists is lost. *)
Theorem watcher_notices_shape spare applied h s load config :
  config_valid h applied → rtc (watcher_step spare) (NewConfigWatcher applied h) s →
  load (deref (ws_heap s) (ws_provisionerConfig s)) = (None, config) →
  ∃ s', reload_cycle spare load s = Done () s' ∧
    deref (ws_heap s') (ws_provisionerConfig s') = config ∧
    (ws_sent s' = ws_sent s ↔
       if decide (ws_sent s = []) then deref h applied = config
       else same_shape (deref (ws_heap s) (ws_lastAppliedConfig s)) config) ∧
    (ws_sent s' ≠ ws_sent s → ws_sent s' = (ws_sent s ++ [ws_provisionerConfig s'])%list).
Proof.
  intros Hv Hr Hload. pose proof (watcher_inv_reachable spare _ _ _ Hv Hr) as Hinv.
  destruct (reload_cycle_run spare _ _ _ _ Hinv Hload) as (s'&Hrun&_&Hread&Hcase).
  exists s'. split_and!; [done|done|..]; unfold unnoticed in Hcase.
  - destruct Hcase as [[? ->]|[? ->]]; [done|]. split; [|done].
    intros E%(f_equal length). rewrite length_app in E. simpl in E. lia.
  - destruct Hcase as [[_ ->]|[_ ?]]; done.
Qed.

Lemma same_shape_refl c : same_shape c c.
Proof. by split. Qed.

Lemma with_classes_self c m : StorageClassConfig c = Some m → with_classes (Some m) c = c.
Proof. intros E. destruct c. simpl in *. by subst. Qed.

(** Loading classes that are already there, normalised, changes nothing. *)
Lemma normalize_classes_merged goos order m decoded :
  order ≡ₚ (map_to_list (decoded ∪ m)).*1 →
  (∀ k c, m !! k = Some c → normalize_class goos k c = Ok c) →
  (∀ k c, decoded !! k = Some c → ∃ c', normalize_class goos k c = Ok c' ∧ m !! k = Some c') →
  normalize_classes goos order (decoded ∪ m) = (None, m).
Proof.
  intros Hord Hm Hd.
  assert (NoDup order) as Hnd by (rewrite Hord; apply NoDup_fst_map_to_list).
  assert (∀ k c, (decoded ∪ m) !! k = Some c → ∃ c', normalize_class goos k c = Ok c' ∧ m !! k = Some c')
    as Hall.
  { intros k c [Hk|[_ Hk]]%lookup_union_Some_raw; [by apply Hd|eauto]. }
  destruct (normalize_classes goos order (decoded ∪ m)) as [[e|] m'] eqn:E.
  - destruct (normalize_classes_err _ _ _ _ _ Hnd E) as (k&c&_&Hk&Hn).
    destruct (Hall k c Hk) as (c'&?&_). congruence.
  - f_equal. apply map_eq. intros k. pose proof (normalize_classes_ok _ _ _ _ Hnd E k) as HK.
    destruct ((decoded ∪ m) !! k) as [c|] eqn:Ek.
    + destruct (Hall k c Ek) as (c'&Hn&->).
      rewrite decide_True in HK by (rewrite Hord; apply list_elem_of_fmap; exists (k, c);
        by rewrite elem_of_map_to_list).
      destruct HK as (c''&Hn'&->). congruence.
    + rewrite HK. by apply lookup_union_None in Ek as [_ ->].
Qed.

(** C38. Removing a storage class is not noticed.  Take a watcher whose variable agrees
    with the configuration applied last and has the (normalised) classes [m], and
    files from which classes were removed: what they still define are classes of [m].
    The decoder keeps the entries of a map that is not nil, as documented, so the
    cycle finds all of [m] again and reports nothing. *)
Theorem class_removal_is_not_noticed spare applied h s goos Unmarshal data_order class_order
    ReadDir ReadFile path files data m decoded :
  let load := LoadProvisionerConfigs goos Unmarshal data_order class_order ReadDir ReadFile path in
  let old := deref (ws_heap s) (ws_provisionerConfig s) in
  config_valid h applied → rtc (watcher_step spare) (NewConfigWatcher applied h) s →
  deref (ws_heap s) (ws_lastAppliedConfig s) = old → StorageClassConfig old = Some m →
  (∀ m, class_order m ≡ₚ (map_to_list m).*1) →
  (∀ k c, m !! k = Some c → normalize_class goos k c = Ok c) →
  (∀ k c, decoded !! k = Some c → ∃ c', normalize_class goos k c = Ok c' ∧ m !! k = Some c') →
  ReadDir path = Ok files → load_files files ReadFile path ∅ = Ok data →
  Unmarshal (raw_yaml (data_order data)) old = (None, with_classes (Some (decoded ∪ m)) old) →
  ∃ s', reload_cycle spare load s = Done () s' ∧ ws_sent s' = ws_sent s ∧
    deref (ws_heap s') (ws_provisionerConfig s') = old.
Proof.
  intros load old Hv Hr Hsync Hm Hord Hnorm Hdec Hdir Hfiles HU.
  assert (load old = (None, old)) as Hload.
  { unfold load, LoadProvisionerConfigs. rewrite Hdir, Hfiles. unfold ConfigMapDataToVolumeConfig.
    rewrite HU. simpl. rewrite normalize_classes_merged by done.
    change (with_classes (Some m) (with_classes (Some (decoded ∪ m)) old))
      with (with_classes (Some m) old). by rewrite (with_classes_self old m). }
  pose proof (watcher_inv_reachable spare _ _ _ Hv Hr) as Hinv.
  destruct (reload_cycle_run spare _ _ _ _ Hinv Hload) as (s'&Hrun&_&Hread&[[_ ?]|[Hno _]]); [eauto|].
  destruct Hno. unfold unnoticed. destruct (decide (ws_sent s = [])) as [E|E].
  - pose proof (wi_phase _ _ Hinv) as Hp. rewrite decide_True in Hp by done. destruct Hp as [_ <-]. done.
  - rewrite Hsync. apply same_shape_refl.
Qed.

(** ** Witnesses *)
Definition empty_heap : Heap :=
  {| h_classes := {[0 := ∅]}; h_labels := ∅; h_strings := ∅; h_tolerations := ∅ |}.

Definition applied_at_start : ConfigVal := {|
  cv_classes := Some 0; cv_labels := None; cv_nodeLabels := None; cv_tolerations := None;
  cv_fields := fresh_config |}.

Lemma applied_at_start_valid : config_valid empty_heap applied_at_start.
Proof. split; simpl; [set_solver|done..]. Qed.

Definition class_at (dir : string) : MountConfig := {|
  HostDir := dir; MountDir := dir; BlockCleanerCommand := Some ["/scripts/shred.sh"];
  mc_VolumeMode := "Filesystem"; mc_AccessMode := ""; mc_FsType := ""; NamePattern := "*";
  Selector := None |}.

Definition two_classes : gmap string MountConfig :=
  <["fast" := class_at "/mnt/fast"]> {["slow" := class_at "/mnt/slow"]}.

(** Loading files that define the given classes, with a decoder that keeps entries. *)
Definition load_classes (decoded : gmap string MountConfig) :=
  LoadProvisionerConfigs "linux"
    (λ _ c, (None, with_classes (Some (decoded ∪ default ∅ (StorageClassConfig c))) c))
    map_to_list (λ m, (map_to_list m).*1) (λ _, Ok [("storageClassMap", false)]) (λ _, Ok "...")
    "/etc/provisioner/config/".

(** The watcher after its first cycle, which reported two classes. *)
Definition example_watcher : WatcherState :=
  final (reload_cycle (λ _, 0) (load_classes two_classes)
    (NewConfigWatcher applied_at_start empty_heap)).

Lemma example_watcher_reachable :
  rtc (watcher_step (λ _, 0)) (NewConfigWatcher applied_at_start empty_heap) example_watcher.
Proof. apply rtc_once. exists (load_classes two_classes). vm_compute. reflexivity. Qed.

Example example_watcher_sent : length (ws_sent example_watcher) = 1.
Proof. vm_compute. reflexivity. Qed.

(** Another directory for a class is lost after the first report. *)
Lemma watcher_notices_shape_witness :
  ∃ s', reload_cycle (λ _, 0) (load_classes {["fast" := class_at "/mnt/other"]}) example_watcher
      = Done () s' ∧ ws_sent s' = ws_sent example_watcher.
Proof.
  destruct (load_classes {["fast" := class_at "/mnt/other"]}
    (deref (ws_heap example_watcher) (ws_provisionerConfig example_watcher))) as [err config] eqn:E.
  destruct (watcher_notices_shape (λ _, 0) applied_at_start empty_heap example_watcher
    (load_classes {["fast" := class_at "/mnt/other"]}) config) as (s'&Hrun&_&Hiff&_).
  - apply applied_at_start_valid.
  - apply example_watcher_reachable.
  - rewrite E. vm_compute in E. injection E as <- _. reflexivity.
  - exists s'. split; [exact Hrun|]. apply Hiff. clear Hiff Hrun.
    destruct (decide (ws_sent example_watcher = [])) as [H|_]; [vm_compute in H; discriminate|].
    vm_compute in E. injection E as _ <-.
    split; [vm_compute; reflexivity|split; intros _; vm_compute; by eexists|done
      |vm_compute; reflexivity..].
Defined.

Lemma class_removal_is_not_noticed_witness :
  ∃ s', reload_cycle (λ _, 0) (load_classes {["fast" := class_at "/mnt/fast"]}) example_watcher
      = Done () s' ∧ ws_sent s' = ws_sent example_watcher ∧
    map_get (StorageClassConfig (deref (ws_heap s') (ws_provisionerConfig s'))) "slow" =
      Some (class_at "/mnt/slow").
Proof.
  destruct (class_removal_is_not_noticed (λ _, 0) applied_at_start empty_heap example_watcher "linux"
    (λ _ c, (None, with_classes
       (Some ({["fast" := class_at "/mnt/fast"]} ∪ default ∅ (StorageClassConfig c))) c))
    map_to_list (λ m, (map_to_list m).*1) (λ _, Ok [("storageClassMap", false)]) (λ _, Ok "...")
    "/etc/provisioner/config/" [("storageClassMap", false)] {["storageClassMap" := "..."]}
    two_classes {["fast" := class_at "/mnt/fast"]}) as (s'&Hrun&Hsent&Hread).
  - apply applied_at_start_valid.
  - apply example_watcher_reachable.
  - vm_compute. reflexivity.
  - vm_compute. reflexivity.
  - done.
  - intros k c Hk. unfold two_classes in Hk.
    apply lookup_insert_Some in Hk as [[<- <-]|[_ [<- <-]%lookup_singleton_Some]]; reflexivity.
  - intros k c [<- <-]%lookup_singleton_Some. exists (class_at "/mnt/fast"). split; reflexivity.
  - reflexivity.
  - reflexivity.
  - vm_compute. reflexivity.
  - exists s'. split_and!; [exact Hrun|exact Hsent|]. rewrite Hread. vm_compute. reflexivity.
Defined.
