(* ===== verification/Restart.v ===== *)
(** * Restart: the goroutines of [RunLocalController]

    [RunLocalController] answers a changed configuration by stopping the sync loop and
    starting another one.  The two sides meet on channels ([signal.stop] and the
    [select] of the loop); [net_step] has every send and receive as a step of its own.
    Up to the first change of the configuration the runs are those of [sys_step]; a change
    ends the loop, and the goroutine that is to replace it panics at its start.  The stop
    channels of informers and job controller are modelled as closed or not; what the job
    controller makes of its channel is in [Workers]. *)
From S2P Require Import Prelude GoLib FilePath K8s VolumeUtil Common Cache Metrics ProcTable.
From S2P Require Import Runtime Populator WorkQueue JobController Deleter Discovery NodeTaint Controller Watcher.

Section restart.
Context {FS API PT : Type}.
Context `{!VolumeUtil FS, !Exec FS, !KubeClient API, !ProcTable PT}.
Abbreviation W := (World FS API PT).
Abbreviation Sys := (System (FS := FS) (API := API) (PT := PT)).
Context (env : Env) (node : Node) (namespace jobImage : string).

(** Where a goroutine of [StartLocalController] is: before its loop, in it, or past
    [<-signal.closing], about to send on [stopped]. *)
Inductive loop_state :=
| Starting (config : UserConfig)
| Running (d : Discoverer) (p : phase)
| Answering (d : Discoverer)
| Ended (d : Discoverer).

(** The goroutine with its channels: whether [informerStopChan] and
    [jobControllerStopChan] are closed. *)
Record loop := { lp_state : loop_state; lp_informerStop : bool; lp_jobStop : bool }.

(** Where [RunLocalController] is: at its [select]; in [stop], sending on [closing] or
    receiving from [stopped]; or past [stop]. *)
Inductive runner :=
| Waiting
| Closing (newConfig : ProvisionerConfiguration)
| Awaiting (newConfig : ProvisionerConfiguration)
| Restarting (newConfig : ProvisionerConfiguration).

Record Net := {
  n_mux : gset string;
  n_world : W;
  n_runner : runner;
  n_loops : list loop }.

(** [go startController(config)]. *)
Definition startController (config : ProvisionerConfiguration) : loop := {|
  lp_state := Starting (UserConfigFromProvisionerConfig node namespace jobImage config);
  lp_informerStop := false; lp_jobStop := false |}.

Definition in_state (st : loop_state) (l : loop) : loop :=
  {| lp_state := st; lp_informerStop := lp_informerStop l; lp_jobStop := lp_jobStop l |}.

(** The branch of the [select] that received from [signal.closing]. *)
Definition stopped_loop (d : Discoverer) (l : loop) : loop := {|
  lp_state := Answering d; lp_informerStop := true;
  lp_jobStop := if rc_hasJobController (d_config d) then true else lp_jobStop l |}.

(** [RunLocalController] up to its loop. *)
Definition RunLocalController (mux : gset string) (w : W) (config : ProvisionerConfiguration) : Net :=
  {| n_mux := mux; n_world := w; n_runner := Waiting; n_loops := [startController config] |}.

Inductive net_step (n : Net) : Net → Prop :=
(** the goroutines of [StartLocalController] *)
| net_init l1 l l2 config d mux w :
    n_loops n = (l1 ++ l :: l2)%list → lp_state l = Starting config →
    init_controller env config (n_mux n, n_world n) = Done d (mux, w) →
    net_step n {| n_mux := mux; n_world := w; n_runner := n_runner n;
                  n_loops := (l1 ++ in_state (Running d Selecting) l :: l2)%list |}
| net_loop l1 l l2 d p w p' :
    n_loops n = (l1 ++ l :: l2)%list → lp_state l = Running d p →
    loop_step env d (n_world n) p w p' →
    net_step n {| n_mux := n_mux n; n_world := w; n_runner := n_runner n;
                  n_loops := (l1 ++ in_state (Running d p') l :: l2)%list |}
| net_informer l d f :
    l ∈ n_loops n → (∃ p, lp_state l = Running d p) ∨ lp_state l = Answering d →
    informer_handler (d_config d) f →
    net_step n {| n_mux := n_mux n; n_world := upd_cache f (n_world n);
                  n_runner := n_runner n; n_loops := n_loops n |}
(** cleanup goroutines, and the rest of the world *)
| net_process w :
    process_step (n_world n) w →
    net_step n {| n_mux := n_mux n; n_world := w; n_runner := n_runner n; n_loops := n_loops n |}
(** [newConfig := <-configUpdate] *)
| net_update newConfig :
    n_runner n = Waiting →
    net_step n {| n_mux := n_mux n; n_world := n_world n; n_runner := Closing newConfig;
                  n_loops := n_loops n |}
(** [s.closing <- stopped] meets [stopped := <-signal.closing] *)
| net_close newConfig l1 l l2 d :
    n_runner n = Closing newConfig → n_loops n = (l1 ++ l :: l2)%list →
    lp_state l = Running d Selecting →
    net_step n {| n_mux := n_mux n; n_world := n_world n; n_runner := Awaiting newConfig;
                  n_loops := (l1 ++ stopped_loop d l :: l2)%list |}
(** [stopped <- struct{}{}] meets [<-stopped] *)
| net_answer newConfig l1 l l2 d :
    n_runner n = Awaiting newConfig → n_loops n = (l1 ++ l :: l2)%list →
    lp_state l = Answering d →
    net_step n {| n_mux := n_mux n; n_world := n_world n; n_runner := Restarting newConfig;
                  n_loops := (l1 ++ in_state (Ended d) l :: l2)%list |}
(** [go startController(newConfig)] *)
| net_restart newConfig :
    n_runner n = Restarting newConfig →
    net_step n {| n_mux := n_mux n; n_world := n_world n; n_runner := Waiting;
                  n_loops := (n_loops n ++ [startController newConfig])%list |}.

(** ** Shape of the reachable states *)
Context `{!KubeClientLaws API, !ProcTableLaws PT}.

(** The stop channels of the informers and of the job controller, if there is one, are
    closed. *)
Definition quiet (d : Discoverer) (l : loop) : Prop :=
  lp_informerStop l = true ∧ lp_jobStop l = rc_hasJobController (d_config d).

(** A goroutine that has ended and closed its channels. *)
Definition over (l : loop) : Prop := ∃ d, lp_state l = Ended d ∧ quiet d l.

Definition has_ended (l : loop) : bool := match lp_state l with Ended _ => true | _ => false end.

(** What may follow the goroutines that are over, in each state of the runner. *)
Definition current_ok (r : runner) (tail : list loop) : Prop :=
  match r, tail with
  | (Waiting | Closing _), [l] =>
      lp_informerStop l = false ∧ lp_jobStop l = false ∧
      match lp_state l with Starting _ | Running _ _ => True | _ => False end
  | Awaiting _, [l] => ∃ d, lp_state l = Answering d ∧ quiet d l
  | Restarting _, [] => True
  | _, _ => False
  end.

(** The state of the abstract system that such goroutines stand for. *)
Definition stands_for (tail : list loop) (s : Sys) : Prop :=
  match tail with
  | [l] =>
      match lp_state l with
      | Running d p => sy_disc s = d ∧ sy_phase s = p
      | Answering d => sy_disc s = d ∧ sy_phase s = Selecting
      | _ => sy_phase s = Selecting
      end
  | _ => sy_phase s = Selecting
  end.

(** The abstract run: none before the first controller has started. *)
Definition simulated (config : ProvisionerConfiguration) (n : Net) (tail : list loop) : Prop :=
  (n_loops n = [startController config] ∧ w_tasks (n_world n) = [] ∧ entries (n_world n) = ∅) ∨
  ∃ s0 s, started env (UserConfigFromProvisionerConfig node namespace jobImage config) s0 ∧
    entries (sy_world s0) = ∅ ∧ rtc (sys_step env) s0 s ∧
    sy_mux s = n_mux n ∧ sy_world s = n_world n ∧ stands_for tail s.

Record net_inv (config : ProvisionerConfiguration) (n : Net) : Prop := {
  ni_shape : ∃ old tail, n_loops n = (old ++ tail)%list ∧ Forall over old ∧
    current_ok (n_runner n) tail ∧ simulated config n tail }.

Lemma current_is_last (l1 : list loop) l l2 old tail :
  (l1 ++ l :: l2 = old ++ tail)%list → Forall over old → has_ended l = false → length tail ≤ 1 →
  l1 = old ∧ l2 = [] ∧ tail = [l].
Proof.
  intros E Hold Hl Hlen. revert l1 E. induction Hold as [|o old (d&Ho&_) _ IH]; intros l1 E.
  - destruct tail as [|x [|]], l1 as [|? [|]]; simplify_list_eq; simpl in *; try lia; done.
  - destruct l1 as [|x l1]; simplify_list_eq; [by unfold has_ended in Hl; rewrite Ho in Hl|].
    by destruct (IH l1) as (->&->&->).
Qed.

Lemma current_length r tail : current_ok r tail → length tail ≤ 1.
Proof. destruct r, tail as [|? [|]]; simpl; try done; lia. Qed.

(** One more abstract step, or none. *)
Lemma simulated_step config n tail n' tail' :
  simulated config n tail → n_loops n ≠ [startController config] →
  (∀ s, sy_mux s = n_mux n → sy_world s = n_world n → stands_for tail s →
     ∃ s', rtc (sys_step env) s s' ∧ sy_mux s' = n_mux n' ∧ sy_world s' = n_world n' ∧
       stands_for tail' s') →
  simulated config n' tail'.
Proof.
  intros [(?&_)|(s0&s&Hs&He&Hr&Hm&Hw&Ht)] Hn Hstep; [done|]. right.
  destruct (Hstep s Hm Hw Ht) as (s'&Hr'&?). exists s0, s'. split_and!; try tauto. by etrans.
Qed.

(** The start of a controller: the first one, or a restart. *)
Lemma simulated_init config n l user d mux w r loops :
  simulated config n [l] → lp_state l = Starting user →
  (n_loops n = [startController config] → l = startController config) →
  init_controller env user (n_mux n, n_world n) = Done d (mux, w) →
  simulated config {| n_mux := mux; n_world := w; n_runner := r; n_loops := loops |}
    [in_state (Running d Selecting) l].
Proof.
  intros Hsim Hl Hfirst Hinit. right. destruct Hsim as [(El&Ht&He)|(s0&s&Hs&He&Hr&Hm&Hw&Hst)].
  - rewrite (Hfirst El) in Hl. injection Hl as <-.
    exists {| sy_mux := mux; sy_world := w; sy_disc := d; sy_phase := Selecting |}.
    eexists. apply init_controller_done in Hinit as Hi. destruct Hi as (_&_&_&_&Hp&_).
    split_and!; [|by unfold entries in *; simpl; rewrite Hp|apply rtc_refl|done..].
    by exists (n_mux n), (n_world n).
  - exists s0, {| sy_mux := mux; sy_world := w; sy_disc := d; sy_phase := Selecting |}.
    split_and!; try done. eapply rtc_r; [done|]. simpl in Hst. rewrite Hl in Hst.
    eapply step_restart; [done|]. by rewrite Hm, Hw.
Qed.

(** Steps that need no controller keep the process as it was before the first one. *)
Lemma process_step_idle (w w' : W) :
  process_step w w' → w_tasks w = [] → entries w = ∅ → w_tasks w' = [] ∧ entries w' = ∅.
Proof.
  intros [ts1 t ts2 w1 Hts _|w1 [E1 E2 E3]] Ht He.
  - rewrite Ht in Hts. by destruct ts1.
  - unfold entries in *. by rewrite E2, E3.
Qed.

(** The goroutine that takes a step is the current one. *)
Lemma inv_current config n l1 l l2 :
  net_inv config n → n_loops n = (l1 ++ l :: l2)%list → has_ended l = false →
  l2 = [] ∧ Forall over l1 ∧ current_ok (n_runner n) [l] ∧ simulated config n [l] ∧
  (n_loops n = [startController config] → l = startController config).
Proof.
  intros [(old&tail&El&Hold&Hok&Hsim)] E Hl. rewrite E in El.
  destruct (current_is_last _ _ _ _ _ El Hold Hl (current_length _ _ Hok)) as (->&->&->).
  split_and!; try done. rewrite E. by destruct old as [|? [|]]; intros [=].
Qed.

Lemma net_inv_last config n old tail :
  n_loops n = (old ++ tail)%list → Forall over old → current_ok (n_runner n) tail →
  simulated config n tail → net_inv config n.
Proof. intros. split. by exists old, tail. Qed.

(** Steps of the current goroutine. *)
Lemma net_inv_current config n l1 l l2 n' l' :
  net_inv config n → n_loops n = (l1 ++ l :: l2)%list → n_loops n' = (l1 ++ l' :: l2)%list →
  (∀ user, lp_state l ≠ Starting user) → has_ended l = false →
  (current_ok (n_runner n) [l] → current_ok (n_runner n') [l']) →
  (∀ s, sy_mux s = n_mux n → sy_world s = n_world n → stands_for [l] s →
     ∃ s', rtc (sys_step env) s s' ∧ sy_mux s' = n_mux n' ∧ sy_world s' = n_world n' ∧
       stands_for [l'] s') →
  net_inv config n'.
Proof.
  intros Hinv E E' Hl1 Hl2 Hok Hsim.
  destruct (inv_current _ _ _ _ _ Hinv E Hl2) as (->&Hold&Hcur&Hs&Hfirst).
  eapply net_inv_last; [done|done|by apply Hok|]. eapply simulated_step; [done| |done].
  intros H. rewrite (Hfirst H) in Hl1. by eapply Hl1.
Qed.

Lemma net_inv_informer config n l d f :
  net_inv config n → l ∈ n_loops n →
  (∃ p, lp_state l = Running d p) ∨ lp_state l = Answering d → informer_handler (d_config d) f →
  net_inv config {| n_mux := n_mux n; n_world := upd_cache f (n_world n);
                    n_runner := n_runner n; n_loops := n_loops n |}.
Proof.
  intros Hinv Hin Hl Hf. apply list_elem_of_split in Hin as (l1&l2&E).
  eapply net_inv_current; [done|exact E|exact E|..|done|].
  - intros user. by destruct Hl as [[p Hl]|Hl]; rewrite Hl.
  - unfold has_ended. by destruct Hl as [[p Hl]|Hl]; rewrite Hl.
  - intros s Hm Hw Hst. exists (at_phase s (upd_cache f (sy_world s)) (sy_phase s)).
    rewrite <-Hw. split_and!; [|done|done|].
    + apply rtc_once, step_informer. simpl in Hst.
      destruct Hl as [[p Hl]|Hl]; rewrite Hl in Hst; by destruct Hst as [-> _].
    + simpl in *. destruct Hl as [[p Hl]|Hl]; by rewrite Hl in *.
Qed.

Lemma net_inv_process config n w :
  net_inv config n → process_step (n_world n) w →
  net_inv config {| n_mux := n_mux n; n_world := w; n_runner := n_runner n; n_loops := n_loops n |}.
Proof.
  intros [(old&tail&El&Hold&Hok&Hsim)] Hp. eapply net_inv_last; [done..|].
  destruct Hsim as [(E&Ht&He)|(s0&s&Hs&He&Hr&Hm&Hw&Hst)].
  - left. split; [done|]. by eapply process_step_idle.
  - right. exists s0, (at_phase s w (sy_phase s)). split_and!; try done.
    eapply rtc_r; [done|]. apply step_process. by rewrite Hw.
Qed.

(** The end of the current goroutine, and the start of another. *)
Lemma net_inv_answer config n c l1 l l2 d :
  net_inv config n → n_runner n = Awaiting c → n_loops n = (l1 ++ l :: l2)%list →
  lp_state l = Answering d →
  net_inv config {| n_mux := n_mux n; n_world := n_world n; n_runner := Restarting c;
                    n_loops := (l1 ++ in_state (Ended d) l :: l2)%list |}.
Proof.
  intros Hinv Hr E Hl.
  destruct (inv_current _ _ _ _ _ Hinv E) as (->&Hold&Hcur&Hs&Hfirst); [by unfold has_ended; rewrite Hl|].
  rewrite Hr in Hcur. eapply (net_inv_last _ _ (l1 ++ [in_state (Ended d) l])%list []); simpl.
  - by rewrite app_nil_r.
  - apply Forall_app. split; [done|]. apply Forall_singleton.
    destruct Hcur as (d'&Hl'&Hq). rewrite Hl in Hl'. injection Hl' as <-. by exists d.
  - done.
  - eapply simulated_step; [done| |].
    { intros H. by rewrite (Hfirst H) in Hl. }
    intros s Hm Hw Hst. simpl in Hst. rewrite Hl in Hst. exists s.
    by split_and!; [apply rtc_refl|..|apply Hst].
Qed.

Lemma net_inv_restart config n c :
  net_inv config n → n_runner n = Restarting c →
  net_inv config {| n_mux := n_mux n; n_world := n_world n; n_runner := Waiting;
                    n_loops := (n_loops n ++ [startController c])%list |}.
Proof.
  intros [(old&tail&El&Hold&Hok&Hsim)] Hr. rewrite Hr in Hok. destruct tail; [|done].
  rewrite app_nil_r in El. eapply net_inv_last; [done|by rewrite El|done|].
  eapply simulated_step; [done| |].
  - rewrite El. intros ->. by apply Forall_singleton in Hold as (?&?&_).
  - intros s Hm Hw Hst. exists s. by split_and!; [apply rtc_refl|..].
Qed.

Lemma net_inv_step config n n' : net_inv config n → net_step n n' → net_inv config n'.
Proof.
  intros Hinv Hstep.
  destruct Hstep as [l1 l l2 user d mux w E Hl Hinit|l1 l l2 d p w p' E Hl Hrun|l d f|w
    |c Hr|c l1 l l2 d Hr E Hl|c l1 l l2 d|c].
  - destruct (inv_current _ _ _ _ _ Hinv E) as (->&Hold&Hok&Hsim&Hfirst); [by unfold has_ended; rewrite Hl|].
    eapply net_inv_last; [done|done| |by eapply simulated_init].
    simpl. destruct (n_runner n); simpl in *; rewrite ?Hl in Hok; naive_solver.
  - eapply net_inv_current; [done|exact E|done|by rewrite Hl|by unfold has_ended; rewrite Hl| |].
    + simpl. destruct (n_runner n); simpl; rewrite ?Hl; naive_solver.
    + intros s Hm Hw Hst. simpl in Hst. rewrite Hl in Hst. destruct Hst as [<- <-].
      exists (at_phase s w p'). split_and!; [|done..]. apply rtc_once, step_loop. by rewrite Hw.
  - by eapply net_inv_informer.
  - by apply net_inv_process.
  - destruct Hinv as [(old&tail&El&Hold&Hok&Hsim)]. eapply net_inv_last; [done|done| |done].
    by rewrite Hr in Hok.
  - eapply net_inv_current; [done|exact E|done|by rewrite Hl|by unfold has_ended; rewrite Hl| |].
    { simpl. rewrite Hr. simpl. rewrite Hl. intros (Hi&Hj&_). exists d. split; [done|]. unfold quiet. simpl.
      rewrite Hj. by destruct (rc_hasJobController _). }
    intros s Hm Hw Hst. simpl in Hst. rewrite Hl in Hst. exists s.
    by split_and!; [apply rtc_refl|..].
  - by eapply net_inv_answer.
  - by apply net_inv_restart.
Qed.

Lemma net_inv_reachable mux (w : W) config n :
  w_tasks w = [] → entries w = ∅ → rtc net_step (RunLocalController mux w config) n →
  net_inv config n.
Proof.
  intros Ht He. apply rtc_invariant; [|apply net_inv_step].
  apply (net_inv_last _ _ [] [startController config]); [done|done|done|by left].
Qed.

(** Once the first controller has been started, the path of the readiness check is taken. *)
Lemma simulated_mux config n tail :
  simulated config n tail → n_loops n ≠ [startController config] → "/ready" ∈ n_mux n.
Proof.
  intros [(?&_)|(s0&s&Hs&He&Hr&<-&_)] Hn; [done|].
  apply (sys_inv_reachable env s0 s); [by eapply sys_inv_started|done].
Qed.

(** There is one goroutine, or a second one that is before its start. *)
Definition first_or_last (n : Net) : Prop :=
  (∃ l, n_loops n = [l]) ∨ ∃ l c, n_loops n = [l; startController c] ∧ over l.

Lemma first_or_last_current n l1 l l2 :
  first_or_last n → n_loops n = (l1 ++ l :: l2)%list → (∀ user, lp_state l ≠ Starting user) →
  has_ended l = false → l1 = [] ∧ l2 = [].
Proof.
  intros [[x Hx]|(x&c&Hx&(d&Hd&_))] E Hl Hend; rewrite Hx in E.
  - by destruct l1 as [|? [|]]; simplify_list_eq.
  - exfalso. unfold has_ended in Hend. destruct l1 as [|? [|? [|]]]; simplify_list_eq.
    + by rewrite Hd in Hend.
    + by eapply Hl.
Qed.

Lemma first_or_last_step config n n' :
  net_inv config n → first_or_last n → net_step n n' → first_or_last n'.
Proof.
  intros Hinv Hone Hstep.
  destruct Hstep as [l1 l l2 user d mux w E Hl Hinit|l1 l l2 d p w p' E Hl Hrun|l d f|w
    |c Hr|c l1 l l2 d Hr E Hl|c l1 l l2 d Hr E Hl|c Hr]; try done.
  - destruct Hone as [[x Hx]|(x&c&Hx&Hov)].
    + rewrite Hx in E. left. destruct l1 as [|? [|]]; simplify_list_eq. by eexists.
    + exfalso. destruct (inv_current _ _ _ _ _ Hinv E) as (_&_&_&Hsim&_);
        [by unfold has_ended; rewrite Hl|].
      apply init_controller_done in Hinit as (_&Hno&_). apply Hno.
      eapply simulated_mux; [done|]. by rewrite Hx.
  - destruct (first_or_last_current _ _ _ _ Hone E) as [-> ->];
      [by rewrite Hl|by unfold has_ended; rewrite Hl|]. left. by eexists.
  - destruct (first_or_last_current _ _ _ _ Hone E) as [-> ->];
      [by rewrite Hl|by unfold has_ended; rewrite Hl|]. left. by eexists.
  - destruct (first_or_last_current _ _ _ _ Hone E) as [-> ->];
      [by rewrite Hl|by unfold has_ended; rewrite Hl|]. left. by eexists.
  - destruct Hinv as [(old&tail&El&Hold&Hok&_)]. rewrite Hr in Hok. destruct tail; [|done].
    rewrite app_nil_r in El. rewrite <-El in Hold. right.
    destruct Hone as [[x Hx]|(x&c'&Hx&_)]; rewrite Hx in Hold.
    + exists x, c. rewrite Forall_singleton in Hold. simpl. by rewrite Hx.
    + exfalso. apply Forall_cons in Hold as [_ Hold].
      by apply Forall_singleton in Hold as (?&?&_).
Qed.

Lemma first_or_last_reachable mux (w : W) config n :
  w_tasks w = [] → entries w = ∅ → rtc net_step (RunLocalController mux w config) n →
  net_inv config n ∧ first_or_last n.
Proof.
  intros Ht He. apply (rtc_invariant _ (λ n, net_inv config n ∧ first_or_last n)).
  - split; [by eapply (net_inv_reachable mux w), rtc_refl|]. left. by eexists.
  - intros n1 n2 [H1 H2] Hs. split; [by eapply net_inv_step|by eapply first_or_last_step].
Qed.
End restart.

(** ** Properties *)

(** C7. A changed configuration ends the loop, and then the process.  Whatever the
    interleaving of [RunLocalController], the goroutines it starts, informers, cleanups
    and changes made by others, one of two things holds.  Either there is one goroutine:
    not yet past its start, or in a state that [sys_step] reaches; and it is starting or
    running, with its stop channels open, until it has taken the message of a [stop] in
    progress, has closed its channels when it is to answer, and has ended when the answer
    was received.  Or it has ended in this way and a second goroutine is about to start:
    then the start of a controller crashes, for every configuration, so that this
    goroutine never gets to its loop, and no two loops ever run. *)
Theorem config_update_ends_process {FS API PT : Type}
    `{!VolumeUtil FS, !Exec FS, !KubeClient API, !ProcTable PT}
    `{!KubeClientLaws API, !ProcTableLaws PT}
    (env : Env) node namespace jobImage mux (w : World FS API PT) config n :
  w_tasks w = [] → entries w = ∅ →
  rtc (net_step env node namespace jobImage)
    (RunLocalController node namespace jobImage mux w config) n →
  (∃ l, n_loops n = [l] ∧
     match n_runner n with Restarting _ => over l | r => current_ok r [l] end ∧
     (l = startController node namespace jobImage config ∨
      ∃ s0 s, started env (UserConfigFromProvisionerConfig node namespace jobImage config) s0 ∧
        rtc (sys_step env) s0 s ∧ sy_mux s = n_mux n ∧ sy_world s = n_world n ∧
        stands_for [l] s)) ∨
  (∃ l new, n_loops n = [l; startController node namespace jobImage new] ∧ over l ∧
     ∀ user, crashed (init_controller env user (n_mux n, n_world n)) = true).
Proof.
  intros Ht He Hr.
  destruct (first_or_last_reachable env node namespace jobImage _ _ _ _ Ht He Hr)
    as [[(old&tail&El&Hold&Hok&Hsim)] [[l Hl]|(l&new&Hl&Hov)]].
  - left. exists l. split; [done|]. rewrite Hl in El.
    destruct old as [|o old]; simplify_list_eq.
    + split; [by revert Hok; destruct (n_runner n)|].
      destruct Hsim as [(E&_)|(s0&s&Hs&_&Hrest)]; [left|right; by exists s0, s].
      rewrite Hl in E. by injection E.
    + destruct old, tail; simplify_list_eq. rewrite Forall_singleton in Hold.
      split; [by revert Hok; destruct (n_runner n)|]. right.
      destruct Hsim as [(E&_)|(s0&s&Hs&_&Hr'&Hm&Hw&Hst)].
      * rewrite Hl in E. injection E as ->. by destruct Hold as (?&?&_).
      * exists s0, s. split_and!; try done. destruct Hold as (d&Hd&_). simpl. by rewrite Hd.
  - right. exists l, new. split_and!; [done|done|]. intros user.
    destruct (init_controller env user (n_mux n, n_world n)) as [d [mux' w']|] eqn:E; [|done].
    apply init_controller_done in E as (_&Hno&_). destruct Hno.
    eapply (simulated_mux env node namespace jobImage); [exact Hsim|]. by rewrite Hl.
Qed.

(** ** Witness: the first controller runs, an update arrives and stops its loop *)
Definition example_config : ProvisionerConfiguration :=
  with_classes (DiscoveryMap single_class_user) fresh_config.

Definition example_net := RunLocalController (API := MemServer)
  (PT := ProcTableImpl.ProcTableImpl) example_node "default" "" ∅ example_initial example_config.

Lemma config_update_ends_process_witness :
  ∃ n, rtc (net_step example_env example_node "default" "") example_net n ∧
    length (n_loops n) = 2 ∧
    ∀ user, crashed (init_controller example_env user (n_mux n, n_world n)) = true.
Proof.
  destruct (init_controller example_env
    (UserConfigFromProvisionerConfig example_node "default" "" example_config)
    (∅, example_initial)) as [d [mux w]|] eqn:E; [|vm_compute in E; discriminate].
  set (first := startController example_node "default" "" example_config).
  set (l1 := in_state (Running d Selecting) first). set (l2 := stopped_loop d l1).
  set (l3 := in_state (Ended d) l2).
  set (state r l := {| n_mux := mux; n_world := w; n_runner := r; n_loops := l |}).
  set (n := state Waiting [l3; first]).
  assert (rtc (net_step example_env example_node "default" "") example_net n) as Hr.
  { apply (rtc_l _ _ (state Waiting [l1]));
      [exact (net_init _ _ _ _ example_net [] first [] _ d mux w eq_refl eq_refl E)|].
    apply (rtc_l _ _ (state (Closing example_config) [l1])); [by apply net_update|].
    apply (rtc_l _ _ (state (Awaiting example_config) [l2]));
      [by apply (net_close _ _ _ _ (state (Closing example_config) [l1]) example_config [] l1 [])|].
    apply (rtc_l _ _ (state (Restarting example_config) [l3]));
      [by apply (net_answer _ _ _ _ (state (Awaiting example_config) [l2]) example_config [] l2 [])|].
    apply rtc_once. by apply (net_restart _ _ _ _ (state (Restarting example_config) [l3])). }
  exists n. split_and!; [exact Hr|reflexivity|].
  destruct (config_update_ends_process example_env example_node "default" "" ∅ example_initial
    example_config n) as [(l&Hl&_)|(l&new&_&_&Hcrash)];
    [reflexivity|reflexivity|exact Hr|discriminate Hl|exact Hcrash].
Defined.
