(* ===== verification/ChartValues.v ===== *)
(** * ChartValues: the values files of the Helm chart

    [cmd/utils/update-helm-values-pre-v2.2.0]: [chartutil] reads a values file into
    a tree of [interface{}] values and looks up dotted paths; [upgrade] rewrites the
    tree in place from the layout before v2.2.0 to the new one; [main] reads one file
    and writes another.  A decoded tree shares no maps, so a reference into it is the
    path where it was found; the YAML codec and the operating system are arguments. *)
From S2P Require Import Prelude GoLib.
From Stdlib Require Import Ascii SpecFloat.

(** ** Values

    What an [interface{}] of the program can hold.  [VMap] has the dynamic type
    [map[string]interface{}], [VValues] the type [chartutil.Values] and [VClasses] the
    type [[]chartutil.Values]: type assertions tell them apart.  Maps may be nil. *)
Inductive value :=
| VNull
| VBool (b : bool)
| VNumber (f : spec_float)
| VString (s : string)
| VList (l : list value)
| VMap (m : option (gmap string value))
| VValues (m : option (gmap string value))
| VClasses (l : list (gmap string value)).

Abbreviation Values := (gomap value).

(** ** [chartutil] *)
Definition AsMap (v : Values) : gmap string value :=
  if (map_len v =? 0)%nat then ∅ else default ∅ v.

Definition tableLookup (v : Values) (simple : string) : result Values :=
  match map_get v simple with
  | None => Err (Errorf "no table named %q (%v)" [simple] [])
  | Some (VMap vv) => Ok vv
  | Some (VValues vv) => Ok vv
  | Some _ => Err (Errorf "no table named %q" [simple] [])
  end.

(** The loop of [Table]. *)
Fixpoint table_path (table : Values) (names : list string) : result Values :=
  match names with
  | [] => Ok table
  | n :: names' =>
      match tableLookup table n with
      | Err err => Err err
      | Ok table' => table_path table' names'
      end
  end.

Definition Table (v : Values) (name : string) : result Values :=
  table_path v (split_on "." name).

Definition istable (v : value) : bool :=
  match v with VMap _ => true | _ => false end.

Definition PathValue (v : Values) (ypath : string) : result value :=
  if (String.length ypath =? 0)%nat
  then Err (Errorf "YAML path string cannot be zero length" [] [])
  else
    let yps := split_on "." ypath in
    if (length yps =? 1)%nat then
      let k := default "" (head yps) in
      match AsMap v !! k with
      | Some x => if negb (istable x) then Ok x else Err (Errorf "%v is not a value" [k] [])
      | None => Err (Errorf "%v is not a value" [k] [])
      end
    else
      let st := join_with "." (take (length yps - 1) yps) in
      let sk := default "" (head (drop (length yps - 1) yps)) in
      match Table v st with
      | Err _ => Err (Errorf "%v is not a value" [sk] [])
      | Ok t =>
          match map_get t sk with
          | Some k => if negb (istable k) then Ok k else Err (Errorf "key not found: %s" [sk] [])
          | None => Err (Errorf "key not found: %s" [sk] [])
          end
      end.

(** ** [upgrade] *)

(** [ErrNoValue] and [ErrNoTable] are interface types with the methods of [error],
    so the type assertions succeed for every error that is not nil. *)
Definition isNoValueError (err : option error) : bool := negb (no_error err).
Definition isNoTableError (err : option error) : bool := negb (no_error err).

Definition err_of {A} (r : result A) : option error :=
  match r with Ok _ => None | Err e => Some e end.

(** [m[k] = v]: a nil map panics. *)
Definition map_assign (k : string) (v : value) : M Values () := λ m,
  match m with
  | None => Crash (Panicked "assignment to entry in nil map") m
  | Some m' => Done () (Some (<[k := v]> m'))
  end.

(** [t[k] = v] where [t] is the table found under [name]: the map that the entry
    refers to changes. *)
Definition table_assign (name k : string) (v : value) : M Values () := λ out,
  match out, map_get out name with
  | Some o, Some (VMap (Some t)) => Done () (Some (<[name := VMap (Some (<[k := v]> t))]> o))
  | Some o, Some (VValues (Some t)) => Done () (Some (<[name := VValues (Some (<[k := v]> t))]> o))
  | _, _ => Crash (Panicked "assignment to entry in nil map") out
  end.

(** The code that sets [name.k] to [v], creating the table when there is none. *)
Definition set_in_table (name k : string) (v : value) : M Values (option error) :=
  err1 ← gets (λ out, err_of (Table out name));
  if negb (no_error err1) && negb (isNoTableError err1) then mret err1
  else
    _ ← (if isNoTableError err1 then map_assign name (VValues (Some ∅)) else mret ());
    _ ← table_assign name k v;
    mret None.

Section upgrade.
(** The order in which [range] visits the entries of the i-th class map. *)
Context (order : nat → gmap string value → list (string * value)).

(** The inner loop copies the entries of [kvs], whatever their order. *)
Definition class_value (name : string) (val : value) : gmap string value :=
  let classValue := {["name" := VString name]} in
  match val with
  | VMap (Some kvs) => map_fold (λ k v acc, <[k := v]> acc) classValue kvs
  | _ => classValue
  end.

(** The loop over [storageClassList], from its i-th element. *)
Fixpoint class_list (i : nat) (storageClassList : list value) (classes : list (gmap string value))
  : result (list (gmap string value)) :=
  match storageClassList with
  | [] => Ok classes
  | VMap classMap :: rest =>
      class_list (S i) rest
        (classes ++ ((λ '(name, val), class_value name val) <$> order i (default ∅ classMap)))%list
  | _ :: _ => Err (Errorf "invalid values" [] [])
  end.

(** Step 1: [configmap.configMapName] becomes [common.configMapName]. *)
Definition move_config_map_name : M Values (option error) :=
  r ← gets (λ val, PathValue val "configmap.configMapName");
  match r with
  | Err err => mret (if negb (isNoValueError (Some err)) then Some err else None)
  | Ok configMapName => set_in_table "common" "configMapName" configMapName
  end.

(** Step 2: the classes of the engine replace [configmap]. *)
Definition replace_config_map (engine : string) : M Values (option error) :=
  r ← gets (λ val, PathValue val ("configmap." +:+ engine +:+ ".storageClass"));
  match r with
  | Err err => mret (Some err)
  | Ok (VList storageClassList) =>
      match class_list 0 storageClassList [] with
      | Err err => mret (Some err)
      | Ok classes =>
          _ ← map_assign "classes" (VClasses classes);
          _ ← modify (option_map (delete "configmap"));
          mret None
      end
  | Ok _ => mret (Some (Errorf "invalid values" [] []))
  end.

(** Step 3: [daemonset.imagePullPolicy] gets its former default. *)
Definition set_pull_policy : M Values (option error) :=
  r ← gets (λ val, PathValue val "daemonset.imagePullPolicy");
  match r with
  | Err err =>
      if negb (isNoValueError (Some err)) then mret (Some err)
      else set_in_table "daemonset" "imagePullPolicy" (VString "Always")
  | Ok (VString s) =>
      if decide (s = "") then set_in_table "daemonset" "imagePullPolicy" (VString "Always")
      else mret None
  | Ok _ => mret None
  end.

(** [out := val] is the same map: the state is both. *)
Definition upgrade (engine : string) : M Values (option error) :=
  err ← move_config_map_name;
  match err with
  | Some _ => mret err
  | None =>
      err ← replace_config_map engine;
      match err with
      | Some _ => mret err
      | None => set_pull_policy
      end
  end.
End upgrade.

(** ** [main] *)

(** The files of the process, what it printed, and whether the usage was shown. *)
Record Console := {
  cs_files : gmap string string;
  cs_stdout : string;
  cs_usage : bool }.

Definition set_file (path content : string) (s : Console) : Console := {|
  cs_files := <[path := content]> (cs_files s); cs_stdout := cs_stdout s; cs_usage := cs_usage s |}.

Definition print_out (text : string) (s : Console) : Console := {|
  cs_files := cs_files s; cs_stdout := cs_stdout s +:+ text; cs_usage := cs_usage s |}.

Definition show_usage (s : Console) : Console := {|
  cs_files := cs_files s; cs_stdout := cs_stdout s; cs_usage := true |}.

Definition supportedEngines : list string := ["baremetal"; "gcePre19"; "gcePost19"; "gke"].

Section main.
(** [yaml.Unmarshal] into a variable of type [Values] that is nil, [yaml.Marshal], and
    whether a file can be opened for writing. *)
Context (Unmarshal : string → Values * option error).
Context (Marshal : Values → result string).
Context (OpenFile : string → option error).
Context (order : nat → gmap string value → list (string * value)).

Definition YAML (v : Values) : result string := Marshal v.

Definition ReadValues (data : string) : Values * option error :=
  let '(vals, err) := Unmarshal data in
  (if (map_len vals =? 0)%nat then Some ∅ else vals, err).

Definition ReadValuesFile (filename : string) (s : Console) : Values * option error :=
  match cs_files s !! filename with
  | None => (Some ∅, Some (Errorf "open %s: no such file or directory" [filename] []))
  | Some data => ReadValues data
  end.

(** [main] from the reading of the input; [write] is [out.WriteString]. *)
Definition convert (optInput optEngine : string) (write : string → Console → Console)
  : M Console () :=
  r ← gets (ReadValuesFile optInput);
  match r with
  | (_, Some _) => panic (Fatal "read")
  | (inVal, None) =>
      match upgrade order optEngine inVal with
      | Crash c _ => panic c
      | Done (Some _) _ => panic (Fatal "upgrade")
      | Done None outVal =>
          match YAML outVal with
          | Err _ => panic (Fatal "marshal")
          | Ok outStr => modify (write outStr)
          end
      end
  end.

(** The output file is created and truncated before the input is read; what is
    written to it afterwards is its content. *)
Definition main (optInput optOutput optEngine : string) : M Console () :=
  if decide (optInput = "" ∨ optOutput = "") then modify show_usage
  else if decide (optEngine ∉ supportedEngines) then mret ()
  else if decide (optOutput = "-") then convert optInput optEngine print_out
  else
    match OpenFile optOutput with
    | Some _ => panic (Fatal "open")
    | None =>
        _ ← modify (set_file optOutput "");
        convert optInput optEngine (set_file optOutput)
    end.
End main.

(** ** Paths *)

(** What a path leads to, if it is a value: the reference definition of [PathValue]. *)
Fixpoint get_path (v : Values) (p : list string) : option value :=
  match p with
  | [] => None
  | k :: p' =>
      match map_get v k with
      | None => None
      | Some x =>
          match p' with
          | [] => if istable x then None else Some x
          | _ => match x with VMap t | VValues t => get_path t p' | _ => None end
          end
      end
  end.

(** An entry that is not a table. *)
Lemma value_entry (o : option value) e1 e2 x :
  match o with Some y => if negb (istable y) then Ok y else Err e1 | None => Err e2 end = Ok x ↔
  o = Some x ∧ istable x = false.
Proof. destruct o as [y|]; [destruct (istable y) eqn:E|]; naive_solver congruence. Qed.

Lemma AsMap_lookup v k : AsMap v !! k = map_get v k.
Proof.
  unfold AsMap. destruct v as [m|]; simpl; [|done].
  destruct (Nat.eqb_spec (size m) 0) as [->%map_size_empty_inv|]; done.
Qed.

Lemma get_path_table v names k x :
  get_path v (names ++ [k]) = Some x ↔
  ∃ t, table_path v names = Ok t ∧ map_get t k = Some x ∧ istable x = false.
Proof.
  revert v. induction names as [|n names IH]; intros v; cbn [get_path app table_path].
  - split.
    + intros H. exists v. destruct (map_get v k) as [y|]; [|done].
      destruct (istable y) eqn:Et; [done|]. by injection H as <-.
    + intros (?&[= <-]&->&->). done.
  - assert (∃ a l, (names ++ [k])%list = a :: l) as (a&l&El)
      by (destruct names; simpl; eauto).
    unfold tableLookup. rewrite El in *.
    destruct (map_get v n) as [[]|]; try apply IH; (split; [done|by intros (?&?&_)]).
Qed.

(** [PathValue] follows the structure of the tree. *)
Lemma PathValue_get_path v p x :
  p ≠ [] → p ≠ [""] → Forall (λ n, contains_byte "." n = false) p →
  PathValue v (join_with "." p) = Ok x ↔ get_path v p = Some x.
Proof.
  intros Hp Hp1 Hdot. destruct (exists_last Hp) as (names&k&->).
  assert (join_with "." (names ++ [k]) ≠ "") as Hne.
  { intros E. apply (f_equal (split_on ".")) in E. rewrite split_join in E by done.
    change (split_on "." "") with [""] in E. done. }
  unfold PathValue. rewrite split_join by done.
  destruct (join_with "." (names ++ [k])) as [|c s]; [done|]. simpl.
  rewrite length_app, Nat.add_sub, take_app_length, drop_app_length. simpl.
  rewrite get_path_table. destruct names as [|n names].
  - cbn [app head default from_option length Nat.add Nat.eqb table_path id].
    rewrite value_entry, AsMap_lookup. split; [by exists v|]. by intros (?&[= <-]&?).
  - assert (((length (n :: names) + 1) =? 1)%nat = false) as -> by (apply Nat.eqb_neq; simpl; lia).
    unfold Table. rewrite split_join; [|done|by apply Forall_app in Hdot as [? _]].
    destruct (table_path v (n :: names)) as [t|e]; [|split; [done|by intros (?&?&_)]].
    rewrite value_entry. split; [by exists t|]. by intros (?&[= <-]&?).
Qed.

(** ** Well-formed trees *)

(** No map of the tree is nil. *)
Inductive wf_value : value → Prop :=
| wf_null : wf_value VNull
| wf_bool b : wf_value (VBool b)
| wf_number f : wf_value (VNumber f)
| wf_string s : wf_value (VString s)
| wf_list l : (∀ x, x ∈ l → wf_value x) → wf_value (VList l)
| wf_map m : (∀ k x, m !! k = Some x → wf_value x) → wf_value (VMap (Some m))
| wf_values m : (∀ k x, m !! k = Some x → wf_value x) → wf_value (VValues (Some m))
| wf_classes l : (∀ m k x, m ∈ l → m !! k = Some x → wf_value x) → wf_value (VClasses l).

Definition wf_entries (m : gmap string value) : Prop := map_Forall (λ _, wf_value) m.

#[local] Hint Constructors wf_value : core.

(** The table under [name] with one more entry; there may be none yet. *)
Definition put_in (t : option value) (k : string) (v : value) : value :=
  match t with
  | Some (VMap (Some t)) => VMap (Some (<[k := v]> t))
  | Some (VValues (Some t)) => VValues (Some (<[k := v]> t))
  | _ => VValues (Some {[k := v]})
  end.

Lemma wf_get_path m p x : wf_entries m → get_path (Some m) p = Some x → wf_value x.
Proof.
  revert m. induction p as [|k p IH]; intros m Hm; simpl; [done|].
  destruct (m !! k) as [y|] eqn:E; [|done]. apply Hm in E as Hy.
  destruct p as [|k' p].
  - destruct (istable y); [done|]. by intros [= <-].
  - inversion Hy; subst; try done; by apply IH.
Qed.

Lemma wf_put_in m name k v :
  wf_entries m → wf_value v → wf_value (put_in (m !! name) k v).
Proof.
  intros Hm Hv. assert (∀ t, wf_entries t → wf_entries (<[k := v]> t)) as Hins
    by (intros; by apply map_Forall_insert_2).
  assert (wf_value (VValues (Some {[k := v]}))) as Hnew
    by (constructor; by apply map_Forall_singleton).
  destruct (m !! name) as [t|] eqn:E; [|done]. apply Hm in E.
  inversion E; subst; simpl; try done; constructor; by apply Hins.
Qed.

Lemma set_in_table_run name k v m :
  contains_byte "." name = false → wf_entries m →
  set_in_table name k v (Some m) = Done None (Some (<[name := put_in (m !! name) k v]> m)).
Proof.
  intros Hn Hm. unfold set_in_table, Table. rewrite split_on_single by done.
  unfold_monad. cbn [table_path]. unfold tableLookup, table_assign, isNoTableError. simpl.
  destruct (m !! name) as [t|] eqn:E.
  - apply Hm in E as Ht.
    inversion Ht; subst; simpl; rewrite ?E, ?lookup_insert_eq, ?insert_insert_eq; done.
  - simpl. by rewrite lookup_insert_eq, insert_insert_eq.
Qed.

(** ** The three steps *)
Section steps.
Context (order : nat → gmap string value → list (string * value)).
Context (Horder : ∀ i m, order i m ≡ₚ map_to_list m).

(** The class a named entry of the old layout describes. *)
Definition new_class (name : string) (val : value) : gmap string value :=
  (match val with VMap (Some kvs) => kvs | _ => ∅ end) ∪ {["name" := VString name]}.

Lemma class_value_new name val : class_value name val = new_class name val.
Proof.
  unfold class_value, new_class.
  assert ({["name" := VString name]} = (∅ ∪ {["name" := VString name]} : gmap string value)) as E
    by by rewrite (left_id_L ∅ (∪)).
  destruct val as [| | | | |[kvs|]| |]; try done. clear E.
  induction kvs as [|k v kvs Hk Hfold IH] using map_first_key_ind.
  - by rewrite map_fold_empty, (left_id_L ∅ (∪)).
  - rewrite map_fold_insert_first_key by done. rewrite IH. by rewrite insert_union_l.
Qed.

(** The classes of one element of the list, in the order of its entries. *)
Definition new_classes (class : value) : list (gmap string value) :=
  match class with
  | VMap classMap => (λ '(name, val), new_class name val) <$> map_to_list (default ∅ classMap)
  | _ => []
  end.

Lemma class_list_ok i l acc :
  Forall (λ x, istable x = true) l →
  ∃ css, class_list order i l acc = Ok (acc ++ concat css)%list ∧
    Forall2 (λ x cs, cs ≡ₚ new_classes x) l css.
Proof.
  intros Hl. revert i acc. induction Hl as [|x l Hx _ IH]; intros i acc; simpl.
  - exists []. simpl. by rewrite app_nil_r.
  - destruct x as [| | | | |m| |]; try done.
    destruct (IH (S i) (acc ++ ((λ '(n, v), class_value n v) <$> order i (default ∅ m)))%list)
      as (css&Hrun&Hcss). rewrite Hrun. rewrite <-app_assoc.
    exists (((λ '(n, v), class_value n v) <$> order i (default ∅ m)) :: css). split; [done|].
    constructor; [|done]. simpl. rewrite (Horder i (default ∅ m)).
    apply Permutation_refl', list_fmap_ext. intros ? [n v] _. apply class_value_new.
Qed.

Lemma class_list_err i l acc :
  ¬ Forall (λ x, istable x = true) l → ∃ e, class_list order i l acc = Err e.
Proof.
  revert i acc. induction l as [|x l IH]; intros i acc Hl; simpl.
  - destruct Hl. constructor.
  - destruct x; try by eexists. apply IH. intros ?. apply Hl. by constructor.
Qed.
End steps.

(** ** What an upgrade does *)

(** The classes in the old layout, when the engine has a list of tables. *)
Definition old_classes (engine : string) (m : gmap string value) : option (list value) :=
  match get_path (Some m) ["configmap"; engine; "storageClass"] with
  | Some (VList l) => if decide (Forall (λ x, istable x = true) l) then Some l else None
  | _ => None
  end.

(** The table [common] after the move of [configMapName]. *)
Definition new_common (m : gmap string value) : option value :=
  match get_path (Some m) ["configmap"; "configMapName"] with
  | Some v => Some (put_in (m !! "common") "configMapName" v)
  | None => m !! "common"
  end.

(** The table [daemonset]: a pull policy that is missing or empty is set. *)
Definition new_daemonset (m : gmap string value) : option value :=
  match get_path (Some m) ["daemonset"; "imagePullPolicy"] with
  | None | Some (VString "") =>
      Some (put_in (m !! "daemonset") "imagePullPolicy" (VString "Always"))
  | Some _ => m !! "daemonset"
  end.

Record upgraded (l : list value) (m out : gmap string value) : Prop := {
  up_configmap : out !! "configmap" = None;
  up_classes : ∃ css, out !! "classes" = Some (VClasses (concat css)) ∧
    Forall2 (λ x cs, cs ≡ₚ new_classes x) l css;
  up_common : out !! "common" = new_common m;
  up_daemonset : out !! "daemonset" = new_daemonset m;
  up_others : ∀ k, k ∉ ["configmap"; "classes"; "common"; "daemonset"] → out !! k = m !! k }.

(** Reading a path of names without dots, in terms of [get_path]. *)
Lemma PathValue_run (v : Values) path p :
  path = join_with "." p → p ≠ [] → p ≠ [""] → Forall (λ n, contains_byte "." n = false) p →
  match get_path v p with
  | Some x => PathValue v path = Ok x
  | None => ∃ e, PathValue v path = Err e
  end.
Proof.
  intros -> H1 H2 H3. destruct (get_path v p) as [x|] eqn:E.
  - by apply PathValue_get_path.
  - destruct (PathValue v (join_with "." p)) as [x|e] eqn:Ep; [|by eexists].
    apply PathValue_get_path in Ep; [|done..]. congruence.
Qed.

(** A table depends on the entry of its name only. *)
Lemma get_path_entry (m m' : gmap string value) k p :
  m' !! k = m !! k → get_path (Some m') (k :: p) = get_path (Some m) (k :: p).
Proof. intros E. simpl. by rewrite E. Qed.

Section upgrade_run.
Context (order : nat → gmap string value → list (string * value)).
Context (Horder : ∀ i m, order i m ≡ₚ map_to_list m).
Context (engine : string) (Hengine : contains_byte "." engine = false).

Lemma move_config_map_name_run m :
  wf_entries m →
  ∃ m1, move_config_map_name (Some m) = Done None (Some m1) ∧ wf_entries m1 ∧
    m1 !! "common" = new_common m ∧ ∀ k, k ≠ "common" → m1 !! k = m !! k.
Proof.
  intros Hm. unfold move_config_map_name, new_common. unfold_monad.
  pose proof (PathValue_run (Some m) "configmap.configMapName" ["configmap"; "configMapName"]
    eq_refl ltac:(done) ltac:(done) ltac:(repeat constructor)) as Hp.
  destruct (get_path (Some m) _) as [v|] eqn:Hv; [|destruct Hp as [e Hp]]; rewrite Hp.
  - rewrite set_in_table_run by done. eexists. split; [done|].
    split; [|split; [apply lookup_insert_eq|intros k Hk; by apply lookup_insert_ne]].
    apply map_Forall_insert_2; [|done]. apply wf_put_in; [done|]. by eapply wf_get_path.
  - simpl. by exists m.
Qed.

Lemma replace_config_map_run m :
  wf_entries m →
  match old_classes engine m with
  | None => ∃ e, replace_config_map order engine (Some m) = Done (Some e) (Some m)
  | Some l => ∃ css, Forall2 (λ x cs, cs ≡ₚ new_classes x) l css ∧
      replace_config_map order engine (Some m) =
        Done None (Some (delete "configmap" (<["classes" := VClasses (concat css)]> m)))
  end.
Proof.
  intros Hm. unfold replace_config_map, old_classes. unfold_monad.
  pose proof (PathValue_run (Some m) ("configmap." +:+ engine +:+ ".storageClass")
    ["configmap"; engine; "storageClass"] eq_refl ltac:(done) ltac:(done)
    ltac:(repeat constructor; done)) as Hp.
  destruct (get_path (Some m) _) as [x|]; [|destruct Hp as [e Hp]]; rewrite Hp; [|by eexists].
  destruct x as [| | | |l| | |]; try by eexists. case_decide as Hl.
  - destruct (class_list_ok order Horder 0 l [] Hl) as (css&Hrun&Hcss). rewrite Hrun. by exists css.
  - destruct (class_list_err order 0 l [] Hl) as (e&->). by eexists.
Qed.

Lemma set_pull_policy_run m :
  wf_entries m →
  ∃ m1, set_pull_policy (Some m) = Done None (Some m1) ∧ wf_entries m1 ∧
    m1 !! "daemonset" = new_daemonset m ∧ ∀ k, k ≠ "daemonset" → m1 !! k = m !! k.
Proof.
  intros Hm. unfold set_pull_policy, new_daemonset. unfold_monad.
  pose proof (PathValue_run (Some m) "daemonset.imagePullPolicy" ["daemonset"; "imagePullPolicy"]
    eq_refl ltac:(done) ltac:(done) ltac:(repeat constructor)) as Hp.
  assert (∃ m1, set_in_table "daemonset" "imagePullPolicy" (VString "Always") (Some m) =
      Done None (Some m1) ∧ wf_entries m1 ∧
    m1 !! "daemonset" = Some (put_in (m !! "daemonset") "imagePullPolicy" (VString "Always")) ∧
    ∀ k, k ≠ "daemonset" → m1 !! k = m !! k) as Hset.
  { rewrite set_in_table_run by done. eexists. split; [done|].
    split; [|split; [apply lookup_insert_eq|intros k Hk; by apply lookup_insert_ne]].
    apply map_Forall_insert_2; [|done]. by apply wf_put_in. }
  destruct (get_path (Some m) _) as [v|] eqn:Hv; [|destruct Hp as [e Hp]]; rewrite Hp; [|done].
  destruct v as [| | |s| | | |]; try (by exists m).
  destruct (decide (s = "")) as [-> |Hs]; [done|]. exists m. by destruct s.
Qed.

Lemma new_classes_wf x cs c k v :
  wf_value x → cs ≡ₚ new_classes x → c ∈ cs → c !! k = Some v → wf_value v.
Proof.
  intros Hx -> Hc Hv. destruct Hx as [| | | |l|m Hm|m|l]; simpl in Hc; try by apply not_elem_of_nil in Hc.
  apply list_elem_of_fmap in Hc as ([n y]&->&Hin). apply elem_of_map_to_list in Hin.
  apply Hm in Hin as Hy. unfold new_class in Hv. apply lookup_union_Some_raw in Hv as [Hv|[_ Hv]].
  - destruct y as [| | | | |[kvs|]| |]; try done. inversion Hy; subst. eauto.
  - apply lookup_singleton_Some in Hv as [_ <-]. done.
Qed.

Lemma wf_replaced m l css :
  wf_entries m → old_classes engine m = Some l → Forall2 (λ x cs, cs ≡ₚ new_classes x) l css →
  wf_entries (delete "configmap" (<["classes" := VClasses (concat css)]> m)).
Proof.
  intros Hm Hl Hcss. apply map_Forall_delete, map_Forall_insert_2; [|done].
  constructor. intros c k v Hin Hv. apply list_elem_of_In, in_concat in Hin as (cs&Hcs&Hin).
  apply list_elem_of_In in Hcs, Hin.
  apply list_elem_of_lookup in Hcs as (i&Hi).
  destruct (Forall2_lookup_r _ _ _ _ _ Hcss Hi) as (x&Hx&Hp).
  eapply new_classes_wf; [|done..].
  unfold old_classes in Hl. destruct (get_path _ _) as [[]|] eqn:Hg; try done.
  case_decide; [|done]. injection Hl as ->.
  apply (wf_get_path _ _ _ Hm) in Hg. inversion Hg; subst.
  apply list_elem_of_lookup_2 in Hx. auto.
Qed.
End upgrade_run.

(** ** Properties *)

(** C27. An upgrade does what the new layout asks for.  It succeeds exactly when the
    engine has a list of class tables; then [configmap] is gone, [classes] lists the
    classes under their names in the old order, [configMapName] has moved to [common],
    an empty or missing pull policy is [Always], other settings of those tables and
    all other entries are kept.  Otherwise it fails, and [configmap] is kept. *)
Theorem upgrade_moves_settings order engine m :
  (∀ i m, order i m ≡ₚ map_to_list m) → contains_byte "." engine = false → wf_entries m →
  ∃ err out, upgrade order engine (Some m) = Done err (Some out) ∧
    match old_classes engine m with
    | Some l => err = None ∧ upgraded l m out
    | None => err ≠ None ∧ ∀ k, k ≠ "common" → out !! k = m !! k
    end.
Proof.
  intros Ho He Hm. unfold upgrade. unfold_monad.
  destruct (move_config_map_name_run m Hm) as (m1&->&Hm1&Hc1&Hr1).
  pose proof (replace_config_map_run order Ho engine He m1 Hm1) as H2.
  assert (old_classes engine m1 = old_classes engine m) as Eold
    by (unfold old_classes; by rewrite (get_path_entry m m1) by (by apply Hr1)).
  rewrite Eold in H2. destruct (old_classes engine m) as [l|] eqn:Hl;
    [destruct H2 as (css&Hcss&->)|destruct H2 as (e&->); by exists (Some e), m1].
  set (m2 := delete "configmap" (<["classes" := VClasses (concat css)]> m1)).
  destruct (set_pull_policy_run m2) as (m3&->&Hm3&Hd3&Hr3); [by eapply wf_replaced|].
  exists None, m3. split; [done|]. split; [done|].
  assert (∀ k, k ≠ "configmap" → k ≠ "classes" → m2 !! k = m1 !! k) as H12
    by (intros k ??; unfold m2; by rewrite lookup_delete_ne, lookup_insert_ne by done).
  split.
  - rewrite Hr3 by done. apply lookup_delete_eq.
  - exists css. split; [|done]. rewrite Hr3 by done. unfold m2.
    by rewrite lookup_delete_ne, lookup_insert_eq by done.
  - by rewrite Hr3, H12.
  - rewrite Hd3. unfold new_daemonset.
    assert (m2 !! "daemonset" = m !! "daemonset") as E by (by rewrite H12, Hr1).
    by rewrite (get_path_entry m m2), E by done.
  - intros k Hk. rewrite !not_elem_of_cons in Hk. by rewrite Hr3, H12, Hr1 by naive_solver.
Qed.

(** Upgrading a file in place destroys it.  With the same path for input and
    output the file is truncated before it is read: the tool finds an empty file,
    fails because there are no classes, and leaves the file empty. *)
Theorem in_place_upgrade_loses_values Unmarshal Marshal OpenFile order path engine s content :
  Unmarshal "" = (None, None) → OpenFile path = None →
  path ≠ "" → path ≠ "-" → engine ∈ supportedEngines → cs_files s !! path = Some content →
  main Unmarshal Marshal OpenFile order path path engine s =
    Crash (Fatal "upgrade") (set_file path "" s).
Proof.
  intros Hu Ho Hp Hd He Hs. unfold main. rewrite decide_False by tauto.
  rewrite decide_False by tauto. rewrite decide_False, Ho by done. unfold convert. unfold_monad.
  unfold ReadValuesFile, ReadValues. simpl. rewrite lookup_insert_eq, Hu. simpl.
  assert (∃ e, PathValue (Some ∅) ("configmap." +:+ engine +:+ ".storageClass") = Err e) as (e&Ee).
  { unfold supportedEngines in He. set_unfold in He.
    destruct_or! He; subst; try done; vm_compute; by eexists. }
  assert (∃ e, PathValue (Some ∅) "configmap.configMapName" = Err e) as (e0&E0)
    by (vm_compute; by eexists).
  unfold upgrade, move_config_map_name, replace_config_map. unfold_monad.
  rewrite E0. cbn [isNoValueError no_error negb]. by rewrite Ee.
Qed.

(** ** The cases of the repository's test *)
Definition any_order (i : nat) (m : gmap string value) : list (string * value) := map_to_list m.

Definition fast_disks : value := VMap (Some (
  <["blockCleanerCommand" := VList [VString "/scripts/shred.sh"; VString "2"]]>
  {["hostDir" := VString "/mnt/fast-disks"]})).

Definition old_values : gmap string value :=
  <["common" := VMap (Some {["useAlphaAPI" := VBool true]})]>
  {["configmap" := VMap (Some (
      <["baremetal" := VMap (Some {["storageClass" :=
          VList [VMap (Some {["fast-disks" := fast_disks]})]]})]>
      {["configMapName" := VString "local-provisioner-test"]}))]}.

Definition new_values : gmap string value :=
  <["common" := VMap (Some (<["configMapName" := VString "local-provisioner-test"]>
                              {["useAlphaAPI" := VBool true]}))]>
  (<["classes" := VClasses [
      <["name" := VString "fast-disks"]>
      (<["blockCleanerCommand" := VList [VString "/scripts/shred.sh"; VString "2"]]>
      {["hostDir" := VString "/mnt/fast-disks"]})]]>
  {["daemonset" := VValues (Some {["imagePullPolicy" := VString "Always"]})]}).

Example upgrade_test_case : upgrade any_order "baremetal" (Some old_values) = Done None (Some new_values).
Proof. vm_compute. reflexivity. Qed.

Example upgrade_other_engine :
  ∃ e out, upgrade any_order "gke" (Some old_values) = Done (Some e) (Some out).
Proof. vm_compute. eauto. Qed.

Lemma wf_old_values : wf_entries old_values.
Proof.
  assert (∀ l, Forall wf_value l → wf_value (VList l)) as Hlist
    by (intros l; rewrite Forall_forall; apply wf_list).
  assert (∀ m, wf_entries m → wf_value (VMap (Some m))) as Hmap by (intros; by constructor).
  unfold wf_entries, old_values, fast_disks in *.
  repeat first [apply map_Forall_insert_2 | apply map_Forall_empty | apply Hlist | apply Hmap
               | constructor].
Qed.

Lemma upgrade_moves_settings_witness :
  ∃ out, upgrade any_order "baremetal" (Some old_values) = Done None (Some out) ∧
    out !! "configmap" = None.
Proof.
  destruct (upgrade_moves_settings any_order "baremetal" old_values) as (err&out&Hrun&Hout);
    [done|reflexivity|apply wf_old_values|].
  destruct (old_classes "baremetal" old_values) as [l|] eqn:E; [|vm_compute in E; discriminate].
  destruct Hout as [-> Hup]. exists out. split; [exact Hrun|apply Hup].
Defined.

Lemma in_place_upgrade_loses_values_witness :
  let s := {| cs_files := {["values.yaml" := "..."]}; cs_stdout := ""; cs_usage := false |} in
  main (λ data, if decide (data = "") then (None, None) else (Some old_values, None))
    (λ _, Ok "...") (λ _, None) any_order "values.yaml" "values.yaml" "baremetal" s =
    Crash (Fatal "upgrade") (set_file "values.yaml" "" s).
Proof.
  eapply in_place_upgrade_loses_values; [reflexivity|reflexivity|done|done| |reflexivity].
  unfold supportedEngines. left.
Defined.
