(* ===== verification/Kubetest.v ===== *)
(** * Kubetest: the driver of the end-to-end tests, [hack/e2e.go]

    The driver parses its flags (with Go's [flag] package, of which the three flags of
    the driver are modelled), finds or installs the program kubetest, and runs it with
    the remaining arguments.  The machine it works on is a state with the operations
    that [tester] has as fields. *)
From S2P Require Import Prelude GoLib FilePath.
From Stdlib Require Import Ascii.

(** ** Flags *)
Record flags := { get : bool; old : Z; args : list string }.

Definition getDefault : bool := true.
(** 24 hours, in nanoseconds. *)
Definition oldDefault : Z := 86400000000000.

(** [strconv.ParseBool]. *)
Definition ParseBool (s : string) : option bool :=
  if decide (s ∈ ["1"; "t"; "T"; "TRUE"; "true"; "True"]) then Some true
  else if decide (s ∈ ["0"; "f"; "F"; "FALSE"; "false"; "False"]) then Some false
  else None.

(** The variables behind the flags. *)
Record FlagVars := { fv_get : bool; fv_old : Z; fv_verbose : bool }.

Definition flag_defaults : FlagVars :=
  {| fv_get := getDefault; fv_old := oldDefault; fv_verbose := true |}.

(** How [FlagSet.Parse] ends: the arguments were read up to the first that is not a
    flag, or [--]; help was asked for; or an argument is malformed. *)
Inductive parse_end := ParseOk | ParseHelp | ParseError.

(** [name=value], split at the first [=] after the first byte. *)
Fixpoint split_value (s : string) : string * option string :=
  match s with
  | "" => ("", None)
  | String c s' =>
      if Ascii.eqb c "="%char then ("", Some s')
      else let '(name, value) := split_value s' in (String c name, value)
  end.

(** The name of a flag argument without its hyphens; [None] when it is not a flag. *)
Inductive flag_arg := NotAFlag | Terminator | BadSyntax | Named (name : string) (value : option string).

Definition classify (s : string) : flag_arg :=
  match s with
  | String "-" (String c s' as rest) =>
      let name := if Ascii.eqb c "-"%char then s' else rest in
      if Ascii.eqb c "-"%char && bool_decide (s' = "") then Terminator
      else
        match name with
        | "" => BadSyntax
        | String c' name' =>
            if Ascii.eqb c' "-"%char || Ascii.eqb c' "="%char then BadSyntax
            else let '(n, v) := split_value name' in Named (String c' n) v
        end
  | _ => NotAFlag
  end.

Section flags.
Context (ParseDuration : string → option Z).

(** [boolValue.Set]: the variable takes the parsed value also when there is an error,
    [false] then. *)
Definition set_bool (value : option string) : bool * bool :=
  match value with
  | Some v => match ParseBool v with Some b => (b, true) | None => (false, false) end
  | None => (true, true)
  end.

(** [durationValue.Set], likewise. *)
Definition set_duration (value : string) : Z * bool :=
  match ParseDuration value with Some n => (n, true) | None => (0%Z, false) end.

Definition set_get (b : bool) (v : FlagVars) : FlagVars :=
  {| fv_get := b; fv_old := fv_old v; fv_verbose := fv_verbose v |}.
Definition set_old (n : Z) (v : FlagVars) : FlagVars :=
  {| fv_get := fv_get v; fv_old := n; fv_verbose := fv_verbose v |}.
Definition set_verbose (b : bool) (v : FlagVars) : FlagVars :=
  {| fv_get := fv_get v; fv_old := fv_old v; fv_verbose := b |}.

(** The loop of [FlagSet.Parse]: how it ends, the variables, and the arguments left. *)
Fixpoint Parse (arguments : list string) (v : FlagVars) {struct arguments}
  : parse_end * FlagVars * list string :=
  match arguments with
  | [] => (ParseOk, v, [])
  | s :: rest =>
      match classify s with
      | NotAFlag => (ParseOk, v, s :: rest)
      | Terminator => (ParseOk, v, rest)
      | BadSyntax => (ParseError, v, s :: rest)
      | Named name value =>
          if decide (name = "get") then
            let '(b, ok) := set_bool value in
            if ok : bool then Parse rest (set_get b v) else (ParseError, set_get b v, rest)
          else if decide (name = "v") then
            let '(b, ok) := set_bool value in
            if ok : bool then Parse rest (set_verbose b v) else (ParseError, set_verbose b v, rest)
          else if decide (name = "old") then
            match value, rest with
            | Some d, _ =>
                let '(n, ok) := set_duration d in
                if ok : bool then Parse rest (set_old n v) else (ParseError, set_old n v, rest)
            | None, d :: rest' =>
                let '(n, ok) := set_duration d in
                if ok : bool then Parse rest' (set_old n v) else (ParseError, set_old n v, rest')
            | None, [] => (ParseError, v, [])
            end
          else if decide (name = "help" ∨ name = "h") then (ParseHelp, v, rest)
          else (ParseError, v, rest)
      end
  end.

(** [%t]. *)
Definition format_t (b : bool) : string := if b then "true" else "false".

(** [parse]: [arguments] is [os.Args], whose first element is the program.  After an
    error the arguments from the last one that was read on are kept. *)
Definition parse (program : string) (arguments : list string) : result flags :=
  let all := program :: arguments in
  match Parse arguments flag_defaults with
  | (ParseHelp, _, _) => Err (Errorf "flag: help requested" [] [])
  | (ParseError, v, rest) =>
      Ok {| get := fv_get v; old := fv_old v; args := drop (length all - length rest - 1) all |}
  | (ParseOk, v, rest) =>
      Ok {| get := fv_get v; old := fv_old v;
            args := ("--verbose-commands=" +:+ format_t (fv_verbose v)) :: rest |}
  end.
End flags.

(** ** Finding and installing kubetest *)

(** The functions of [tester] on the machine [E], the clock, and [$GOPATH]. *)
Record tester (E : Type) := {
  stat : string → E → result Z;
  lookPath : string → E → result string;
  goPath : string;
  wait : string → list string → E → option error * E;
  now : E → Z }.
Arguments stat {E}. Arguments lookPath {E}. Arguments goPath {E}. Arguments wait {E}.
Arguments now {E}.

Definition newline : string := String (Ascii.ascii_of_nat 10) "".

Definition installCmd : string := newline +:+
  "tmpdir=$(mktemp -d)" +:+ newline +:+
  "trap " +:+ String (Ascii.ascii_of_nat 34) "rm -rf ${tmpdir}" +:+
    String (Ascii.ascii_of_nat 34) " EXIT" +:+ newline +:+
  "cd ${tmpdir}" +:+ newline +:+
  "git clone --depth=1 https://github.com/kubernetes/test-infra" +:+ newline +:+
  "cd test-infra" +:+ newline +:+
  "GO111MODULE=on go install ./kubetest" +:+ newline.

Section tester.
Context {E : Type} (t : tester E).

(** A call of [t.wait]. *)
Definition run (cmd : string) (arguments : list string) : M E (option error) :=
  λ e, let '(r, e') := wait t cmd arguments e in Done r e'.

(** [time.Since]: the difference saturates at the bounds of a duration. *)
Definition Since (modTime : Z) (e : E) : Z :=
  Z.max int64_min (Z.min int64_max (now t e - modTime)).

Definition lookKubetest (e : E) : result string :=
  if decide (goPath t ≠ "") then
    let p := Join [goPath t; "bin"; "kubetest"] in
    match stat t p e with
    | Ok _ => Ok p
    | Err _ => lookPath t "kubetest" e
    end
  else lookPath t "kubetest" e.

(** [getKubetest] from the installation on. *)
Definition installKubetest : M E (result string) :=
  if decide (goPath t = "")
  then mret (Err (Errorf "Cannot install kubetest until $GOPATH is set" [] []))
  else
    let cmd := ["sh"; "-c"; installCmd] in
    err ← run "sh" ["-c"; installCmd];
    match err with
    | Some err => mret (Err (Errorf "%s: %v" [join_with " " cmd] [err]))
    | None =>
        found ← gets lookKubetest;
        match found with
        | Err err => mret (Err err)
        | Ok p =>
            err ← run "touch" [p];
            match err with
            | Some err => mret (Err err)
            | None => mret (Ok p)
            end
        end
    end.

Definition getKubetest (get : bool) (old : Z) : M E (result string) :=
  found ← gets lookKubetest;
  match found with
  | Ok p =>
      if negb get then mret (Ok p)
      else
        s ← gets (stat t p);
        match s with
        | Err err => mret (Err err)
        | Ok modTime =>
            age ← gets (Since modTime);
            if decide (age ≤ old)%Z then mret (Ok p)
            else if decide (goPath t = "") then mret (Ok p)
            else installKubetest
        end
  | Err _ => installKubetest
  end.

(** [main]; the exit status of the flag error is 2. *)
Definition main (ParseDuration : string → option Z) (program : string) (arguments : list string)
  : M E () :=
  match parse ParseDuration program arguments with
  | Err _ => panic (Fatal "exit status 2")
  | Ok f =>
      k ← getKubetest (get f) (old f);
      match k with
      | Err _ => panic (Fatal "err")
      | Ok k =>
          err ← run k (args f);
          match err with
          | Some _ => panic (Fatal "err")
          | None => mret ()
          end
      end
  end.
End tester.

(** ** Properties *)

Lemma classify_terminator s : classify s = Terminator → s = "--".
Proof.
  unfold classify. intros H. cases_in H.
  rewrite andb_true_iff, bool_decide_eq_true, Ascii.eqb_eq in *. naive_solver.
Qed.

(** The names of the flags that the driver and the [flag] package know. *)
Definition known_flags : list string := ["get"; "v"; "old"; "help"; "h"].

Section parse_properties.
Context (ParseDuration : string → option Z).

(** Flags that are read to the end leave the parser at what follows them. *)
Lemma Parse_app fl more v v' :
  "--" ∉ fl → Parse ParseDuration fl v = (ParseOk, v', []) →
  Parse ParseDuration (fl ++ more) v = Parse ParseDuration more v'.
Proof.
  revert v. induction fl as [fl IH] using (induction_ltof1 _ length).
  intros v Hsep. destruct fl as [|s fl]; [by intros [= ->]|].
  pose proof (classify_terminator s). apply not_elem_of_cons in Hsep as [? Hsep].
  assert (∀ w, Parse ParseDuration fl w = (ParseOk, v', []) →
    Parse ParseDuration (fl ++ more) w = Parse ParseDuration more v') as IH1.
  { intros w. apply IH; [unfold ltof; simpl; lia|done]. }
  cbn [Parse app]. destruct (classify s) as [| | |name value]; [done|naive_solver|done|].
  case_decide. { destruct (set_bool value) as [b []]; [apply IH1|done]. }
  case_decide. { destruct (set_bool value) as [b []]; [apply IH1|done]. }
  case_decide; [|by case_decide].
  destruct value as [d|]. { destruct (set_duration _ d) as [n []]; [apply IH1|done]. }
  destruct fl as [|d fl]; [done|]. cbn [app].
  destruct (set_duration _ d) as [n []]; [|done].
  apply not_elem_of_cons in Hsep as [_ Hsep].
  apply IH; [unfold ltof; simpl; lia|done].
Qed.

(** What [parse] leaves for kubetest: everything after the separator, or everything from
    the first unknown flag on. *)
Lemma parse_separator program fl rest v :
  "--" ∉ fl → Parse ParseDuration fl flag_defaults = (ParseOk, v, []) →
  parse ParseDuration program (fl ++ "--" :: rest) =
    Ok {| get := fv_get v; old := fv_old v;
          args := ("--verbose-commands=" +:+ format_t (fv_verbose v)) :: rest |}.
Proof. intros. unfold parse. by rewrite (Parse_app fl _ _ v) by done. Qed.

Lemma parse_unknown program fl s rest v name value :
  "--" ∉ fl → Parse ParseDuration fl flag_defaults = (ParseOk, v, []) →
  classify s = Named name value → name ∉ known_flags →
  parse ParseDuration program (fl ++ s :: rest) =
    Ok {| get := fv_get v; old := fv_old v; args := s :: rest |}.
Proof.
  intros ? ? Hs Hn. unfold parse. rewrite (Parse_app fl _ _ v) by done.
  cbn [Parse]. rewrite Hs. unfold known_flags in Hn.
  rewrite !not_elem_of_cons in Hn. destruct Hn as (?&?&?&?&?&_).
  repeat (rewrite decide_False by naive_solver).
  do 2 f_equal. replace (length _ - _ - 1) with (length (program :: fl)).
  - apply (drop_app_length (program :: fl)).
  - cbn [length]. rewrite length_app. simpl. lia.
Qed.
End parse_properties.

(** [settles get old e p e']: from the state [e], kubetest is to be run at [p], in the state
    [e'].  It was found and nothing was run: no update was asked for, or it is at most
    [old] of age, or there is no [$GOPATH] to install to.  Or it was missing, or an update
    was asked for and it is too old: then it was installed, found again and touched. *)
Inductive settles {E} (t : tester E) (get : bool) (old : Z) (e : E) : string → E → Prop :=
| settles_found p :
    lookKubetest t e = Ok p →
    (get = false ∨ ∃ m, stat t p e = Ok m ∧ ((Since t m e ≤ old)%Z ∨ goPath t = "")) →
    settles t get old e p e
| settles_installed p e1 e2 :
    goPath t ≠ "" →
    (is_ok (lookKubetest t e) = false ∨
     get = true ∧ ∃ p0 m, lookKubetest t e = Ok p0 ∧ stat t p0 e = Ok m ∧ (old < Since t m e)%Z) →
    wait t "sh" ["-c"; installCmd] e = (None, e1) → lookKubetest t e1 = Ok p →
    wait t "touch" [p] e1 = (None, e2) → settles t get old e p e2.

Section tester_properties.
Context {E : Type} (t : tester E).

Lemma installKubetest_settles get old e :
  is_ok (lookKubetest t e) = false ∨
  get = true ∧ (∃ p0 m, lookKubetest t e = Ok p0 ∧ stat t p0 e = Ok m ∧ (old < Since t m e)%Z) →
  ∃ r e', installKubetest t e = Done r e' ∧ ∀ p, r = Ok p → settles t get old e p e'.
Proof.
  intros Hneed. unfold installKubetest, run. unfold_monad. case_decide; [naive_solver|].
  destruct (wait t "sh" _ e) as [[err|] e1] eqn:Hsh; [naive_solver|].
  destruct (lookKubetest t e1) as [p|err] eqn:Hl; [|naive_solver].
  destruct (wait t "touch" [p] e1) as [[err|] e2] eqn:Hw; [naive_solver|].
  do 2 eexists. split; [done|]. intros ? [= <-]. by eapply settles_installed.
Qed.

(** [getKubetest] settles on what it returns. *)
Lemma getKubetest_settles get old e :
  ∃ r e', getKubetest t get old e = Done r e' ∧ ∀ p, r = Ok p → settles t get old e p e'.
Proof.
  unfold getKubetest. unfold_monad.
  destruct (lookKubetest t e) as [p|err] eqn:Hl.
  2: { apply installKubetest_settles. left. by rewrite Hl. }
  destruct get; simpl.
  2: { do 2 eexists. split; [done|]. intros ? [= <-]. apply settles_found; auto. }
  destruct (stat t p e) as [m|] eqn:Hs; [|by do 2 eexists].
  case_decide as Hage.
  { do 2 eexists. split; [done|]. intros ? [= <-]. apply settles_found; eauto. }
  case_decide as Hg.
  { do 2 eexists. split; [done|]. intros ? [= <-]. apply settles_found; eauto. }
  apply installKubetest_settles. right. split; [done|]. exists p, m. split_and!; [done|done|lia].
Qed.

(** What can be settled on is returned. *)
Lemma settles_getKubetest get old e p e' :
  settles t get old e p e' → getKubetest t get old e = Done (Ok p) e'.
Proof.
  unfold getKubetest. unfold_monad.
  intros [p' Hl Hok|p' e1 e2 Hg Hneed Hsh Hl Hw].
  - rewrite Hl. destruct get; simpl; [|done]. destruct Hok as [?|(m&->&Hm)]; [done|].
    case_decide; [done|]. by destruct Hm as [?|Hm]; [|rewrite decide_True].
  - assert (installKubetest t e = Done (Ok p') e2) as Hinst.
    { unfold installKubetest, run. unfold_monad. by rewrite decide_False, Hsh, Hl, Hw by done. }
    destruct Hneed as [Hno|(->&p0&m&Hl0&Hs0&Hold)].
    + by destruct (lookKubetest t e).
    + rewrite Hl0. simpl. rewrite Hs0, decide_False by lia. by rewrite decide_False by done.
Qed.
End tester_properties.

(** C40. The driver with arguments [fl ++ "--" :: rest], where [fl] are well-formed
    flags.  It succeeds exactly when there is a kubetest to settle on, at [p] in the
    state [e1], and its run on [--verbose-commands=] and exactly the arguments after the
    separator succeeds.  The kubetest settled on is the one a look-up finds, and with
    [--get] it is at most [--old] of age, or could not be replaced for lack of a
    [$GOPATH], or has been installed, found again and touched, in this order and with
    nothing else run.  Otherwise the driver ends with an error; it never panics. *)
Theorem driver_runs_recent_kubetest {E} (t : tester E)
    (ParseDuration : string → option Z) (program : string) (fl rest : list string)
    (v : FlagVars) (e : E)
    (Hsep : "--" ∉ fl)
    (Hfl : Parse ParseDuration fl flag_defaults = (ParseOk, v, [])) :
  (∀ e2, main t ParseDuration program (fl ++ "--" :: rest) e = Done () e2 ↔
     ∃ p e1, settles t (fv_get v) (fv_old v) e p e1 ∧
       wait t p (("--verbose-commands=" +:+ format_t (fv_verbose v)) :: rest) e1 = (None, e2)) ∧
  (∀ crash e2, main t ParseDuration program (fl ++ "--" :: rest) e = Crash crash e2 →
     crash = Fatal "err").
Proof.
  unfold main, run. rewrite (parse_separator _ _ _ _ v) by done. simpl. unfold_monad.
  destruct (getKubetest_settles t (fv_get v) (fv_old v) e) as (r&e1&Hget&Hok).
  split.
  - intros e2. split.
    + rewrite Hget. destruct r as [p|err]; [|done]. intros Hrun. exists p, e1.
      split; [by apply Hok|]. by destruct (wait t p _ e1) as [[err|] e3]; simplify_eq.
    + intros (p&e1'&Hs&Hw). apply settles_getKubetest in Hs. by rewrite Hs, Hw.
  - intros crash e2. rewrite Hget. destruct r as [p|err]; [|congruence].
    destruct (wait t p _ e1) as [[err|] e3]; congruence.
Qed.

(** ** A machine with one kubetest, last modified at [fst e], at time [snd e] *)
Definition small_tester : tester (Z * Z) := {|
  stat p e := if decide (p = "/go/bin/kubetest") then Ok (fst e) else Err (Errorf "stat" [] []);
  lookPath _ _ := Err (Errorf "not found" [] []);
  goPath := "/go";
  wait cmd a e :=
    if decide (cmd = "touch") then
      if decide (a = ["/go/bin/kubetest"]) then (None, (snd e, snd e))
      else (Some (Errorf "exit status 1" [] []), e)
    else (None, (fst e, snd e + 1)%Z);
  now e := snd e |}.

(** With [--get=true] two days after the last update: kubetest is updated and run. *)
Lemma driver_runs_recent_kubetest_witness :
  main small_tester (λ _, None) "e2e" (["--get=true"] ++ "--" :: ["--up"]) (0, 2 * oldDefault)%Z =
    Done () (2 * oldDefault + 1, 2 * oldDefault + 2)%Z ∧
  ∃ e1, settles small_tester true oldDefault (0, 2 * oldDefault)%Z "/go/bin/kubetest" e1.
Proof.
  assert (main small_tester (λ _, None) "e2e" (["--get=true"] ++ "--" :: ["--up"])
    (0, 2 * oldDefault)%Z = Done () (2 * oldDefault + 1, 2 * oldDefault + 2)%Z) as Hmain
    by (vm_compute; reflexivity).
  split; [exact Hmain|].
  destruct (driver_runs_recent_kubetest small_tester (λ _, None) "e2e" ["--get=true"] ["--up"]
              flag_defaults (0, 2 * oldDefault)%Z) as [H _].
  - rewrite list_elem_of_singleton. done.
  - reflexivity.
  - destruct (proj1 (H _) Hmain) as (p&e1&Hs&_). exists e1.
    assert (p = "/go/bin/kubetest") as <-; [|exact Hs].
    destruct Hs as [p Hl _|p e1' e2 _ _ _ Hl _]; vm_compute in Hl; by injection Hl.
Defined.
