(* ===== verification/UpdatePV.v ===== *)
(** * UpdatePV: moving the alpha node affinity to its field

    [cmd/utils/update-pv-to-beta]: local volumes made with the alpha API carry their
    node affinity as JSON in an annotation; the tool moves it to the field of the
    specification.  The API server is the state, the JSON decoder an argument. *)
From S2P Require Import Prelude GoLib FilePath K8s VolumeUtil Common Cache Metrics ProcTable.
From S2P Require Import Runtime Populator Deleter Discovery.

(** The copy with other annotations and affinity. *)
Definition with_affinity (annotations : gomap string) (affinity : option VolumeNodeAffinity)
    (pv : PersistentVolume) : PersistentVolume :=
  let m := pv_meta pv in let s := pv_Spec pv in {|
  pv_meta := {|
    om_Name := om_Name m; om_Namespace := om_Namespace m; om_UID := om_UID m;
    om_Labels := om_Labels m; om_Annotations := annotations;
    om_DeletionTimestamp := om_DeletionTimestamp m; om_OwnerReferences := om_OwnerReferences m |};
  pv_Spec := {|
    pvs_ReclaimPolicy := pvs_ReclaimPolicy s; pvs_Capacity := pvs_Capacity s;
    pvs_Local := pvs_Local s; pvs_AccessModes := pvs_AccessModes s;
    pvs_StorageClassName := pvs_StorageClassName s; pvs_VolumeMode := pvs_VolumeMode s;
    pvs_MountOptions := pvs_MountOptions s; pvs_NodeAffinity := affinity;
    pvs_ClaimRef := pvs_ClaimRef s |};
  pv_Phase := pv_Phase pv |}.

Section update.
Context {API : Type} `{!KubeClient API}.
Context (Unmarshal : string → result NodeAffinity).

Definition cloneAndUpdatePV (pv : PersistentVolume) : result PersistentVolume :=
  let annotations := om_Annotations (pv_meta pv) in
  match Unmarshal (map_get_str annotations AlphaStorageNodeAffinityAnnotation) with
  | Err err => Err err
  | Ok affinity =>
      Ok (with_affinity (option_map (delete AlphaStorageNodeAffinityAnnotation) annotations)
            (Some {| vna_Required := na_RequiredDuringSchedulingIgnoredDuringExecution affinity |})
            pv)
  end.

Definition updateLocalPVAlphaAnn (pv : PersistentVolume) : M API (option error) :=
  match pvs_Local (pv_Spec pv) with
  | None => mret None
  | Some _ =>
      let annotations := om_Annotations (pv_meta pv) in
      if (0 <? map_len annotations)%nat &&
         bool_decide (map_get_str annotations AlphaStorageNodeAffinityAnnotation ≠ "")
      then
        match cloneAndUpdatePV pv with
        | Err err => mret (Some err)
        | Ok pvClone => λ a,
            match api_UpdatePV pvClone a with
            | (Some err, a') => Done (if IsNotFound err then None else Some err) a'
            | (None, a') => Done None a'
            end
        end
      else mret None
  end.

(** The loop; it ends early when the server asks for fewer requests. *)
Fixpoint switch_volumes (items : list PersistentVolume) (updateFailed : bool)
  : M API (option error) :=
  match items with
  | [] => mret (if updateFailed then Some (Errorf "updating local PVs error" [] []) else None)
  | pv :: rest =>
      err ← updateLocalPVAlphaAnn pv;
      match err with
      | Some err =>
          if IsTooManyRequests err then mret (Some err) else switch_volumes rest true
      | None => switch_volumes rest updateFailed
      end
  end.

(** An error of the list request is logged, and the list it comes with is used. *)
Definition startSwitchingLocalPVAlphaAnn : M API (option error) := λ a,
  let '((items, err), a') := api_ListPVs a in
  if (length items =? 0)%nat then Done None a' else switch_volumes items false a'.

Definition main : M API () :=
  err ← startSwitchingLocalPVAlphaAnn;
  match err with
  | Some _ => panic (Fatal "update local PVs alpha node affinity to beta error")
  | None => mret ()
  end.
End update.

(** ** What a volume becomes *)

(** A volume the tool has to change. *)
Definition needs_update (pv : PersistentVolume) : Prop :=
  is_Some (pvs_Local (pv_Spec pv)) ∧
  map_get_str (om_Annotations (pv_meta pv)) AlphaStorageNodeAffinityAnnotation ≠ "".

#[export] Instance needs_update_dec pv : Decision (needs_update pv).
Proof. unfold needs_update. apply _. Defined.

Lemma annotated_len (m : gomap string) k : map_get_str m k ≠ "" → (0 <? map_len m)%nat = true.
Proof.
  intros H. apply Nat.ltb_lt. destruct m as [m|]; [|done]. unfold map_get_str in H. simpl in *.
  destruct (decide (size m = 0)) as [->%map_size_empty_inv|]; [done|lia].
Qed.

Section update_lemmas.
Context {API : Type} `{!KubeClient API, !KubeClientLaws API, !KubeUpdateLaws API}.
Context (Unmarshal : string → result NodeAffinity).

(** What the tool writes: a volume without the annotation, under the same name. *)
Lemma clone_updated pv pv' :
  cloneAndUpdatePV Unmarshal pv = Ok pv' → pv_Name pv' = pv_Name pv ∧ ¬ needs_update pv'.
Proof.
  unfold cloneAndUpdatePV. destruct (Unmarshal _) as [affinity|]; [|done]. intros [= <-].
  split; [done|]. unfold needs_update. simpl. intros [_ H]. apply H. unfold map_get_str.
  destruct (om_Annotations (pv_meta pv)); simpl; [by rewrite lookup_delete_eq|done].
Qed.

(** One volume: it is left alone, or replaced by its update; without an error it
    needs no update afterwards, if it still exists. *)
Lemma updateLocalPVAlphaAnn_run pv (a : API) :
  ∃ err a', updateLocalPVAlphaAnn Unmarshal pv a = Done err a' ∧
    (api_pvs a' = api_pvs a ∧
       (err = None → needs_update pv → api_pvs a !! pv_Name pv = None) ∨
     ∃ pv', needs_update pv ∧ cloneAndUpdatePV Unmarshal pv = Ok pv' ∧
       api_pvs a' = <[pv_Name pv := pv']> (api_pvs a)).
Proof.
  unfold updateLocalPVAlphaAnn, needs_update. set (ann := map_get_str _ _).
  destruct (pvs_Local (pv_Spec pv)) as [lvs|].
  2: { do 2 eexists. split; [done|]. left. split; [done|]. by intros _ [[??] _]. }
  destruct (decide (ann = "")) as [E|E].
  { rewrite bool_decide_false, andb_false_r by tauto. do 2 eexists. split; [done|]. left.
    split; [done|]. by intros _ [_ ?]. }
  rewrite (annotated_len _ AlphaStorageNodeAffinityAnnotation) by done.
  rewrite bool_decide_true by done. simpl.
  destruct (cloneAndUpdatePV Unmarshal pv) as [pv'|e] eqn:Ec; [|do 2 eexists; split; [done|]; by left].
  apply clone_updated in Ec as Hn. destruct Hn as [Hn _].
  destruct (api_UpdatePV pv' a) as [[e|] a'] eqn:Eu.
  - apply api_UpdatePV_err in Eu as [Hsame Hnf]. do 2 eexists. split; [done|]. left.
    split; [done|]. rewrite Hn in Hnf. destruct (IsNotFound e); [auto|done].
  - apply api_UpdatePV_ok in Eu as [_ Hset]. do 2 eexists. split; [done|]. right.
    exists pv'. rewrite Hn in Hset. done.
Qed.

(** The volume is as before, or it was replaced by its update. *)
Definition kept_or_updated (pv : PersistentVolume) (m m' : gmap string PersistentVolume) : Prop :=
  m' !! pv_Name pv = m !! pv_Name pv ∨
  ∃ pv', needs_update pv ∧ cloneAndUpdatePV Unmarshal pv = Ok pv' ∧
    m' !! pv_Name pv = Some pv'.

Record switched (items : list PersistentVolume) (err : option error)
    (m m' : gmap string PersistentVolume) : Prop := {
  sw_others : ∀ name, name ∉ (pv_Name <$> items) → m' !! name = m !! name;
  sw_items : ∀ pv, pv ∈ items → kept_or_updated pv m m';
  sw_success : err = None → ∀ pv, pv ∈ items → needs_update pv →
    m !! pv_Name pv = None ∨
    ∃ pv', cloneAndUpdatePV Unmarshal pv = Ok pv' ∧ m' !! pv_Name pv = Some pv' }.

(** The effect of one volume on the objects. *)
Definition step_effect (pv : PersistentVolume) (err : option error)
    (m m1 : gmap string PersistentVolume) : Prop :=
  m1 = m ∧ (err = None → needs_update pv → m !! pv_Name pv = None) ∨
  ∃ pv', needs_update pv ∧ cloneAndUpdatePV Unmarshal pv = Ok pv' ∧ m1 = <[pv_Name pv := pv']> m.

Lemma step_effect_others pv err m m1 name :
  step_effect pv err m m1 → name ≠ pv_Name pv → m1 !! name = m !! name.
Proof. intros [[-> _]|(?&_&_&->)] Hn; [done|]. by rewrite lookup_insert_ne. Qed.

Lemma step_effect_kept pv err m m1 : step_effect pv err m m1 → kept_or_updated pv m m1.
Proof.
  intros [[-> _]|(pv'&?&?&->)]; [by left|right]. exists pv'. by rewrite lookup_insert_eq.
Qed.

Lemma switched_nil err m : switched [] err m m.
Proof. split; [done|by intros ? ?%not_elem_of_nil|by intros _ ? ?%not_elem_of_nil]. Qed.

Lemma switched_cons pv items err err' m m1 m' :
  (pv_Name pv ∉ (pv_Name <$> items)) → step_effect pv err m m1 →
  switched items err' m1 m' → (err' = None → err = None) → switched (pv :: items) err' m m'.
Proof.
  intros Hpv Hone [Ho Hi Hs] He. apply Ho in Hpv as Hp.
  assert (∀ q, q ∈ items → m1 !! pv_Name q = m !! pv_Name q) as Hq.
  { intros q Hq. eapply step_effect_others; [done|]. intros E. apply Hpv. rewrite <-E.
    apply list_elem_of_fmap. eauto. }
  split.
  - intros name. rewrite fmap_cons, not_elem_of_cons. intros [??]. rewrite Ho by done.
    by eapply step_effect_others.
  - intros q [->|Hin]%elem_of_cons; unfold kept_or_updated.
    + rewrite Hp. by eapply step_effect_kept.
    + rewrite <-(Hq q) by done. by apply Hi.
  - intros E q [->|Hin]%elem_of_cons Hn.
    + rewrite Hp. destruct Hone as [[_ H]|(pv'&_&?&->)]; [left; auto|right].
      exists pv'. by rewrite lookup_insert_eq.
    + rewrite <-(Hq q) by done. auto.
Qed.

(** The volumes after an error that ends the run. *)
Lemma switched_rest items e m : switched items (Some e) m m.
Proof. split; [done| |done]. intros q _. by left. Qed.

Lemma switch_volumes_run items failed (a : API) :
  NoDup (pv_Name <$> items) →
  ∃ err a', switch_volumes Unmarshal items failed a = Done err a' ∧
    switched items err (api_pvs a) (api_pvs a') ∧ (err = None → failed = false).
Proof.
  revert failed a. induction items as [|pv items IH]; intros failed a Hnd; simpl.
  - do 2 eexists. split; [done|]. split; [apply switched_nil|by destruct failed].
  - rewrite fmap_cons in Hnd. apply NoDup_cons in Hnd as [Hpv Hnd]. unfold_monad.
    destruct (updateLocalPVAlphaAnn_run pv a) as (err&a1&->&Hone).
    destruct err as [e|]; [destruct (IsTooManyRequests e)|].
    + do 2 eexists. split; [done|]. split; [|done].
      eapply switched_cons; [done|done|apply switched_rest|done].
    + destruct (IH true a1 Hnd) as (err'&a'&->&Hsw&Hf). do 2 eexists. split; [done|].
      split; [|by intros ?%Hf]. eapply switched_cons; [done|done|done|]. by intros ?%Hf.
    + destruct (IH failed a1 Hnd) as (err'&a'&->&Hsw&Hf). do 2 eexists. split; [done|].
      split; [|done]. by eapply switched_cons.
Qed.
End update_lemmas.

(** ** The same discoverer with the alpha API switched on or off *)
Definition user_with_alpha (b : bool) (u : UserConfig) : UserConfig := {|
  uc_Node := uc_Node u; DiscoveryMap := DiscoveryMap u; NodeLabelsForPV := NodeLabelsForPV u;
  UseAlphaAPI := b; UseJobForCleaning := UseJobForCleaning u; Namespace := Namespace u;
  JobContainerImage := JobContainerImage u; JobTolerations := JobTolerations u;
  MinResyncPeriod := MinResyncPeriod u; UseNodeNameOnly := UseNodeNameOnly u;
  LabelsForPV := LabelsForPV u; SetPVOwnerRef := SetPVOwnerRef u;
  RemoveNodeNotReadyTaint := RemoveNodeNotReadyTaint u;
  ProvisionerNotReadyNodeTaintKey := ProvisionerNotReadyNodeTaintKey u |}.

Definition with_alpha (b : bool) (d : Discoverer) : Discoverer :=
  let c := d_config d in {|
  d_config := {| rc_User := user_with_alpha b (rc_User c); rc_Name := rc_Name c;
    rc_goos := rc_goos c; rc_hasJobController := rc_hasJobController c;
    rc_time_Format := rc_time_Format c; rc_time_Parse := rc_time_Parse c |};
  d_Labels := d_Labels d; d_nodeSelector := d_nodeSelector d;
  d_ownerReference := d_ownerReference d |}.

Lemma clone_created Unmarshal pv m ann affinity :
  om_Annotations (pv_meta pv) = Some (<[AlphaStorageNodeAffinityAnnotation := ann]> m) →
  m !! AlphaStorageNodeAffinityAnnotation = None → Unmarshal ann = Ok affinity →
  cloneAndUpdatePV Unmarshal pv = Ok (with_affinity (Some m) (Some {|
    vna_Required := na_RequiredDuringSchedulingIgnoredDuringExecution affinity |}) pv) ∧
  map_get_str (om_Annotations (pv_meta pv)) AlphaStorageNodeAffinityAnnotation = ann.
Proof.
  intros Ha Hm HU. unfold cloneAndUpdatePV, map_get_str, map_get. rewrite Ha, lookup_insert_eq.
  simpl. rewrite HU. by rewrite delete_insert_id.
Qed.

Section beta.
Context {FS API PT : Type} `{!KubeClient API, !KubeClientLaws API, !KubeUpdateLaws API}.
Abbreviation W := (World FS API PT).

Lemma submitPV_object cfg (w w' : W) :
  submitPV cfg w = Done None w' →
  ∃ pv, CreateLocalPVSpec cfg w = Done pv w ∧ objects w !! pv_Name pv = None ∧
    objects w' = <[pv_Name pv := with_status (api_assigned (w_api w)) pv]> (objects w).
Proof.
  unfold submitPV, CreateLocalPVSpec. set (meta := if lpc_UseAlphaAPI cfg then _ else _).
  destruct meta as [annotations affinity]. unfold_monad.
  destruct (lpc_SetPVOwnerRef cfg); [destruct (lpc_OwnerReference cfg); [|done]|];
    unfold apiUtil.CreatePV, call_api, metric; unfold_monad;
    match goal with |- context [api_CreatePV ?pv ?a] =>
      destruct (api_CreatePV pv a) as [[pv'|] a'] eqn:E; [|done] end;
    apply api_CreatePV_ok in E as [Hn Hset]; intros [= <-]; by eexists.
Qed.

(** The update does not look at what the server assigned, and keeps it. *)
Lemma clone_status Unmarshal st pv pv' :
  cloneAndUpdatePV Unmarshal pv = Ok pv' →
  cloneAndUpdatePV Unmarshal (with_status st pv) = Ok (with_status st pv').
Proof.
  unfold cloneAndUpdatePV. simpl. intros H. repeat case_match; simplify_eq/=; done.
Qed.

(** The objects two configurations that differ in the affinity's place ask for. *)
Lemma alpha_spec_migrates Unmarshal d file class policy options config capacity mode access ann sel
    (w : W) pv :
  Unmarshal ann = Ok {| na_RequiredDuringSchedulingIgnoredDuringExecution := sel |} →
  CreateLocalPVSpec (local_pv_config d file class policy options config capacity mode access
    true ann None) w = Done pv w →
  ∃ pv', cloneAndUpdatePV Unmarshal pv = Ok pv' ∧ pv_Name pv' = pv_Name pv ∧
    is_Some (pvs_Local (pv_Spec pv)) ∧
    map_get_str (om_Annotations (pv_meta pv)) AlphaStorageNodeAffinityAnnotation = ann ∧
    CreateLocalPVSpec (local_pv_config d file class policy options config capacity mode access
      false "" (Some {| vna_Required := sel |})) w = Done pv' w.
Proof.
  intros HU. unfold CreateLocalPVSpec. unfold_monad. simpl.
  destruct (SetPVOwnerRef (rc_User (d_config d))); intros [= <-];
    match goal with |- context [cloneAndUpdatePV _ ?pv] =>
      destruct (clone_created Unmarshal pv {[AnnProvisionedBy := rc_Name (d_config d)]} ann
        {| na_RequiredDuringSchedulingIgnoredDuringExecution := sel |}) as [-> ->]; [done..|] end;
    eexists; (split_and!; [done|done|by eexists|done|done]).
Qed.
End beta.

Lemma keyed_names m :
  VolumeCache.keyed m → pv_Name <$> (map_to_list m).*2 = (map_to_list m).*1.
Proof.
  intros Hk. rewrite <-list_fmap_compose. apply list_fmap_ext. intros i [name pv] Hi.
  apply list_elem_of_lookup_2, elem_of_map_to_list in Hi. by apply Hk.
Qed.

(** ** Properties *)

(** C25. Updating gives the beta object.  Let one discoverer create a volume with the
    alpha API, and the same discoverer create it with the beta API, from the same
    state.  When the tool then updates the alpha object without an error, the objects
    on the server are the ones the beta discoverer would have left (with the UID and phase
    the server in this state assigns). *)
Theorem updated_volume_is_beta {FS API PT : Type}
    `{!KubeClient API, !KubeClientLaws API, !KubeUpdateLaws API} Marshal Unmarshal
    (d : Discoverer) file class policy options config capacity mode access
    (w w1 w2 : World FS API PT) pv a :
  (∀ affinity json, Marshal affinity = Ok json → json ≠ "" ∧ Unmarshal json = Ok affinity) →
  createPV Marshal (with_alpha true d) file class policy options config capacity mode access w
    = Done None w1 →
  createPV Marshal (with_alpha false d) file class policy options config capacity mode access w
    = Done None w2 →
  objects w1 !! generatePVName file (node_Name (uc_Node (rc_User (d_config d)))) class = Some pv →
  updateLocalPVAlphaAnn Unmarshal pv (w_api w1) = Done None a →
  api_pvs a = objects w2.
Proof.
  intros Hcodec H1 H2 Hpv Hup. unfold createPV in H1, H2. simpl in H1, H2.
  destruct (Marshal _) as [json|] eqn:Hm; [|done]. destruct (Hcodec _ _ Hm) as [Hne HU].
  unfold map_get_str at 1 in H1. simpl in H1. rewrite lookup_insert_eq in H1. simpl in H1.
  apply submitPV_object in H1 as (pv1&Hc1&Hn1&Ho1). apply submitPV_object in H2 as (pv2&Hc2&_&Ho2).
  destruct (alpha_spec_migrates _ _ _ _ _ _ _ _ _ _ _ _ _ _ HU Hc1)
    as (pv'&Hclone&Hname&Hlocal&Hann&Hc').
  change (local_pv_config (with_alpha true d)) with (local_pv_config (with_alpha false d)) in Hc'.
  rewrite Hc2 in Hc'. injection Hc' as ->.
  assert (pv_Name pv1 = generatePVName file (node_Name (uc_Node (rc_User (d_config d)))) class) as E.
  { revert Hc1. unfold CreateLocalPVSpec. unfold_monad. simpl.
    destruct (SetPVOwnerRef _); by intros [= <-]. }
  rewrite Ho1, <-E, lookup_insert_eq in Hpv. injection Hpv as <-.
  set (pv := with_status (api_assigned (w_api w)) pv1) in *.
  apply (clone_status _ (api_assigned (w_api w))) in Hclone. fold pv in Hclone.
  destruct (updateLocalPVAlphaAnn_run Unmarshal pv (w_api w1)) as (err&a'&Hrun&Heff).
  rewrite Hup in Hrun. injection Hrun as <- <-.
  fold (objects w1) in Heff. destruct Heff as [[_ Hkeep]|(pv''&_&Hcl&->)].
  - exfalso. assert (objects w1 !! pv_Name pv = None) as Hno
      by (apply Hkeep; [done|]; split; [done|]; unfold pv; simpl; by rewrite Hann).
    change (pv_Name pv) with (pv_Name pv1) in Hno. rewrite Ho1, lookup_insert_eq in Hno. done.
  - rewrite Hclone in Hcl. injection Hcl as <-.
    change (pv_Name (with_status (api_assigned (w_api w)) pv')) with (pv_Name pv').
    by rewrite Ho1, Ho2, Hname, insert_insert_eq.
Qed.

(** C26. A run of the tool updates what it has to and nothing else.  It returns; each
    object is as before, or it needed the update and was replaced by it; and when the
    list could be read and the run reports success, no volume on the server needs an
    update any more, so that running the tool again changes nothing. *)
Theorem switching_updates_volumes {API : Type}
    `{!KubeClient API, !KubeClientLaws API, !KubeUpdateLaws API} Unmarshal (a : API) :
  VolumeCache.keyed (api_pvs a) →
  ∃ err a', startSwitchingLocalPVAlphaAnn Unmarshal a = Done err a' ∧
    (∀ name, api_pvs a' !! name = api_pvs a !! name ∨
       ∃ pv pv', api_pvs a !! name = Some pv ∧ needs_update pv ∧
         cloneAndUpdatePV Unmarshal pv = Ok pv' ∧ api_pvs a' !! name = Some pv') ∧
    (snd (fst (api_ListPVs a)) = None → err = None →
       map_Forall (λ _ pv, ¬ needs_update pv) (api_pvs a')).
Proof.
  intros Hk. unfold startSwitchingLocalPVAlphaAnn.
  destruct (api_ListPVs a) as [[items lerr] a1] eqn:El. destruct lerr as [e|].
  { apply api_ListPVs_err in El as [-> E]. do 2 eexists. split; [done|]. rewrite E.
    split; [by left|done]. }
  apply api_ListPVs_ok in El as [Hl E].
  assert (∀ pv, pv ∈ items ↔ api_pvs a !! pv_Name pv = Some pv) as Hin.
  { intros pv. rewrite Hl, list_elem_of_fmap. split.
    - intros ([name q]&->&Hq%elem_of_map_to_list). simpl. by rewrite (Hk _ _ Hq).
    - intros H. exists (pv_Name pv, pv). by rewrite elem_of_map_to_list. }
  assert (∃ err a', (if (length items =? 0)%nat then Done None a1
      else switch_volumes Unmarshal items false a1) = Done err a' ∧
    switched Unmarshal items err (api_pvs a) (api_pvs a')) as (err&a'&->&[Ho Hi Hs]).
  { rewrite <-E. destruct items as [|pv items]; [do 2 eexists; split; [done|apply switched_nil]|].
    destruct (switch_volumes_run Unmarshal (pv :: items) false a1) as (err&a'&?&?&_); [|eauto].
    rewrite Hl, (keyed_names _ Hk). apply NoDup_fst_map_to_list. }
  exists err, a'. split; [done|]. split.
  - intros name. destruct (decide (name ∈ (pv_Name <$> items))) as [Hn|Hn]; [|left; auto].
    apply list_elem_of_fmap in Hn as (pv&->&Hpv). destruct (Hi pv Hpv) as [|(pv'&?&?&?)]; [by left|].
    right. exists pv, pv'. split_and!; [|done..]. by apply Hin.
  - intros _ -> name pv Hpv Hneed.
    assert (pv ∈ items ∧ name = pv_Name pv) as [Hpi ->].
    { destruct (decide (name ∈ (pv_Name <$> items))) as [Hn|Hn].
      - apply list_elem_of_fmap in Hn as (q&->&Hq). destruct (Hi q Hq) as [E1|(q'&_&Hc&E1)].
        + rewrite Hpv in E1. symmetry in E1. pose proof (proj1 (Hin q) Hq). by simplify_eq.
        + rewrite Hpv in E1. injection E1 as <-. by apply clone_updated in Hc as [_ ?].
      - rewrite Ho in Hpv by done. split; [apply Hin|]; by rewrite (Hk _ _ Hpv). }
    apply Hin in Hpi as Hpa.
    destruct (Hs eq_refl pv Hpi Hneed) as [H|(pv'&Hc&H)]; [congruence|].
    apply clone_updated in Hc as [_ ?]. by simplify_eq.
Qed.

(** A failed list is taken for an empty cluster: the error is logged, the empty
    list that comes with it ends the run, and the tool reports success. *)
Theorem list_error_is_success {API : Type}
    `{!KubeClient API, !KubeClientLaws API, !KubeUpdateLaws API} Unmarshal (a : API) items e a' :
  api_ListPVs a = ((items, Some e), a') →
  main Unmarshal a = Done () a' ∧ api_pvs a' = api_pvs a.
Proof.
  intros El. pose proof (api_ListPVs_err _ _ _ _ El) as [-> E]. split; [|done].
  unfold main, startSwitchingLocalPVAlphaAnn. unfold_monad. by rewrite El.
Qed.

(** ** Witnesses *)
Definition example_affinity : NodeAffinity := {|
  na_RequiredDuringSchedulingIgnoredDuringExecution := Some {|
    ns_NodeSelectorTerms := ns_NodeSelectorTerms (d_nodeSelector example_discoverer) |} |}.

#[export] Instance NodeAffinity_eq_dec : EqDecision NodeAffinity.
Proof. solve_decision. Defined.

(** A codec that knows one affinity. *)
Definition one_marshal (a : NodeAffinity) : result string :=
  if decide (a = example_affinity) then Ok "{}" else Err (Errorf "unknown" [] []).
Definition one_unmarshal (json : string) : result NodeAffinity := Ok example_affinity.

Definition example_create (alpha : bool) : outcome (World _ _ _) (option error) :=
  createPV one_marshal (with_alpha alpha example_discoverer) "mount1" "sc1"
    PersistentVolumeReclaimDelete [] (example_mount "dir1" "Filesystem") 100 "Filesystem" "ReadWriteOnce"
    example_initial.

Definition example_name : string :=
  generatePVName "mount1" (node_Name (uc_Node (rc_User (d_config example_discoverer)))) "sc1".

Definition example_alpha_pv : PersistentVolume :=
  default example_pv (objects (final (example_create true)) !! example_name).

Definition example_updated : outcome MemServer (option error) :=
  updateLocalPVAlphaAnn one_unmarshal example_alpha_pv (w_api (final (example_create true))).

Lemma updated_volume_is_beta_witness :
  api_pvs (final example_updated) = objects (final (example_create false)).
Proof.
  eapply (updated_volume_is_beta one_marshal one_unmarshal example_discoverer "mount1" "sc1"
    PersistentVolumeReclaimDelete [] (example_mount "dir1" "Filesystem") 100 "Filesystem"
    "ReadWriteOnce" example_initial (final (example_create true)) (final (example_create false))
    example_alpha_pv).
  - intros affinity json. unfold one_marshal. case_decide; [|done]. intros [= <-]. by subst.
  - vm_compute. reflexivity.
  - vm_compute. reflexivity.
  - vm_compute. reflexivity.
  - vm_compute. reflexivity.
Defined.

Lemma switching_updates_volumes_witness :
  ∃ err a', startSwitchingLocalPVAlphaAnn one_unmarshal (w_api (final (example_create true)))
    = Done err a'.
Proof.
  destruct (switching_updates_volumes one_unmarshal (w_api (final (example_create true))))
    as (err&a'&Hrun&_); [|exists err, a'; exact Hrun].
  apply (bool_decide_eq_true_1 (map_Forall (λ name pv, pv_Name pv = name) _)). vm_compute. reflexivity.
Defined.

Lemma list_error_is_success_witness :
  let down := {| mem_pvs := ∅; mem_jobs := ∅; mem_nodes := ∅; mem_pvcs := ∅; mem_down := true |} in
  main one_unmarshal down = Done () down.
Proof. apply (list_error_is_success one_unmarshal _ [] mem_error _). reflexivity. Defined.
