(* ===== verification/Platforms.v ===== *)
(** * Platforms: volume utilities per platform

    What cleaning means on each platform: the Linux [DeleteContents] under the
    documented behaviour of the file system ([LinuxOSLaws]), the Windows utilities of
    volume_util_windows.go over the CSI proxy, in its two API versions
    (csi_proxy*_windows.go), and the stubs of volume_util_unsupported.go. *)
From S2P Require Import Prelude GoLib FilePath K8s VolumeUtil Common Cache Metrics ProcTable.
From S2P Require Import Runtime Deleter.
From Stdlib Require Import Ascii.

(** ** The CSI proxy *)

(** The client packages of the proxy for one API version, over the state of the
    host: the two constructors and the requests the program makes. *)
Record CSIClients (H : Type) := {
  volume_NewClient : H → option error;
  filesystem_NewClient : H → option error;
  volume_Version : string;
  volume_GetVolumeID : string → H → result string;
  volume_Stats : string → H → result (Z * Z);
  volume_Format : string → H → option error * H;
  filesystem_IsSymlink : string → H → result bool }.
Arguments volume_NewClient {H}. Arguments filesystem_NewClient {H}. Arguments volume_Version {H}.
Arguments volume_GetVolumeID {H}. Arguments volume_Stats {H}. Arguments volume_Format {H}.
Arguments filesystem_IsSymlink {H}.

(** The interface [CSIProxy]. *)
Record CSIProxy (H : Type) := {
  GetAPIVersions : string;
  GetVolumeId : string → H → result string;
  GetVolumeStats : string → H → result (Z * Z);
  FormatVolume : string → H → option error * H;
  IsSymlink : string → H → result bool }.
Arguments GetAPIVersions {H}. Arguments GetVolumeId {H}. Arguments GetVolumeStats {H}.
Arguments FormatVolume {H}. Arguments IsSymlink {H}.

Section proxy.
Context {H : Type} (v1 v1beta2 : CSIClients H).

Definition CSIProxyV1_GetVolumeId (mountPath : string) (h : H) : result string :=
  match volume_GetVolumeID v1 mountPath h with
  | Err err => Err err
  | Ok volumeId => Ok volumeId
  end.

Definition CSIProxyV1_GetVolumeStats (volumeId : string) (h : H) : result (Z * Z) :=
  match volume_Stats v1 volumeId h with
  | Err err => Err err
  | Ok (totalBytes, usedBytes) => Ok (totalBytes, usedBytes)
  end.

Definition CSIProxyV1_FormatVolume (volumeId : string) (h : H) : option error * H :=
  match volume_Format v1 volumeId h with
  | (Some err, h') => (Some err, h')
  | (None, h') => (None, h')
  end.

Definition CSIProxyV1_IsSymlink (mountPath : string) (h : H) : result bool :=
  match filesystem_IsSymlink v1 mountPath h with
  | Err err => Err err
  | Ok isSymlink => Ok isSymlink
  end.

Definition CSIProxyV1 : CSIProxy H := {|
  GetAPIVersions := "API Versions Volume: " +:+ volume_Version v1;
  GetVolumeId := CSIProxyV1_GetVolumeId; GetVolumeStats := CSIProxyV1_GetVolumeStats;
  FormatVolume := CSIProxyV1_FormatVolume; IsSymlink := CSIProxyV1_IsSymlink |}.

Definition NewCSIProxyV1 (h : H) : result (CSIProxy H) :=
  match volume_NewClient v1 h with
  | Some err => Err err
  | None =>
      match filesystem_NewClient v1 h with
      | Some err => Err err
      | None => Ok CSIProxyV1
      end
  end.

(** The same program against the clients of the beta version. *)
Definition CSIProxyV1Beta_GetVolumeId (mountPath : string) (h : H) : result string :=
  match volume_GetVolumeID v1beta2 mountPath h with
  | Err err => Err err
  | Ok volumeId => Ok volumeId
  end.

Definition CSIProxyV1Beta_GetVolumeStats (volumeId : string) (h : H) : result (Z * Z) :=
  match volume_Stats v1beta2 volumeId h with
  | Err err => Err err
  | Ok (volumeSize, volumeUsedSize) => Ok (volumeSize, volumeUsedSize)
  end.

Definition CSIProxyV1Beta_FormatVolume (volumeId : string) (h : H) : option error * H :=
  match volume_Format v1beta2 volumeId h with
  | (Some err, h') => (Some err, h')
  | (None, h') => (None, h')
  end.

Definition CSIProxyV1Beta_IsSymlink (mountPath : string) (h : H) : result bool :=
  match filesystem_IsSymlink v1beta2 mountPath h with
  | Err err => Err err
  | Ok isSymlink => Ok isSymlink
  end.

Definition CSIProxyV1Beta : CSIProxy H := {|
  GetAPIVersions := "API Versions Volume: " +:+ volume_Version v1beta2;
  GetVolumeId := CSIProxyV1Beta_GetVolumeId; GetVolumeStats := CSIProxyV1Beta_GetVolumeStats;
  FormatVolume := CSIProxyV1Beta_FormatVolume; IsSymlink := CSIProxyV1Beta_IsSymlink |}.

Definition NewCSIProxyV1Beta (h : H) : result (CSIProxy H) :=
  match volume_NewClient v1beta2 h with
  | Some err => Err err
  | None =>
      match filesystem_NewClient v1beta2 h with
      | Some err => Err err
      | None => Ok CSIProxyV1Beta
      end
  end.

Definition NewCSIProxy (h : H) : result (CSIProxy H) :=
  match NewCSIProxyV1 h with
  | Ok csiProxyV1 => Ok csiProxyV1
  | Err _ =>
      match NewCSIProxyV1Beta h with
      | Ok csiProxyV1Beta => Ok csiProxyV1Beta
      | Err err => Err err
      end
  end.
End proxy.

(** ** Windows *)
Module Windows.
(** The [volumeUtil] object and the host it works on. *)
Record Host (H : Type) := { host : H; csiProxy : CSIProxy H }.
Arguments host {H}. Arguments csiProxy {H}.

Section windows.
Context {H : Type} `{!OSFiles H}.

Definition NewVolumeUtil (v1 v1beta2 : CSIClients H) (h : H) : result (Host H) :=
  match NewCSIProxy v1 v1beta2 h with
  | Err err => Err err
  | Ok proxy => Ok {| host := h; csiProxy := proxy |}
  end.

Definition GetFsCapacityByte (hostPath mountPath : string) (u : Host H) : result Z :=
  match GetVolumeId (csiProxy u) hostPath (host u) with
  | Err err => Err err
  | Ok volumeID =>
      match GetVolumeStats (csiProxy u) volumeID (host u) with
      | Err err => Err err
      | Ok (totalBytes, _) => Ok totalBytes
      end
  end.

Definition DeleteContents (hostPath mountPath : string) (u : Host H) : option error * Host H :=
  match GetVolumeId (csiProxy u) hostPath (host u) with
  | Err err => (Some err, u)
  | Ok volumeID =>
      match FormatVolume (csiProxy u) volumeID (host u) with
      | (Some err, h) => (Some err, {| host := h; csiProxy := csiProxy u |})
      | (None, h) => (None, {| host := h; csiProxy := csiProxy u |})
      end
  end.

Definition GetBlockCapacityByte (fullPath : string) (u : Host H) : result Z :=
  Err (Errorf "GetBlockCapacityByte is unsupported in this build" [] []).

Definition IsBlock (fullPath : string) (u : Host H) : bool * option error :=
  (false, Some (Errorf "IsBlock is unsupported in this build" [] [])).

Definition IsLikelyMountPoint (hostPath mountPath : string) (mountPointMap : gset string)
    (u : Host H) : bool * option error :=
  match IsSymlink (csiProxy u) hostPath (host u) with
  | Err err => (false, Some err)
  | Ok isLikelyMountPoint =>
      if negb isLikelyMountPoint
      then (false, Some (Errorf "hostPath %q is not a symlink" [hostPath] []))
      else (isLikelyMountPoint, None)
  end.

#[global] Instance volumeUtil : VolumeUtil (Host H) := {|
  VolumeUtil.IsDir p u := Shared.IsDir p (host u);
  VolumeUtil.IsBlock := IsBlock;
  VolumeUtil.IsLikelyMountPoint := IsLikelyMountPoint;
  VolumeUtil.ReadDir p u := Shared.ReadDir p (host u);
  VolumeUtil.DeleteContents := DeleteContents;
  VolumeUtil.GetFsCapacityByte := GetFsCapacityByte;
  VolumeUtil.GetBlockCapacityByte := GetBlockCapacityByte |}.
End windows.
End Windows.

(** ** Other platforms: every operation that needs the platform fails *)
Module Unsupported.
Section unsupported.
Context {FS : Type} `{!OSFiles FS}.

Definition GetFsCapacityByte (hostPath mountPath : string) (fs : FS) : result Z :=
  Err (Errorf "GetFsCapacityByte is unsupported in this build" [] []).
Definition GetBlockCapacityByte (fullPath : string) (fs : FS) : result Z :=
  Err (Errorf "GetBlockCapacityByte is unsupported in this build" [] []).
Definition IsBlock (fullPath : string) (fs : FS) : bool * option error :=
  (false, Some (Errorf "IsBlock is unsupported in this build" [] [])).
Definition IsLikelyMountPoint (hostPath mountPath : string) (mountPointMap : gset string)
    (fs : FS) : bool * option error :=
  (false, Some (Errorf "IsLikelyMountPoint is unsupported in this build" [] [])).
Definition DeleteContents (hostPath mountPath : string) (fs : FS) : option error * FS :=
  (Some (Errorf "DeleteContents is unsupported in this build" [] []), fs).

Definition volumeUtil : VolumeUtil FS := {|
  VolumeUtil.IsDir := Shared.IsDir;
  VolumeUtil.IsBlock := IsBlock;
  VolumeUtil.IsLikelyMountPoint := IsLikelyMountPoint;
  VolumeUtil.ReadDir := Shared.ReadDir;
  VolumeUtil.DeleteContents := DeleteContents;
  VolumeUtil.GetFsCapacityByte := GetFsCapacityByte;
  VolumeUtil.GetBlockCapacityByte := GetBlockCapacityByte |}.
End unsupported.
End Unsupported.

(** ** What the Linux calls promise

    A directory has entries; listing it returns all of them, as plain names; removing
    a path below it removes the entry, and no removal adds entries.  [Join] cleans a path
    by its text: the laws are about paths that name the same file after that, as the
    clean paths do which the program builds. *)
Definition plain_name (f : string) : Prop :=
  contains_byte "/"%char f = false ∧ f ≠ "" ∧ f ≠ "." ∧ f ≠ "..".

Class LinuxOSLaws (FS : Type) `{OSFiles FS, LinuxOS FS} := {
  is_entry : string → string → FS → Prop;
  Readdirnames_entries : ∀ p fs l, file_Readdirnames p fs = Ok l →
    Forall plain_name l ∧ ∀ f, is_entry p f fs → f ∈ l;
  RemoveAll_ok : ∀ p f fs fs', plain_name f → os_RemoveAll (Join [p; f]) fs = (None, fs') →
    ¬ is_entry p f fs';
  RemoveAll_adds_none : ∀ p f q fs, is_entry p f (snd (os_RemoveAll q fs)) → is_entry p f fs
}.

Section linux_cleanup.
Context {FS : Type} `{!OSFiles FS, !LinuxOS FS, !LinuxOSLaws FS}.

Lemma remove_entries_adds_none p files (fs : FS) q f :
  is_entry q f (snd (Linux.remove_entries p files fs)) → is_entry q f fs.
Proof.
  revert fs. induction files as [|g files IH]; intros fs; simpl; [done|].
  pose proof (RemoveAll_adds_none q f (Join [p; g]) fs) as Hr.
  destruct (os_RemoveAll _ fs) as [err fs1]. specialize (IH fs1).
  destruct (Linux.remove_entries p files fs1). simpl in *. auto.
Qed.

Lemma remove_entries_removes p files (fs : FS) f :
  Forall plain_name files → fst (Linux.remove_entries p files fs) = [] → f ∈ files →
  ¬ is_entry p f (snd (Linux.remove_entries p files fs)).
Proof.
  intros Hpl. revert fs. induction Hpl as [|g files Hg _ IH]; intros fs; simpl;
    [by intros _ ?%not_elem_of_nil|].
  destruct (os_RemoveAll _ fs) as [err fs1] eqn:E1. specialize (IH fs1).
  pose proof (remove_entries_adds_none p files fs1 p f) as Hadd.
  destruct (Linux.remove_entries p files fs1) as [errs fs2]. simpl in *.
  destruct err; simpl; [done|]. intros -> [->|Hin]%elem_of_cons Hent.
  - by apply (RemoveAll_ok _ _ _ _ Hg E1), Hadd.
  - by apply IH.
Qed.

(** A directory whose contents were deleted without an error is empty. *)
Lemma DeleteContents_empties hostPath mountPath (fs fs' : FS) :
  Linux.DeleteContents hostPath mountPath fs = (None, fs') → ∀ f, ¬ is_entry mountPath f fs'.
Proof.
  unfold Linux.DeleteContents. destruct (os_Open mountPath fs); [done|].
  destruct (file_Readdirnames mountPath fs) as [files|] eqn:El; [|done].
  apply Readdirnames_entries in El as [Hpl Hall]. intros E f Hent.
  pose proof (remove_entries_removes mountPath files fs f Hpl) as Hrem.
  pose proof (remove_entries_adds_none mountPath files fs mountPath f) as Hadd.
  destruct (Linux.remove_entries mountPath files fs) as [errs fs1]. simpl in *.
  destruct errs; [|done]. injection E as ->. by apply Hrem; [|apply Hall, Hadd|].
Qed.

Lemma DeleteContents_adds_none hostPath mountPath (fs : FS) p f :
  is_entry p f (snd (Linux.DeleteContents hostPath mountPath fs)) → is_entry p f fs.
Proof.
  unfold Linux.DeleteContents. destruct (os_Open mountPath fs); [done|].
  destruct (file_Readdirnames mountPath fs) as [files|]; [|done].
  pose proof (remove_entries_adds_none mountPath files fs p f) as Hadd.
  by destruct (Linux.remove_entries mountPath files fs).
Qed.
End linux_cleanup.

(** A cleanup of a directory, on any platform: the file system is the one that
    [DeleteContents] leaves, the entry has its verdict. *)
Lemma directory_cleanup {FS API PT : Type} `{!VolumeUtil FS, !Exec FS, !KubeClient API, !ProcTable PT}
    `{!KubeClientLaws API, !ProcTableLaws PT} t lvs (w : World FS API PT) e :
  ct_volMode t = PersistentVolumeFilesystem → pvs_Local (pv_Spec (ct_pv t)) = Some lvs →
  HasPrefix (ct_mountPath t) (MountDir (ct_config t)) = true →
  entries w !! pv_Name (ct_pv t) = Some e →
  ∃ w', asyncCleanPV t w = Done () w' ∧
    w_fs w' = snd (DeleteContents (lvs_Path lvs) (ct_mountPath t) (w_fs w)) ∧
    entries w' = <[pv_Name (ct_pv t) := {| StartTime := StartTime e; Status := verdict
      (fst (DeleteContents (lvs_Path lvs) (ct_mountPath t) (w_fs w))) |}]> (entries w).
Proof.
  intros Hm Hl Hp He. pose proof (asyncCleanPV_file_run t lvs w Hm Hl Hp) as H.
  destruct (DeleteContents _ _ _) as [err fs]. destruct H as (w'&Hrun&[]).
  exists w'. split_and!; [done|done|]. rewrite ends_entries. unfold Abstract.MarkDone. by rewrite He.
Qed.

(** ** Properties *)

(** C10. On Linux a cleaned directory is empty.  A cleanup of a directory volume ends
    with its entry marked; when the mark is success no entry of the directory is left,
    and in any case no directory gained an entry. *)
Theorem linux_cleanup_empties_directory {FS API PT : Type}
    `{!OSFiles FS, !LinuxOS FS, !LinuxOSLaws FS, !Exec FS, !KubeClient API, !ProcTable PT}
    `{!KubeClientLaws API, !ProcTableLaws PT} t lvs (w : World FS API PT) e :
  ct_volMode t = PersistentVolumeFilesystem → pvs_Local (pv_Spec (ct_pv t)) = Some lvs →
  HasPrefix (ct_mountPath t) (MountDir (ct_config t)) = true →
  entries w !! pv_Name (ct_pv t) = Some e →
  ∃ st w', asyncCleanPV t w = Done () w' ∧
    entries w' !! pv_Name (ct_pv t) = Some {| StartTime := StartTime e; Status := st |} ∧
    (st = CSSucceeded ∧ (∀ f, ¬ is_entry (ct_mountPath t) f (w_fs w')) ∨ st = CSFailed) ∧
    ∀ p f, is_entry p f (w_fs w') → is_entry p f (w_fs w).
Proof.
  intros Hm Hl Hp He. destruct (directory_cleanup t lvs w e Hm Hl Hp He) as (w'&Hrun&Hfs&Hent).
  exists (verdict (fst (DeleteContents (lvs_Path lvs) (ct_mountPath t) (w_fs w)))), w'.
  rewrite Hent, Hfs, lookup_insert_eq. split_and!; [done|done| |].
  - destruct (DeleteContents _ _ _) as [[err|] fs] eqn:Ed; [by right|left]. split; [done|].
    exact (DeleteContents_empties _ _ _ _ Ed).
  - intros p f. apply DeleteContents_adds_none.
Qed.

(** On Windows a cleanup formats the volume of the host path.  Whatever the mount
    path is, the proxy is asked for the volume mounted at the path of the object on
    the host, and that volume is formatted; the entry is marked as succeeded exactly
    when both requests succeeded, and without a volume the host is left alone. *)
Theorem windows_cleanup_formats_volume {H API PT : Type}
    `{!OSFiles H, !Exec (Windows.Host H), !KubeClient API, !ProcTable PT}
    `{!KubeClientLaws API, !ProcTableLaws PT} t lvs (w : World (Windows.Host H) API PT) e :
  let u := w_fs w in
  ct_volMode t = PersistentVolumeFilesystem → pvs_Local (pv_Spec (ct_pv t)) = Some lvs →
  HasPrefix (ct_mountPath t) (MountDir (ct_config t)) = true →
  entries w !! pv_Name (ct_pv t) = Some e →
  ∃ st w', asyncCleanPV t w = Done () w' ∧
    entries w' = <[pv_Name (ct_pv t) := {| StartTime := StartTime e; Status := st |}]> (entries w) ∧
    match GetVolumeId (Windows.csiProxy u) (lvs_Path lvs) (Windows.host u) with
    | Err _ => st = CSFailed ∧ w_fs w' = u
    | Ok id =>
        Windows.host (w_fs w') = snd (FormatVolume (Windows.csiProxy u) id (Windows.host u)) ∧
        st = verdict (fst (FormatVolume (Windows.csiProxy u) id (Windows.host u)))
    end.
Proof.
  intros u Hm Hl Hp He. destruct (directory_cleanup t lvs w e Hm Hl Hp He) as (w'&Hrun&Hfs&Hent).
  do 2 eexists. split; [done|]. split; [done|]. rewrite Hfs. subst u. simpl.
  unfold Windows.DeleteContents. destruct (GetVolumeId _ _ _) as [id|err]; [|done].
  destruct (FormatVolume _ _ _) as [[err|] h]; done.
Qed.

(** The two proxy versions are interchangeable.  When the clients of both versions
    give the same answers, a volume utility built from whichever version connects
    behaves like one on the stable clients; none is built only when neither connects. *)
Theorem proxy_versions_agree {H : Type} `{!OSFiles H} (v1 v1beta2 : CSIClients H) (h : H) :
  (∀ p h, volume_GetVolumeID v1beta2 p h = volume_GetVolumeID v1 p h) →
  (∀ id h, volume_Stats v1beta2 id h = volume_Stats v1 id h) →
  (∀ id h, volume_Format v1beta2 id h = volume_Format v1 id h) →
  (∀ p h, filesystem_IsSymlink v1beta2 p h = filesystem_IsSymlink v1 p h) →
  match Windows.NewVolumeUtil v1 v1beta2 h with
  | Err err => NewCSIProxyV1Beta v1beta2 h = Err err ∧ ∃ err1, NewCSIProxyV1 v1 h = Err err1
  | Ok u =>
      let ref := {| Windows.host := h; Windows.csiProxy := CSIProxyV1 v1 |} in
      (∀ a b, GetFsCapacityByte a b u = GetFsCapacityByte a b ref) ∧
      (∀ a b m, IsLikelyMountPoint a b m u = IsLikelyMountPoint a b m ref) ∧
      (∀ a b, fst (DeleteContents a b u) = fst (DeleteContents a b ref) ∧
              Windows.host (snd (DeleteContents a b u)) = Windows.host (snd (DeleteContents a b ref)))
  end.
Proof.
  intros E1 E2 E3 E4. unfold Windows.NewVolumeUtil, NewCSIProxy, NewCSIProxyV1, NewCSIProxyV1Beta.
  assert (∀ u : Windows.Host H, u = {| Windows.host := h; Windows.csiProxy := CSIProxyV1 v1 |} ∨
    u = {| Windows.host := h; Windows.csiProxy := CSIProxyV1Beta v1beta2 |} →
    let ref := {| Windows.host := h; Windows.csiProxy := CSIProxyV1 v1 |} in
    (∀ a b, GetFsCapacityByte a b u = GetFsCapacityByte a b ref) ∧
    (∀ a b m, IsLikelyMountPoint a b m u = IsLikelyMountPoint a b m ref) ∧
    (∀ a b, fst (DeleteContents a b u) = fst (DeleteContents a b ref) ∧
       Windows.host (snd (DeleteContents a b u)) = Windows.host (snd (DeleteContents a b ref)))) as Hu.
  { intros u [->| ->]; [done|]. simpl. unfold Windows.GetFsCapacityByte, Windows.IsLikelyMountPoint,
      Windows.DeleteContents. simpl.
    unfold CSIProxyV1_GetVolumeId, CSIProxyV1Beta_GetVolumeId, CSIProxyV1_GetVolumeStats,
      CSIProxyV1Beta_GetVolumeStats, CSIProxyV1_FormatVolume, CSIProxyV1Beta_FormatVolume,
      CSIProxyV1_IsSymlink, CSIProxyV1Beta_IsSymlink.
    split_and!; intros a b; rewrite ?E1, ?E4; [| done|].
    - destruct (volume_GetVolumeID v1 a h) as [id|]; [|done]. by rewrite E2.
    - destruct (volume_GetVolumeID v1 a h) as [id|]; [|done]. rewrite E3.
      by destruct (volume_Format v1 id h) as [[]]. }
  repeat case_match; simplify_eq; eauto.
Qed.

(** ** Witnesses *)

(** A file system that is a set of paths, in which files are called [a] or [b]. *)
Record TinyFS := { paths : gset string }.

#[local] Instance TinyFS_files : OSFiles TinyFS := {|
  os_Open p fs := None;
  file_Stat_IsDir p fs := Ok true;
  file_Readdirnames p fs := Ok (filter (λ f, Join [p; f] ∈ paths fs) ["a"; "b"]) |}.

#[local] Instance TinyFS_linux : LinuxOS TinyFS := {|
  os_RemoveAll q fs := (None, {| paths := paths fs ∖ {[q]} |});
  unix_Stat_Mode p fs := Ok 0%Z;
  ioctl_BLKGETSIZE64 p fs := Ok 0%Z;
  fs_Info_capacity p fs := Ok 0%Z |}.

#[local] Instance TinyFS_exec : Exec TinyFS := {|
  exec_StdoutPipe _ _ _ := None; exec_StderrPipe _ _ _ := None; exec_Start _ _ _ _ := None;
  exec_Wait _ _ _ fs := (None, fs) |}.

#[local] Instance TinyFS_laws : LinuxOSLaws TinyFS.
Proof.
  refine {| is_entry p f fs := f ∈ ["a"; "b"] ∧ Join [p; f] ∈ paths fs |}; simpl.
  - intros p fs l [= <-]. split; [|intros f; rewrite list_elem_of_filter; tauto].
    apply Forall_forall. intros f [_ Hf]%list_elem_of_filter. set_unfold in Hf.
    by destruct Hf as [->|[->|[]]].
  - intros p f fs fs' _ [= <-]. simpl. set_solver.
  - intros p f q fs. set_solver.
Defined.

(** The example world on another file system. *)
Definition world_on {FS} (fs : FS) (w : World Fake.FakeVolumeUtil MemServer ProcTableImpl.ProcTableImpl)
  : World FS MemServer ProcTableImpl.ProcTableImpl := {|
  w_cache := w_cache w; w_proc := w_proc w; w_jobLister := w_jobLister w;
  w_classLister := w_classLister w; w_api := w_api w; w_fs := fs; w_mounts := w_mounts w;
  w_events := w_events w; w_metrics := w_metrics w; w_tasks := w_tasks w; w_ready := w_ready w;
  w_taintRemoved := w_taintRemoved w; w_now := w_now w |}.

Definition example_running := [("pv1", {| StartTime := 1; Status := CSRunning |})].

Definition example_directory_task : CleanTask := {|
  ct_pv := example_pv; ct_volMode := PersistentVolumeFilesystem;
  ct_mountPath := "/discoveryPath/dir1/mount1"; ct_config := example_mount "dir1" "Filesystem" |}.

Lemma linux_cleanup_empties_directory_witness :
  ∃ w', asyncCleanPV example_directory_task
      (world_on {| paths := {["/discoveryPath/dir1/mount1/a"; "/discoveryPath/dir1/mount1/b"]} |}
         (example_world [example_pv] example_running)) = Done () w' ∧
    ¬ is_entry "/discoveryPath/dir1/mount1" "a" (w_fs w').
Proof.
  destruct (linux_cleanup_empties_directory example_directory_task
    {| lvs_Path := "/mnt/disks/dir1/mount1"; lvs_FSType := None |}
    (world_on {| paths := {["/discoveryPath/dir1/mount1/a"; "/discoveryPath/dir1/mount1/b"]} |}
       (example_world [example_pv] example_running)) {| StartTime := 1; Status := CSRunning |})
    as (st&w'&Hrun&Hst&[[_ Hempty]|Hf]&_); [vm_compute; reflexivity..| |].
  - exists w'. split; [exact Hrun|apply Hempty].
  - subst st. vm_compute in Hrun. injection Hrun as <-. vm_compute in Hst. discriminate.
Defined.

(** A host with one volume, formatted or not. *)
Definition one_volume : CSIClients bool := {|
  volume_NewClient _ := None; filesystem_NewClient _ := None; volume_Version := "v1";
  volume_GetVolumeID p _ :=
    if decide (p = "/mnt/disks/dir1/mount1") then Ok "vol-1" else Err (Errorf "no volume" [] []);
  volume_Stats _ _ := Ok (100%Z, 10%Z);
  volume_Format _ _ := (None, true);
  filesystem_IsSymlink _ _ := Ok true |}.

#[local] Instance bool_files : OSFiles bool := {|
  os_Open p fs := None; file_Stat_IsDir p fs := Ok true; file_Readdirnames p fs := Ok [] |}.

#[local] Instance Host_exec : Exec (Windows.Host bool) := {|
  exec_StdoutPipe _ _ _ := None; exec_StderrPipe _ _ _ := None; exec_Start _ _ _ _ := None;
  exec_Wait _ _ _ fs := (None, fs) |}.

Definition example_host : Windows.Host bool :=
  {| Windows.host := false; Windows.csiProxy := CSIProxyV1 one_volume |}.

Lemma windows_cleanup_formats_volume_witness :
  ∃ w', asyncCleanPV example_directory_task
      (world_on example_host (example_world [example_pv] example_running)) = Done () w' ∧
    Windows.host (w_fs w') = true.
Proof.
  destruct (windows_cleanup_formats_volume example_directory_task
    {| lvs_Path := "/mnt/disks/dir1/mount1"; lvs_FSType := None |}
    (world_on example_host (example_world [example_pv] example_running))
    {| StartTime := 1; Status := CSRunning |}) as (st&w'&Hrun&_&[Hh _]); [vm_compute; reflexivity..|].
  exists w'. split; [exact Hrun|exact Hh].
Defined.

Lemma proxy_versions_agree_witness :
  match Windows.NewVolumeUtil one_volume one_volume false with
  | Ok u => GetFsCapacityByte "/mnt/disks/dir1/mount1" "" u = Ok 100%Z
  | Err _ => False
  end.
Proof.
  pose proof (proxy_versions_agree one_volume one_volume false) as H.
  destruct (Windows.NewVolumeUtil one_volume one_volume false) as [u|err] eqn:E;
    [|vm_compute in E; discriminate].
  destruct H as [-> _]; [reflexivity..|]. vm_compute. reflexivity.
Defined.
