(* ===== verification/CleanupRun.v ===== *)
(** * CleanupRun: the node cleanup process

    [cmd/node-cleanup/main.go] and the parts of [pkg/node-cleanup] that run
    concurrently: informers that fill their stores, the handler of deleted nodes, the
    workers of the controller, which start when all stores have synced, and the
    deleter, which starts at once.  [cleanup_step] is one step of any of them. *)
From S2P Require Import Prelude GoLib K8s VolumeUtil Common WorkQueue NodeCleanup.
From Stdlib Require Import Ascii.

(** ** Informers

    The store, and what is left to deliver of the initial list ([None]: not listed
    yet).  Watch events follow the initial list. *)
Record Informer {A : Type} := { inf_store : list A; inf_todo : option (list A) }.
Arguments Informer : clear implicits.

Definition HasSynced {A} (i : Informer A) : bool :=
  match inf_todo i with Some [] => true | _ => false end.

Definition new_informer {A} : Informer A := {| inf_store := []; inf_todo := None |}.

Definition list_objects {A} (l : list A) (i : Informer A) : Informer A :=
  {| inf_store := inf_store i; inf_todo := Some l |}.

(** Stores are indexed by name. *)
Definition put_object {A} (name : A → string) (x : A) (l : list A) : list A :=
  x :: filter (λ y, name y ≠ name x) l.

Definition deliver {A} (name : A → string) (x : A) (rest : list A) (i : Informer A) : Informer A :=
  {| inf_store := put_object name x (inf_store i); inf_todo := Some rest |}.

Definition set_store {A} (l : list A) (i : Informer A) : Informer A :=
  {| inf_store := l; inf_todo := inf_todo i |}.

(** ** The process *)
Section process.
Context {API Q : Type} `{!KubeClient API, !WorkQueue Q}.
Context `{!KubeClientLaws API, !KubeClaimLaws API}.
Abbreviation W := (CleanupWorld API Q).

(** The nodes on the server, the three informers, node deletions the handler has not
    seen yet (the scan at start is one more), whether workers run, and the state the
    two parts share. *)
Record Process := {
  pr_live : list Node;
  pr_nodes : Informer Node;
  pr_pvs : Informer PersistentVolume;
  pr_pvcs : Informer PersistentVolumeClaim;
  pr_scans : nat;
  pr_running : bool;
  pr_world : W }.

(** [pvLister.Get] and the others, on the stores. *)
Definition find_object {A} (same : A → bool) (name : string) (l : list A) : result A :=
  match List.filter same l with
  | x :: _ => Ok x
  | [] => Err (APIError ReasonNotFound name)
  end.

Definition listers (s : Process) : Listers := {|
  ls_nodes := store_lister (inf_store (pr_nodes s));
  ls_GetPV name :=
    find_object (λ pv, bool_decide (pv_Name pv = name)) name (inf_store (pr_pvs s));
  ls_ListPVs := Ok (inf_store (pr_pvs s));
  ls_GetPVC ns name :=
    find_object (λ c, bool_decide (om_Namespace (pvc_meta c) = ns) &&
                      bool_decide (om_Name (pvc_meta c) = name)) name (inf_store (pr_pvcs s)) |}.

Definition with_nodes (live : list Node) (i : Informer Node) (s : Process) : Process := {|
  pr_live := live; pr_nodes := i; pr_pvs := pr_pvs s; pr_pvcs := pr_pvcs s;
  pr_scans := pr_scans s; pr_running := pr_running s; pr_world := pr_world s |}.

Definition with_volumes (pvs : Informer PersistentVolume) (pvcs : Informer PersistentVolumeClaim)
    (s : Process) : Process := {|
  pr_live := pr_live s; pr_nodes := pr_nodes s; pr_pvs := pvs; pr_pvcs := pvcs;
  pr_scans := pr_scans s; pr_running := pr_running s; pr_world := pr_world s |}.

Definition with_work (scans : nat) (running : bool) (w : W) (s : Process) : Process := {|
  pr_live := pr_live s; pr_nodes := pr_nodes s; pr_pvs := pr_pvs s; pr_pvcs := pr_pvcs s;
  pr_scans := scans; pr_running := running; pr_world := w |}.

(** [NewCleanupController] and [NewDeleter]: what both take from the flags. *)
Definition NewCleanupController (storageClassNames : list string) (pvcDeletionDelay : Z)
  : CleanupConfig :=
  {| NodeCleanup.storageClassNames := storageClassNames;
     NodeCleanup.pvcDeletionDelay := pvcDeletionDelay |}.

Context (cfg : CleanupConfig).
(** Nodes with these names are never removed from the cluster. *)
Context (permanent : string → Prop).

Inductive cleanup_step (s : Process) : Process → Prop :=
(** the cluster *)
| step_node_created n :
    cleanup_step s (with_nodes (put_object node_Name n (pr_live s)) (pr_nodes s) s)
| step_node_removed name :
    ¬ permanent name →
    cleanup_step s (with_nodes (filter (λ n, node_Name n ≠ name) (pr_live s)) (pr_nodes s) s)
| step_cluster w :
    cleanup_step s (with_work (pr_scans s) (pr_running s) w s)
(** the informer of nodes: initial list, its delivery, events *)
| step_list_nodes :
    inf_todo (pr_nodes s) = None →
    cleanup_step s (with_nodes (pr_live s) (list_objects (pr_live s) (pr_nodes s)) s)
| step_deliver_node n rest :
    inf_todo (pr_nodes s) = Some (n :: rest) →
    cleanup_step s (with_nodes (pr_live s) (deliver node_Name n rest (pr_nodes s)) s)
| step_node_event n :
    HasSynced (pr_nodes s) = true → n ∈ pr_live s →
    cleanup_step s (with_nodes (pr_live s)
      (set_store (put_object node_Name n (inf_store (pr_nodes s))) (pr_nodes s)) s)
| step_node_deleted name :
    HasSynced (pr_nodes s) = true → Forall (λ n, node_Name n ≠ name) (pr_live s) →
    cleanup_step s (with_work (S (pr_scans s)) (pr_running s) (pr_world s)
      (with_nodes (pr_live s) (set_store (filter (λ n, node_Name n ≠ name)
        (inf_store (pr_nodes s))) (pr_nodes s)) s))
(** the informers of volumes and claims *)
| step_list_pvs l :
    inf_todo (pr_pvs s) = None → l ≡ₚ (map_to_list (cl_pvs (pr_world s))).*2 →
    cleanup_step s (with_volumes (list_objects l (pr_pvs s)) (pr_pvcs s) s)
| step_deliver_pv pv rest :
    inf_todo (pr_pvs s) = Some (pv :: rest) →
    cleanup_step s (with_volumes (deliver pv_Name pv rest (pr_pvs s)) (pr_pvcs s) s)
| step_pv_events l :
    HasSynced (pr_pvs s) = true →
    cleanup_step s (with_volumes (set_store l (pr_pvs s)) (pr_pvcs s) s)
| step_list_pvcs l :
    inf_todo (pr_pvcs s) = None → l ≡ₚ (map_to_list (cl_pvcs (pr_world s))).*2 →
    cleanup_step s (with_volumes (pr_pvs s) (list_objects l (pr_pvcs s)) s)
| step_pvc_store i :
    is_Some (inf_todo (pr_pvcs s)) → is_Some (inf_todo i) →
    cleanup_step s (with_volumes (pr_pvs s) i s)
(** [CleanupController.Run]: workers and the scan at start wait for the caches *)
| step_start :
    pr_running s = false →
    HasSynced (pr_nodes s) && HasSynced (pr_pvs s) && HasSynced (pr_pvcs s) = true →
    cleanup_step s (with_work (S (pr_scans s)) true (pr_world s) s)
(** [nodeDeleted], and the scan at start *)
| step_scan n w :
    pr_scans s = S n → startCleanupTimersIfNeeded (listers s) cfg (pr_world s) = Done () w →
    cleanup_step s (with_work n (pr_running s) w s)
(** [runWorker] *)
| step_worker b w :
    pr_running s = true → processNextWorkItem (listers s) (pr_world s) = Done b w →
    cleanup_step s (with_work (pr_scans s) (pr_running s) w s)
(** [Deleter.Run]: a pass, at any time *)
| step_deleter w :
    DeletePVs (listers s) cfg (pr_world s) = Done () w →
    cleanup_step s (with_work (pr_scans s) (pr_running s) w s).

(** The process when [main] has started its parts. *)
Definition initial_process (live : list Node) (w : W) : Process := {|
  pr_live := live; pr_nodes := new_informer; pr_pvs := new_informer; pr_pvcs := new_informer;
  pr_scans := 0; pr_running := false; pr_world := w |}.
End process.
Arguments Process : clear implicits.

(** ** [main] *)
Record CleanupFlags := {
  kubeconfig : string;
  kubeAPIEndpoint : string;
  flag_storageClassNames : list string;
  flag_pvcDeletionDelay : Z;
  listenAddress : string;
  metricsPath : string }.

Section main.
Context {API Q RestConfig : Type}.
Context (BuildConfigFromFlags : string → string → result RestConfig).
Context (InClusterConfig : result RestConfig).
(** The client set, with the state of the cluster it leads to. *)
Context (NewForConfig : RestConfig → result (list Node * CleanupWorld API Q)).

Definition buildConfig (kubeconfig kubeAPIEndpoint : string) : result RestConfig :=
  if decide (kubeconfig ≠ "") then BuildConfigFromFlags kubeAPIEndpoint kubeconfig
  else InClusterConfig.

(** What [http.Handle] makes of patterns with wildcards or a method. *)
Context (extended_pattern_ok : string → bool).

(** [http.Handle] accepts a plain pattern when it has a path, and panics otherwise. *)
Definition pattern_ok (pattern : string) : bool :=
  if contains_byte "{"%char pattern || contains_byte " "%char pattern ||
     contains_byte (Ascii.ascii_of_nat 9) pattern
  then extended_pattern_ok pattern
  else contains_byte "/"%char pattern.

Definition main (f : CleanupFlags) : outcome () (CleanupConfig * Process API Q) :=
  match buildConfig (kubeconfig f) (kubeAPIEndpoint f) with
  | Err _ => Crash (Fatal "Error building kubeconfig") ()
  | Ok config =>
      match NewForConfig config with
      | Err _ => Crash (Fatal "Error building kubernetes clientset") ()
      | Ok (live, w) =>
          let cfg := NewCleanupController (flag_storageClassNames f) (flag_pvcDeletionDelay f) in
          if decide (listenAddress f ≠ "") then
            if pattern_ok (metricsPath f) then Done (cfg, initial_process live w) ()
            else Crash (Panicked "http: invalid pattern") ()
          else Done (cfg, initial_process live w) ()
      end
  end.
End main.

(** ** Invariant: a node that stays is in the store once the nodes have synced *)
Section invariant.
Context {API Q : Type} `{!KubeClient API, !WorkQueue Q}.
Context `{!KubeClientLaws API, !KubeClaimLaws API}.
Context (cfg : CleanupConfig) (permanent : string → Prop) (h : string) (Hh : permanent h).

Definition has_node (l : list Node) : Prop := ∃ n, n ∈ l ∧ node_Name n = h.

Record node_known (s : Process API Q) : Prop := {
  nk_live : has_node (pr_live s);
  nk_todo : ∀ l, inf_todo (pr_nodes s) = Some l → has_node l ∨ has_node (inf_store (pr_nodes s));
  nk_running : pr_running s = true → HasSynced (pr_nodes s) = true }.

Lemma has_node_put n l : has_node l ∨ node_Name n = h → has_node (put_object node_Name n l).
Proof.
  unfold put_object. destruct (decide (node_Name n = h)) as [E|E].
  - intros _. exists n. split; [left|done].
  - intros [(m&Hm&<-)|?]; [|done]. exists m. split; [right|done].
    apply list_elem_of_filter. split; [|done]. intros ?. by apply E.
Qed.

Lemma has_node_filter name l :
  name ≠ h → has_node l → has_node (filter (λ n, node_Name n ≠ name) l).
Proof.
  intros Hn (m&Hm&<-). exists m. split; [|done]. apply list_elem_of_filter. split; [|done].
  intros E. by apply Hn.
Qed.

Lemma synced_todo {A} (i : Informer A) : HasSynced i = true → inf_todo i = Some [].
Proof. unfold HasSynced. by destruct (inf_todo i) as [[]|]. Qed.

Lemma node_known_store s :
  node_known s → HasSynced (pr_nodes s) = true → has_node (inf_store (pr_nodes s)).
Proof.
  intros [_ Ht _] Hs%synced_todo. destruct (Ht _ Hs) as [(n&?%not_elem_of_nil&_)|?]; done.
Qed.

Lemma node_known_step s s' :
  node_known s → cleanup_step cfg permanent s s' → node_known s'.
Proof.
  intros Hk Hstep. pose proof Hk as [Hl Ht Hr].
  destruct Hstep as [n|name Hname|w|Hnone|n rest Htodo|n Hs Hn|name Hs Hname|l|pv rest|l|l|i|_ Hsync|n w|b w|w];
    try by split.
  - split; simpl; [apply has_node_put; by left|done..].
  - split; simpl; [|done..]. apply has_node_filter; [|done]. by intros ->.
  - split; simpl; [done| |].
    + intros l [= <-]. by left.
    + intros Hrun. apply Hr in Hrun. unfold HasSynced in Hrun. by rewrite Hnone in Hrun.
  - split; simpl; [done| |].
    + intros l [= <-]. destruct (Ht _ Htodo) as [(m&[->|Hm]%elem_of_cons&E)|Hst].
      * right. apply has_node_put. by right.
      * left. by exists m.
      * right. apply has_node_put. by left.
    + intros Hrun. apply Hr in Hrun. unfold HasSynced in *. by rewrite Htodo in Hrun.
  - split; simpl; [done| |done]. intros l Hl'. apply synced_todo in Hs as Hs'. right.
    apply has_node_put. left. by apply node_known_store.
  - split; simpl; [done| |done]. intros l Hl'. right. apply has_node_filter; [|by apply node_known_store].
    intros ->. destruct Hl as (m&Hm&E). rewrite Forall_forall in Hname. by apply (Hname m).
  - split; simpl; [done..|]. intros _. by apply andb_true_iff in Hsync as [[? _]%andb_true_iff _].
Qed.
End invariant.

(** ** Properties *)
Section start.
Context {API Q RestConfig : Type} `{!KubeClient API, !WorkQueue Q}.
Context `{!KubeClientLaws API, !KubeClaimLaws API}.

Lemma main_initial build incluster newfor ext f cfg (s : Process API Q) :
  main (RestConfig := RestConfig) build incluster newfor ext f = Done (cfg, s) () →
  (∃ live w, s = initial_process live w) ∧
  storageClassNames cfg = flag_storageClassNames f.
Proof.
  unfold main. destruct (buildConfig _ _ _ _) as [config|]; [|done].
  destruct (newfor config) as [[live w]|]; [|done].
  destruct (decide _); [destruct (pattern_ok _ _); [|done]|]; intros [= <- <-]; eauto.
Qed.

Lemma node_known_main build incluster newfor ext f cfg (s s' : Process API Q) permanent h :
  main (RestConfig := RestConfig) build incluster newfor ext f = Done (cfg, s) () →
  permanent h → has_node h (pr_live s) → rtc (cleanup_step cfg permanent) s s' → node_known h s'.
Proof.
  intros [(live&w&->) _]%main_initial Hp Hn. apply rtc_invariant.
  - by split.
  - intros a b Ha. by apply node_known_step.
Qed.

(** A volume with an allowed host whose node is in the store is not stale. *)
Lemma known_host_exists (s : Process API Q) pv names h :
  has_node h (inf_store (pr_nodes s)) → allowed_host pv h →
  GetLocalPersistentVolumeNodeNames pv = Some names →
  AnyNodeExists (ls_nodes (listers s)) names = true.
Proof.
  intros (n&Hn&Hname) Ha Hnames. apply not_false_iff_true. simpl.
  rewrite (stale_node_names _ _ _ Hnames). intros Hall. destruct (Hall h Ha) as [_ Hno].
  apply Hno. exists n. auto.
Qed.
(** A pass that finds one available volume and no nodes. *)
Lemma first_pass_deletes cfg (s : Process API Q) pv h a :
  inf_store (pr_nodes s) = [] → inf_store (pr_pvs s) = [pv] → allowed_host pv h →
  (∀ name, allowed_host pv name → valid_label_value name = true) →
  pv_Phase pv = VolumeAvailable → IsLocalPVWithStorageClass pv (storageClassNames cfg) = true →
  api_DeletePV (pv_Name pv) (cl_api (pr_world s)) = (None, a) →
  DeletePVs (listers s) cfg (pr_world s) =
    Done () (count_pv false (pv_Phase pv) (cl_set_api a (pr_world s))).
Proof.
  intros En Ep Ha Hvalid Hph Hcls Hdel.
  assert (referencesNonExistentNode (listers s) pv = true) as Href.
  { unfold referencesNonExistentNode, GetLocalPersistentVolumeNodeNames.
    destruct Ha as (sel&Hsel&_). destruct (pvs_NodeAffinity _) as [v|] eqn:Ev; [|done]. simpl in Hsel.
    rewrite Hsel. apply negb_true_iff. simpl. rewrite En.
    apply (stale_node_names [] pv); [|intros name Hname; split; [auto|by intros (m&?%not_elem_of_nil&_)]].
    unfold GetLocalPersistentVolumeNodeNames. by rewrite Ev, Hsel. }
  unfold DeletePVs. simpl. rewrite Ep. simpl. unfold deleteStale. rewrite Hcls, Href, Hph. simpl.
  unfold deletePV. unfold_monad. by rewrite Hdel.
Qed.
End start.

(** C19. Claims on nodes that stay are spared.  From the start of the process on, under
    every interleaving: when a worker handles a volume that may be on a node which was
    there at the start and is never removed, no claim is deleted; and once the nodes
    have synced, no pass of the deleter deletes the object of a volume whose listed
    versions may all be on such a node. *)
Theorem synced_parts_spare_live_volumes {API Q RestConfig : Type} `{!KubeClient API, !WorkQueue Q}
    `{!KubeClientLaws API, !KubeClaimLaws API} build incluster newfor ext f cfg permanent h
    (s0 s : Process API Q) :
  main (RestConfig := RestConfig) build incluster newfor ext f = Done (cfg, s0) () →
  permanent h → has_node h (pr_live s0) → rtc (cleanup_step cfg permanent) s0 s →
  (∀ name pv, pr_running s = true → ls_GetPV (listers s) name = Ok pv → allowed_host pv h →
     ∃ err w', syncHandler (listers s) name (pr_world s) = Done err w' ∧
       cl_pvcs w' = cl_pvcs (pr_world s)) ∧
  (∀ name, HasSynced (pr_nodes s) = true →
     (∀ pv, pv ∈ inf_store (pr_pvs s) → pv_Name pv = name → allowed_host pv h) →
     ∃ w', DeletePVs (listers s) cfg (pr_world s) = Done () w' ∧
       cl_pvs w' !! name = cl_pvs (pr_world s) !! name).
Proof.
  intros Hm Hp Hn Hr. pose proof (node_known_main _ _ _ _ _ _ _ _ _ _ Hm Hp Hn Hr) as Hk. split.
  - intros name pv Hrun Hget Ha.
    assert (has_node h (inf_store (pr_nodes s))) as Hst
      by (apply node_known_store; [done|by apply (nk_running _ _ Hk)]).
    destruct (syncHandler_run (listers s) name (pr_world s)) as (err&w'&Hs&_&_&[Hc|Hc]); [eauto|].
    destruct Hc as (pvc&c&(pv'&r&names&Hget'&_&_&_&_&Hnames&Hany)&_).
    rewrite Hget in Hget'. injection Hget' as <-.
    by rewrite (known_host_exists s pv names h Hst Ha Hnames) in Hany.
  - intros name Hs Hall. apply (node_known_store _ _ Hk) in Hs as Hst.
    destruct (DeletePVs_run (listers s) cfg (inf_store (pr_pvs s)) (pr_world s) eq_refl)
      as (w'&Hrun&Hd). exists w'. split; [done|].
    destruct (ds_volumes _ _ _ _ _ Hd name) as [?|[_ (pv&Hin&Hname&_&Href&_)]]; [done|].
    unfold referencesNonExistentNode in Href.
    destruct (GetLocalPersistentVolumeNodeNames pv) as [names|] eqn:Hnames; [|done].
    by rewrite (known_host_exists s pv names h Hst (Hall pv Hin Hname) Hnames) in Href.
Qed.

(** C35. Volumes on live nodes are deleted before the nodes have synced.  The deleter
    does not wait for the informers: the process can get to a state where the cluster
    is as it was at the start, with the volume and its node, and where a pass of the
    deleter, which finds the volume in the store and no nodes, deletes its object. *)
Theorem unsynced_deleter_removes_live_volume {API Q RestConfig : Type}
    `{!KubeClient API, !WorkQueue Q} `{!KubeClientLaws API, !KubeClaimLaws API}
    build incluster newfor ext f cfg (s0 : Process API Q) n pv a :
  main (RestConfig := RestConfig) build incluster newfor ext f = Done (cfg, s0) () →
  n ∈ pr_live s0 → allowed_host pv (node_Name n) →
  (∀ name, allowed_host pv name → valid_label_value name = true) →
  cl_pvs (pr_world s0) !! pv_Name pv = Some pv → pv_Phase pv = VolumeAvailable →
  IsLocalPVWithStorageClass pv (flag_storageClassNames f) = true →
  api_DeletePV (pv_Name pv) (cl_api (pr_world s0)) = (None, a) →
  ∃ s w', rtc (cleanup_step cfg (λ _, True)) s0 s ∧
    pr_live s = pr_live s0 ∧ pr_world s = pr_world s0 ∧
    DeletePVs (listers s) cfg (pr_world s) = Done () w' ∧ cl_pvs w' !! pv_Name pv = None.
Proof.
  intros [(live&w&->) Hc]%main_initial Hn Ha Hvalid Hpv Hph Hcls Hdel. simpl in *.
  assert (pv ∈ (map_to_list (cl_pvs w)).*2) as [rest Hrest]%elem_of_Permutation
    by (apply list_elem_of_fmap; exists (pv_Name pv, pv); by rewrite elem_of_map_to_list).
  set (s1 := with_volumes (list_objects (pv :: rest) new_informer) new_informer
    (initial_process live w)).
  set (s2 := with_volumes (deliver pv_Name pv rest (pr_pvs s1)) new_informer s1).
  exists s2, (count_pv false (pv_Phase pv) (cl_set_api a w)). split_and!; [|done|done| |].
  - eapply rtc_l; [by apply (step_list_pvs _ _ _ (pv :: rest))|].
    apply rtc_once. by apply (step_deliver_pv _ _ s1 pv rest).
  - apply (first_pass_deletes cfg s2 pv (node_Name n)); try done. by rewrite Hc.
  - apply api_DeletePV_ok in Hdel. unfold cl_pvs. simpl. rewrite Hdel. apply lookup_delete_eq.
Qed.

(** ** Witnesses *)
Definition live_node : Node := {| node_meta := named "node-1"; node_Taints := [] |}.

Definition live_volume : PersistentVolume :=
  bound_volume (affinity_of LabelHostname ["node-1"]) VolumeAvailable.

Definition example_flags : CleanupFlags := {|
  kubeconfig := ""; kubeAPIEndpoint := ""; flag_storageClassNames := ["sc1"];
  flag_pvcDeletionDelay := 60; listenAddress := ":8080"; metricsPath := "/metrics" |}.

Definition example_process : Process MemServer MemQueue :=
  initial_process [live_node] (cleanup_world live_volume).

Lemma live_volume_host name : allowed_host live_volume name ↔ name = "node-1".
Proof.
  rewrite <-(elem_of_node_names live_volume ["node-1"]) by (vm_compute; reflexivity).
  by rewrite list_elem_of_singleton.
Qed.

(** The process after both stores were filled. *)
Definition example_filled : Process MemServer MemQueue :=
  with_nodes [live_node] (deliver node_Name live_node [] (list_objects [live_node] new_informer))
    (with_volumes (deliver pv_Name live_volume [] (list_objects [live_volume] new_informer))
       (list_objects [] (list_objects [orphan_claim] new_informer)) example_process).

Lemma example_filled_reachable :
  rtc (cleanup_step cleanup_config (λ _, True)) example_process example_filled.
Proof.
  eapply rtc_l; [apply (step_list_pvs _ _ _ [live_volume]); [done|vm_compute; reflexivity]|].
  eapply rtc_l; [apply (step_deliver_pv _ _ _ live_volume []); reflexivity|].
  eapply rtc_l; [apply (step_list_pvcs _ _ _ [orphan_claim]); [done|vm_compute; reflexivity]|].
  eapply rtc_l; [apply (step_pvc_store _ _ _ (list_objects [] (list_objects [orphan_claim] new_informer)));
    by eexists|].
  eapply rtc_l; [apply step_list_nodes; reflexivity|].
  eapply rtc_l; [apply (step_deliver_node _ _ _ live_node []); reflexivity|].
  apply rtc_refl.
Qed.

Lemma synced_parts_spare_live_volumes_witness :
  ∃ w', DeletePVs (listers example_filled) cleanup_config (pr_world example_filled) = Done () w' ∧
    cl_pvs w' !! "pv1" = Some live_volume.
Proof.
  destruct (synced_parts_spare_live_volumes (λ _ _, Ok ()) (Ok ())
    (λ _, Ok ([live_node], cleanup_world live_volume)) (λ _, false) example_flags
    cleanup_config (λ _, True)
    "node-1" example_process example_filled) as [_ Hd].
  - reflexivity.
  - done.
  - exists live_node. split; [left|done].
  - apply example_filled_reachable.
  - destruct (Hd "pv1") as (w'&Hrun&Hw'); [reflexivity| |].
    + intros pv [->|?%not_elem_of_nil]%elem_of_cons _; [|done]. by apply live_volume_host.
    + exists w'. split; [exact Hrun|]. rewrite Hw'. reflexivity.
Defined.

Lemma unsynced_deleter_removes_live_volume_witness :
  ∃ s w', rtc (cleanup_step cleanup_config (λ _, True)) example_process s ∧
    pr_live s = [live_node] ∧ pr_world s = cleanup_world live_volume ∧
    DeletePVs (listers s) cleanup_config (pr_world s) = Done () w' ∧ cl_pvs w' !! "pv1" = None.
Proof.
  eapply (unsynced_deleter_removes_live_volume (λ _ _, Ok ()) (Ok ())
    (λ _, Ok ([live_node], cleanup_world live_volume)) (λ _, false) example_flags
    cleanup_config example_process
    live_node live_volume).
  - reflexivity.
  - left.
  - by apply live_volume_host.
  - intros name ->%live_volume_host. reflexivity.
  - reflexivity.
  - reflexivity.
  - reflexivity.
  - reflexivity.
Defined.
