(* ===== verification/Provisioner.v ===== *)
(** * Provisioner: the process of the local volume provisioner

    [cmd/local-volume-provisioner/main.go] up to the point where all parts run, the
    collector that exports the state of the process table
    (pkg/metrics/collectors/proc_table_collector.go), and what holds from the start of
    the process on. *)
From S2P Require Import Prelude GoLib FilePath K8s VolumeUtil Common Cache Metrics ProcTable.
From S2P Require Import Runtime Populator WorkQueue JobController Deleter Discovery NodeTaint Controller Lag Watcher.
From Stdlib Require Import Ascii SpecFloat.

(** ** The collector *)
Module Collector.
Definition LocalVolumeProvisionerSubsystem := "local_volume_provisioner".

(** [prometheus.BuildFQName] without a namespace. *)
Definition BuildFQName (subsystem name : string) : string := subsystem +:+ "_" +:+ name.

Definition procTableRunning := BuildFQName LocalVolumeProvisionerSubsystem "proctable_running".
Definition procTableSucceeded := BuildFQName LocalVolumeProvisionerSubsystem "proctable_succeeded".
Definition procTableFailed := BuildFQName LocalVolumeProvisionerSubsystem "proctable_failed".

Definition Describe : list string := [procTableRunning; procTableSucceeded; procTableFailed].

(** What is sent to the channel: gauges, as [float64]. *)
Definition Collect {PT} `{ProcTable PT} (procTable : PT) : list (string * spec_float) * PT :=
  let '(stats, procTable') := Stats procTable in
  ([(procTableRunning, float64_of_Z (st_Running stats));
    (procTableSucceeded, float64_of_Z (st_Succeeded stats));
    (procTableFailed, float64_of_Z (st_Failed stats))], procTable').
End Collector.

(** ** [main] *)
Record Flags := { optListenAddress : string; optMetricsPath : string }.

Section main.
Context {FS API PT RestConfig : Type}.
Context `{!VolumeUtil FS, !Exec FS, !KubeClient API, !ProcTable PT}.
Abbreviation W := (World FS API PT).
Abbreviation Process := (gset string * W)%type.
Context (env : Env).

(** The environment variables, [LoadProvisionerConfigs] at the path of the
    configuration, and the constructors of the client. *)
Context (Getenv : string → string).
Context (load : ProvisionerConfiguration → option error * ProvisionerConfiguration).
Context (BuildConfigFromFlags : string → string → result RestConfig).
Context (InClusterConfig : result RestConfig).
Context (NewForConfig : RestConfig → result ()).

Definition on_world {A} (m : M W A) : M Process A := λ '(mux, w),
  match m w with
  | Done a w' => Done a (mux, w')
  | Crash c w' => Crash c (mux, w')
  end.

(** [main] up to the goroutines: the configuration the controller starts with. *)
Definition configure : M Process UserConfig :=
  let '(err, provisionerConfig) := load (with_classes (Some ∅) fresh_config) in
  match err with
  | Some _ => panic (Fatal "Error parsing Provisioner's configuration")
  | None =>
      let nodeName := Getenv "MY_NODE_NAME" in
      if decide (nodeName = "") then panic (Fatal "MY_NODE_NAME environment variable not set")
      else
        let namespace :=
          if decide (Getenv "MY_NAMESPACE" = "") then "default" else Getenv "MY_NAMESPACE" in
        let jobImage := Getenv "JOB_CONTAINER_IMAGE" in
        _ ← SetupClient (Getenv KubeConfigEnv) BuildConfigFromFlags InClusterConfig NewForConfig;
        node ← on_world (GetNode nodeName);
        mret (UserConfigFromProvisionerConfig node namespace jobImage provisionerConfig)
  end.

(** The start of the controller's goroutine and the registration of the metrics
    handler happen in either order. *)
Definition main (f : Flags) (controller_first : bool) : M Process Discoverer :=
  config ← configure;
  if controller_first then
    d ← init_controller env config;
    _ ← mux_Handle (optMetricsPath f);
    mret d
  else
    _ ← mux_Handle (optMetricsPath f);
    init_controller env config.
End main.

(** ** From the start on *)
Section start.
Context {FS API PT RestConfig : Type}.
Context `{!VolumeUtil FS, !Exec FS, !KubeClient API, !ProcTable PT}.
Context `{!KubeClientLaws API, !ProcTableLaws PT}.
Abbreviation W := (World FS API PT).
Context (env : Env) (Getenv : string → string).
Context (load : ProvisionerConfiguration → option error * ProvisionerConfiguration).
Context (build : string → string → result RestConfig) (incluster : result RestConfig).
Context (newfor : RestConfig → result ()).

Lemma GetNode_frame {A} (g : W → A) name :
  (∀ a w, g (set_api a w) = g w) → preserves (same g) (GetNode (FS := FS) (PT := PT) name).
Proof.
  intros Hg. unfold GetNode. induction maxGetNodesRetries; simpl; solve_preserves; [|done].
  by apply same_call_api.
Qed.

Lemma configure_done mux (w : W) u mux' w' :
  configure Getenv load build incluster newfor (mux, w) = Done u (mux', w') →
  mux' = mux ∧ w_tasks w' = w_tasks w ∧ w_proc w' = w_proc w.
Proof.
  unfold configure. destruct (load _) as [[err|] config]; [done|].
  destruct (decide (Getenv "MY_NODE_NAME" = "")); [done|]. intros Hrun. apply bind_Done in Hrun as (cl&p1&Hsetup&Hrun).
  assert (p1 = (mux, w)) as ->.
  { revert Hsetup. unfold SetupClient. unfold_monad.
    destruct (decide (Getenv KubeConfigEnv = "")); [destruct incluster as [cfg|err]|destruct (build _ _) as [cfg|err]];
      simpl; try (by intros [=]); destruct (newfor cfg); by intros [= <-]. }
  apply bind_Done in Hrun as (node&p2&Hnode&Hret). injection Hret as _ ->. revert Hnode. unfold on_world.
  pose proof (GetNode_frame w_tasks (Getenv "MY_NODE_NAME") ltac:(done) w) as Ht.
  pose proof (GetNode_frame w_proc (Getenv "MY_NODE_NAME") ltac:(done) w) as Hp.
  unfold same in Ht, Hp. destruct (GetNode _ w); simpl in *; by intros [= _ <- <-].
Qed.

Lemma mux_Handle_done pattern mux (w : W) mux' w' :
  mux_Handle pattern (mux, w) = Done () (mux', w') → w' = w ∧ mux ⊆ mux'.
Proof. unfold mux_Handle. case_decide; [done|]. intros [= <- <-]. set_solver. Qed.

(** The state in which the sync loop starts. *)
Definition running_process (d : Discoverer) (p : gset string * W)
  : System (FS := FS) (API := API) (PT := PT) :=
  {| sy_mux := fst p; sy_world := snd p; sy_disc := d; sy_phase := Selecting |}.

Lemma sys_inv_main f first mux (w : W) d p :
  w_tasks w = [] → entries w = ∅ →
  main env Getenv load build incluster newfor f first (mux, w) = Done d p →
  sys_inv (running_process d p).
Proof.
  intros Hts He Hrun. unfold main in Hrun. apply bind_Done in Hrun as (u&[mux1 w1]&Hconf&Hrun).
  apply configure_done in Hconf as (->&Ht1&Hp1).
  assert (∀ m mux2 w2 mux3, init_controller env u (m, w1) = Done d (mux2, w2) → mux2 ⊆ mux3 →
    sys_inv (running_process d (mux3, w2))) as Hinit.
  { intros m mux2 w2 mux3 Hm Hsub.
    apply init_controller_done in Hm as (Hd&_&Hready&Ht2&Hp2&_&Hc&_&_).
    assert (entries w2 = ∅) as He2 by (unfold entries in *; by rewrite Hp2, Hp1).
    split; simpl; [|by rewrite Hc; apply VolumeCache.keyed_New|rewrite Hd; apply runtimeConfig_jobs
      |set_solver|done].
    rewrite Ht2, Ht1, Hts, He2. split; [apply NoDup_nil_2| |done..]. intros name. simpl.
    split; [by intros ?%not_elem_of_nil|]. by intros (e&?&_). }
  destruct first.
  - apply bind_Done in Hrun as (d'&[mux2 w2]&Hi&Hrun).
    apply bind_Done in Hrun as ([]&[mux3 w3]&Hmux&[= <- <-]).
    apply mux_Handle_done in Hmux as [-> Hsub]. eauto.
  - apply bind_Done in Hrun as ([]&[mux2 w2]&Hmux&Hrun). apply mux_Handle_done in Hmux as [-> _].
    destruct p as [mux3 w3]. eauto.
Qed.
End start.

(** Goroutines and running entries are equally many. *)
Lemma running_entries_count c (p : gmap string ProcEntry) ts :
  tasks_inv c p ts → size (filter (λ kv, Status (snd kv) = CSRunning) p) = length ts.
Proof.
  intros [Hn Hr _ _]. rewrite <-(length_fmap task_name ts), <-(size_list_to_set (C := gset string) _ Hn).
  rewrite <-size_dom. f_equal. apply set_eq. intros name.
  rewrite elem_of_list_to_set, elem_of_dom, Hr. unfold running, is_Some.
  setoid_rewrite map_lookup_filter_Some. simpl. naive_solver.
Qed.

(** ** Properties *)

(** C1. The provisioner is safe from its start on.  When [main] gets its parts running
    (in either order of the two registrations), in every state the process can reach:
    no two goroutines clean the same volume; the volumes being cleaned are exactly
    those with a running entry; each goroutine works on a volume that is, in the copy it
    was given, released with policy Delete, of a configured class, with the configuration
    of that class and at the path that [GetContainerPath] computes for it; no cleanup
    goroutine panics, whatever the state it runs in; and a scrape of the collector reports
    as running operations the number of cleanup goroutines there are. *)
Theorem provisioner_safe_from_start {FS API PT RestConfig : Type}
    `{!VolumeUtil FS, !Exec FS, !KubeClient API, !ProcTable PT}
    `{!KubeClientLaws API, !ProcTableLaws PT}
    (env : Env) Getenv load build incluster newfor f first mux (w : World FS API PT) d p s :
  w_tasks w = [] → entries w = ∅ →
  main (RestConfig := RestConfig) env Getenv load build incluster newfor f first (mux, w) = Done d p →
  rtc (sys_step env) (running_process d p) s →
  let ts := w_tasks (sy_world s) in
  NoDup (task_name <$> ts) ∧
  (∀ name, name ∈ (task_name <$> ts) ↔ running name (entries (sy_world s))) ∧
  (∀ t, t ∈ ts → legitimate (d_config (sy_disc s)) t) ∧
  (∀ t (w1 : World FS API PT), t ∈ ts → ∃ w', asyncCleanPV t w1 = Done () w') ∧
  ∃ succeeded failed, fst (Collector.Collect (w_proc (sy_world s))) =
    [(Collector.procTableRunning, float64_of_Z (Z.of_nat (length ts)));
     (Collector.procTableSucceeded, succeeded); (Collector.procTableFailed, failed)].
Proof.
  intros Hts He Hmain Hr ts.
  destruct (sys_inv_reachable env _ s (sys_inv_main _ _ _ _ _ _ _ _ _ _ _ _ Hts He Hmain) Hr)
    as [Ht _ _ _ _].
  split_and!; [apply Ht|apply Ht|by apply Forall_forall, Ht| |].
  { intros t w1 Hin. pose proof (inv_runnable _ _ _ Ht) as Hu. rewrite Forall_forall in Hu.
    destruct (asyncCleanPV_run t w1 (Hu t Hin)) as (_&w'&Hrun&_). eauto. }
  unfold Collector.Collect.
  destruct (Stats_spec (w_proc (sy_world s))) as [Hst _].
  destruct (Stats (w_proc (sy_world s))) as [stats t]. simpl in Hst.
  do 2 eexists. simpl. rewrite Hst. fold (entries (sy_world s)).
  by rewrite (running_entries_count _ _ _ Ht).
Qed.

(** ** Witnesses *)
Definition example_getenv (name : string) : string :=
  if decide (name = "MY_NODE_NAME") then "test-node" else "".

Definition example_load (c : ProvisionerConfiguration) : option error * ProvisionerConfiguration :=
  (None, with_classes (DiscoveryMap single_class_user) c).

Definition example_start_world : World Fake.FakeVolumeUtil MemServer ProcTableImpl.ProcTableImpl :=
  set_api {| mem_pvs := ∅; mem_jobs := ∅; mem_nodes := {["test-node" := example_node]};
             mem_pvcs := ∅; mem_down := false |} example_initial.

(** A released volume of the provisioner is on the server: its notification is delivered,
    and the deleter starts the cleanup. *)
Definition example_begin : outcome (gset string * World _ _ _) Discoverer :=
  main (RestConfig := ()) example_env example_getenv example_load (λ _ _, Ok ()) (Ok ()) (λ _, Ok ())
    {| optListenAddress := ":8080"; optMetricsPath := "/metrics" |} true
    (∅, set_api {| mem_pvs := {["pv1" := owned_pv]}; mem_jobs := ∅;
                   mem_nodes := {["test-node" := example_node]}; mem_pvcs := ∅;
                   mem_down := false |} example_initial).

Definition example_disc : Discoverer :=
  match example_begin with Done d _ => d | Crash _ _ => example_discoverer end.

Definition example_first := running_process example_disc (final example_begin).

Definition example_cached : World Fake.FakeVolumeUtil MemServer ProcTableImpl.ProcTableImpl :=
  upd_cache (AddFunc (d_config example_disc) (ObjPV owned_pv)) (snd (final example_begin)).

Definition example_cleaning := at_phase example_first
  (final (reclaimVolume (d_config example_disc) owned_pv example_cached)) (Deleting []).

Lemma example_cleaning_reachable : rtc (sys_step example_env) example_first example_cleaning.
Proof.
  apply (rtc_l _ _ (at_phase example_first example_cached Selecting)).
  { apply (step_informer _ example_first (AddFunc (d_config example_disc) (ObjPV owned_pv))).
    left. by exists (ObjPV owned_pv). }
  apply (rtc_l _ _ (at_phase example_first example_cached (Deleting [owned_pv]))).
  { apply (step_loop _ (at_phase example_first example_cached Selecting) example_cached).
    apply step_list. vm_compute. reflexivity. }
  apply rtc_once.
  apply (step_loop _ (at_phase example_first example_cached (Deleting [owned_pv]))
    (final (reclaimVolume (d_config example_disc) owned_pv example_cached)) (Deleting [])).
  apply step_reclaim. vm_compute. reflexivity.
Qed.

Lemma provisioner_safe_from_start_witness :
  length (w_tasks (sy_world example_cleaning)) = 1 ∧
  ∀ t, t ∈ w_tasks (sy_world example_cleaning) → legitimate (d_config (sy_disc example_cleaning)) t.
Proof.
  split; [vm_compute; reflexivity|].
  apply (provisioner_safe_from_start example_env example_getenv example_load (λ _ _, Ok ()) (Ok ())
    (λ _, Ok ()) {| optListenAddress := ":8080"; optMetricsPath := "/metrics" |} true ∅
    (set_api {| mem_pvs := {["pv1" := owned_pv]}; mem_jobs := ∅;
                mem_nodes := {["test-node" := example_node]}; mem_pvcs := ∅;
                mem_down := false |} example_initial)
    example_disc (final example_begin) example_cleaning).
  - reflexivity.
  - reflexivity.
  - vm_compute. reflexivity.
  - apply example_cleaning_reachable.
Defined.

(** A metrics path that the readiness check uses stops the process in either order. *)
Example metrics_path_conflict first :
  crashed (main (RestConfig := ()) example_env example_getenv example_load (λ _ _, Ok ()) (Ok ())
    (λ _, Ok ()) {| optListenAddress := ":8080"; optMetricsPath := "/ready" |} first
    (∅, example_start_world)) = true.
Proof. by destruct first; vm_compute. Qed.
